(** * GMAT question extraction scripts: checkpointed batch drivers

    A shallow embedding of the batch scripts under [backend/src/scripts]:

    - [processCROGQuestionsWithMistralSequential.py] (module [Sequential]),
    - [processExamPacksWithMistral.py] (module [ExamPacks]),
    - [combineResults.py] (module [CombineResults]).

    Python strings are modelled as [string] (characters are code points
    below 256), Python dicts as [gmap string _], JSON documents as the
    inductive type [json].  The file system touched by a driver is the
    record [world]; each primitive effect of a run is an [event], and a run
    is the list of events it performs, so that a killed process is a prefix
    of that list. *)

From stdpp Require Import gmap strings list fin_maps sorting pretty.
From Stdlib Require Import ZArith Ascii.

Local Open Scope Z_scope.

(** ** Python string primitives *)

Module Py.

Definition dquote : ascii := "034"%char.
Definition newline : ascii := "010"%char.

(** The key [k] between double quotes, as the f-string of the option loop
    builds it. *)
Definition quoted (k : string) : string :=
  String dquote (k +:+ String dquote EmptyString).

Fixpoint drop_chars (n : nat) (s : string) : string :=
  match n, s with
  | O, _ => s
  | S _, EmptyString => EmptyString
  | S n', String _ s' => drop_chars n' s'
  end.

(** Lowest offset [i >= off] at which [sub] occurs, scanning [s] whose first
    character has offset [off]. *)
Fixpoint find_from (sub s : string) (off : nat) : option nat :=
  if String.prefix sub s then Some off
  else match s with
       | EmptyString => None
       | String _ s' => find_from sub s' (S off)
       end.

(** Highest offset at which [sub] occurs. *)
Fixpoint rfind_from (sub s : string) (off : nat) : option nat :=
  match s with
  | EmptyString => if String.prefix sub s then Some off else None
  | String _ s' =>
      match rfind_from sub s' (S off) with
      | Some i => Some i
      | None => if String.prefix sub s then Some off else None
      end
  end.

(** A slice bound as Python clips it: negative bounds count from the end. *)
Definition clip (len i : Z) : Z :=
  if i <? 0 then Z.max 0 (len + i) else Z.min i len.

(** [s.find(sub, start)]. *)
Definition find (sub s : string) (start : Z) : Z :=
  let len := Z.of_nat (String.length s) in
  let st := if start <? 0 then Z.max 0 (len + start) else start in
  if len <? st then -1
  else match find_from sub (drop_chars (Z.to_nat st) s) (Z.to_nat st) with
       | Some i => Z.of_nat i
       | None => -1
       end.

(** [s.rfind(sub)]. *)
Definition rfind (sub s : string) : Z :=
  match rfind_from sub s 0 with
  | Some i => Z.of_nat i
  | None => -1
  end.

(** [s[a:b]]. *)
Definition slice (s : string) (a b : Z) : string :=
  let len := Z.of_nat (String.length s) in
  let a' := clip len a in
  let b' := clip len b in
  String.substring (Z.to_nat a') (Z.to_nat (b' - a')) s.

(** [sub in s]. *)
Definition contains (sub s : string) : bool := 0 <=? find sub s 0.

(** [str.isspace] on one character below code point 256. *)
Definition is_space (c : ascii) : bool :=
  let n := nat_of_ascii c in
  ((9 <=? n)%nat && (n <=? 13)%nat) || ((28 <=? n)%nat && (n <=? 32)%nat)
  || (n =? 133)%nat || (n =? 160)%nat.

Fixpoint lstrip_chars (p : ascii -> bool) (s : string) : string :=
  match s with
  | EmptyString => EmptyString
  | String c s' => if p c then lstrip_chars p s' else s
  end.

Fixpoint rstrip_chars (p : ascii -> bool) (s : string) : string :=
  match s with
  | EmptyString => EmptyString
  | String c s' =>
      match rstrip_chars p s' with
      | EmptyString => if p c then EmptyString else String c EmptyString
      | r => String c r
      end
  end.

Definition strip_chars (p : ascii -> bool) (s : string) : string :=
  rstrip_chars p (lstrip_chars p s).

(** [s.strip()]. *)
Definition strip (s : string) : string := strip_chars is_space s.

(** [s.strip(q)] where [q] is the one-character string of a double quote. *)
Definition strip_quotes (s : string) : string :=
  strip_chars (fun c => bool_decide (c = dquote)) s.

(** [s.replace(old, new)] for a non-empty [old]: every occurrence, left to
    right, without overlap.  The fuel bounds the number of characters
    visited and is the length of [s]. *)
Fixpoint replace_fuel (fuel : nat) (old new s : string) : string :=
  match fuel with
  | O => s
  | S fuel' =>
      if String.prefix old s
      then new +:+ replace_fuel fuel' old new (drop_chars (String.length old) s)
      else match s with
           | EmptyString => EmptyString
           | String c s' => String c (replace_fuel fuel' old new s')
           end
  end.

Definition replace (old new s : string) : string :=
  replace_fuel (String.length s) old new s.

(** [str.lower] on one character below code point 256: the letters A to Z
    and the capital letters of Latin-1. *)
Definition lower_char (c : ascii) : ascii :=
  let n := nat_of_ascii c in
  if ((65 <=? n)%nat && (n <=? 90)%nat)
     || ((192 <=? n)%nat && (n <=? 222)%nat && negb (n =? 215)%nat)
  then ascii_of_nat (n + 32)
  else c.

(** [s.lower()]. *)
Fixpoint lower (s : string) : string :=
  match s with
  | EmptyString => EmptyString
  | String c s' => String (lower_char c) (lower s')
  end.

(** [s.split(sep)] for a separator of one character. *)
Fixpoint split_char (sep : ascii) (s : string) : list string :=
  match s with
  | EmptyString => [EmptyString]
  | String c s' =>
      if bool_decide (c = sep) then EmptyString :: split_char sep s'
      else match split_char sep s' with
           | part :: parts => String c part :: parts
           | [] => [String c EmptyString]
           end
  end.

(** [s.split(sep, 1)[1]] when [sep] occurs in [s]: the text after its
    first occurrence. *)
Definition after_first (sep s : string) : option string :=
  match find_from sep s 0 with
  | Some i => Some (drop_chars (i + String.length sep) s)
  | None => None
  end.

(** [s.split(newline)[0]]. *)
Definition first_line (s : string) : string :=
  match split_char newline s with
  | part :: _ => part
  | [] => EmptyString
  end.

(** [s.endswith(suffix)]. *)
Definition endswith (suffix s : string) : bool :=
  (String.length suffix <=? String.length s)%nat
  && bool_decide (drop_chars (String.length s - String.length suffix) s = suffix).

(** [sep.join(parts)]. *)
Fixpoint join (sep : string) (parts : list string) : string :=
  match parts with
  | [] => EmptyString
  | [part] => part
  | part :: rest => part +:+ sep +:+ join sep rest
  end.

End Py.

(** ** JSON documents and Python values *)

#[warning="-register-all"]
Inductive json : Type :=
| JNull
| JBool (b : bool)
| JNum (n : Z)
| JStr (s : string)
| JArr (l : list json)
| JObj (m : gmap string json).

(** A Python dict with string keys. *)
Abbreviation dict := (gmap string json).

(** [k in d] for a dict [d]. *)
Definition has_key (k : string) (d : dict) : bool :=
  bool_decide (is_Some (d !! k)).

(** [j == s] for a string [s]. *)
Definition is_json_string (s : string) (j : json) : bool :=
  match j with
  | JStr s' => bool_decide (s' = s)
  | _ => false
  end.

(** Exceptions are kept apart only as far as the handlers of the scripts
    tell them apart. *)
Inductive exn :=
| RequestException (msg : string)   (* requests.exceptions.RequestException *)
| JSONDecodeError (msg : string)    (* json.JSONDecodeError *)
| FileNotFoundError (msg : string)
| OtherError (msg : string).        (* any other subclass of Exception *)

Definition exn_msg (e : exn) : string :=
  match e with
  | RequestException m | JSONDecodeError m | FileNotFoundError m
  | OtherError m => m
  end.

(** What [load_html_file] returns. *)
Record question_data := QuestionData {
  question_number : string;
  source_url : string;
  question_text : string;
  answer_stats : json;
  session_stats : json;
  metadata : dict;
  html_content : string;
}.

(** One HTTP round trip to the generation service: the request raises a
    [RequestException] (connection, timeout, HTTP status, body that is not
    JSON), raises something else (the body is JSON of an unexpected shape),
    or yields the text under the key [response]. *)
Inductive call_outcome :=
| CallFails (msg : string)
| CallBroken (msg : string)
| CallText (response_text : string).

(** What [json.loads] does on a string that starts with an opening brace:
    a dict, a [JSONDecodeError], or another exception. *)
Inductive loads_outcome :=
| Loaded (d : dict)
| LoadsDecodeError (msg : string)
| LoadsOtherError (msg : string).

(** ** The files a driver touches, and the effects of a run *)

(** An output file: created or truncated by [open(path, 'w')] and not yet
    written, or holding the document [json.dump] wrote. *)
Inductive output_file_state :=
| Truncated
| Complete (content : json).

(** The checkpoint file.  When it parses it is taken to be an object whose
    values are lists of identifiers, the shape [save_checkpoint] writes; a
    file that [open(..., 'w')] has truncated does not parse. *)
Inductive checkpoint_file :=
| CkAbsent
| CkUnreadable
| CkUnparsable
| CkHolds (d : gmap string (list string)).

Record world := World {
  outputs : gmap string output_file_state;   (* by file name in OUTPUT_DIR *)
  checkpoint : checkpoint_file;              (* CHECKPOINT_FILE *)
  error_log : list string;                   (* ERROR_LOG_FILE, oldest first *)
}.

(** The primitive effects.  Prints and sleeps are left out. *)
Inductive event :=
| EvRequest (question : string) (retry_count : nat)   (* requests.post *)
| EvOutputOpen (name : string)
| EvOutputDump (name : string) (content : json)
| EvCheckpointOpen
| EvCheckpointDump (processed_files : list string)
| EvErrorLog (line : string).

Definition apply_event (w : world) (e : event) : world :=
  match e with
  | EvRequest _ _ => w
  | EvOutputOpen name =>
      World (<[name := Truncated]> (outputs w)) (checkpoint w) (error_log w)
  | EvOutputDump name content =>
      World (<[name := Complete content]> (outputs w)) (checkpoint w) (error_log w)
  | EvCheckpointOpen => World (outputs w) CkUnparsable (error_log w)
  | EvCheckpointDump pf =>
      World (outputs w) (CkHolds {[ "processed_files"%string := pf ]}) (error_log w)
  | EvErrorLog line => World (outputs w) (checkpoint w) (error_log w ++ [line])
  end.

(** The world a process leaves behind when it has performed [evs]. *)
Definition world_after (w : world) (evs : list event) : world :=
  foldl apply_event w evs.

(** How a write of a whole file ends: it succeeds, [open] raises, or
    [json.dump] raises after [open] has truncated the file. *)
Inductive io_outcome := IoOk | IoFailsOpen (msg : string) | IoFailsDump (msg : string).

(** *** A state and exception monad over the world and the event log *)

Record state := State { cur : world; log : list event }.

Inductive outcome (A : Type) :=
| Ok (a : A)
| Raise (e : exn).
Arguments Ok {A} a.
Arguments Raise {A} e.

Definition M (A : Type) : Type := state -> outcome A * state.

Definition ret {A} (a : A) : M A := fun s => (Ok a, s).
Definition raise {A} (e : exn) : M A := fun s => (Raise e, s).
Definition bind {A B} (m : M A) (k : A -> M B) : M B :=
  fun s => match m s with
           | (Ok a, s') => k a s'
           | (Raise e, s') => (Raise e, s')
           end.
(** [try: m except Exception as e: h e]. *)
Definition try_except {A} (m : M A) (h : exn -> M A) : M A :=
  fun s => match m s with
           | (Ok a, s') => (Ok a, s')
           | (Raise e, s') => h e s'
           end.
Definition emit (e : event) : M unit :=
  fun s => (Ok tt, State (apply_event (cur s) e) (log s ++ [e])).
Definition read_world : M world := fun s => (Ok (cur s), s).

Notation "x <- m ;; k" := (bind m (fun x => k))
  (at level 100, m at next level, right associativity).
Notation "m ;;; k" := (bind m (fun _ => k))
  (at level 100, right associativity).

(** [steps m s r evs]: started in [s], the computation [m] ends with [r]
    after performing exactly the events [evs]. *)
Definition steps {A} (m : M A) (s : state) (r : outcome A) (evs : list event) : Prop :=
  m s = (r, State (world_after (cur s) evs) (log s ++ evs)).

(** [always P w evs]: [P] holds of the world at every point of the run
    [evs] started in [w], that is, wherever the process is killed. *)
Definition always (P : world -> Prop) (w : world) (evs : list event) : Prop :=
  forall p, p `prefix_of` evs -> P (world_after w p).

Definition is_request (e : event) : Prop :=
  match e with
  | EvRequest _ _ => True
  | _ => False
  end.

#[global] Instance is_request_dec e : Decision (is_request e).
Proof. destruct e; simpl; apply _. Defined.

(** Write one JSON document to an output file. *)
Definition write_output (name : string) (content : json) (io : io_outcome) : M unit :=
  match io with
  | IoOk => emit (EvOutputOpen name) ;;; emit (EvOutputDump name content)
  | IoFailsOpen msg => raise (OtherError msg)
  | IoFailsDump msg => emit (EvOutputOpen name) ;;; raise (OtherError msg)
  end.

(** Append one line to the error log; [ok = false] when [open] raises.  The
    message of that exception depends on the system and is not modelled:
    the text [error log] stands for it. *)
Definition append_error_log (line : string) (ok : bool) : M unit :=
  if ok then emit (EvErrorLog line) else raise (OtherError "error log"%string).

(** [l[a:b]] on a Python list. *)
Definition slice_list {A} (l : list A) (a b : Z) : list A :=
  let len := Z.of_nat (length l) in
  let a' := Py.clip len a in
  let b' := Py.clip len b in
  take (Z.to_nat (b' - a')) (drop (Z.to_nat a') l).

(** The order [sorted] uses on file names: code point by code point. *)
Definition str_le (a b : string) : Prop := String.leb a b = true.
#[global] Instance str_le_dec a b : Decision (str_le a b).
Proof. unfold str_le. apply _. Defined.

(** [sorted(glob.glob(...))]: the names of a directory in increasing order. *)
Definition sorted_names (dir : gset string) : list string :=
  merge_sort str_le (elements dir).

(** What BeautifulSoup finds in one saved page (the selectors themselves
    are not modelled). *)
Record page := Page {
  pg_source_url : string;
  pg_question_text : string;
  pg_answer_stats : json;
  pg_session_stats : json;
  pg_metadata : dict;
  pg_html_content : string;
}.

(** The outcome recorded for one item. *)
Inductive status := Processed | Skipped | Errored.

#[global] Instance status_eq_dec : EqDecision status.
Proof. solve_decision. Defined.

Record file_result := FileResult { st : status; file_name : string }.

(** Reading the checkpoint file: what [open] followed by [json.load] does. *)
Definition read_checkpoint_file (c : checkpoint_file)
  : outcome (gmap string (list string)) :=
  match c with
  | CkAbsent => Raise (FileNotFoundError "checkpoint"%string)
  | CkUnreadable => Raise (OtherError "checkpoint"%string)
  | CkUnparsable => Raise (JSONDecodeError "checkpoint"%string)
  | CkHolds d => Ok d
  end.

(** [os.path.exists(CHECKPOINT_FILE)]. *)
Definition checkpoint_exists (c : checkpoint_file) : bool :=
  match c with CkAbsent => false | _ => true end.

(** [{"processed_files": []}]. *)
Definition empty_checkpoint : gmap string (list string) :=
  {[ "processed_files"%string := [] ]}.

(** No identifier is recorded: there is no checkpoint file, or it holds an
    object without identifiers. *)
Definition fresh_checkpoint (c : checkpoint_file) : Prop :=
  c = CkAbsent \/ exists d, c = CkHolds d /\ default [] (d !! "processed_files"%string) = [].

(** [checkpoint.get("processed_files", [])]. *)
Definition get_processed_files (d : gmap string (list string)) : list string :=
  default [] (d !! "processed_files"%string).

(** ** processCROGQuestionsWithMistralSequential.py *)

Module Sequential.

Local Open Scope string_scope.
Local Open Scope Z_scope.

Definition MAX_RETRIES : nat := 3.
Definition TEST_MODE_LIMIT : Z := 3.

Section Driver.

(** [json.loads], and [str()] on the values of a parsed object that are
    not strings. *)
Variable json_loads : string -> loads_outcome.
Variable py_repr : json -> string.

(** [str(v)] inside an f-string. *)
Definition py_str (v : json) : string :=
  match v with
  | JStr s => s
  | _ => py_repr v
  end.

Definition load_html_file (file_name : string) (p : page) : question_data :=
  QuestionData
    (Py.replace ".html" EmptyString (Py.replace "cr_" EmptyString file_name))
    (pg_source_url p)
    (pg_question_text p)
    (pg_answer_stats p)
    (pg_session_stats p)
    (<["source_url" := JStr (pg_source_url p)]> (pg_metadata p))
    (pg_html_content p).

(** The block repeated for every labelled field: find the marker, take the
    text between the next colon and the next quote-comma. *)
Definition marked_value (text marker : string) : option string :=
  let start := Py.find marker text 0 in
  if 0 <=? start then
    let value_start := Py.find ":" text start + 1 in
    let value_end := Py.find (String Py.dquote ",") text value_start in
    if 0 <=? value_end
    then Some (Py.strip (Py.strip_quotes (Py.strip (Py.slice text value_start value_end))))
    else None
  else None.

Definition set_if_found (key : string) (v : option string) (d : dict) : dict :=
  match v with
  | Some s => <[key := JStr s]> d
  | None => d
  end.

Definition option_letters : list string := ["A"; "B"; "C"; "D"; "E"].

Definition empty_options : dict :=
  list_to_map ((fun k => (k, JStr EmptyString)) <$> option_letters).

Definition extract_options (text : string) : dict :=
  let options_start := Py.find (Py.quoted "options") text 0 in
  if 0 <=? options_start then
    let options_section :=
      Py.slice text options_start (Py.find "}" text options_start + 1) in
    foldl (fun opts letter =>
             set_if_found letter (marked_value options_section (Py.quoted letter)) opts)
          empty_options option_letters
  else empty_options.

Definition extraction_note : string :=
  "This response was manually extracted from an improperly formatted model output.".

Definition manually_extract_components (text : string) (qd : question_data) : dict :=
  let result : dict :=
    <["argument" := JStr EmptyString]>
    (<["question_stem" := JStr EmptyString]>
    (<["options" := JObj empty_options]>
    (<["correct_answer" := JStr EmptyString]>
    (<["explanation" := JStr EmptyString]>
    (<["question_type" := JStr "Critical Reasoning"]>
    (<["metadata" := JObj (metadata qd)]>
    (<["answer_stats" := answer_stats qd]>
    (<["session_stats" := session_stats qd]>
    (<["extraction_note" := JStr extraction_note]> ∅))))))))) in
  let result := set_if_found "argument" (marked_value text (Py.quoted "argument")) result in
  let result := set_if_found "question_stem" (marked_value text (Py.quoted "question_stem")) result in
  let result := <["options" := JObj (extract_options text)]> result in
  let result := set_if_found "correct_answer" (marked_value text (Py.quoted "correct_answer")) result in
  let result := set_if_found "explanation" (marked_value text (Py.quoted "explanation")) result in
  match marked_value text (Py.quoted "cr_specific_type") with
  | Some s => <["metadata" := JObj (<["cr_specific_type" := JStr s]> (metadata qd))]> result
  | None => result
  end.

(** The substring from the first opening brace to the last closing brace,
    when the delimiters are found in that order. *)
Definition json_candidate (response_text : string) : option string :=
  let start_idx := Py.find "{" response_text 0 in
  let end_idx := Py.rfind "}" response_text + 1 in
  if (0 <=? start_idx) && (start_idx <? end_idx)
  then Some (Py.slice response_text start_idx end_idx)
  else None.

Definition required_keys : list string :=
  ["argument"; "question_stem"; "options"; "correct_answer"; "explanation";
   "question_type"].

(** What the driver makes of a parsed object before it checks the keys. *)
Definition complete_parsed (parsed_json : dict) (qd : question_data) : dict :=
  let p := if has_key "answer_stats" parsed_json then parsed_json
           else <["answer_stats" := answer_stats qd]> parsed_json in
  let p := if has_key "session_stats" p then p
           else <["session_stats" := session_stats qd]> p in
  let '(md, p) :=
    match p !! "cr_specific_type" with
    | Some v => (<["cr_specific_type" := v]> (metadata qd), delete "cr_specific_type" p)
    | None => (metadata qd, p)
    end in
  let p := <["metadata" := JObj md]> p in
  <["question_type" := JStr "Critical Reasoning"]> p.

(** The body of the inner [try] of [generate_response]: from the response
    text to the returned object.  Only an exception of [json.loads] other
    than [JSONDecodeError] escapes it. *)
Definition parse_response (response_text : string) (qd : question_data) : outcome dict :=
  match json_candidate response_text with
  | Some json_str =>
      match json_loads json_str with
      | Loaded parsed_json =>
          let parsed_json := complete_parsed parsed_json qd in
          let missing_keys :=
            filter (fun key => ¬ is_Some (parsed_json !! key)) required_keys in
          match missing_keys with
          | _ :: _ => Ok (manually_extract_components response_text qd)
          | [] => Ok parsed_json
          end
      | LoadsDecodeError _ => Ok (manually_extract_components response_text qd)
      | LoadsOtherError msg => Raise (OtherError msg)
      end
  | None => Ok (manually_extract_components response_text qd)
  end.

Definition error_dict (msg : string) : dict := {[ "error" := JStr msg ]}.

(** [generate_response(question_data, retry_count)].  The recursion of the
    source increases [retry_count] while it is below [MAX_RETRIES]; [budget]
    is the structural measure [MAX_RETRIES - retry_count], so the branch
    taken when it is used up is never reached (lemma
    [generate_response_unfold]). *)
Fixpoint generate_response_from (budget : nat) (service : nat -> call_outcome)
    (qd : question_data) (retry_count : nat) : M dict :=
  let retry : M dict :=
    match budget with
    | S budget' => generate_response_from budget' service qd (S retry_count)
    | O => raise (OtherError "recursion budget")
    end in
  emit (EvRequest (question_number qd) retry_count) ;;;
  match service retry_count with
  | CallText response_text =>
      match parse_response response_text qd with
      | Ok d => ret d
      | Raise _ =>
          if (retry_count <? MAX_RETRIES)%nat then retry
          else ret (error_dict ("Failed to extract valid JSON after "
                                +:+ pretty MAX_RETRIES +:+ " retries"))
      end
  | CallBroken msg => raise (OtherError msg)
  | CallFails msg =>
      if (retry_count <? MAX_RETRIES)%nat then retry
      else ret (error_dict ("API request failed after "
                            +:+ pretty MAX_RETRIES +:+ " retries: " +:+ msg))
  end.

Definition generate_response (service : nat -> call_outcome)
    (qd : question_data) (retry_count : nat) : M dict :=
  generate_response_from (MAX_RETRIES - retry_count) service qd retry_count.

Definition save_result (name : string) (result : dict) (io : io_outcome) : M unit :=
  write_output name (JObj result) io.

(** [load_checkpoint()]: every exception is caught. *)
Definition load_checkpoint (c : checkpoint_file) : outcome (gmap string (list string)) :=
  match (if checkpoint_exists c then read_checkpoint_file c else Ok empty_checkpoint) with
  | Ok d => Ok d
  | Raise _ => Ok empty_checkpoint
  end.

(** [save_checkpoint(processed_files)]: every exception is caught. *)
Definition save_checkpoint (processed_files : list string) (io : io_outcome) : M unit :=
  try_except
    (match io with
     | IoOk => emit EvCheckpointOpen ;;; emit (EvCheckpointDump processed_files)
     | IoFailsOpen msg => raise (OtherError msg)
     | IoFailsDump msg => emit EvCheckpointOpen ;;; raise (OtherError msg)
     end)
    (fun _ => ret tt).

(** What the environment decides while one item is processed. *)
Record item_env := ItemEnv {
  html : outcome page;                (* reading and parsing the page *)
  service : nat -> call_outcome;     (* the request made at each retry count *)
  save_result_io : io_outcome;
  error_log_ok : bool;               (* the append of the error branch *)
  handler_log_ok : bool;             (* the append of the except handler *)
  save_checkpoint_io : io_outcome;
  now : string;                      (* the formatted time stamp *)
}.

Definition output_name (file_name : string) : string :=
  "processed_" +:+ Py.replace ".html" ".json" file_name.

Definition error_line (timestamp file_name msg : string) : string :=
  timestamp +:+ " - " +:+ file_name +:+ ": " +:+ msg +:+ String Py.newline EmptyString.

(** [process_file_sequentially(html_file, processed_files)]; [file_name] is
    the base name of [html_file]. *)
Definition process_file_sequentially (env : item_env) (file_name : string)
    (processed_files : list string) : M file_result :=
  if bool_decide (file_name ∈ processed_files) then
    ret (FileResult Skipped file_name)
  else
    try_except
      (question_data <-
         match html env with
         | Ok p => ret (load_html_file file_name p)
         | Raise e => raise e
         end ;;
       result <- generate_response (service env) question_data 0 ;;
       match result !! "error" with
       | Some err =>
           append_error_log (error_line (now env) file_name (py_str err))
                            (error_log_ok env) ;;;
           ret (FileResult Errored file_name)
       | None =>
           save_result (output_name file_name) result (save_result_io env) ;;;
           ret (FileResult Processed file_name)
       end)
      (fun e =>
         append_error_log (error_line (now env) file_name (exn_msg e))
                          (handler_log_ok env) ;;;
         ret (FileResult Errored file_name)).

(** The counters of a run, with the per-item results in order. *)
Record run_stats := RunStats {
  processed_files : list string;
  num_processed : nat;
  num_skipped : nat;
  num_errors : nat;
  results : list file_result;
}.

(** The [for] loop of [process_all_files_sequentially]. *)
Fixpoint process_loop (env : string -> item_env) (html_files : list string)
    (acc : run_stats) : M run_stats :=
  match html_files with
  | [] => ret acc
  | html_file :: rest =>
      result <- process_file_sequentially (env html_file) html_file (processed_files acc) ;;
      acc' <-
        match st result with
        | Processed =>
            let processed_files' := (processed_files acc ++ [file_name result])%list in
            save_checkpoint processed_files' (save_checkpoint_io (env html_file)) ;;;
            ret (RunStats processed_files' (S (num_processed acc)) (num_skipped acc)
                          (num_errors acc) (results acc ++ [result])%list)
        | Errored =>
            ret (RunStats (processed_files acc) (num_processed acc) (num_skipped acc)
                          (S (num_errors acc)) (results acc ++ [result])%list)
        | Skipped =>
            ret (RunStats (processed_files acc) (num_processed acc) (S (num_skipped acc))
                          (num_errors acc) (results acc ++ [result])%list)
        end ;;
      process_loop env rest acc'
  end.

(** The selection of files by the command line arguments. *)
Definition select_files (html_files : list string)
    (start_idx end_idx limit : option Z) (test_mode : bool) : list string :=
  match start_idx, end_idx with
  | Some s, Some e => slice_list html_files s (e + 1)
  | Some s, None => slice_list html_files s (Z.of_nat (length html_files))
  | None, _ =>
      match limit with
      | Some l => slice_list html_files 0 l
      | None => if test_mode then slice_list html_files 0 TEST_MODE_LIMIT
                else html_files
      end
  end.

(** [process_all_files_sequentially(start_idx, end_idx, limit, test_mode)];
    [html_dir] holds the names of the pages, that is of the files that
    [glob] finds in HTML_DIR for the pattern [*.html]. *)
Definition process_all_files_sequentially (env : string -> item_env)
    (html_dir : gset string) (start_idx end_idx limit : option Z)
    (test_mode : bool) : M run_stats :=
  let html_files := sorted_names html_dir in
  w <- read_world ;;
  checkpoint <-
    match load_checkpoint (checkpoint w) with
    | Ok d => ret d
    | Raise e => raise e
    end ;;
  let processed_files := get_processed_files checkpoint in
  let html_files := select_files html_files start_idx end_idx limit test_mode in
  process_loop env html_files (RunStats processed_files 0 0 0 []).

(** A run started in world [w]. *)
Definition run (env : string -> item_env) (html_dir : gset string)
    (start_idx end_idx limit : option Z) (test_mode : bool) (w : world)
  : outcome run_stats * state :=
  process_all_files_sequentially env html_dir start_idx end_idx limit test_mode
    (State w []).

End Driver.

Local Close Scope string_scope.

(** *** The runs of the loop, as a relation

    [loop_spec env files acc r evs]: the loop over [files] started with the
    counters [acc] ends with [r] after the events [evs].  Lemma
    [process_loop_spec] shows that [process_loop] is described by it. *)

Definition record_skipped (acc : run_stats) (f : string) : run_stats :=
  RunStats (processed_files acc) (num_processed acc) (S (num_skipped acc))
           (num_errors acc) (results acc ++ [FileResult Skipped f]).

Definition record_errored (acc : run_stats) (f : string) : run_stats :=
  RunStats (processed_files acc) (num_processed acc) (num_skipped acc)
           (S (num_errors acc)) (results acc ++ [FileResult Errored f]).

Definition record_processed (acc : run_stats) (f : string) : run_stats :=
  RunStats (processed_files acc ++ [f]) (S (num_processed acc)) (num_skipped acc)
           (num_errors acc) (results acc ++ [FileResult Processed f]).

(** The events of [save_checkpoint]. *)
Definition checkpoint_events (processed_files : list string) (io : io_outcome)
  : list event :=
  match io with
  | IoOk => [EvCheckpointOpen; EvCheckpointDump processed_files]
  | IoFailsOpen _ => []
  | IoFailsDump _ => [EvCheckpointOpen]
  end.

(** The events on the output file of an item that is not saved. *)
Definition unfinished_output (f : string) (opens : list event) : Prop :=
  opens = [] \/ opens = [EvOutputOpen (output_name f)].

Inductive loop_spec (env : string -> item_env)
  : list string -> run_stats -> outcome run_stats -> list event -> Prop :=
| loop_done acc :
    loop_spec env [] acc (Ok acc) []
| loop_skipped f rest acc r evs :
    f ∈ processed_files acc ->
    loop_spec env rest (record_skipped acc f) r evs ->
    loop_spec env (f :: rest) acc r evs
| loop_processed f rest acc reqs content r evs :
    f ∉ processed_files acc ->
    Forall is_request reqs ->
    loop_spec env rest (record_processed acc f) r evs ->
    loop_spec env (f :: rest) acc r
      (reqs ++ [EvOutputOpen (output_name f); EvOutputDump (output_name f) content]
            ++ checkpoint_events (processed_files acc ++ [f]) (save_checkpoint_io (env f))
            ++ evs)
| loop_errored f rest acc reqs opens line r evs :
    f ∉ processed_files acc ->
    Forall is_request reqs ->
    unfinished_output f opens ->
    loop_spec env rest (record_errored acc f) r evs ->
    loop_spec env (f :: rest) acc r (reqs ++ opens ++ [EvErrorLog line] ++ evs)
| loop_crashed f rest acc reqs opens e :
    f ∉ processed_files acc ->
    Forall is_request reqs ->
    unfinished_output f opens ->
    handler_log_ok (env f) = false ->
    loop_spec env (f :: rest) acc (Raise e) (reqs ++ opens).

(** The item [f] is processed without any failure: the page loads, the
    first request is answered, the answer yields an object without an
    error entry, and the output file and the checkpoint can be written. *)
Definition succeeds (json_loads : string -> loads_outcome) (env : item_env)
    (f : string) (d : dict) : Prop :=
  exists p text,
    html env = Ok p /\
    service env 0%nat = CallText text /\
    parse_response json_loads text (load_html_file f p) = Ok d /\
    d !! "error"%string = None /\
    save_result_io env = IoOk /\
    save_checkpoint_io env = IoOk.

(** *** The resume invariant *)

(** The identifiers a driver started in [w] would find in the checkpoint. *)
Definition checkpoint_ids (w : world) : list string :=
  match load_checkpoint (checkpoint w) with
  | Ok d => get_processed_files d
  | Raise _ => []
  end.

(** The output file of item [f] is there and completely written. *)
Definition output_complete (w : world) (f : string) : Prop :=
  exists content, outputs w !! output_name f = Some (Complete content).

(** Every identifier in the checkpoint has its completed output file. *)
Definition checkpoint_backed (w : world) : Prop :=
  forall f, f ∈ checkpoint_ids w -> output_complete w f.

(** The loop invariant behind it, for the checkpoint list [pf] the loop
    holds in memory: the file lists no other identifier, and every
    identifier of [pf] has its completed output file. *)
Definition resume_state (pf : list string) (w : world) : Prop :=
  (forall f, f ∈ checkpoint_ids w -> f ∈ pf) /\
  (forall f, f ∈ pf -> output_complete w f).

(** No two of the names share an output file. *)
Definition distinct_outputs (names : list string) : Prop :=
  Forall (fun a => Forall (fun b => output_name a = output_name b -> a = b) names) names.

#[global] Instance distinct_outputs_dec names : Decision (distinct_outputs names).
Proof. unfold distinct_outputs. apply _. Defined.

(** Two runs of the loop end alike: with the same checkpoint list, or with
    the same exception. *)
Definition same_checkpoint_list (r1 r2 : outcome run_stats) : Prop :=
  match r1, r2 with
  | Ok stats1, Ok stats2 => processed_files stats1 = processed_files stats2
  | Raise e1, Raise e2 => e1 = e2
  | _, _ => False
  end.

(** No checkpoint is written among [evs]. *)
Definition no_dump (evs : list event) : Prop :=
  forall pf, EvCheckpointDump pf ∉ evs.

(** In the run [evs], every identifier written to the checkpoint is either
    one of [ids0] or has had its output file completely written before. *)
Definition output_before_checkpoint (ids0 : list string) (evs : list event) : Prop :=
  forall pre pf post,
    evs = pre ++ EvCheckpointDump pf :: post ->
    forall f, f ∈ pf ->
      f ∈ ids0 \/ exists content, EvOutputDump (output_name f) content ∈ pre.

(** *** Notions used to describe the attempts for one item *)

(** The requests for one question with the retry counts from [i] on, [n] of
    them, in order. *)
Definition requests_from (qd : question_data) (i n : nat) : list event :=
  EvRequest (question_number qd) <$> seq i n.

(** The attempt with the retry count [k] fails in a way that is retried:
    the request raises a [RequestException], or the work on the answer
    raises. *)
Definition attempt_fails (json_loads : string -> loads_outcome)
    (service : nat -> call_outcome) (qd : question_data) (k : nat) : Prop :=
  match service k with
  | CallFails _ => True
  | CallText text => exists e, parse_response json_loads text qd = Raise e
  | CallBroken _ => False
  end.

(** The error object returned when the attempt with the retry count
    [MAX_RETRIES] has failed too. *)
Definition gives_up (service : nat -> call_outcome) : dict :=
  match service MAX_RETRIES with
  | CallFails msg =>
      error_dict ("API request failed after 3 retries: " +:+ msg)%string
  | _ => error_dict "Failed to extract valid JSON after 3 retries"%string
  end.

(** The keys of every object the driver saves. *)
Definition saved_keys : list string :=
  required_keys ++ ["metadata"%string; "answer_stats"%string; "session_stats"%string].

(** What an output file holds: an object without an error entry, with
    every required key, the metadata and the statistics, and with the
    question type of this driver. *)
Definition well_formed_output (content : json) : Prop :=
  exists d,
    content = JObj d
    /\ d !! "error"%string = None
    /\ Forall (fun key => is_Some (d !! key)) saved_keys
    /\ d !! "question_type"%string = Some (JStr "Critical Reasoning"%string).

(** Every output a run has written is well formed. *)
Definition dumps_well_formed (evs : list event) : Prop :=
  Forall (fun e => match e with
                   | EvOutputDump _ content => well_formed_output content
                   | _ => True
                   end) evs.

(** The number of results with the status [x]. *)
Definition count_status (x : status) (rs : list file_result) : nat :=
  length (filter (fun r => st r = x) rs).

(** The item [f] is attempted in the run [evs]: when its page loads, the
    first request for its question is sent; when the page does not load,
    the handler logs the exception for [f]. *)
Definition attempted (env : item_env) (f : string) (evs : list event) : Prop :=
  match html env with
  | Ok p => EvRequest (question_number (load_html_file f p)) 0 ∈ evs
  | Raise e => EvErrorLog (error_line (now env) f (exn_msg e)) ∈ evs
  end.

(** A checkpoint that is written starts with the identifiers [ids0]. *)
Definition keeps_checkpoint (ids0 : list string) (e : event) : Prop :=
  match e with
  | EvCheckpointDump pf => ids0 `prefix_of` pf
  | _ => True
  end.

(** The checkpoint file is as it was at the start, or it has been
    truncated, or it holds the identifiers of the start followed by further
    ones. *)
Definition checkpoint_extends (c0 : checkpoint_file) (ids0 : list string)
    (w : world) : Prop :=
  checkpoint w = c0
  \/ checkpoint w = CkUnparsable
  \/ exists pf, checkpoint w = CkHolds {[ "processed_files"%string := pf ]}
                /\ ids0 `prefix_of` pf.

End Sequential.

(** ** processExamPacksWithMistral.py *)

Module ExamPacks.

Local Open Scope string_scope.
Local Open Scope Z_scope.

Definition BATCH_SIZE : nat := 5.
Definition MAX_RETRIES : nat := 3.

Definition all_results_name : string := "all_processed_questions.json".

Section Driver.

Variable json_loads : string -> loads_outcome.

(** [manually_extract_components] of this script only fills the entry
    [extracted_text] of an error object; no property below looks into that
    entry, so the function is kept abstract. *)
Variable manually_extract_components : string -> question_data -> dict.

(** The question number, taken from the file name. *)
Definition question_number_of (file_name : string) : string :=
  Py.replace ".html" EmptyString (Py.replace "question_" EmptyString file_name).

Definition load_html_file (file_name : string) (p : page) : question_data :=
  QuestionData
    (question_number_of file_name)
    (pg_source_url p)
    (pg_question_text p)
    (pg_answer_stats p)
    (pg_session_stats p)
    (pg_metadata p)
    (pg_html_content p).

(** The entry [type] of the metadata of the question, the empty string
    when there is none; the entries of the metadata are strings. *)
Definition metadata_type (qd : question_data) : string :=
  match metadata qd !! "type" with
  | Some (JStr s) => s
  | _ => EmptyString
  end.

Definition ds_options : dict :=
  <["A" := JStr "Statement (1) ALONE is sufficient, but statement (2) alone is not sufficient."]>
  (<["B" := JStr "Statement (2) ALONE is sufficient, but statement (1) alone is not sufficient."]>
  (<["C" := JStr "BOTH statements TOGETHER are sufficient, but NEITHER statement ALONE is sufficient."]>
  (<["D" := JStr "EACH statement ALONE is sufficient."]>
  (<["E" := JStr "Statements (1) and (2) TOGETHER are NOT sufficient."]> ∅)))).

Definition required_keys : list string :=
  ["question"; "options"; "question_type"; "correct_answer"; "explanation"].

Definition complete_parsed (parsed_json : dict) (qd : question_data) : dict :=
  let p := if has_key "answer_stats" parsed_json then parsed_json
           else <["answer_stats" := answer_stats qd]> parsed_json in
  let p := if has_key "session_stats" p then p
           else <["session_stats" := session_stats qd]> p in
  let p := if has_key "question_type" p then p
           else if Py.contains "Data Sufficiency" (metadata_type qd)
                then <["question_type" := JStr "Data Sufficiency"]> p
                else <["question_type" := JStr "Problem Solving"]> p in
  if match p !! "question_type" with
     | Some j => is_json_string "Data Sufficiency" j
     | None => false
     end || bool_decide (metadata_type qd = "DS")
  then <["options" := JObj ds_options]> p
  else p.

(** [str(missing_keys)] in the f-string of the error: the keys are those
    of [required_keys], so the [repr] of each is the key between single
    quotes. *)
Definition str_of_keys (keys : list string) : string :=
  "[" +:+ Py.join ", " ((fun key => "'" +:+ key +:+ "'") <$> keys) +:+ "]".

(** The inner [try] of [generate_response] with its handler: always an
    object, never an exception. *)
Definition parse_response (response_text : string) (qd : question_data) : dict :=
  let start_idx := Py.find "{" response_text 0 in
  let end_idx := Py.rfind "}" response_text + 1 in
  if (0 <=? start_idx) && (start_idx <? end_idx) then
    let json_str := Py.slice response_text start_idx end_idx in
    match json_loads json_str with
    | Loaded parsed_json =>
        let parsed_json := complete_parsed parsed_json qd in
        if forallb (fun key => has_key key parsed_json) required_keys
        then parsed_json
        else
          let missing_keys :=
            List.filter (fun key => negb (has_key key parsed_json)) required_keys in
          <["error" := JStr ("Missing required keys in JSON: "
                             +:+ str_of_keys missing_keys)]>
          (<["partial_json" := JObj parsed_json]>
          (<["raw_response" := JStr response_text]> ∅))
    | LoadsDecodeError msg =>
        <["error" := JStr ("Invalid JSON format: " +:+ msg)]>
        (<["raw_response" := JStr response_text]>
        (<["extracted_text" := JObj (manually_extract_components response_text qd)]> ∅))
    | LoadsOtherError msg =>
        <["error" := JStr ("Error processing response: " +:+ msg)]>
        (<["raw_response" := JStr response_text]> ∅)
    end
  else
    <["error" := JStr "Could not find JSON structure"]>
    (<["raw_response" := JStr response_text]> ∅).

(** What the environment decides while one item is processed. *)
Record item_env := ItemEnv {
  html : outcome page;
  service : nat -> call_outcome;
  retry_log_ok : nat -> bool;        (* the append before each retry *)
  final_log_ok : bool;               (* the append when the retries are used up *)
  save_result_io : io_outcome;
  save_checkpoint_io : io_outcome;
  handler_log_ok : bool;             (* the append of the except handler *)
  now : string;
  html_dir_path : string;            (* HTML_DIR, where [glob] looks for the pages *)
}.

Definition retry_line (env : item_env) (qd : question_data) (msg : string) : string :=
  "[" +:+ now env +:+ "] Question " +:+ question_number qd
  +:+ ": API request failed: " +:+ msg +:+ ". Retrying..."
  +:+ String Py.newline EmptyString.

Definition final_line (env : item_env) (qd : question_data) (msg : string) : string :=
  "[" +:+ now env +:+ "] Question " +:+ question_number qd
  +:+ ": Max retries reached. API request failed: " +:+ msg
  +:+ String Py.newline EmptyString.

(** [generate_response(question_data, retry_count)]; [budget] is the
    structural measure [MAX_RETRIES - retry_count]. *)
Fixpoint generate_response_from (budget : nat) (env : item_env)
    (qd : question_data) (retry_count : nat) : M dict :=
  emit (EvRequest (question_number qd) retry_count) ;;;
  match service env retry_count with
  | CallText response_text => ret (parse_response response_text qd)
  | CallBroken msg => raise (OtherError msg)
  | CallFails msg =>
      if (retry_count <? MAX_RETRIES)%nat then
        append_error_log (retry_line env qd msg) (retry_log_ok env retry_count) ;;;
        match budget with
        | S budget' => generate_response_from budget' env qd (S retry_count)
        | O => raise (OtherError "recursion budget")
        end
      else
        append_error_log (final_line env qd msg) (final_log_ok env) ;;;
        ret {[ "error" := JStr ("API request failed after " +:+ pretty MAX_RETRIES
                                +:+ " retries: " +:+ msg) ]}
  end.

Definition generate_response (env : item_env) (qd : question_data)
    (retry_count : nat) : M dict :=
  generate_response_from (MAX_RETRIES - retry_count) env qd retry_count.

Definition save_result (name : string) (result : json) (io : io_outcome) : M unit :=
  write_output name result io.

(** [read_checkpoint()]: only a missing file and a JSON syntax error are
    caught. *)
Definition read_checkpoint (c : checkpoint_file) : outcome (gmap string (list string)) :=
  match read_checkpoint_file c with
  | Ok d => Ok d
  | Raise (FileNotFoundError _) | Raise (JSONDecodeError _) => Ok empty_checkpoint
  | Raise e => Raise e
  end.

(** [save_checkpoint(processed_files)]: nothing is caught here. *)
Definition save_checkpoint (processed_files : list string) (io : io_outcome) : M unit :=
  match io with
  | IoOk => emit EvCheckpointOpen ;;; emit (EvCheckpointDump processed_files)
  | IoFailsOpen msg => raise (OtherError msg)
  | IoFailsDump msg => emit EvCheckpointOpen ;;; raise (OtherError msg)
  end.

Definition output_name (qd : question_data) : string :=
  "processed_" +:+ question_number qd +:+ ".json".

(** The name of the output file of the page [file_name]. *)
Definition output_of (file_name : string) : string :=
  "processed_" +:+ question_number_of file_name +:+ ".json".

(** The object saved for one question. *)
Definition combined_result (qd : question_data) (response : dict) : json :=
  JObj (<["question_number" := JStr (question_number qd)]>
       (<["source_url" := JStr (source_url qd)]>
       (<["metadata" := JObj (metadata qd)]>
       (<["analysis" := JObj response]> ∅)))).

(** The path of a page as [glob] returns it:
    [os.path.join(HTML_DIR, file_name)]. *)
Definition file_path (env : item_env) (file_name : string) : string :=
  html_dir_path env +:+ "/" +:+ file_name.

(** The line of the handler of the inner loop; it names the page by its
    path. *)
Definition error_line (env : item_env) (file_name msg : string) : string :=
  "[" +:+ now env +:+ "] Error processing " +:+ file_path env file_name +:+ ": " +:+ msg
  +:+ String Py.newline EmptyString.

(** The state of the loops: the checkpoint list and the results so far. *)
Record loop_state := LoopState {
  ls_processed_files : list string;
  ls_batch_results : list json;
}.

(** The [try] block of the inner [for] loop for one file.  It ends with
    the loop state and, when an exception was raised, that exception: the
    lists keep what the block has appended before the exception, so
    [processed_files] has already grown when [save_checkpoint] raises. *)
Definition try_file (env : item_env) (file_name : string) (ls : loop_state)
  : M (loop_state * option exn) :=
  try_except
    (question_data <-
       match html env with
       | Ok p => ret (load_html_file file_name p)
       | Raise e => raise e
       end ;;
     response <- generate_response env question_data 0 ;;
     let result := combined_result question_data response in
     save_result (output_name question_data) result (save_result_io env) ;;;
     let ls' := LoopState (ls_processed_files ls ++ [file_name])%list
                          (ls_batch_results ls ++ [result])%list in
     try_except
       (save_checkpoint (ls_processed_files ls') (save_checkpoint_io env) ;;;
        ret (ls', None))
       (fun e => ret (ls', Some e)))
    (fun e => ret (ls, Some e)).

(** One iteration of the inner loop: the [try] block, then the handler. *)
Definition process_file (env : item_env) (file_name : string) (ls : loop_state)
  : M loop_state :=
  r <- try_file env file_name ls ;;
  match r with
  | (ls', None) => ret ls'
  | (ls', Some e) =>
      append_error_log (error_line env file_name (exn_msg e)) (handler_log_ok env) ;;;
      ret ls'
  end.

Fixpoint process_batch (env : string -> item_env) (batch : list string)
    (ls : loop_state) : M loop_state :=
  match batch with
  | [] => ret ls
  | file_name :: rest =>
      ls' <- process_file (env file_name) file_name ls ;;
      process_batch env rest ls'
  end.

(** [r.get("question_number")] on an entry of the aggregate file; [None]
    is Python's [None]. *)
Definition entry_question_number (r : json) : outcome (option json) :=
  match r with
  | JObj m => Ok (m !! "question_number")
  | _ => Raise (OtherError "get")
  end.

(** [v not in existing_question_numbers], a set of strings. *)
Definition not_in_numbers (v : option json) (existing : list string) : outcome bool :=
  match v with
  | None | Some JNull | Some (JBool _) | Some (JNum _) => Ok true
  | Some (JStr s) => Ok (bool_decide (s ∉ existing))
  | Some (JArr _) | Some (JObj _) => Raise (OtherError "unhashable")
  end.

(** The entries of the previous aggregate that the new one keeps. *)
Fixpoint keep_previous (previously_processed : list json) (existing : list string)
  : outcome (list json) :=
  match previously_processed with
  | [] => Ok []
  | r :: rest =>
      match entry_question_number r with
      | Raise e => Raise e
      | Ok v =>
          match not_in_numbers v existing with
          | Raise e => Raise e
          | Ok keep =>
              match keep_previous rest existing with
              | Raise e => Raise e
              | Ok kept => Ok (if keep then r :: kept else kept)
              end
          end
      end
  end.

(** Iterating over what [json.load] found in the aggregate file. *)
Definition aggregate_entries (j : json) : outcome (list json) :=
  match j with
  | JArr l => Ok l
  | JObj m => Ok (JStr <$> (map_to_list m).*1)                  (* the keys *)
  | JStr s => Ok ((fun c => JStr (String c EmptyString))
                    <$> String.list_ascii_of_string s)          (* the characters *)
  | _ => Raise (OtherError "not iterable")
  end.

Definition result_question_number (r : json) : list string :=
  match r with
  | JObj m => match m !! "question_number" with
              | Some (JStr s) => [s]
              | _ => []
              end
  | _ => []
  end.

(** The update of the aggregate file after a batch. *)
Definition save_all_results (all_results : list json) (io : io_outcome) : M unit :=
  w <- read_world ;;
  previously_processed <-
    match outputs w !! all_results_name with
    | None => ret []
    | Some Truncated => ret []                      (* JSONDecodeError: pass *)
    | Some (Complete j) =>
        match aggregate_entries j with
        | Ok l => ret l
        | Raise e => raise e
        end
    end ;;
  let existing_question_numbers := all_results ≫= result_question_number in
  kept <- match keep_previous previously_processed existing_question_numbers with
          | Ok l => ret l
          | Raise e => raise e
          end ;;
  write_output all_results_name (JArr (all_results ++ kept)%list) io.

(** The outer loop over the batches; [fuel] bounds their number. *)
Fixpoint process_batches (fuel : nat) (env : string -> item_env)
    (aggregate_io : nat -> io_outcome) (batch_index : nat)
    (remaining_files : list string) (processed_files : list string)
    (all_results : list json) : M (list string * list json) :=
  match fuel, remaining_files with
  | _, [] => ret (processed_files, all_results)
  | O, _ => ret (processed_files, all_results)
  | S fuel', _ =>
      let batch := take BATCH_SIZE remaining_files in
      ls <- process_batch env batch (LoopState processed_files []) ;;
      let all_results := (all_results ++ ls_batch_results ls)%list in
      save_all_results all_results (aggregate_io batch_index) ;;;
      process_batches fuel' env aggregate_io (S batch_index)
        (drop BATCH_SIZE remaining_files) (ls_processed_files ls) all_results
  end.

(** The selection of the remaining files by the command line arguments. *)
Definition select_files (remaining_files : list string)
    (start_idx end_idx limit : option Z) : list string :=
  match start_idx, end_idx, limit with
  | None, None, None => remaining_files
  | _, _, _ =>
      let len := Z.of_nat (length remaining_files) in
      let start := match start_idx with
                   | Some s => if s =? 0 then 0 else s
                   | None => 0
                   end in
      let end_ := match end_idx with Some e => e | None => len end in
      let end_ := match limit with
                  | Some l => Z.min (start + l) len
                  | None => end_
                  end in
      slice_list remaining_files start end_
  end.

(** The names that [glob] finds for the pattern [question_*.html]: they
    start with [question_] and end with [.html], and the two do not
    overlap. *)
Definition is_question_page (file_name : string) : bool :=
  String.prefix "question_" file_name
  && Py.endswith ".html" file_name
  && (14 <=? String.length file_name)%nat.

(** [process_all_files(start_idx, end_idx, limit)] on the directory
    [html_dir] of file names; [None] when every page is in the
    checkpoint. *)
Definition process_all_files (env : string -> item_env)
    (aggregate_io : nat -> io_outcome) (html_dir : gset string)
    (start_idx end_idx limit : option Z) : M (option (list string * list json)) :=
  let html_files := filter (fun f => is_question_page f = true) (elements html_dir) in
  w <- read_world ;;
  checkpoint <-
    match read_checkpoint (checkpoint w) with
    | Ok d => ret d
    | Raise e => raise e
    end ;;
  let processed_files := get_processed_files checkpoint in
  let remaining_files :=
    filter (fun f => f ∉ processed_files) html_files in
  match remaining_files with
  | [] => ret None
  | _ =>
      let remaining_files := merge_sort str_le remaining_files in
      let remaining_files := select_files remaining_files start_idx end_idx limit in
      r <- process_batches (length remaining_files) env aggregate_io 0
             remaining_files processed_files [] ;;
      ret (Some r)
  end.

(** The item is handled without any failure: the page loads, the first
    request is answered with [text], and the output file and the
    checkpoint can be written. *)
Definition succeeds (env : item_env) (p : page) (text : string) : Prop :=
  html env = Ok p /\
  service env 0%nat = CallText text /\
  save_result_io env = IoOk /\
  save_checkpoint_io env = IoOk.

(** What is saved for the page [f] when the service answers [text]. *)
Definition saved_result (f : string) (p : page) (text : string) : json :=
  combined_result (load_html_file f p) (parse_response text (load_html_file f p)).

Definition run (env : string -> item_env) (aggregate_io : nat -> io_outcome)
    (html_dir : gset string) (start_idx end_idx limit : option Z) (w : world)
  : outcome (option (list string * list json)) * state :=
  process_all_files env aggregate_io html_dir start_idx end_idx limit (State w []).

End Driver.

(** *** Notions used to describe the runs of this driver *)

(** The events that touch neither an output file nor the checkpoint. *)
Definition quiet (e : event) : Prop :=
  match e with
  | EvRequest _ _ | EvErrorLog _ => True
  | _ => False
  end.

(** The output file of the page [f] has been written completely in the
    run [evs]. *)
Definition saved_in (evs : list event) (f : string) : Prop :=
  exists content, EvOutputDump (output_of f) content ∈ evs.

(** In the run [evs], every identifier written to the checkpoint is either
    one of [ids0] or has had its output file completely written before. *)
Definition output_before_checkpoint (ids0 : list string) (evs : list event) : Prop :=
  forall pre pf post,
    evs = (pre ++ EvCheckpointDump pf :: post)%list ->
    forall f, f ∈ pf -> f ∈ ids0 \/ saved_in pre f.

(** At most the event [e]: a file that has been opened for writing and
    not written. *)
Definition opened_only (e : event) (evs : list event) : Prop :=
  evs = [] \/ evs = [e].

Definition no_checkpoint_dump (e : event) : Prop :=
  match e with
  | EvCheckpointDump _ => False
  | _ => True
  end.

(** The invariant of the loops of the driver: the run [l] so far is in
    order, and every identifier of the list [pf] of processed files is one
    of [ids0] or has its output file written in [l]. *)
Definition backed (ids0 pf : list string) (l : list event) : Prop :=
  output_before_checkpoint ids0 l
  /\ forall f, f ∈ pf -> f ∈ ids0 \/ saved_in l f.

(** The loop state after the result of the page [f] has been appended. *)
Definition record_saved (ls : loop_state) (f : string) (result : json) : loop_state :=
  LoopState (ls_processed_files ls ++ [f])%list (ls_batch_results ls ++ [result])%list.

(** [file_run env f ls r evs]: one iteration of the inner loop, for the
    page [f] and started with [ls], ends with [r] after the events [evs].
    The page is saved and recorded; or it is saved and the checkpoint
    cannot be written; or it is not saved; or the handler cannot write to
    the error log.  Lemma [process_file_run] shows that [process_file] is
    described by it. *)
Inductive file_run (env : item_env) (f : string) (ls : loop_state)
  : outcome loop_state -> list event -> Prop :=
| file_recorded pre result :
    Forall quiet pre ->
    file_run env f ls (Ok (record_saved ls f result))
      (pre ++ [EvOutputOpen (output_of f); EvOutputDump (output_of f) result;
               EvCheckpointOpen;
               EvCheckpointDump (ls_processed_files ls ++ [f])%list])%list
| file_saved_only pre result ck line :
    Forall quiet pre ->
    opened_only EvCheckpointOpen ck ->
    file_run env f ls (Ok (record_saved ls f result))
      (pre ++ [EvOutputOpen (output_of f); EvOutputDump (output_of f) result]
           ++ ck ++ [EvErrorLog line])%list
| file_failed pre opens line :
    Forall quiet pre ->
    opened_only (EvOutputOpen (output_of f)) opens ->
    file_run env f ls (Ok ls) (pre ++ opens ++ [EvErrorLog line])%list
| file_crashed pre touched e :
    Forall quiet pre ->
    Forall no_checkpoint_dump touched ->
    handler_log_ok env = false ->
    file_run env f ls (Raise e) (pre ++ touched)%list.

(** An entry of the previous aggregate is kept: its question number is
    none of [existing]. *)
Definition kept_entry (existing : list string) (r : json) : Prop :=
  match r with
  | JObj m =>
      match m !! "question_number" with
      | Some (JStr n) => n ∉ existing
      | _ => True
      end
  | _ => True
  end.

#[global] Instance kept_entry_dec existing r : Decision (kept_entry existing r).
Proof.
  unfold kept_entry. destruct r; try apply _.
  destruct (m !! "question_number") as [[]|]; apply _.
Defined.

(** An entry that the update of the aggregate can look at: an object
    whose question number, if it has one, can be looked up in a set. *)
Definition plain_entry (r : json) : Prop :=
  match r with
  | JObj m =>
      match m !! "question_number" with
      | Some (JArr _) | Some (JObj _) => False
      | _ => True
      end
  | _ => False
  end.

(** A result as the driver builds it: an object with a string as question
    number. *)
Definition numbered (r : json) : Prop :=
  exists m n, r = JObj m /\ m !! "question_number" = Some (JStr n).

End ExamPacks.

(** ** combineResults.py *)

Module CombineResults.

Local Open Scope string_scope.
Local Open Scope Z_scope.

(** Python's truth value of a JSON value; [JNull] is [None]. *)
Definition truthy (j : json) : bool :=
  match j with
  | JNull => false
  | JBool b => b
  | JNum n => negb (n =? 0)
  | JStr s => negb (bool_decide (s = EmptyString))
  | JArr l => negb (bool_decide (length l = 0%nat))
  | JObj m => negb (bool_decide (size m = 0%nat))
  end.

(** [key in container]: a key of a dict, an element of a list, a substring
    of a string; a [TypeError] otherwise. *)
Definition py_in (key : string) (container : json) : outcome bool :=
  match container with
  | JObj m => Ok (has_key key m)
  | JArr l => Ok (existsb (is_json_string key) l)
  | JStr s => Ok (Py.contains key s)
  | _ => Raise (OtherError "argument is not iterable")
  end.

(** [container[key]] for a string key. *)
Definition py_getitem (container : json) (key : string) : outcome json :=
  match container with
  | JObj m => match m !! key with
              | Some v => Ok v
              | None => Raise (OtherError "KeyError")
              end
  | _ => Raise (OtherError "indices must be integers")
  end.

Definition required_keys : list string :=
  ["question"; "options"; "correct_answer"; "explanation"].

(** [all(key in analysis for key in keys)]: the generator stops at the
    first key that is missing. *)
Fixpoint all_in (keys : list string) (analysis : json) : outcome bool :=
  match keys with
  | [] => Ok true
  | key :: rest =>
      match py_in key analysis with
      | Raise e => Raise e
      | Ok false => Ok false
      | Ok true => all_in rest analysis
      end
  end.

(** [is_valid_result(result)]; [load_json_file] hands over [None], here
    [JNull], for a file that is missing or does not parse. *)
Definition is_valid_result (result : json) : outcome bool :=
  if negb (truthy result) then Ok false
  else match py_in "analysis" result with
       | Raise e => Raise e
       | Ok false => Ok false
       | Ok true =>
           match py_getitem result "analysis" with
           | Raise e => Raise e
           | Ok analysis =>
               if match analysis with
                  | JObj m => has_key "error" m
                  | _ => false
                  end
               then Ok false
               else all_in required_keys analysis
           end
       end.

(** *** Exceptions in pure code *)

Definition bind_outcome {A B} (r : outcome A) (k : A -> outcome B) : outcome B :=
  match r with
  | Ok a => k a
  | Raise e => Raise e
  end.

Local Notation "x <-? r ;; k" := (bind_outcome r (fun x => k))
  (at level 100, r at next level, right associativity).

(** A loop whose body may raise. *)
Fixpoint fold_outcome {A B} (f : B -> A -> outcome B) (l : list A) (b : B) : outcome B :=
  match l with
  | [] => Ok b
  | x :: rest => b' <-? f b x ;; fold_outcome f rest b'
  end.

(** [d[key]] on a dict. *)
Definition getitem (d : dict) (key : string) : outcome json :=
  match d !! key with
  | Some v => Ok v
  | None => Raise (OtherError "KeyError")
  end.

(** A method of strings is called on the value: [lower], [split]. *)
Definition str_of (j : json) : outcome string :=
  match j with
  | JStr s => Ok s
  | _ => Raise (OtherError "AttributeError")
  end.

(** *** [load_json_file] *)

(** A file that is to be read as JSON. *)
Inductive json_file :=
| FileMissing
| FileUnreadable (msg : string)      (* any other error of open or read *)
| FileUnparsable
| FileHolds (j : json).

(** [load_json_file(file_path)]: [None], here [JNull], for a file that is
    missing or does not parse. *)
Definition load_json_file (file : json_file) : outcome json :=
  match file with
  | FileHolds j => Ok j
  | FileMissing | FileUnparsable => Ok JNull
  | FileUnreadable msg => Raise (OtherError msg)
  end.

(** *** [fix_result] *)

Definition option_letters : list string := ["A"; "B"; "C"; "D"; "E"].

Definition empty_options : dict :=
  list_to_map ((fun k => (k, JStr EmptyString)) <$> option_letters).

(** What [fixed_analysis] is at first. *)
Definition empty_analysis : dict :=
  <["question" := JStr EmptyString]>
  (<["options" := JObj empty_options]>
  (<["correct_answer" := JStr EmptyString]>
  (<["explanation" := JStr EmptyString]> ∅))).

(** [fixed_analysis["options"][opt]]. *)
Definition get_option (fixed_analysis : dict) (opt : string) : outcome json :=
  options <-? getitem fixed_analysis "options" ;;
  py_getitem options opt.

(** [fixed_analysis["options"][opt] = v]. *)
Definition set_option (opt : string) (v : json) (fixed_analysis : dict) : outcome dict :=
  options <-? getitem fixed_analysis "options" ;;
  match options with
  | JObj o => Ok (<["options" := JObj (<[opt := v]> o)]> fixed_analysis)
  | _ => Raise (OtherError "does not support item assignment")
  end.

Definition key_mappings : list (string * list string) :=
  [("question", ["question"; "prompt"; "problem"]);
   ("correct_answer", ["correct_answer"; "answer"; "correct"; "solution"]);
   ("explanation", ["explanation"; "solution"; "reasoning"; "steps"])].

(** The inner loop over the possible keys: the value of the first one
    that [partial_json] has. *)
Fixpoint first_present (possible_keys : list string) (partial_json : dict) : option json :=
  match possible_keys with
  | [] => None
  | key :: rest =>
      match partial_json !! key with
      | Some v => Some v
      | None => first_present rest partial_json
      end
  end.

(** What is taken from [partial_json]. *)
Definition from_partial_json (partial_json fixed_analysis : dict) : outcome dict :=
  let fixed_analysis :=
    foldl (fun fa '(target_key, possible_keys) =>
             match first_present possible_keys partial_json with
             | Some v => <[target_key := v]> fa
             | None => fa
             end)
          fixed_analysis key_mappings in
  match partial_json !! "options" with
  | Some (JObj options) =>
      fold_outcome (fun fa opt =>
                      match options !! opt with
                      | Some v => set_option opt v fa
                      | None => Ok fa
                      end)
                   option_letters fixed_analysis
  | _ => Ok fixed_analysis
  end.

(** The loop over the lines that looks for the question; [question] is
    the value assigned last. *)
Fixpoint question_from_lines (lines : list string) (question : json) : json :=
  match lines with
  | [] => question
  | line :: rest =>
      if Py.contains "question:" (Py.lower line) then
        match rest with
        | next :: _ =>
            if truthy (JStr (Py.strip next)) then JStr (Py.strip next)      (* break *)
            else match Py.after_first ":" line with
                 | Some after => question_from_lines rest (JStr (Py.strip after))
                 | None => question_from_lines rest question
                 end
        | [] =>
            match Py.after_first ":" line with
            | Some after => question_from_lines rest (JStr (Py.strip after))
            | None => question_from_lines rest question
            end
        end
      else question_from_lines rest question
  end.

Definition fix_question (raw_response : json) (fixed_analysis : dict) : outcome dict :=
  question <-? getitem fixed_analysis "question" ;;
  if truthy question then Ok fixed_analysis
  else
    s <-? str_of raw_response ;;
    if Py.contains "question:" (Py.lower s)
    then Ok (<["question" := question_from_lines (Py.split_char Py.newline s) question]>
             fixed_analysis)
    else Ok fixed_analysis.

Definition option_markers : list string := ["A:"; "B:"; "C:"; "D:"; "E:"].

(** The body of the loop over the option markers; [marker[0]] is the
    letter. *)
Definition fix_option (raw_response : json) (fixed_analysis : dict) (marker : string)
  : outcome dict :=
  let opt := Py.slice marker 0 1 in
  current <-? get_option fixed_analysis opt ;;
  if truthy current then Ok fixed_analysis
  else
    found <-? py_in marker raw_response ;;
    if found then
      s <-? str_of raw_response ;;
      match Py.after_first marker s with
      | Some after => set_option opt (JStr (Py.strip (Py.first_line after))) fixed_analysis
      | None => Ok fixed_analysis
      end
    else Ok fixed_analysis.

(** The loop over the lines that looks for the correct answer. *)
Fixpoint answer_from_lines (lines : list string) (correct_answer : json) : json :=
  match lines with
  | [] => correct_answer
  | line :: rest =>
      let correct_answer :=
        if Py.contains "correct answer:" (Py.lower line)
           || Py.contains "answer:" (Py.lower line)
        then match Py.after_first ":" line with
             | Some after =>
                 match Py.strip after with
                 | String c _ =>
                     if Py.contains (String c EmptyString) "ABCDE"
                     then JStr (String c EmptyString)
                     else correct_answer
                 | EmptyString => correct_answer
                 end
             | None => correct_answer
             end
        else correct_answer in
      answer_from_lines rest correct_answer
  end.

Definition fix_correct_answer (raw_response : json) (fixed_analysis : dict)
  : outcome dict :=
  correct_answer <-? getitem fixed_analysis "correct_answer" ;;
  if truthy correct_answer then Ok fixed_analysis
  else
    s <-? str_of raw_response ;;
    if Py.contains "correct answer:" (Py.lower s) || Py.contains "answer:" (Py.lower s)
    then Ok (<["correct_answer"
               := answer_from_lines (Py.split_char Py.newline s) correct_answer]>
             fixed_analysis)
    else Ok fixed_analysis.

(** The lines after the line of the explanation, up to the first line
    with one of the markers. *)
Fixpoint explanation_lines (lines : list string) : list string :=
  match lines with
  | [] => []
  | line :: rest =>
      if Py.contains "question:" line || Py.contains "options:" line
         || Py.contains "correct answer:" line
      then []
      else line :: explanation_lines rest
  end.

(** The loop over the lines that looks for the explanation. *)
Fixpoint explanation_from_lines (lines : list string) (explanation : json) : json :=
  match lines with
  | [] => explanation
  | line :: rest =>
      let explanation :=
        if Py.contains "explanation:" (Py.lower line)
           || Py.contains "solution:" (Py.lower line)
        then JStr (Py.strip (Py.join (String Py.newline EmptyString)
                               (explanation_lines rest)))
        else explanation in
      explanation_from_lines rest explanation
  end.

Definition fix_explanation (raw_response : json) (fixed_analysis : dict) : outcome dict :=
  explanation <-? getitem fixed_analysis "explanation" ;;
  if truthy explanation then Ok fixed_analysis
  else
    s <-? str_of raw_response ;;
    if Py.contains "explanation:" (Py.lower s) || Py.contains "solution:" (Py.lower s)
    then Ok (<["explanation"
               := explanation_from_lines (Py.split_char Py.newline s) explanation]>
             fixed_analysis)
    else Ok fixed_analysis.

(** What is taken from [raw_response]. *)
Definition from_raw_response (raw_response : json) (fixed_analysis : dict) : outcome dict :=
  fixed_analysis <-? fix_question raw_response fixed_analysis ;;
  fixed_analysis <-? fold_outcome (fix_option raw_response) option_markers fixed_analysis ;;
  fixed_analysis <-? fix_correct_answer raw_response fixed_analysis ;;
  fix_explanation raw_response fixed_analysis.

(** The result that [fix_result] builds. *)
Definition fixed_result (question_number source_url : json) (fixed_analysis : dict) : dict :=
  <["question_number" := question_number]>
  (<["source_url" := source_url]>
  (<["analysis" := JObj fixed_analysis]> ∅)).

(** [fix_result(result)]; [None] is Python's [None]. *)
Definition fix_result (result : json) : outcome (option dict) :=
  if negb (truthy result) then Ok None
  else
    question_number <-? py_getitem result "question_number" ;;
    source_url <-? py_getitem result "source_url" ;;
    match result with
    | JObj m =>
        match m !! "analysis" with
        | Some (JObj analysis) =>
            if has_key "error" analysis then
              fixed_analysis <-?
                match analysis !! "partial_json" with
                | Some (JObj partial_json) => from_partial_json partial_json empty_analysis
                | _ => Ok empty_analysis
                end ;;
              fixed_analysis <-?
                match analysis !! "raw_response" with
                | Some raw_response => from_raw_response raw_response fixed_analysis
                | None => Ok fixed_analysis
                end ;;
              question <-? getitem fixed_analysis "question" ;;
              correct_answer <-? getitem fixed_analysis "correct_answer" ;;
              explanation <-? getitem fixed_analysis "explanation" ;;
              if truthy question && truthy correct_answer && truthy explanation
              then Ok (Some (fixed_result question_number source_url fixed_analysis))
              else Ok None
            else Ok None
        | _ => Ok None
        end
    | _ => Ok None               (* the subscripts above have raised *)
    end.

(** The shape [fixed_analysis] has at first and keeps: its entries are
    the four required ones, and the options are a dict with an entry for
    each of the five letters. *)
Definition analysis_shape (fixed_analysis : dict) : Prop :=
  (forall k, is_Some (fixed_analysis !! k) <-> k ∈ required_keys)
  /\ exists options,
       fixed_analysis !! "options" = Some (JObj options)
       /\ forall opt, opt ∈ option_letters -> is_Some (options !! opt).

(** *** [process_results] *)

Definition all_questions_name : string := "all_questions.json".

Section Combine.

(** [str()] on the values that are not strings. *)
Variable py_repr : json -> string.

(** The name of the file a result is saved to in the final directory. *)
Definition final_name (question_number : json) : string :=
  "question_" +:+ Sequential.py_str py_repr question_number +:+ ".json".

Definition lift {A} (r : outcome A) : M A :=
  match r with
  | Ok a => ret a
  | Raise e => raise e
  end.

(** The loop of [process_results] over the files that [glob] has found;
    [io] decides how the write of a file of the final directory ends. *)
Fixpoint process_files (io : string -> io_outcome) (json_files : list json_file)
    (combined_results : list json) : M (list json) :=
  match json_files with
  | [] => ret combined_results
  | file :: rest =>
      result <- lift (load_json_file file) ;;
      valid <- lift (is_valid_result result) ;;
      if valid then
        question_number <- lift (py_getitem result "question_number") ;;
        write_output (final_name question_number) result
                     (io (final_name question_number)) ;;;
        process_files io rest (combined_results ++ [result])%list
      else
        fixed <- lift (fix_result result) ;;
        match fixed with
        | Some fixed_result =>
            if truthy (JObj fixed_result) then
              question_number <- lift (getitem fixed_result "question_number") ;;
              write_output (final_name question_number) (JObj fixed_result)
                           (io (final_name question_number)) ;;;
              process_files io rest (combined_results ++ [JObj fixed_result])%list
            else process_files io rest combined_results
        | None => process_files io rest combined_results
        end
  end.

(** [process_results()] on the files of the directory of results; the
    field [outputs] of the world is the final directory. *)
Definition process_results (io : string -> io_outcome) (json_files : list json_file)
  : M (list json) :=
  combined_results <- process_files io json_files [] ;;
  write_output all_questions_name (JArr combined_results) (io all_questions_name) ;;;
  ret combined_results.

End Combine.

(** *** Notions used to describe the combination *)

(** A file that ends [process_results] with an exception: it cannot be
    read, or it holds a value that is not falsy and has no entry
    [question_number]. *)
Definition stops_combination (file : json_file) : Prop :=
  match file with
  | FileUnreadable _ => True
  | FileHolds j =>
      truthy j = true /\ forall m, j = JObj m -> m !! "question_number" = None
  | _ => False
  end.

(** A file that [process_results] passes over: it is missing or does not
    parse; or it holds a falsy value; or it holds a result with question
    number and source whose analysis is an object that has no error entry
    and lacks a required key. *)
Inductive left_out : json_file -> Prop :=
| left_out_missing : left_out FileMissing
| left_out_unparsable : left_out FileUnparsable
| left_out_falsy j : truthy j = false -> left_out (FileHolds j)
| left_out_incomplete m analysis key :
    is_Some (m !! "question_number") ->
    is_Some (m !! "source_url") ->
    m !! "analysis" = Some (JObj analysis) ->
    analysis !! "error" = None ->
    key ∈ required_keys ->
    analysis !! key = None ->
    left_out (FileHolds (JObj m)).

End CombineResults.

(** ** Concrete data for the examples *)

Module Scenario.

Local Open Scope string_scope.

(** The text of a small object, [{"a": 1}]. *)
Definition object_body : string := Py.quoted "a" +:+ ": 1".
Definition object_text : string := "{" +:+ object_body +:+ "}".

(** An instance of [json.loads] that knows this one text. *)
Definition loads (s : string) : loads_outcome :=
  if bool_decide (s = object_text)
  then Loaded {[ "a" := JNum 1 ]}
  else LoadsDecodeError "Expecting value".

(** An instance of [str()] on values that are not strings. *)
Definition repr (v : json) : string := "<value>".

(** An instance of the manual extraction of the exam pack driver. *)
Definition no_extraction (text : string) (qd : question_data) : dict := ∅.

Definition a_page : page :=
  Page "https://example.org/q" "Which of the following is assumed?"
       (JObj ∅) (JObj ∅) ∅ "<div>Which of the following is assumed?</div>".

(** An answer without braces. *)
Definition plain_answer : string := "The correct answer is B.".

Definition timestamp : string := "2025-01-01 00:00:00".

(** Where the pages of the exam packs are. *)
Definition pages_path : string := "/srv/backend/exports/html_specific_exampacks".

Definition fresh : world := World ∅ CkAbsent [].

Definition two_pages : gset string := {[ "cr_1.html"; "cr_2.html" ]}.

Definition ten_pages : gset string :=
  {[ "cr_01.html"; "cr_02.html"; "cr_03.html"; "cr_04.html"; "cr_05.html";
     "cr_06.html"; "cr_07.html"; "cr_08.html"; "cr_09.html"; "cr_10.html" ]}.

(** Ten pages with names that the patterns of both drivers find. *)
Definition ten_question_pages : gset string :=
  {[ "question_01.html"; "question_02.html"; "question_03.html"; "question_04.html";
     "question_05.html"; "question_06.html"; "question_07.html"; "question_08.html";
     "question_09.html"; "question_10.html" ]}.

(** Two pages whose names differ in an inner extension. *)
Definition colliding_pages : gset string := {[ "a.html.html"; "a.json.html" ]}.

(** The service answers at once; every file operation succeeds. *)
Definition answering : Sequential.item_env :=
  Sequential.ItemEnv (Ok a_page) (fun _ => CallText plain_answer)
                     IoOk true true IoOk timestamp.

(** The service answers at once; the checkpoint cannot be written. *)
Definition answering_unsaved : Sequential.item_env :=
  Sequential.ItemEnv (Ok a_page) (fun _ => CallText plain_answer)
                     IoOk true true (IoFailsOpen "Permission denied") timestamp.

(** The service fails three times and answers the fourth request. *)
Definition flaky : Sequential.item_env :=
  Sequential.ItemEnv (Ok a_page)
                     (fun n => if (n <? 3)%nat then CallFails "timed out"
                               else CallText plain_answer)
                     IoOk true true IoOk timestamp.

(** The service fails every request; the error log can be written. *)
Definition down : Sequential.item_env :=
  Sequential.ItemEnv (Ok a_page) (fun _ => CallFails "connection refused")
                     IoOk true true IoOk timestamp.

(** The service fails every request and the error log cannot be opened. *)
Definition down_unlogged : Sequential.item_env :=
  Sequential.ItemEnv (Ok a_page) (fun _ => CallFails "connection refused")
                     IoOk false false IoOk timestamp.

(** The exam pack driver: the service answers at once; every file
    operation succeeds. *)
Definition answering_exam : ExamPacks.item_env :=
  ExamPacks.ItemEnv (Ok a_page) (fun _ => CallText plain_answer)
                    (fun _ => true) true IoOk IoOk true timestamp pages_path.

(** A saved result with a complete analysis. *)
Definition complete_result : dict :=
  {[ "analysis" :=
       JObj (<["question" := JStr "Which?"]>
            (<["options" := JObj ∅]>
            (<["correct_answer" := JStr "B"]>
            (<["explanation" := JStr "Because."]> ∅)))) ]}.

(** An instance of [json.loads] that breaks on every text with an
    exception that is no [JSONDecodeError]. *)
Definition breaking_loads (s : string) : loads_outcome :=
  LoadsOtherError "maximum recursion depth exceeded".

(** The service answers every request with the text of the small object. *)
Definition answering_object : Sequential.item_env :=
  Sequential.ItemEnv (Ok a_page) (fun _ => CallText object_text)
                     IoOk true true IoOk timestamp.

(** The page cannot be read. *)
Definition unreadable : Sequential.item_env :=
  Sequential.ItemEnv (Raise (FileNotFoundError "No such file or directory"))
                     (fun _ => CallText plain_answer)
                     IoOk true true IoOk timestamp.

(** The second request ends with an exception that is no failed
    request. *)
Definition breaking_service : Sequential.item_env :=
  Sequential.ItemEnv (Ok a_page)
                     (fun n => if (n <? 1)%nat then CallFails "timed out"
                               else CallBroken "Expecting value")
                     IoOk true true IoOk timestamp.

(** An answer with the five entries the sequential driver asks for. *)
Definition full_answer : dict :=
  <["argument" := JStr "Sales fell although prices were cut."]>
  (<["question_stem" := JStr "Which of the following is assumed?"]>
  (<["options" := JObj (<["A" := JStr "Demand is elastic."]> ∅)]>
  (<["correct_answer" := JStr "B"]>
  (<["explanation" := JStr "The argument assumes it."]> ∅)))).

(** The same answer with an error entry. *)
Definition refused_answer : dict :=
  <["error" := JStr "model refused"]> full_answer.

(** Instances of [json.loads] that know the small text as these
    answers. *)
Definition loads_full (s : string) : loads_outcome :=
  if bool_decide (s = object_text) then Loaded full_answer
  else LoadsDecodeError "Expecting value".

Definition loads_refused (s : string) : loads_outcome :=
  if bool_decide (s = object_text) then Loaded refused_answer
  else LoadsDecodeError "Expecting value".

(** The exam pack driver: the service fails every request; every file
    operation succeeds. *)
Definition down_exam : ExamPacks.item_env :=
  ExamPacks.ItemEnv (Ok a_page) (fun _ => CallFails "connection refused")
                    (fun _ => true) true IoOk IoOk true timestamp pages_path.

(** The same, and the error log can be written by the handler only. *)
Definition down_exam_unlogged : ExamPacks.item_env :=
  ExamPacks.ItemEnv (Ok a_page) (fun _ => CallFails "connection refused")
                    (fun _ => false) false IoOk IoOk true timestamp pages_path.


(** A saved result whose analysis is an error with a partial answer. *)
Definition partial_answer : dict :=
  <["prompt" := JStr "Which of the following is assumed?"]>
  (<["answer" := JStr "B"]>
  (<["reasoning" := JStr "The argument assumes it."]> ∅)).

Definition error_analysis : dict :=
  <["error" := JStr "Missing required keys in JSON: ['question', 'options', 'correct_answer', 'explanation']"]>
  (<["partial_json" := JObj partial_answer]>
  (<["raw_response" := JStr "A: Demand is elastic."]> ∅)).

Definition error_result : dict :=
  <["question_number" := JStr "7"]>
  (<["source_url" := JStr "https://example.org/q"]>
  (<["metadata" := JObj ∅]>
  (<["analysis" := JObj error_analysis]> ∅))).

(** A saved result with a complete analysis, a question number and a
    source. *)
Definition valid_result : dict :=
  <["question_number" := JStr "8"]>
  (<["source_url" := JStr "https://example.org/q"]>
  (<["analysis" :=
       JObj (<["question" := JStr "Which?"]>
            (<["options" := JObj ∅]>
            (<["correct_answer" := JStr "B"]>
            (<["explanation" := JStr "Because."]> ∅))))]> ∅)).

(** Entries of an aggregate file. *)
Definition old_entry (n : string) : json :=
  JObj (<["question_number" := JStr n]> (<["analysis" := JObj ∅]> ∅)).

(** A world with an aggregate file of two entries. *)
Definition with_aggregate : world :=
  World {[ ExamPacks.all_results_name := Complete (JArr [old_entry "1"; old_entry "2"]) ]}
        CkAbsent [].

(** A world whose aggregate file holds a list with a string. *)
Definition with_odd_aggregate : world :=
  World {[ ExamPacks.all_results_name := Complete (JArr [JStr "note"]) ]} CkAbsent [].

End Scenario.

(** * Theorems *)

(** Membership in lists built from [++] and [::]. *)
Ltac list_solver :=
  intros;
  rewrite ?elem_of_app, ?elem_of_cons, ?elem_of_nil in *;
  intuition (discriminate || congruence || eauto).

(** ** Facts about the string primitives *)

Section StringFacts.

Local Open Scope string_scope.
Local Open Scope Z_scope.

Lemma append_nil (s : string) : EmptyString +:+ s = s.
Proof. reflexivity. Qed.

Lemma append_cons (c : ascii) (a s : string) : String c a +:+ s = String c (a +:+ s).
Proof. reflexivity. Qed.

Lemma append_assoc (a b c : string) : (a +:+ b) +:+ c = a +:+ (b +:+ c).
Proof.
  induction a as [|x a IH]; [done |]. by rewrite !append_cons, IH.
Qed.

Lemma length_append (a b : string) :
  String.length (a +:+ b) = (String.length a + String.length b)%nat.
Proof.
  induction a as [|c a IH]; [done |]. rewrite append_cons. simpl. by rewrite IH.
Qed.

Lemma find_start_0 (sub s : string) :
  Py.find sub s 0 = match Py.find_from sub s 0 with
                    | Some i => Z.of_nat i
                    | None => -1
                    end.
Proof.
  unfold Py.find. simpl.
  destruct (Z.ltb_spec (Z.of_nat (String.length s)) 0); [lia | done].
Qed.

Lemma find_from_None_off (sub s : string) (off off' : nat) :
  Py.find_from sub s off = None -> Py.find_from sub s off' = None.
Proof.
  revert off off'. induction s as [|c s IH]; intros off off'; cbn [Py.find_from].
  - by destruct (String.prefix sub EmptyString).
  - destruct (String.prefix sub (String c s)); [done | apply IH].
Qed.

Lemma find_absent (sub s : string) :
  Py.find sub s 0 = -1 <-> Py.find_from sub s 0 = None.
Proof.
  rewrite find_start_0. destruct (Py.find_from sub s 0); split; try done; lia.
Qed.

Lemma rfind_from_None_off (sub s : string) (off off' : nat) :
  Py.rfind_from sub s off = None -> Py.rfind_from sub s off' = None.
Proof.
  revert off off'. induction s as [|c s IH]; intros off off'; cbn [Py.rfind_from].
  - by destruct (String.prefix sub EmptyString).
  - destruct (Py.rfind_from sub s (S off)) eqn:E; [done |].
    rewrite (IH _ (S off') E).
    by destruct (String.prefix sub (String c s)).
Qed.

Lemma rfind_absent (sub s : string) :
  Py.rfind sub s = -1 <-> Py.rfind_from sub s 0 = None.
Proof.
  unfold Py.rfind. destruct (Py.rfind_from sub s 0); split; try done; lia.
Qed.

Lemma prefix_empty (s : string) : String.prefix EmptyString s = true.
Proof. by destruct s. Qed.

(** A one-character pattern is a prefix of a text according to the first
    character of the text alone. *)
Lemma prefix_char_app (c a : ascii) (s t : string) :
  String.prefix (String c EmptyString) (String a (s +:+ t))
  = String.prefix (String c EmptyString) (String a s).
Proof. cbn [String.prefix]. rewrite !prefix_empty. by destruct (ascii_dec c a). Qed.

Lemma find_from_char_app (c : ascii) (p o : string) (off : nat) :
  Py.find_from (String c EmptyString) p off = None ->
  Py.find_from (String c EmptyString) (p +:+ String c o) off
  = Some (off + String.length p)%nat.
Proof.
  revert off. induction p as [|a p IH]; intros off H.
  - rewrite append_nil. cbn [Py.find_from String.prefix String.length].
    rewrite prefix_empty. destruct (ascii_dec c c); [f_equal; lia | done].
  - rewrite append_cons.
    cbn [Py.find_from] in *. rewrite prefix_char_app.
    destruct (String.prefix (String c EmptyString) (String a p)); [done |].
    rewrite (IH _ H). f_equal. simpl. lia.
Qed.

Lemma rfind_from_char_app (c : ascii) (a s : string) (off : nat) :
  Py.rfind_from (String c EmptyString) s 0 = None ->
  Py.rfind_from (String c EmptyString) (a +:+ String c s) off
  = Some (off + String.length a)%nat.
Proof.
  intros H. revert off. induction a as [|b a IH]; intros off.
  - rewrite append_nil. cbn [Py.rfind_from String.prefix String.length].
    rewrite (rfind_from_None_off _ _ _ (S off) H), prefix_empty.
    destruct (ascii_dec c c); [f_equal; lia | done].
  - rewrite append_cons.
    cbn [Py.rfind_from]. rewrite IH. f_equal. simpl. lia.
Qed.

Lemma substring_skip (p s : string) (m : nat) :
  String.substring (String.length p) m (p +:+ s) = String.substring 0 m s.
Proof. induction p as [|c p IH]; [done |]. rewrite append_cons. apply IH. Qed.

Lemma substring_whole (o s : string) :
  String.substring 0 (String.length o) (o +:+ s) = o.
Proof.
  induction o as [|c o IH].
  - by destruct s.
  - rewrite append_cons. simpl. by rewrite IH.
Qed.

Lemma slice_middle (p o s : string) :
  Py.slice (p +:+ o +:+ s) (Z.of_nat (String.length p))
           (Z.of_nat (String.length p) + Z.of_nat (String.length o)) = o.
Proof.
  unfold Py.slice, Py.clip. rewrite !length_append.
  destruct (Z.ltb_spec (Z.of_nat (String.length p)) 0); [lia |].
  destruct (Z.ltb_spec (Z.of_nat (String.length p) + Z.of_nat (String.length o)) 0); [lia |].
  rewrite !Z.min_l by lia.
  replace (Z.of_nat (String.length p) + Z.of_nat (String.length o)
           - Z.of_nat (String.length p)) with (Z.of_nat (String.length o)) by lia.
  rewrite !Nat2Z.id, substring_skip. apply substring_whole.
Qed.

Lemma substring_none (s : string) (n : nat) : String.substring n 0 s = EmptyString.
Proof. revert n. induction s as [|c s IH]; intros [|n]; simpl; auto. Qed.

(** A slice that ends at offset 0 is empty. *)
Lemma slice_to_0 (s : string) (a : Z) : 0 <= a -> Py.slice s a 0 = EmptyString.
Proof.
  intros Ha. unfold Py.slice.
  set (len := Z.of_nat (String.length s)).
  assert (Hb : Py.clip len 0 = 0) by (unfold Py.clip; simpl; lia).
  assert (Hc : 0 <= Py.clip len a).
  { unfold Py.clip. destruct (Z.ltb_spec a 0); lia. }
  rewrite Hb. replace (Z.to_nat (0 - Py.clip len a)) with 0%nat by lia.
  apply substring_none.
Qed.

Lemma find_nonneg_or_absent (sub s : string) (start : Z) :
  Py.find sub s start = -1 \/ 0 <= Py.find sub s start.
Proof.
  unfold Py.find. destruct (_ <? _); [by left |].
  destruct (Py.find_from _ _ _); [right; lia | by left].
Qed.

End StringFacts.

(** ** The parsing paths of [generate_response] *)

Section Parsing.

Local Open Scope string_scope.
Local Open Scope Z_scope.

Lemma contains_false (sub s : string) :
  Py.contains sub s = false <-> Py.find_from sub s 0 = None.
Proof.
  unfold Py.contains. rewrite <- find_absent.
  destruct (find_nonneg_or_absent sub s 0) as [H|H]; rewrite ?H; split; try done; lia.
Qed.

Lemma find_from_drop (sub s : string) (n off : nat) :
  Py.find_from sub s 0 = None -> Py.find_from sub (Py.drop_chars n s) off = None.
Proof.
  revert n off. induction s as [|c s IH]; intros n off H.
  - destruct n; cbn [Py.find_from Py.drop_chars] in *;
      by destruct (String.prefix sub EmptyString).
  - destruct n as [|n].
    + apply (find_from_None_off _ _ _ _ H).
    + cbn [Py.find_from] in H. cbn [Py.drop_chars].
      destruct (String.prefix sub (String c s)); [done |].
      apply IH, (find_from_None_off _ _ _ _ H).
Qed.

(** A pattern found by no forward search is found by no backward search. *)
Lemma rfind_from_None (sub s : string) (off off' : nat) :
  Py.find_from sub s off = None -> Py.rfind_from sub s off' = None.
Proof.
  revert off off'. induction s as [|c s IH]; intros off off';
    cbn [Py.find_from Py.rfind_from].
  - by destruct (String.prefix sub EmptyString).
  - destruct (String.prefix sub (String c s)); [done |].
    intros H. by rewrite (IH _ (S off') H).
Qed.

(** A pattern that does not occur is not found from any later start. *)
Lemma find_absent_from (sub s : string) (start : Z) :
  Py.contains sub s = false -> Py.find sub s start = -1.
Proof.
  intros H%contains_false. unfold Py.find.
  destruct (_ <? _); [done |]. by rewrite find_from_drop.
Qed.

(** The candidate of a response that embeds an object between prose without
    braces of the respective kind is the object. *)
Lemma json_candidate_embedded (pre body post : string) :
  Py.contains "{" pre = false ->
  Py.contains "}" post = false ->
  Sequential.json_candidate (pre +:+ ("{" +:+ body +:+ "}") +:+ post)
  = Some ("{" +:+ body +:+ "}").
Proof.
  intros Hpre%contains_false Hpost%contains_false.
  unfold Sequential.json_candidate.
  set (obj := "{" +:+ body +:+ "}").
  assert (Hf : Py.find "{" (pre +:+ obj +:+ post) 0 = Z.of_nat (String.length pre)).
  { rewrite find_start_0. subst obj.
    rewrite !append_cons, append_nil.
    by rewrite (find_from_char_app _ _ _ _ Hpre). }
  assert (Hr : Py.rfind "}" (pre +:+ obj +:+ post)
               = Z.of_nat (String.length pre) + Z.of_nat (String.length obj) - 1).
  { unfold Py.rfind. unfold obj at 1.
    replace (pre +:+ ("{" +:+ body +:+ "}") +:+ post)
      with ((pre +:+ "{" +:+ body) +:+ String "}"%char post)
      by (by rewrite !append_assoc, !append_cons, !append_nil).
    rewrite (rfind_from_char_app _ _ _ _ (rfind_from_None _ _ _ 0%nat Hpost)),
      !length_append.
    subst obj. rewrite !length_append. simpl. lia. }
  rewrite Hf, Hr.
  assert (0 < Z.of_nat (String.length obj))
    by (subst obj; rewrite length_append; simpl; lia).
  clearbody obj.
  destruct (Z.leb_spec 0 (Z.of_nat (String.length pre))); [| lia].
  destruct (Z.ltb_spec (Z.of_nat (String.length pre))
              (Z.of_nat (String.length pre) + Z.of_nat (String.length obj) - 1 + 1));
    [| lia].
  simpl. f_equal.
  replace (Z.of_nat (String.length pre) + Z.of_nat (String.length obj) - 1 + 1)
    with (Z.of_nat (String.length pre) + Z.of_nat (String.length obj)) by lia.
  apply slice_middle.
Qed.

(** Without an opening brace there is no candidate. *)
Lemma json_candidate_no_brace (text : string) :
  Py.contains "{" text = false -> Sequential.json_candidate text = None.
Proof.
  intros H. unfold Sequential.json_candidate.
  rewrite (find_absent_from _ _ 0 H). done.
Qed.

Lemma marked_value_absent (text marker : string) :
  Py.contains marker text = false -> Sequential.marked_value text marker = None.
Proof. unfold Py.contains, Sequential.marked_value. by intros ->. Qed.

Lemma extract_options_no_brace (text : string) :
  Py.contains "}" text = false ->
  Sequential.extract_options text = Sequential.empty_options.
Proof.
  intros H. unfold Sequential.extract_options.
  destruct (Z.leb_spec 0 (Py.find (Py.quoted "options") text 0)) as [Hs|]; [| done].
  rewrite (find_absent_from _ _ _ H). simpl (-1 + 1).
  rewrite slice_to_0 by done. reflexivity.
Qed.

Lemma lookup_set_if_found_ne (key k : string) (v : option string) (d : dict) :
  key ≠ k -> Sequential.set_if_found key v d !! k = d !! k.
Proof. intros. destruct v; simpl; [by rewrite lookup_insert_ne | done]. Qed.

Lemma lookup_set_if_found_eq (key : string) (v : option string) (d : dict) :
  Sequential.set_if_found key v d !! key
  = match v with Some s => Some (JStr s) | None => d !! key end.
Proof. destruct v; simpl; [by rewrite lookup_insert_eq | done]. Qed.

End Parsing.

(** ** The monad of effects *)

Section Steps.

Context {A B : Type}.

Lemma world_after_app (w : world) (e1 e2 : list event) :
  world_after w (e1 ++ e2) = world_after (world_after w e1) e2.
Proof. apply foldl_app. Qed.

Lemma steps_ret (a : A) (s : state) : steps (ret a) s (Ok a) [].
Proof. unfold steps, ret. destruct s. simpl. by rewrite app_nil_r. Qed.

Lemma steps_raise (e : exn) (s : state) : steps (raise e) s (@Raise A e) [].
Proof. unfold steps, raise. destruct s. simpl. by rewrite app_nil_r. Qed.

Lemma steps_bind (m : M A) (k : A -> M B) s a e1 r e2 :
  steps m s (Ok a) e1 ->
  steps (k a) (State (world_after (cur s) e1) (log s ++ e1)) r e2 ->
  steps (bind m k) s r (e1 ++ e2).
Proof.
  unfold steps, bind. intros -> ->. simpl.
  by rewrite world_after_app, app_assoc.
Qed.

Lemma steps_bind_raise (m : M A) (k : A -> M B) s e e1 :
  steps m s (Raise e) e1 -> steps (bind m k) s (Raise e) e1.
Proof. unfold steps, bind. by intros ->. Qed.

Lemma steps_try_ok (m : M A) (h : exn -> M A) s a e1 :
  steps m s (Ok a) e1 -> steps (try_except m h) s (Ok a) e1.
Proof. unfold steps, try_except. by intros ->. Qed.

Lemma steps_try_raise (m : M A) (h : exn -> M A) s e e1 r e2 :
  steps m s (Raise e) e1 ->
  steps (h e) (State (world_after (cur s) e1) (log s ++ e1)) r e2 ->
  steps (try_except m h) s r (e1 ++ e2).
Proof.
  unfold steps, try_except. intros -> ->. simpl.
  by rewrite world_after_app, app_assoc.
Qed.

Lemma steps_events (m : M A) s r e e' : steps m s r e -> e = e' -> steps m s r e'.
Proof. by intros ? <-. Qed.

(** A computation ends in one way only. *)
Lemma steps_det (m : M A) s r r' e e' :
  steps m s r e -> steps m s r' e' -> r = r' /\ e = e'.
Proof.
  unfold steps. intros -> [= -> _ He]. split; [done |].
  by apply app_inv_head in He.
Qed.

End Steps.

Lemma world_after_nil_state (s : state) :
  State (world_after (cur s) []) (log s ++ []) = s.
Proof. destruct s. simpl. by rewrite app_nil_r. Qed.

Lemma steps_emit (e : event) (s : state) : steps (emit e) s (Ok tt) [e].
Proof. done. Qed.

Lemma steps_write_output name content io s :
  exists r evs, steps (write_output name content io) s r evs /\
    match io with
    | IoOk => r = Ok tt /\ evs = [EvOutputOpen name; EvOutputDump name content]
    | IoFailsOpen msg => r = Raise (OtherError msg) /\ evs = []
    | IoFailsDump msg => r = Raise (OtherError msg) /\ evs = [EvOutputOpen name]
    end.
Proof.
  destruct io; do 2 eexists; (split; [| split; reflexivity]).
  - apply (steps_bind _ _ _ tt [_] _ [_]); apply steps_emit.
  - apply steps_raise.
  - apply (steps_bind _ _ _ tt [_] _ []); [apply steps_emit | apply steps_raise].
Qed.

Lemma steps_append_error_log line ok s :
  steps (append_error_log line ok) s
        (if ok then Ok tt else Raise (OtherError "error log"))
        (if ok then [EvErrorLog line] else []).
Proof. destruct ok; [apply steps_emit | apply steps_raise]. Qed.

(** ** Prefixes of a run *)

Lemma always_nil (P : world -> Prop) w : P w -> always P w [].
Proof. intros H p Hp. apply prefix_nil_inv in Hp as ->. done. Qed.

Lemma always_cons (P : world -> Prop) w e evs :
  P w -> always P (apply_event w e) evs -> always P w (e :: evs).
Proof.
  intros Hw H p Hp. destruct p as [|e' p]; [done |].
  apply prefix_cons_inv_1 in Hp as He. subst e'.
  apply prefix_cons_inv_2 in Hp. simpl. by apply H.
Qed.

Lemma always_app (P : world -> Prop) w e1 e2 :
  always P w e1 -> always P (world_after w e1) e2 -> always P w (e1 ++ e2).
Proof.
  revert w. induction e1 as [|e e1 IH]; intros w H1 H2; [done |].
  simpl. apply always_cons.
  - apply (H1 []), prefix_nil.
  - apply IH; [| done]. intros p Hp. apply (H1 (e :: p)). by apply prefix_cons.
Qed.

Lemma always_here (P : world -> Prop) w evs : always P w evs -> P w.
Proof. intros H. apply (H []), prefix_nil. Qed.

Lemma always_end (P : world -> Prop) w evs : always P w evs -> P (world_after w evs).
Proof. intros H. by apply H. Qed.

(** Events that each preserve [P] preserve it throughout. *)
Lemma always_preserved (P : world -> Prop) w evs :
  Forall (fun e => forall w', P w' -> P (apply_event w' e)) evs ->
  P w -> always P w evs.
Proof.
  revert w. induction evs as [|e evs IH]; intros w Hall Hw.
  - by apply always_nil.
  - apply Forall_cons in Hall as [He Hall]. apply always_cons; auto.
Qed.

Lemma always_impl (P Q : world -> Prop) w evs :
  (forall w', P w' -> Q w') -> always P w evs -> always Q w evs.
Proof. intros HPQ H p Hp. by apply HPQ, H. Qed.

Lemma world_after_requests w reqs : Forall is_request reqs -> world_after w reqs = w.
Proof.
  induction 1 as [|e reqs He _ IH]; [done |].
  simpl. by destruct e.
Qed.

(** ** The sequential driver: one item *)

Section SequentialItem.

Variable json_loads : string -> loads_outcome.
Variable py_repr : json -> string.

Local Abbreviation generate_response := (Sequential.generate_response json_loads).
Local Abbreviation process_file_sequentially :=
  (Sequential.process_file_sequentially json_loads py_repr).
Local Abbreviation process_loop := (Sequential.process_loop json_loads py_repr).

(** The recursion budget of [generate_response] is never used up: the
    function satisfies the recursive equation of the source. *)
Lemma generate_response_unfold service qd retry_count :
  generate_response service qd retry_count
  = (emit (EvRequest (question_number qd) retry_count) ;;;
     match service retry_count with
     | CallText response_text =>
         match Sequential.parse_response json_loads response_text qd with
         | Ok d => ret d
         | Raise _ =>
             if (retry_count <? Sequential.MAX_RETRIES)%nat
             then generate_response service qd (S retry_count)
             else ret (Sequential.error_dict
                         ("Failed to extract valid JSON after "
                          +:+ pretty Sequential.MAX_RETRIES +:+ " retries"))
         end
     | CallBroken msg => raise (OtherError msg)
     | CallFails msg =>
         if (retry_count <? Sequential.MAX_RETRIES)%nat
         then generate_response service qd (S retry_count)
         else ret (Sequential.error_dict
                     ("API request failed after "
                      +:+ pretty Sequential.MAX_RETRIES +:+ " retries: " +:+ msg))
     end).
Proof.
  unfold Sequential.generate_response.
  destruct (Nat.ltb_spec retry_count Sequential.MAX_RETRIES) as [Hlt|Hge].
  - replace (Sequential.MAX_RETRIES - retry_count)%nat
      with (S (Sequential.MAX_RETRIES - S retry_count)) by lia.
    cbn [Sequential.generate_response_from].
    apply Nat.ltb_lt in Hlt. by rewrite Hlt.
  - apply Nat.ltb_ge in Hge as Hge'.
    destruct (Sequential.MAX_RETRIES - retry_count)%nat;
      cbn [Sequential.generate_response_from]; by rewrite Hge'.
Qed.

(** [generate_response] only sends requests. *)
Lemma generate_response_from_steps budget service qd retry_count s :
  exists r reqs,
    steps (Sequential.generate_response_from json_loads budget service qd retry_count)
          s r reqs
    /\ Forall is_request reqs.
Proof.
  revert retry_count s. induction budget as [|budget IH]; intros rc s.
  - cbn [Sequential.generate_response_from].
    destruct (service rc) as [msg|msg|text].
    + destruct (rc <? Sequential.MAX_RETRIES)%nat;
        eexists _, [EvRequest (question_number qd) rc];
        (split; [by destruct s | by repeat constructor]).
    + eexists _, [EvRequest (question_number qd) rc].
      split; [by destruct s | by repeat constructor].
    + destruct (Sequential.parse_response json_loads text qd);
        [| destruct (rc <? Sequential.MAX_RETRIES)%nat ];
        eexists _, [EvRequest (question_number qd) rc];
        (split; [by destruct s | by repeat constructor]).
  - cbn [Sequential.generate_response_from].
    set (s1 := State (world_after (cur s) [EvRequest (question_number qd) rc])
                     (log s ++ [EvRequest (question_number qd) rc])).
    destruct (IH (S rc) s1) as (r & reqs & Hr & Hreqs).
    assert (Hretry : exists r reqs,
      steps (emit (EvRequest (question_number qd) rc) ;;;
             Sequential.generate_response_from json_loads budget service qd (S rc))
            s r reqs /\ Forall is_request reqs).
    { exists r, ([EvRequest (question_number qd) rc] ++ reqs). split.
      - eapply steps_bind; [apply steps_emit | exact Hr].
      - by repeat constructor. }
    destruct (service rc) as [msg|msg|text].
    + destruct (rc <? Sequential.MAX_RETRIES)%nat; [exact Hretry |].
      eexists _, [EvRequest (question_number qd) rc].
      split; [by destruct s | by repeat constructor].
    + eexists _, [EvRequest (question_number qd) rc].
      split; [by destruct s | by repeat constructor].
    + destruct (Sequential.parse_response json_loads text qd);
        [| destruct (rc <? Sequential.MAX_RETRIES)%nat; [exact Hretry |] ];
        eexists _, [EvRequest (question_number qd) rc];
        (split; [by destruct s | by repeat constructor]).
Qed.


Lemma generate_response_steps service qd s :
  exists r reqs,
    generate_response service qd 0 s = (r, State (cur s) (log s ++ reqs))
    /\ Forall is_request reqs.
Proof.
  destruct (generate_response_from_steps (Sequential.MAX_RETRIES - 0) service qd 0 s)
    as (r & reqs & Hr & Hreqs).
  exists r, reqs. split; [| done].
  unfold steps in Hr. by rewrite world_after_requests in Hr.
Qed.

(** What one call of [process_file_sequentially] does, by its result. *)
Lemma process_file_sequentially_spec env f pf s :
  exists r evs,
    steps (process_file_sequentially env f pf) s r evs /\
    match r with
    | Ok (FileResult Skipped f') => f' = f /\ f ∈ pf /\ evs = []
    | Ok (FileResult Processed f') =>
        f' = f /\ (f ∉ pf) /\
        exists reqs content,
          Forall is_request reqs /\
          evs = reqs ++ [EvOutputOpen (Sequential.output_name f);
                         EvOutputDump (Sequential.output_name f) content]
    | Ok (FileResult Errored f') =>
        f' = f /\ (f ∉ pf) /\
        exists reqs opens line,
          Forall is_request reqs /\ Sequential.unfinished_output f opens /\
          evs = reqs ++ opens ++ [EvErrorLog line]
    | Raise e =>
        (f ∉ pf) /\ Sequential.handler_log_ok env = false /\
        exists reqs opens,
          Forall is_request reqs /\ Sequential.unfinished_output f opens /\
          evs = reqs ++ opens
    end.
Proof.
  unfold Sequential.process_file_sequentially. case_bool_decide as Hin.
  { exists (Ok (FileResult Skipped f)), []. split; [apply steps_ret | done]. }
  unfold steps, try_except, bind.
  destruct (Sequential.html env) as [p|e0] eqn:Hhtml.
  2: { cbn. unfold append_error_log.
       destruct (Sequential.handler_log_ok env) eqn:Hh; cbn.
       - eexists _, ([] ++ [] ++ [EvErrorLog _]). split; [reflexivity |].
         split_and!; [done.. |]. eexists [], [], _. split_and!; [done | by left | done].
       - eexists _, []. split; [cbn; rewrite app_nil_r; by destruct s |].
         split_and!; [done.. |]. eexists [], []. split_and!; [done | by left | done]. }
  cbn [ret].
  destruct (generate_response_steps (Sequential.service env)
              (Sequential.load_html_file f p) s) as (rg & reqs & Hg & Hreqs).
  rewrite Hg.
  assert (Hw : forall evs, world_after (cur s) (reqs ++ evs) = world_after (cur s) evs).
  { intros evs. by rewrite world_after_app, (world_after_requests (cur s) reqs). }
  destruct rg as [d|e0].
  - destruct (d !! "error"%string) as [err|].
    + unfold append_error_log.
      destruct (Sequential.error_log_ok env); cbn.
      * eexists _, (reqs ++ [] ++ [EvErrorLog _]). split; [rewrite Hw; cbn; rewrite ?app_nil_r, <- ?app_assoc; reflexivity |].
        split_and!; [done.. |]. eexists reqs, [], _. split_and!; [done | by left | done].
      * destruct (Sequential.handler_log_ok env) eqn:Hh; cbn.
        -- eexists _, (reqs ++ [] ++ [EvErrorLog _]). split; [rewrite Hw; cbn; rewrite ?app_nil_r, <- ?app_assoc; reflexivity |].
           split_and!; [done.. |]. eexists reqs, [], _. split_and!; [done | by left | done].
        -- eexists _, (reqs ++ []). split; [rewrite Hw; cbn; rewrite ?app_nil_r, <- ?app_assoc; reflexivity |].
           split_and!; [done.. |]. eexists reqs, []. split_and!; [done | by left | done].
    + unfold Sequential.save_result, write_output, append_error_log.
      destruct (Sequential.save_result_io env); cbn.
      * eexists _, (reqs ++ [EvOutputOpen _; EvOutputDump _ _]). split; [rewrite Hw; cbn; rewrite ?app_nil_r, <- ?app_assoc; reflexivity |].
        split_and!; [done.. |]. by eexists reqs, _.
      * destruct (Sequential.handler_log_ok env) eqn:Hh; cbn.
        -- eexists _, (reqs ++ [] ++ [EvErrorLog _]). split; [rewrite Hw; cbn; rewrite ?app_nil_r, <- ?app_assoc; reflexivity |].
           split_and!; [done.. |]. eexists reqs, [], _. split_and!; [done | by left | done].
        -- eexists _, (reqs ++ []). split; [rewrite Hw; cbn; rewrite ?app_nil_r, <- ?app_assoc; reflexivity |].
           split_and!; [done.. |]. eexists reqs, []. split_and!; [done | by left | done].
      * destruct (Sequential.handler_log_ok env) eqn:Hh; cbn.
        -- eexists _, (reqs ++ [EvOutputOpen _] ++ [EvErrorLog _]).
           split; [rewrite Hw; cbn; rewrite ?app_nil_r, <- ?app_assoc; reflexivity |].
           split_and!; [done.. |]. eexists reqs, [_], _. split_and!; [done | by right | done].
        -- eexists _, (reqs ++ [EvOutputOpen _]). split; [rewrite Hw; cbn; rewrite ?app_nil_r, <- ?app_assoc; reflexivity |].
           split_and!; [done.. |]. eexists reqs, [_]. split_and!; [done | by right | done].
  - unfold append_error_log.
    destruct (Sequential.handler_log_ok env) eqn:Hh; cbn.
    + eexists _, (reqs ++ [] ++ [EvErrorLog _]). split; [rewrite Hw; cbn; rewrite ?app_nil_r, <- ?app_assoc; reflexivity |].
      split_and!; [done.. |]. eexists reqs, [], _. split_and!; [done | by left | done].
    + eexists _, (reqs ++ []). split; [rewrite Hw; cbn; rewrite ?app_nil_r, <- ?app_assoc; reflexivity |].
      split_and!; [done.. |]. eexists reqs, []. split_and!; [done | by left | done].
Qed.

End SequentialItem.

(** ** The sequential driver: the loop *)

Section SequentialLoop.

Variable json_loads : string -> loads_outcome.
Variable py_repr : json -> string.

Local Abbreviation process_file_sequentially :=
  (Sequential.process_file_sequentially json_loads py_repr).
Local Abbreviation process_loop := (Sequential.process_loop json_loads py_repr).

Lemma steps_save_checkpoint pf io s :
  steps (Sequential.save_checkpoint pf io) s (Ok tt) (Sequential.checkpoint_events pf io).
Proof.
  unfold Sequential.save_checkpoint. destruct io; simpl.
  - apply steps_try_ok. apply (steps_bind _ _ _ tt [_] _ [_]); apply steps_emit.
  - apply (steps_try_raise _ _ _ (OtherError msg) [] _ []);
      [apply steps_raise | apply steps_ret].
  - apply (steps_try_raise _ _ _ (OtherError msg) [_] _ []); [| apply steps_ret].
    apply (steps_bind _ _ _ tt [_] _ []); [apply steps_emit | apply steps_raise].
Qed.

(** Every run of the loop is one that [loop_spec] describes. *)
Lemma process_loop_spec env files acc s :
  exists r evs,
    steps (process_loop env files acc) s r evs /\ Sequential.loop_spec env files acc r evs.
Proof.
  revert acc s. induction files as [|f rest IH]; intros acc s.
  { exists (Ok acc), []. split; [apply steps_ret | constructor]. }
  destruct (process_file_sequentially_spec json_loads py_repr (env f) f
              (Sequential.processed_files acc) s) as (r1 & e1 & H1 & Hspec).
  set (s1 := State (world_after (cur s) e1) (log s ++ e1)).
  destruct r1 as [[[] f']|e].
  - destruct Hspec as (-> & Hin & reqs & content & Hreqs & ->).
    set (ck := Sequential.checkpoint_events (Sequential.processed_files acc ++ [f])
                 (Sequential.save_checkpoint_io (env f))).
    destruct (IH (Sequential.record_processed acc f)
                 (State (world_after (cur s1) ck) (log s1 ++ ck))) as (r & evs & Hr & Hl).
    exists r, ((reqs ++ [EvOutputOpen (Sequential.output_name f);
                         EvOutputDump (Sequential.output_name f) content])
               ++ ck ++ evs).
    split.
    + cbn [Sequential.process_loop].
      eapply steps_bind; [exact H1 |]. cbn [st file_name].
      eapply steps_bind; [| exact Hr].
      eapply steps_events; [| apply (app_nil_r ck)].
      eapply steps_bind; [apply steps_save_checkpoint | apply steps_ret].
    + rewrite <- app_assoc. by constructor.
  - destruct Hspec as (-> & Hin & ->).
    destruct (IH (Sequential.record_skipped acc f)
                 (State (world_after (cur s1) []) (log s1 ++ []))) as (r & evs & Hr & Hl).
    exists r, ([] ++ [] ++ evs). split.
    + cbn [Sequential.process_loop].
      eapply steps_bind; [exact H1 |]. cbn [st file_name].
      eapply steps_bind; [apply steps_ret | exact Hr].
    + by constructor.
  - destruct Hspec as (-> & Hin & reqs & opens & line & Hreqs & Hopens & ->).
    destruct (IH (Sequential.record_errored acc f)
                 (State (world_after (cur s1) []) (log s1 ++ []))) as (r & evs & Hr & Hl).
    exists r, ((reqs ++ opens ++ [EvErrorLog line]) ++ [] ++ evs). split.
    + cbn [Sequential.process_loop].
      eapply steps_bind; [exact H1 |]. cbn [st file_name].
      eapply steps_bind; [apply steps_ret | exact Hr].
    + simpl. rewrite <- !app_assoc. by constructor.
  - destruct Hspec as (Hin & Hh & reqs & opens & Hreqs & Hopens & ->).
    exists (Raise e), (reqs ++ opens). split.
    + cbn [Sequential.process_loop]. by apply steps_bind_raise.
    + by constructor.
Qed.

End SequentialLoop.

(** ** The resume invariant of the sequential driver *)

Section ResumeInvariant.

Import Sequential.

Lemma list_subseteq_drop_middle {X} (l1 l2 : list X) (x : X) :
  l1 ++ l2 ⊆ l1 ++ x :: l2.
Proof. intros y. list_solver. Qed.

Lemma list_subseteq_move_middle {X} (l1 l2 : list X) (x : X) :
  (l1 ++ [x]) ++ l2 ⊆ l1 ++ x :: l2.
Proof. intros y. list_solver. Qed.

Lemma list_subseteq_cons_front {X} (l1 l2 : list X) (x : X) :
  x :: l1 ⊆ l1 ++ x :: l2.
Proof. intros y. list_solver. Qed.

Lemma distinct_outputs_spec names :
  distinct_outputs names <->
  forall a b, a ∈ names -> b ∈ names -> output_name a = output_name b -> a = b.
Proof.
  unfold distinct_outputs. rewrite Forall_forall.
  setoid_rewrite Forall_forall.
  split; intros H a b; [intros Ha Hb | intros Ha b' Hb]; by apply H.
Qed.

Lemma distinct_outputs_subseteq names names' :
  names' ⊆ names -> distinct_outputs names -> distinct_outputs names'.
Proof. rewrite !distinct_outputs_spec. intros Hsub H a b ???. apply H; auto. Qed.

Lemma checkpoint_ids_unparsable o l : checkpoint_ids (World o CkUnparsable l) = [].
Proof. reflexivity. Qed.

Lemma checkpoint_ids_holds o pf l :
  checkpoint_ids (World o (CkHolds {[ "processed_files"%string := pf ]}) l) = pf.
Proof.
  unfold checkpoint_ids, load_checkpoint, get_processed_files. simpl.
  by rewrite lookup_singleton_eq.
Qed.

(** The events of an item that is not in the list keep the invariant. *)
Lemma resume_state_request pf w q n :
  resume_state pf w -> resume_state pf (apply_event w (EvRequest q n)).
Proof. done. Qed.

Lemma resume_state_error_log pf w line :
  resume_state pf w -> resume_state pf (apply_event w (EvErrorLog line)).
Proof. done. Qed.

Lemma resume_state_output_open pf w f :
  f ∉ pf -> distinct_outputs (f :: pf) ->
  resume_state pf w -> resume_state pf (apply_event w (EvOutputOpen (output_name f))).
Proof.
  intros Hf Hd [Hids Hout]. split; [done |].
  pose proof (proj1 (distinct_outputs_spec _) Hd) as Hd'.
  intros g Hg. destruct (Hout g Hg) as [c Hc]. exists c. simpl.
  rewrite lookup_insert_ne; [done |].
  intros Heq. apply Hf. rewrite (Hd' f g); [done | by left | by right | done].
Qed.

Lemma resume_state_output_dump pf w f content :
  resume_state pf w ->
  resume_state pf (apply_event w (EvOutputDump (output_name f) content)).
Proof.
  intros [Hids Hout]. split; [done |].
  intros g Hg. unfold output_complete. simpl.
  destruct (decide (output_name f = output_name g)) as [->|Hne].
  - rewrite lookup_insert_eq. eauto.
  - rewrite lookup_insert_ne by done. by apply Hout.
Qed.

Lemma resume_state_checkpoint_open pf w :
  resume_state pf w -> resume_state pf (apply_event w EvCheckpointOpen).
Proof.
  intros [Hids Hout]. split; [| done].
  simpl. rewrite checkpoint_ids_unparsable. by intros f ?%elem_of_nil.
Qed.

Lemma resume_state_checkpoint_dump pf w :
  resume_state pf w -> resume_state pf (apply_event w (EvCheckpointDump pf)).
Proof.
  intros [Hids Hout]. split; [| done].
  simpl. by rewrite checkpoint_ids_holds.
Qed.

(** Once the output of [f] is complete, [f] may join the list. *)
Lemma resume_state_grow pf w f :
  resume_state pf w -> output_complete w f -> resume_state (pf ++ [f]) w.
Proof.
  intros [Hids Hout] Hf. split.
  - intros g Hg. apply elem_of_app. left. by apply Hids.
  - intros g [Hg| ->%list_elem_of_singleton]%elem_of_app; auto.
Qed.

Lemma resume_state_backed pf w : resume_state pf w -> checkpoint_backed w.
Proof. intros [Hids Hout] f Hf. by apply Hout, Hids. Qed.

Lemma always_requests (P : world -> Prop) w reqs :
  Forall is_request reqs -> P w -> always P w reqs.
Proof.
  intros Hreqs Hw. apply always_preserved; [| done].
  eapply Forall_impl; [exact Hreqs |]. intros [] He; try done.
Qed.

Lemma always_unfinished_output pf w f opens :
  f ∉ pf -> distinct_outputs (f :: pf) -> unfinished_output f opens ->
  resume_state pf w -> always (resume_state pf) w opens.
Proof.
  intros Hf Hd [-> | ->] Hw; [by apply always_nil |].
  apply always_cons; [done |]. apply always_nil. by apply resume_state_output_open.
Qed.

Lemma always_checkpoint_events pf w io :
  resume_state pf w -> always (resume_state pf) w (checkpoint_events pf io).
Proof.
  intros Hw. destruct io; simpl.
  - apply always_cons; [done |]. apply always_cons.
    + by apply resume_state_checkpoint_open.
    + apply always_nil. by apply resume_state_checkpoint_dump, resume_state_checkpoint_open.
  - by apply always_nil.
  - apply always_cons; [done |]. apply always_nil. by apply resume_state_checkpoint_open.
Qed.

(** Wherever a run of the loop is cut, the checkpoint is backed by output
    files; and when the loop ends the invariant holds of its final list. *)
Lemma loop_spec_invariant env files acc r evs :
  loop_spec env files acc r evs ->
  forall w,
    distinct_outputs (processed_files acc ++ files) ->
    resume_state (processed_files acc) w ->
    always checkpoint_backed w evs /\
    (forall stats, r = Ok stats -> resume_state (processed_files stats) (world_after w evs)).
Proof.
  induction 1 as [acc | f rest acc r evs Hin _ IH
                 | f rest acc reqs content r evs Hin Hreqs _ IH
                 | f rest acc reqs opens line r evs Hin Hreqs Hopens _ IH
                 | f rest acc reqs opens e Hin Hreqs Hopens Hh];
    intros w Hd Hw.
  - split; [by apply always_nil, (resume_state_backed (processed_files acc)) |].
    by intros stats [= <-].
  - apply IH; [| done].
    eapply distinct_outputs_subseteq; [| exact Hd]. apply list_subseteq_drop_middle.
  - set (pf := processed_files acc) in *.
    set (out := [EvOutputOpen (output_name f); EvOutputDump (output_name f) content]).
    set (ck := checkpoint_events (pf ++ [f]) (save_checkpoint_io (env f))).
    assert (Hdf : distinct_outputs (f :: pf)).
    { eapply distinct_outputs_subseteq; [| exact Hd]. apply list_subseteq_cons_front. }
    assert (H1 : always (resume_state pf) w reqs) by by apply always_requests.
    assert (H2 : always (resume_state pf) (world_after w reqs) out).
    { apply always_cons; [by apply always_end |].
      apply always_cons; [by apply resume_state_output_open, always_end |].
      apply always_nil.
      by apply resume_state_output_dump, resume_state_output_open, always_end. }
    assert (H3 : resume_state (pf ++ [f]) (world_after (world_after w reqs) out)).
    { apply resume_state_grow; [by apply always_end |].
      exists content. simpl. by rewrite lookup_insert_eq. }
    assert (H4 := always_checkpoint_events _ _ (save_checkpoint_io (env f)) H3).
    fold ck in H4.
    destruct (IH (world_after (world_after (world_after w reqs) out) ck)) as [H5 H6].
    { eapply distinct_outputs_subseteq; [| exact Hd]. apply list_subseteq_move_middle. }
    { by apply always_end. }
    split.
    + apply always_app; [by eapply always_impl; [apply resume_state_backed |] |].
      apply always_app; [by eapply always_impl; [apply resume_state_backed |] |].
      apply always_app; [by eapply always_impl; [apply resume_state_backed |] |].
      done.
    + intros stats ->. rewrite !world_after_app. by apply H6.
  - set (pf := processed_files acc) in *.
    assert (Hdf : distinct_outputs (f :: pf)).
    { eapply distinct_outputs_subseteq; [| exact Hd]. apply list_subseteq_cons_front. }
    assert (H1 : always (resume_state pf) w reqs) by by apply always_requests.
    assert (H2 : always (resume_state pf) (world_after w reqs) opens).
    { by eapply always_unfinished_output; [| | | apply always_end]. }
    assert (H3 : always (resume_state pf) (world_after (world_after w reqs) opens)
                   [EvErrorLog line]).
    { apply always_cons; [by apply always_end |]. by apply always_nil, always_end. }
    destruct (IH (world_after (world_after (world_after w reqs) opens) [EvErrorLog line]))
      as [H5 H6].
    { eapply distinct_outputs_subseteq; [| exact Hd]. apply list_subseteq_drop_middle. }
    { by apply always_end. }
    split.
    + apply always_app; [by eapply always_impl; [apply resume_state_backed |] |].
      apply always_app; [by eapply always_impl; [apply resume_state_backed |] |].
      apply always_app; [by eapply always_impl; [apply resume_state_backed |] |].
      done.
    + intros stats ->. rewrite !world_after_app. by apply H6.
  - set (pf := processed_files acc) in *.
    assert (Hdf : distinct_outputs (f :: pf)).
    { eapply distinct_outputs_subseteq; [| exact Hd]. apply list_subseteq_cons_front. }
    split; [| done].
    apply always_app.
    + eapply always_impl; [apply resume_state_backed |]. by apply always_requests.
    + eapply always_impl; [apply resume_state_backed |].
      eapply always_unfinished_output; [done.. |]. by apply always_end, always_requests.
Qed.

End ResumeInvariant.

(** ** Output before checkpoint *)

Section Ordering.

Import Sequential.


(** Where an element of a concatenation lies. *)
Lemma app_eq_split {X} (l1 l2 pre post : list X) (x : X) :
  l1 ++ l2 = pre ++ x :: post ->
  (exists mid, l1 = pre ++ x :: mid /\ post = mid ++ l2) \/
  (exists mid, pre = l1 ++ mid /\ l2 = mid ++ x :: post).
Proof.
  revert pre. induction l1 as [|y l1 IH]; intros pre H.
  - right. by exists pre.
  - destruct pre as [|z pre]; injection H as -> H.
    + left. by exists l1.
    + destruct (IH _ H) as [(mid & -> & ->) | (mid & -> & ->)].
      * left. by exists mid.
      * right. by exists mid.
Qed.

Lemma no_dump_requests reqs : Forall is_request reqs -> no_dump reqs.
Proof.
  intros H pf Hin. rewrite Forall_forall in H. by apply H in Hin.
Qed.

Lemma no_dump_app e1 e2 : no_dump e1 -> no_dump e2 -> no_dump (e1 ++ e2).
Proof. intros H1 H2 pf [?|?]%elem_of_app; [by eapply H1 | by eapply H2]. Qed.

Lemma no_dump_unfinished f opens : unfinished_output f opens -> no_dump opens.
Proof. intros [-> | ->] pf Hin; list_solver. Qed.

Lemma output_before_checkpoint_no_dump ids evs :
  no_dump evs -> output_before_checkpoint ids evs.
Proof. intros H pre pf post ->. exfalso. apply (H pf). list_solver. Qed.

(** Events without a checkpoint write may come first, and may provide the
    output files of the identifiers the rest relies on. *)
Lemma output_before_checkpoint_app ids ids' e1 e2 :
  no_dump e1 ->
  (forall f, f ∈ ids' ->
     f ∈ ids \/ exists content, EvOutputDump (output_name f) content ∈ e1) ->
  output_before_checkpoint ids' e2 ->
  output_before_checkpoint ids (e1 ++ e2).
Proof.
  intros Hno Hids H2 pre pf post Heq f Hf.
  apply app_eq_split in Heq as [(mid & -> & ->) | (mid & -> & ->)].
  { exfalso. apply (Hno pf). list_solver. }
  destruct (H2 mid pf post eq_refl f Hf) as [Hin | [c Hc]].
  - destruct (Hids f Hin) as [? | [c Hc]]; [by left |].
    right. exists c. list_solver.
  - right. exists c. list_solver.
Qed.

Lemma output_before_checkpoint_dump ids pf evs :
  pf ⊆ ids ->
  output_before_checkpoint ids evs ->
  output_before_checkpoint ids (EvCheckpointDump pf :: evs).
Proof.
  intros Hsub H pre pf' post Heq f Hf.
  destruct pre as [|e pre]; simplify_eq/=.
  - left. by apply Hsub.
  - destruct (H pre pf' post eq_refl f Hf) as [? | [c Hc]]; [by left |].
    right. exists c. list_solver.
Qed.

Lemma output_before_checkpoint_events ids io evs :
  output_before_checkpoint ids evs ->
  output_before_checkpoint ids (checkpoint_events ids io ++ evs).
Proof.
  intros H. destruct io; simpl; [| done |].
  - apply (output_before_checkpoint_app ids ids [EvCheckpointOpen]); [| by left |].
    + intros pf. list_solver.
    + by apply output_before_checkpoint_dump.
  - apply (output_before_checkpoint_app ids ids [EvCheckpointOpen]); [| by left | done].
    intros pf. list_solver.
Qed.

(** In every run of the loop, an identifier reaches the checkpoint file
    only after its output file has been written. *)
Lemma loop_spec_ordering env files acc r evs :
  loop_spec env files acc r evs ->
  output_before_checkpoint (processed_files acc) evs.
Proof.
  induction 1 as [acc | f rest acc r evs Hin _ IH
                 | f rest acc reqs content r evs Hin Hreqs _ IH
                 | f rest acc reqs opens line r evs Hin Hreqs Hopens _ IH
                 | f rest acc reqs opens e Hin Hreqs Hopens Hh].
  - apply output_before_checkpoint_no_dump. intros pf. list_solver.
  - done.
  - rewrite app_assoc.
    apply (output_before_checkpoint_app _ (processed_files acc ++ [f])).
    + apply no_dump_app; [by apply no_dump_requests |]. intros pf. list_solver.
    + intros g [Hg | ->%list_elem_of_singleton]%elem_of_app; [by left |].
      right. exists content. list_solver.
    + by apply output_before_checkpoint_events.
  - rewrite !app_assoc.
    apply (output_before_checkpoint_app _ (processed_files acc)); [| by left | done].
    apply no_dump_app; [apply no_dump_app |].
    + by apply no_dump_requests.
    + by eapply no_dump_unfinished.
    + intros pf. list_solver.
  - apply output_before_checkpoint_no_dump, no_dump_app.
    + by apply no_dump_requests.
    + by eapply no_dump_unfinished.
Qed.

End Ordering.

(** ** The results of a run of the loop *)

Section Results.

Import Sequential.

Lemma loop_spec_results env files acc r evs :
  loop_spec env files acc r evs ->
  forall stats, r = Ok stats ->
  exists new,
    results stats = results acc ++ new
    /\ file_name <$> new = files
    /\ processed_files stats
       = processed_files acc ++ (file_name <$> filter (fun x => st x = Processed) new)
    /\ (forall g, FileResult Skipped g ∈ new ->
          g ∈ processed_files acc \/ FileResult Processed g ∈ new)
    /\ (forall g, FileResult Processed g ∈ new -> g ∉ processed_files acc)
    /\ (forall g, FileResult Errored g ∈ new -> g ∉ processed_files acc).
Proof.
  induction 1 as [acc | f rest acc r evs Hin _ IH
                 | f rest acc reqs content r evs Hin Hreqs _ IH
                 | f rest acc reqs opens line r evs Hin Hreqs Hopens _ IH
                 | f rest acc reqs opens e Hin Hreqs Hopens Hh];
    intros stats Hr; [| | | | done].
  - injection Hr as <-. exists []. rewrite !app_nil_r.
    split_and!; try done; intros g H; by apply elem_of_nil in H.
  - destruct (IH stats Hr) as (new & H1 & H2 & H3 & H4 & H5 & H6).
    cbn [record_skipped results processed_files] in *.
    exists (FileResult Skipped f :: new). split_and!.
    + by rewrite H1, <- app_assoc.
    + by rewrite fmap_cons, H2.
    + by rewrite filter_cons_False.
    + intros g [[= ->] | Hg]%elem_of_cons; [by left |].
      destruct (H4 g Hg); [by left | right; by right].
    + intros g [[=] | Hg]%elem_of_cons. by apply H5.
    + intros g [[=] | Hg]%elem_of_cons. by apply H6.
  - destruct (IH stats Hr) as (new & H1 & H2 & H3 & H4 & H5 & H6).
    cbn [record_processed results processed_files] in *.
    exists (FileResult Processed f :: new). split_and!.
    + by rewrite H1, <- app_assoc.
    + by rewrite fmap_cons, H2.
    + rewrite H3, filter_cons_True by done. by rewrite fmap_cons, <- app_assoc.
    + intros g [[=] | Hg]%elem_of_cons.
      destruct (H4 g Hg) as [[? | ->%list_elem_of_singleton]%elem_of_app | ?].
      * by left.
      * right. by left.
      * right. by right.
    + intros g [[= ->] | Hg]%elem_of_cons; [done |].
      intros ?. apply (H5 g Hg). apply elem_of_app. by left.
    + intros g [[=] | Hg]%elem_of_cons.
      intros ?. apply (H6 g Hg). apply elem_of_app. by left.
  - destruct (IH stats Hr) as (new & H1 & H2 & H3 & H4 & H5 & H6).
    cbn [record_errored results processed_files] in *.
    exists (FileResult Errored f :: new). split_and!.
    + by rewrite H1, <- app_assoc.
    + by rewrite fmap_cons, H2.
    + by rewrite filter_cons_False.
    + intros g [[=] | Hg]%elem_of_cons.
      destruct (H4 g Hg); [by left | right; by right].
    + intros g [[=] | Hg]%elem_of_cons. by apply H5.
    + intros g [[= ->] | Hg]%elem_of_cons; [done |]. by apply H6.
Qed.

(** Results with distinct names: one result for one name. *)
Lemma results_functional (new : list file_result) a b g :
  NoDup (file_name <$> new) ->
  FileResult a g ∈ new -> FileResult b g ∈ new -> a = b.
Proof.
  induction new as [|x new IH]; intros Hnd Ha Hb; [by apply elem_of_nil in Ha |].
  rewrite fmap_cons in Hnd. apply NoDup_cons in Hnd as [Hx Hnd].
  apply elem_of_cons in Ha as [Ha | Ha], Hb as [Hb | Hb].
  - congruence.
  - exfalso. apply Hx. subst x. simpl.
    by apply (list_elem_of_fmap_2 file_name _ (FileResult b g)).
  - exfalso. apply Hx. subst x. simpl.
    by apply (list_elem_of_fmap_2 file_name _ (FileResult a g)).
  - by apply IH.
Qed.

(** When every checkpoint write succeeds, the file holds the list of the
    loop. *)
Lemma loop_spec_checkpoint_saved env files acc r evs :
  loop_spec env files acc r evs ->
  forall stats w,
    r = Ok stats ->
    (forall g, g ∈ files -> save_checkpoint_io (env g) = IoOk) ->
    checkpoint_ids w = processed_files acc ->
    checkpoint_ids (world_after w evs) = processed_files stats.
Proof.
  induction 1 as [acc | f rest acc r evs Hin _ IH
                 | f rest acc reqs content r evs Hin Hreqs _ IH
                 | f rest acc reqs opens line r evs Hin Hreqs Hopens _ IH
                 | f rest acc reqs opens e Hin Hreqs Hopens Hh];
    intros stats w Hr Hio Hw; [| | | | done].
  - by injection Hr as <-.
  - apply IH; [done | | done]. intros g Hg. apply Hio. by right.
  - rewrite (Hio f) by by left.
    rewrite !world_after_app. apply IH; [done | |].
    + intros g Hg. apply Hio. by right.
    + simpl. by rewrite checkpoint_ids_holds.
  - rewrite !world_after_app. apply IH; [done | |].
    + intros g Hg. apply Hio. by right.
    + rewrite (world_after_requests w reqs) by done.
      destruct Hopens as [-> | ->]; exact Hw.
Qed.

Lemma NoDup_sorted_names dir : NoDup (sorted_names dir).
Proof.
  unfold sorted_names. rewrite merge_sort_Permutation. apply NoDup_elements.
Qed.

Lemma NoDup_slice_list {X} (l : list X) a b : NoDup l -> NoDup (slice_list l a b).
Proof.
  intros H. unfold slice_list.
  eapply sublist_NoDup; [exact H |].
  trans (drop (Z.to_nat (Py.clip (Z.of_nat (length l)) a)) l);
    [apply sublist_take | apply sublist_drop].
Qed.

Lemma NoDup_select_files l a b lim t : NoDup l -> NoDup (select_files l a b lim t).
Proof.
  intros H. unfold select_files.
  destruct a, b, lim, t; auto using NoDup_slice_list.
Qed.

End Results.

(** ** The runs of the sequential driver *)

Section SequentialRun.

Import Sequential.

Variable json_loads : string -> loads_outcome.
Variable py_repr : json -> string.

Lemma load_checkpoint_total c : exists d, load_checkpoint c = Ok d.
Proof. destruct c; by eexists. Qed.

(** A run is the loop over the selected files, started with the
    identifiers of the checkpoint file. *)
Lemma run_unfold env dir a b lim t w :
  run json_loads py_repr env dir a b lim t w
  = process_loop json_loads py_repr env
      (select_files (sorted_names dir) a b lim t)
      (RunStats (checkpoint_ids w) 0 0 0 [])
      (State w []).
Proof.
  unfold run, process_all_files_sequentially, checkpoint_ids, bind, read_world.
  simpl. by destruct (load_checkpoint_total (checkpoint w)) as [d ->].
Qed.

Lemma run_spec env dir a b lim t w :
  exists r evs,
    run json_loads py_repr env dir a b lim t w = (r, State (world_after w evs) evs)
    /\ loop_spec env (select_files (sorted_names dir) a b lim t)
                 (RunStats (checkpoint_ids w) 0 0 0 []) r evs.
Proof.
  rewrite run_unfold.
  destruct (process_loop_spec json_loads py_repr env
              (select_files (sorted_names dir) a b lim t)
              (RunStats (checkpoint_ids w) 0 0 0 []) (State w []))
    as (r & evs & Hr & Hl).
  by exists r, evs.
Qed.

End SequentialRun.

(** ** Properties of the runs of the sequential driver *)

Section SequentialClaims.

Import Sequential.

Variable json_loads : string -> loads_outcome.
Variable py_repr : json -> string.

Local Abbreviation run := (Sequential.run json_loads py_repr).
Local Abbreviation process_loop := (Sequential.process_loop json_loads py_repr).
Local Abbreviation process_file_sequentially :=
  (Sequential.process_file_sequentially json_loads py_repr).

Lemma run_world env dir a b lim t w :
  cur (run env dir a b lim t w).2 = world_after w (log (run env dir a b lim t w).2).
Proof.
  destruct (run_spec json_loads py_repr env dir a b lim t w) as (r & evs & -> & _).
  done.
Qed.

(** The checkpoint file never lists an identifier the loop does not hold. *)
Lemma loop_spec_ids env files acc r evs :
  loop_spec env files acc r evs ->
  forall stats w,
    r = Ok stats ->
    (forall f, f ∈ checkpoint_ids w -> f ∈ processed_files acc) ->
    forall f, f ∈ checkpoint_ids (world_after w evs) -> f ∈ processed_files stats.
Proof.
  induction 1 as [acc | f rest acc r evs Hin _ IH
                 | f rest acc reqs content r evs Hin Hreqs _ IH
                 | f rest acc reqs opens line r evs Hin Hreqs Hopens _ IH
                 | f rest acc reqs opens e Hin Hreqs Hopens Hh];
    intros stats w Hr Hw; [| | | | done].
  - by injection Hr as <-.
  - by apply IH.
  - rewrite !world_after_app. apply IH; [done |].
    rewrite (world_after_requests w reqs) by done.
    cbn [record_processed processed_files].
    destruct (save_checkpoint_io (env f)); simpl.
    + by rewrite checkpoint_ids_holds.
    + intros g Hg. apply elem_of_app. left. by apply Hw.
    + rewrite checkpoint_ids_unparsable. by intros g ?%elem_of_nil.
  - rewrite !world_after_app. apply IH; [done |].
    rewrite (world_after_requests w reqs) by done.
    destruct Hopens as [-> | ->]; exact Hw.
Qed.

(** The loop stops early only where the error log cannot be written in the
    handler. *)
Lemma loop_spec_no_crash env files acc r evs :
  loop_spec env files acc r evs ->
  (forall f, f ∈ files -> handler_log_ok (env f) = true) ->
  exists stats, r = Ok stats.
Proof.
  induction 1 as [acc | f rest acc r evs Hin _ IH
                 | f rest acc reqs content r evs Hin Hreqs _ IH
                 | f rest acc reqs opens line r evs Hin Hreqs Hopens _ IH
                 | f rest acc reqs opens e Hin Hreqs Hopens Hh];
    intros Hok.
  - by eexists.
  - apply IH. intros g Hg. apply Hok. by right.
  - apply IH. intros g Hg. apply Hok. by right.
  - apply IH. intros g Hg. apply Hok. by right.
  - rewrite Hok in Hh by by left. done.
Qed.

(** C1, amended.  The driver writes the output file of an item before it
    appends the identifier to the checkpoint and saves it: in the events of
    a run, every
    identifier written to the checkpoint file either was in the checkpoint
    at the start or has had its output file completely written before.
    Consequently, when distinct items have distinct output files and the
    checkpoint is backed by output files at the start, it is backed by
    output files at every point of the run, wherever the process is
    killed; and after a run that is not interrupted, every item recorded as
    processed is in the checkpoint list and has its completed output file
    (and is in the checkpoint file when the checkpoint writes succeed). *)
Theorem resume_invariant env dir a b lim t w0 :
  let files := select_files (sorted_names dir) a b lim t in
  let ids0 := checkpoint_ids w0 in
  let r := (run env dir a b lim t w0).1 in
  let s := (run env dir a b lim t w0).2 in
  output_before_checkpoint ids0 (log s) /\
  (distinct_outputs (ids0 ++ files) ->
   checkpoint_backed w0 ->
   always checkpoint_backed w0 (log s) /\
   forall stats, r = Ok stats ->
     forall f, FileResult Processed f ∈ results stats ->
       f ∈ processed_files stats /\
       output_complete (cur s) f /\
       ((forall g, g ∈ files -> save_checkpoint_io (env g) = IoOk) ->
        f ∈ checkpoint_ids (cur s))).
Proof.
  intros files ids0 r s. subst r s.
  destruct (run_spec json_loads py_repr env dir a b lim t w0) as (r & evs & -> & Hl).
  fold files in Hl. fold ids0 in Hl. cbn [fst snd log cur].
  split; [exact (loop_spec_ordering _ _ _ _ _ Hl) |].
  intros Hd Hb.
  assert (Hw : resume_state ids0 w0) by (split; [done | exact Hb]).
  destruct (loop_spec_invariant _ _ _ _ _ Hl w0 Hd Hw) as [Halways Hend].
  split; [done |].
  intros stats -> f Hf.
  destruct (loop_spec_results _ _ _ _ _ Hl stats eq_refl)
    as (new & H1 & H2 & H3 & H4 & H5 & H6).
  cbn [results processed_files] in *. rewrite app_nil_l in H1. subst new.
  assert (Hin : f ∈ processed_files stats).
  { rewrite H3. apply elem_of_app. right.
    apply (list_elem_of_fmap_2 file_name _ (FileResult Processed f)).
    by apply list_elem_of_filter. }
  split_and!; [done | |].
  - by apply (Hend stats eq_refl).
  - intros Hio.
    by rewrite (loop_spec_checkpoint_saved _ _ _ _ _ Hl stats w0 eq_refl Hio eq_refl).
Qed.

(** C6, amended.  A failure while one item is processed (the page cannot be
    read, the service fails or answers with something that does not parse,
    the output file or the checkpoint cannot be written, the error log of
    the error branch cannot be written) does not end the run, provided the
    append to the error log in the exception handler of the item succeeds:
    the loop then ends normally with one result for every file, in
    order. *)
Theorem failures_isolated env files acc s :
  (forall f, f ∈ files -> handler_log_ok (env f) = true) ->
  exists stats,
    (process_loop env files acc s).1 = Ok stats /\
    file_name <$> results stats = (file_name <$> results acc) ++ files.
Proof.
  intros Hok.
  destruct (process_loop_spec json_loads py_repr env files acc s) as (r & evs & Hr & Hl).
  destruct (loop_spec_no_crash _ _ _ _ _ Hl Hok) as [stats ->].
  exists stats. unfold steps in Hr. rewrite Hr. split; [done |].
  destruct (loop_spec_results _ _ _ _ _ Hl stats eq_refl) as (new & H1 & H2 & _).
  by rewrite H1, fmap_app, H2.
Qed.

(** A failed request below the retry limit is followed by the next
    attempt. *)
Lemma generate_response_fails service qd retry_count msg s r evs :
  service retry_count = CallFails msg ->
  (retry_count < MAX_RETRIES)%nat ->
  steps (generate_response json_loads service qd (S retry_count))
        (State (world_after (cur s) [EvRequest (question_number qd) retry_count])
               (log s ++ [EvRequest (question_number qd) retry_count])) r evs ->
  steps (generate_response json_loads service qd retry_count) s r
        (EvRequest (question_number qd) retry_count :: evs).
Proof.
  intros Hsvc Hlt%Nat.ltb_lt Hnext.
  rewrite generate_response_unfold, Hsvc, Hlt.
  apply (steps_bind _ _ _ tt [_]); [apply steps_emit | exact Hnext].
Qed.

(** A failed request at the retry limit ends the attempts. *)
Lemma generate_response_gives_up service qd msg s :
  service MAX_RETRIES = CallFails msg ->
  steps (generate_response json_loads service qd MAX_RETRIES) s
        (Ok (error_dict ("API request failed after 3 retries: " +:+ msg)))
        [EvRequest (question_number qd) MAX_RETRIES].
Proof.
  intros Hsvc. rewrite generate_response_unfold, Hsvc.
  apply (steps_bind _ _ _ tt [_] _ []); [apply steps_emit | apply steps_ret].
Qed.

(** C2, amended.  When the request for an item fails at the first attempt
    and at each of the three retries (four failures), and the error log can
    be written, the item ends as Errored: four requests are sent, one line
    with the time stamp and the file name is appended to the error log, no
    output file is touched, and the loop goes on with the next file without
    adding the item to the checkpoint list. *)
Theorem retries_exhausted env f pf s p m0 m1 m2 m3 :
  f ∉ pf ->
  html env = Ok p ->
  service env 0 = CallFails m0 ->
  service env 1 = CallFails m1 ->
  service env 2 = CallFails m2 ->
  service env 3 = CallFails m3 ->
  error_log_ok env = true ->
  let q := question_number (load_html_file f p) in
  let line := error_line (now env) f
                ("API request failed after 3 retries: " +:+ m3) in
  let s' := State (World (outputs (cur s)) (checkpoint (cur s))
                         (error_log (cur s) ++ [line]))
                  (log s ++ [EvRequest q 0; EvRequest q 1; EvRequest q 2;
                             EvRequest q 3; EvErrorLog line]) in
  process_file_sequentially env f pf s = (Ok (FileResult Errored f), s') /\
  forall envs rest acc,
    envs f = env -> processed_files acc = pf ->
    process_loop envs (f :: rest) acc s
    = process_loop envs rest (record_errored acc f) s'.
Proof.
  intros Hin Hhtml H0 H1 H2 H3 Hlog q line s'.
  assert (Hitem : process_file_sequentially env f pf s = (Ok (FileResult Errored f), s')).
  { assert (Hsteps : steps (process_file_sequentially env f pf) s
                       (Ok (FileResult Errored f))
                       ([] ++ [EvRequest q 0; EvRequest q 1; EvRequest q 2; EvRequest q 3]
                           ++ [EvErrorLog line] ++ [])).
    { unfold Sequential.process_file_sequentially.
      rewrite bool_decide_eq_false_2 by done. rewrite Hhtml.
      apply steps_try_ok.
      eapply steps_bind; [apply steps_ret |].
      eapply steps_bind.
      - apply (generate_response_fails _ _ 0 m0); [done | unfold MAX_RETRIES; lia |].
        apply (generate_response_fails _ _ 1 m1); [done | unfold MAX_RETRIES; lia |].
        apply (generate_response_fails _ _ 2 m2); [done | unfold MAX_RETRIES; lia |].
        by apply (generate_response_gives_up _ _ m3).
      - unfold error_dict. rewrite lookup_singleton_eq. cbn [py_str].
        eapply steps_bind; [| apply steps_ret].
        pose proof (steps_append_error_log line true) as Hl. rewrite Hlog. apply Hl. }
    unfold steps in Hsteps. rewrite Hsteps. by destruct s as [[] ?]. }
  split; [done |].
  intros envs rest acc <- <-. cbn [Sequential.process_loop].
  unfold bind at 1. rewrite Hitem. cbn [st].
  unfold bind at 1. done.
Qed.

End SequentialClaims.

Section SequentialSkipRetry.

Import Sequential.

Variable json_loads : string -> loads_outcome.
Variable py_repr : json -> string.

Local Abbreviation run := (Sequential.run json_loads py_repr).
Local Abbreviation process_loop := (Sequential.process_loop json_loads py_repr).
Local Abbreviation process_file_sequentially :=
  (Sequential.process_file_sequentially json_loads py_repr).

Lemma process_file_sequentially_skips env f pf s :
  f ∈ pf -> process_file_sequentially env f pf s = (Ok (FileResult Skipped f), s).
Proof.
  intros Hin. unfold Sequential.process_file_sequentially.
  by rewrite bool_decide_eq_true_2.
Qed.

(** One iteration of the loop. *)
Lemma process_loop_cons env f rest acc s :
  process_loop env (f :: rest) acc s
  = match process_file_sequentially (env f) f (processed_files acc) s with
    | (Ok result, s1) =>
        match st result with
        | Processed =>
            match save_checkpoint (processed_files acc ++ [file_name result])
                                  (save_checkpoint_io (env f)) s1 with
            | (Ok _, s2) =>
                process_loop env rest
                  (RunStats (processed_files acc ++ [file_name result])
                            (S (num_processed acc)) (num_skipped acc) (num_errors acc)
                            (results acc ++ [result])) s2
            | (Raise e, s2) => (Raise e, s2)
            end
        | Errored =>
            process_loop env rest
              (RunStats (processed_files acc) (num_processed acc) (num_skipped acc)
                        (S (num_errors acc)) (results acc ++ [result])) s1
        | Skipped =>
            process_loop env rest
              (RunStats (processed_files acc) (num_processed acc) (S (num_skipped acc))
                        (num_errors acc) (results acc ++ [result])) s1
        end
    | (Raise e, s1) => (Raise e, s1)
    end.
Proof.
  cbn [Sequential.process_loop]. unfold bind at 1.
  destruct (process_file_sequentially (env f) f (processed_files acc) s)
    as [[result|e] s1]; [| done].
  unfold bind at 1. destruct (st result); [| done..].
  unfold bind at 1.
  by destruct (save_checkpoint _ _ s1) as [[[]|e] s2].
Qed.

(** The loop depends on its counters through the checkpoint list only. *)
Lemma process_loop_list_only env files acc1 acc2 s :
  processed_files acc1 = processed_files acc2 ->
  (process_loop env files acc1 s).2 = (process_loop env files acc2 s).2 /\
  same_checkpoint_list (process_loop env files acc1 s).1 (process_loop env files acc2 s).1.
Proof.
  revert acc1 acc2 s. induction files as [|f rest IH]; intros acc1 acc2 s Heq; [done |].
  rewrite !process_loop_cons, Heq.
  destruct (process_file_sequentially (env f) f (processed_files acc2) s)
    as [[result|e] s1]; [| by cbn].
  destruct (st result); [| by apply IH..].
  destruct (save_checkpoint _ _ s1) as [[[]|e] s2]; [| by cbn].
  by apply IH.
Qed.

(** A file of the checkpoint list can be left out of the work list. *)
Lemma process_loop_skip_removal env f l1 l2 acc s :
  f ∈ processed_files acc ->
  (process_loop env (l1 ++ f :: l2) acc s).2 = (process_loop env (l1 ++ l2) acc s).2 /\
  same_checkpoint_list (process_loop env (l1 ++ f :: l2) acc s).1
                       (process_loop env (l1 ++ l2) acc s).1.
Proof.
  revert acc s. induction l1 as [|g l1 IH]; intros acc s Hin.
  - rewrite !app_nil_l, process_loop_cons.
    rewrite process_file_sequentially_skips by done. cbn [st].
    by apply process_loop_list_only.
  - rewrite <- !app_comm_cons, !process_loop_cons.
    destruct (process_file_sequentially (env g) g (processed_files acc) s)
      as [[result|e] s1]; [| by cbn].
    destruct (st result); [| by apply IH..].
    destruct (save_checkpoint _ _ s1) as [[[]|e] s2]; [| by cbn].
    apply IH. cbn. apply elem_of_app. by left.
Qed.

(** C5.  An item whose identifier is in the checkpoint list is reported as
    Skipped at once: no request is sent, no file is touched and no event
    happens at all.  A run over a work list that contains such an item
    leaves the same world, the same events and the same checkpoint list as
    the run over the work list without it; and when the identifier is in
    the checkpoint file at the start of a run, the run reports the item as
    Skipped and the identifiers it adds to the checkpoint list do not
    contain it. *)
Theorem skip_is_idempotent env f :
  (forall pf s, f ∈ pf ->
     process_file_sequentially (env f) f pf s = (Ok (FileResult Skipped f), s)) /\
  (forall l1 l2 acc s, f ∈ processed_files acc ->
     (process_loop env (l1 ++ f :: l2) acc s).2 = (process_loop env (l1 ++ l2) acc s).2 /\
     same_checkpoint_list (process_loop env (l1 ++ f :: l2) acc s).1
                          (process_loop env (l1 ++ l2) acc s).1) /\
  (forall dir a b lim t w0 stats,
     f ∈ checkpoint_ids w0 ->
     f ∈ select_files (sorted_names dir) a b lim t ->
     (run env dir a b lim t w0).1 = Ok stats ->
     FileResult Skipped f ∈ results stats /\
     exists added, processed_files stats = checkpoint_ids w0 ++ added /\ (f ∉ added)).
Proof.
  split_and!.
  - intros pf s. apply process_file_sequentially_skips.
  - intros l1 l2 acc s. apply process_loop_skip_removal.
  - intros dir a b lim t w0 stats Hin Hfile Hrun.
    destruct (run_spec json_loads py_repr env dir a b lim t w0) as (r & evs & Hr & Hl).
    rewrite Hr in Hrun. simpl in Hrun. subst r.
    destruct (loop_spec_results _ _ _ _ _ Hl stats eq_refl)
      as (new & H1 & H2 & H3 & H4 & H5 & H6).
    cbn [results processed_files] in *. rewrite app_nil_l in H1. subst new.
    rewrite <- H2 in Hfile. apply list_elem_of_fmap in Hfile as ([x g] & Hg & Hx).
    simpl in Hg. subst g. split.
    + destruct x; [by apply H5 in Hx | done | by apply H6 in Hx].
    + eexists. split; [exact H3 |].
      intros ([y g] & Hg & Hy%list_elem_of_filter)%list_elem_of_fmap.
      simpl in *. destruct Hy as [-> Hy]. subst g. by apply H5 in Hy.
Qed.

End SequentialSkipRetry.

(** ** The manual extraction and the structured path *)

Section ParsingClaims.

Local Open Scope string_scope.
Local Open Scope Z_scope.

Variable json_loads : string -> loads_outcome.

Ltac manual_lookup :=
  unfold Sequential.manually_extract_components;
  match goal with
  | |- context [match ?v with Some _ => _ | None => _ end] => destruct v
  end;
  repeat first
    [ rewrite lookup_set_if_found_eq
    | rewrite lookup_set_if_found_ne by done
    | rewrite lookup_insert_eq
    | rewrite lookup_insert_ne by done
    | rewrite lookup_empty ];
  try done;
  match goal with
  | |- context [Sequential.marked_value ?t ?m] =>
      by destruct (Sequential.marked_value t m)
  end.

Lemma manual_argument text qd :
  Sequential.manually_extract_components text qd !! "argument"
  = Some (JStr (default EmptyString
                  (Sequential.marked_value text (Py.quoted "argument")))).
Proof. manual_lookup. Qed.

Lemma manual_question_stem text qd :
  Sequential.manually_extract_components text qd !! "question_stem"
  = Some (JStr (default EmptyString
                  (Sequential.marked_value text (Py.quoted "question_stem")))).
Proof. manual_lookup. Qed.

Lemma manual_correct_answer text qd :
  Sequential.manually_extract_components text qd !! "correct_answer"
  = Some (JStr (default EmptyString
                  (Sequential.marked_value text (Py.quoted "correct_answer")))).
Proof. manual_lookup. Qed.

Lemma manual_explanation text qd :
  Sequential.manually_extract_components text qd !! "explanation"
  = Some (JStr (default EmptyString
                  (Sequential.marked_value text (Py.quoted "explanation")))).
Proof. manual_lookup. Qed.

Lemma manual_options text qd :
  Sequential.manually_extract_components text qd !! "options"
  = Some (JObj (Sequential.extract_options text)).
Proof. manual_lookup. Qed.

Lemma manual_question_type text qd :
  Sequential.manually_extract_components text qd !! "question_type"
  = Some (JStr "Critical Reasoning").
Proof. manual_lookup. Qed.

Lemma manual_no_error text qd :
  Sequential.manually_extract_components text qd !! "error" = None.
Proof. manual_lookup. Qed.

Lemma filter_missing_nil (p : dict) (keys : list string) :
  filter (fun key => ¬ is_Some (p !! key)) keys = [] <->
  Forall (fun key => is_Some (p !! key)) keys.
Proof.
  induction keys as [|k keys IH]; [done |].
  destruct (decide (is_Some (p !! k))) as [Hk | Hk].
  - rewrite filter_cons_False by tauto. rewrite IH, Forall_cons. tauto.
  - rewrite filter_cons_True by done. rewrite Forall_cons. split; [done | tauto].
Qed.

(** Without an opening brace the response goes to the manual extraction. *)
Lemma parse_response_no_brace text qd :
  Py.contains "{" text = false ->
  Sequential.parse_response json_loads text qd
  = Ok (Sequential.manually_extract_components text qd).
Proof.
  intros H. unfold Sequential.parse_response. by rewrite json_candidate_no_brace.
Qed.

(** C3, amended.  In the sequential driver a response without braces makes
    [generate_response] fall back to the manual extraction: it sends one
    request and returns, without an exception and without an error entry,
    an object that has every required key; the five options are empty
    strings, and so is every other field whose marker does not occur in the
    text.  The exam pack driver does not fall back: it returns an error
    object that carries the raw response. *)
Theorem no_delimiters_falls_back text qd :
  Py.contains "{" text = false ->
  Py.contains "}" text = false ->
  let r := Sequential.manually_extract_components text qd in
  Sequential.parse_response json_loads text qd = Ok r
  /\ (forall service s,
        service 0%nat = CallText text ->
        Sequential.generate_response json_loads service qd 0 s
        = (Ok r, State (cur s) (log s ++ [EvRequest (question_number qd) 0])))
  /\ Forall (fun key => is_Some (r !! key)) Sequential.required_keys
  /\ r !! "error" = None
  /\ r !! "options" = Some (JObj Sequential.empty_options)
  /\ Forall (fun letter => Sequential.empty_options !! letter = Some (JStr EmptyString))
            Sequential.option_letters
  /\ Forall (fun key => Py.contains (Py.quoted key) text = false ->
                         r !! key = Some (JStr EmptyString))
            ["argument"; "question_stem"; "correct_answer"; "explanation"]
  /\ (forall manual,
        ExamPacks.parse_response json_loads manual text qd
        = <["error" := JStr "Could not find JSON structure"]>
          (<["raw_response" := JStr text]> ∅)).
Proof.
  intros Hopen Hclose r.
  assert (Hparse : Sequential.parse_response json_loads text qd = Ok r)
    by by apply parse_response_no_brace.
  split_and!.
  - done.
  - intros service s Hsvc.
    rewrite generate_response_unfold, Hsvc, Hparse. by destruct s.
  - subst r. repeat constructor;
      [ rewrite manual_argument | rewrite manual_question_stem | rewrite manual_options
      | rewrite manual_correct_answer | rewrite manual_explanation
      | rewrite manual_question_type ]; by eexists.
  - apply manual_no_error.
  - subst r. by rewrite manual_options, extract_options_no_brace.
  - by repeat constructor.
  - subst r. repeat constructor; intros Habs;
      [ rewrite manual_argument | rewrite manual_question_stem
      | rewrite manual_correct_answer | rewrite manual_explanation ];
      by rewrite marked_value_absent.
  - intros manual. unfold ExamPacks.parse_response.
    by rewrite (find_absent_from _ _ 0 Hopen).
Qed.

(** C4, amended.  When a response consists of the text of one object,
    which [json.loads] accepts, after prose without an opening brace and
    before prose without a closing brace, the substring from the first
    opening brace to the last closing brace is exactly that text, it
    parses, and the structured path returns the parsed object completed
    with the data of the page (or, when a required key is missing, the
    manual extraction). *)
Theorem structured_path_extracts_object pre body post parsed qd :
  let obj := "{" +:+ body +:+ "}" in
  let text := pre +:+ obj +:+ post in
  Py.contains "{" pre = false ->
  Py.contains "}" post = false ->
  json_loads obj = Loaded parsed ->
  Sequential.json_candidate text = Some obj
  /\ json_loads <$> Sequential.json_candidate text = Some (Loaded parsed)
  /\ Sequential.parse_response json_loads text qd
     = Ok (let p := Sequential.complete_parsed parsed qd in
           if decide (Forall (fun key => is_Some (p !! key)) Sequential.required_keys)
           then p
           else Sequential.manually_extract_components text qd).
Proof.
  intros obj text Hpre Hpost Hloads.
  assert (Hc : Sequential.json_candidate text = Some obj)
    by by apply json_candidate_embedded.
  split_and!; [done | by rewrite Hc; simpl; rewrite Hloads |].
  unfold Sequential.parse_response. rewrite Hc, Hloads. cbv zeta.
  case_decide as Hall.
  - by rewrite (proj2 (filter_missing_nil _ _) Hall).
  - destruct (filter _ Sequential.required_keys) eqn:Hf; [| done].
    by apply filter_missing_nil in Hf.
Qed.

End ParsingClaims.

(** ** Loading the checkpoint, and the validity of a saved result *)

Section SmallClaims.

Local Open Scope string_scope.

(** C8, amended.  [load_checkpoint] of the sequential driver never raises:
    it returns the empty list of identifiers when the checkpoint file is
    absent, cannot be read or does not parse, and what the file records
    when it parses.  [read_checkpoint] of the exam pack driver does the
    same when the file is absent, does not parse, or parses. *)
Theorem load_checkpoint_fails_soft (c : checkpoint_file) :
  (exists d, Sequential.load_checkpoint c = Ok d)
  /\ get_processed_files empty_checkpoint = []
  /\ match c with
     | CkHolds d =>
         Sequential.load_checkpoint c = Ok d /\ ExamPacks.read_checkpoint c = Ok d
     | CkAbsent | CkUnparsable =>
         Sequential.load_checkpoint c = Ok empty_checkpoint /\
         ExamPacks.read_checkpoint c = Ok empty_checkpoint
     | CkUnreadable =>
         Sequential.load_checkpoint c = Ok empty_checkpoint
     end.
Proof. destruct c; split_and!; by eauto. Qed.

Lemma all_in_object (keys : list string) (m : dict) :
  CombineResults.all_in keys (JObj m)
  = Ok (bool_decide (Forall (fun key => is_Some (m !! key)) keys)).
Proof.
  induction keys as [|k keys IH]; [done |].
  cbn [CombineResults.all_in CombineResults.py_in]. unfold has_key.
  destruct (decide (is_Some (m !! k))) as [Hk | Hk].
  - rewrite (bool_decide_eq_true_2 _ Hk), IH. f_equal.
    apply bool_decide_ext. rewrite Forall_cons. tauto.
  - rewrite (bool_decide_eq_false_2 _ Hk). f_equal. symmetry.
    apply bool_decide_eq_false_2. rewrite Forall_cons. tauto.
Qed.

Lemma truthy_object (m : dict) (k : string) (v : json) :
  m !! k = Some v -> CombineResults.truthy (JObj m) = true.
Proof.
  intros Hk. simpl. rewrite bool_decide_eq_false_2; [done |].
  intros ->%map_size_empty_inv. by rewrite lookup_empty in Hk.
Qed.

(** C9.  A saved result, an object whose analysis, when there is one, is an
    object, is classified in every case, and it is classified as valid
    exactly when it has an analysis that has no error entry and has every
    required key. *)
Theorem valid_result_characterised (saved : dict) :
  (forall a, saved !! "analysis" = Some a -> exists m, a = JObj m) ->
  (CombineResults.is_valid_result (JObj saved) = Ok true \/
   CombineResults.is_valid_result (JObj saved) = Ok false)
  /\ (CombineResults.is_valid_result (JObj saved) = Ok true <->
      exists analysis,
        saved !! "analysis" = Some (JObj analysis)
        /\ analysis !! "error" = None
        /\ Forall (fun key => is_Some (analysis !! key)) CombineResults.required_keys).
Proof.
  intros Hshape. unfold CombineResults.is_valid_result.
  destruct (saved !! "analysis") as [a|] eqn:Ha.
  - destruct (Hshape a eq_refl) as [m ->].
    rewrite (truthy_object _ _ _ Ha). cbn [negb CombineResults.py_in CombineResults.py_getitem].
    unfold has_key. rewrite Ha, bool_decide_eq_true_2 by by eexists.
    destruct (m !! "error") as [e|] eqn:He.
    + rewrite bool_decide_eq_true_2 by by eexists.
      split; [by right |]. split; [done |].
      intros (m' & [= <-] & He' & _). congruence.
    + rewrite bool_decide_eq_false_2 by by intros [? ?].
      rewrite all_in_object. case_bool_decide as Hall.
      * split; [by left |]. split; [| done]. intros _. by exists m.
      * split; [by right |]. split; [done |]. by intros (m' & [= <-] & _ & ?).
  - assert (Hnone : CombineResults.py_in "analysis" (JObj saved) = Ok false).
    { cbn. unfold has_key. rewrite Ha. by rewrite bool_decide_eq_false_2 by by intros [? ?]. }
    rewrite Hnone.
    assert (Hres : (if negb (CombineResults.truthy (JObj saved))
                    then Ok false else @Ok bool false) = Ok false) by by destruct (negb _).
    rewrite Hres. split; [by right |]. split; [done |]. by intros (? & ? & _).
Qed.

End SmallClaims.

(** ** The order of the file names *)

Section NameOrder.

Lemma str_leb_trans (x y z : string) :
  String.leb x y = true -> String.leb y z = true -> String.leb x z = true.
Proof.
  unfold String.leb. revert y z.
  induction x as [|a x IH]; intros [|b y] [|c z]; simpl; try done.
  unfold Ascii.compare.
  destruct (N.compare_spec (N_of_ascii a) (N_of_ascii b)) as [Hab|Hab|Hab];
    destruct (N.compare_spec (N_of_ascii b) (N_of_ascii c)) as [Hbc|Hbc|Hbc];
    destruct (N.compare_spec (N_of_ascii a) (N_of_ascii c)) as [Hac|Hac|Hac];
    try done; try lia.
  apply IH.
Qed.

#[local] Instance str_le_trans : Transitive str_le.
Proof. intros x y z. apply str_leb_trans. Qed.

#[local] Instance str_le_total : Total str_le.
Proof. intros x y. apply String.leb_total. Qed.

Lemma sorted_names_sorted dir : StronglySorted str_le (sorted_names dir).
Proof. apply StronglySorted_merge_sort; apply _. Qed.

Lemma elem_of_sorted_names dir f : f ∈ sorted_names dir <-> f ∈ dir.
Proof. unfold sorted_names. by rewrite merge_sort_Permutation, elem_of_elements. Qed.

Lemma length_sorted_names dir : length (sorted_names dir) = size dir.
Proof. unfold sorted_names. by rewrite merge_sort_Permutation. Qed.

(** In a sorted list, what comes first is below what comes after. *)
Lemma sorted_take_drop {X} (R : relation X) (l : list X) (n : nat) x y :
  StronglySorted R l -> x ∈ take n l -> y ∈ drop n l -> R x y.
Proof.
  intros Hs. revert n. induction Hs as [|a l Hs IH Ha]; intros n Hx Hy.
  - rewrite take_nil in Hx. by apply elem_of_nil in Hx.
  - destruct n as [|n]; [by apply elem_of_nil in Hx |].
    cbn in Hx, Hy. apply elem_of_cons in Hx as [-> | Hx].
    + rewrite Forall_forall in Ha. apply Ha.
      rewrite <- (take_drop n l). apply elem_of_app. by right.
    + by apply (IH n).
Qed.

(** The first [n] names of a directory are the lowest ones. *)
Lemma first_names_lowest dir n f g :
  f ∈ take n (sorted_names dir) -> g ∈ dir -> g ∉ take n (sorted_names dir) -> str_le f g.
Proof.
  intros Hf Hg Hng.
  apply (sorted_take_drop _ (sorted_names dir) n); [apply sorted_names_sorted | done |].
  apply elem_of_sorted_names in Hg.
  rewrite <- (take_drop n (sorted_names dir)) in Hg.
  by apply elem_of_app in Hg as [? | ?].
Qed.

Lemma slice_list_limit {X} (l : list X) (n : nat) :
  slice_list l 0 (Z.of_nat n) = take n l.
Proof.
  unfold slice_list, Py.clip. simpl (0 <? 0).
  destruct (Z.ltb_spec (Z.of_nat n) 0); [lia |].
  rewrite (Z.min_l 0) by lia. rewrite Z.sub_0_r. simpl (Z.to_nat 0). rewrite drop_0.
  destruct (Z.min_spec (Z.of_nat n) (Z.of_nat (length l))) as [[? ->] | [? ->]].
  - by rewrite Nat2Z.id.
  - rewrite Nat2Z.id. rewrite !take_ge; [done | lia | lia].
Qed.

End NameOrder.

(** A function whose values on a list are all distinct is injective on
    the list. *)
Lemma NoDup_fmap_inj_on {X Y} (f : X -> Y) (l : list X) x y :
  NoDup (f <$> l) -> x ∈ l -> y ∈ l -> f x = f y -> x = y.
Proof.
  induction l as [|a l IH]; intros Hnd Hx Hy Heq; [by apply elem_of_nil in Hx |].
  rewrite fmap_cons in Hnd. apply NoDup_cons in Hnd as [Ha Hnd].
  apply elem_of_cons in Hx as [-> | Hx], Hy as [-> | Hy].
  - done.
  - exfalso. apply Ha. rewrite Heq. by apply list_elem_of_fmap_2.
  - exfalso. apply Ha. rewrite <- Heq. by apply list_elem_of_fmap_2.
  - by apply IH.
Qed.

(** ** Maps filled by a loop *)

Section FoldInsert.

Context {V : Type} (key : string -> string) (value : string -> V).

Lemma dom_foldl_insert (files : list string) (o : gmap string V) :
  dom (foldl (fun o f => <[key f := value f]> o) o files)
  = dom o ∪ list_to_set (key <$> files).
Proof.
  revert o. induction files as [|f rest IH]; intros o.
  - simpl. by rewrite union_empty_r_L.
  - rewrite fmap_cons, list_to_set_cons. simpl. rewrite IH, dom_insert_L.
    by rewrite (comm_L (∪) {[key f]} (dom o)), (assoc_L (∪)).
Qed.

Lemma lookup_foldl_insert (files : list string) (o : gmap string V) f :
  (forall g, g ∈ files -> key g = key f -> g = f) ->
  f ∈ files \/ o !! key f = Some (value f) ->
  foldl (fun o f => <[key f := value f]> o) o files !! key f = Some (value f).
Proof.
  revert o. induction files as [|g rest IH]; intros o Hd Hf.
  - destruct Hf as [Hf | Hf]; [by apply elem_of_nil in Hf | done].
  - simpl. apply IH; [intros h Hh; apply Hd; by right |].
    destruct (decide (key g = key f)) as [Heq | Hne].
    + right. rewrite (Hd g) by (done || by left). by rewrite lookup_insert_eq.
    + rewrite lookup_insert_ne by done.
      destruct Hf as [[-> | Hf]%elem_of_cons | Hf]; [done | by left | by right].
Qed.

Lemma lookup_foldl_other (files : list string) (o : gmap string V) (k : string) :
  (forall f, f ∈ files -> key f <> k) ->
  foldl (fun o f => <[key f := value f]> o) o files !! k = o !! k.
Proof.
  revert o. induction files as [|f rest IH]; intros o Hk; [done |].
  simpl. rewrite IH by (intros g Hg; apply Hk; by right).
  apply lookup_insert_ne, Hk. by left.
Qed.

End FoldInsert.

(** ** Runs in which every item is processed *)

Section SequentialHappy.

Import Sequential.

Variable json_loads : string -> loads_outcome.
Variable py_repr : json -> string.

Local Abbreviation run := (Sequential.run json_loads py_repr).
Local Abbreviation process_loop := (Sequential.process_loop json_loads py_repr).
Local Abbreviation process_file_sequentially :=
  (Sequential.process_file_sequentially json_loads py_repr).

Lemma process_file_sequentially_succeeds env f d pf s :
  succeeds json_loads env f d -> f ∉ pf ->
  exists q,
    steps (process_file_sequentially env f pf) s (Ok (FileResult Processed f))
          [EvRequest q 0; EvOutputOpen (output_name f);
           EvOutputDump (output_name f) (JObj d)].
Proof.
  intros (p & text & Hhtml & Hsvc & Hparse & Herr & Hsave & _) Hin.
  exists (question_number (load_html_file f p)).
  unfold Sequential.process_file_sequentially.
  rewrite bool_decide_eq_false_2 by done. rewrite Hhtml.
  apply steps_try_ok.
  apply (steps_bind _ _ _ (load_html_file f p) [] _ [_; _; _]); [apply steps_ret |].
  apply (steps_bind _ _ _ d [_] _ [_; _]).
  - rewrite generate_response_unfold, Hsvc, Hparse.
    apply (steps_bind _ _ _ tt [_] _ []); [apply steps_emit | apply steps_ret].
  - rewrite Herr. unfold save_result. rewrite Hsave.
    apply (steps_bind _ _ _ tt [_; _] _ []); [| apply steps_ret].
    apply (steps_bind _ _ _ tt [_] _ [_]); apply steps_emit.
Qed.

(** The output files after the items [files] have been saved. *)
Lemma process_loop_succeeds env (ds : string -> dict) files acc s :
  (forall f, f ∈ files -> succeeds json_loads (env f) f (ds f)) ->
  NoDup files ->
  (forall f, f ∈ files -> f ∉ processed_files acc) ->
  exists evs,
    steps (process_loop env files acc) s
          (Ok (RunStats (processed_files acc ++ files)
                        (num_processed acc + length files)
                        (num_skipped acc) (num_errors acc)
                        (results acc ++ (FileResult Processed <$> files)))) evs
    /\ outputs (world_after (cur s) evs)
       = foldl (fun o f => <[output_name f := Complete (JObj (ds f))]> o)
               (outputs (cur s)) files
    /\ error_log (world_after (cur s) evs) = error_log (cur s)
    /\ (files <> [] ->
        checkpoint (world_after (cur s) evs)
        = CkHolds {[ "processed_files"%string := processed_files acc ++ files ]}).
Proof.
  revert acc s. induction files as [|f rest IH]; intros acc s Hok Hnd Hnew.
  { exists []. rewrite !app_nil_r, Nat.add_0_r. split_and!; [| done..].
    destruct acc. apply steps_ret. }
  apply NoDup_cons in Hnd as [Hf Hnd].
  destruct (process_file_sequentially_succeeds (env f) f (ds f) (processed_files acc) s)
    as [q H1]; [apply Hok; by left | apply Hnew; by left |].
  set (e1 := [EvRequest q 0; EvOutputOpen (output_name f);
              EvOutputDump (output_name f) (JObj (ds f))]) in *.
  set (ck := [EvCheckpointOpen; EvCheckpointDump (processed_files acc ++ [f])]).
  assert (Hio : save_checkpoint_io (env f) = IoOk).
  { destruct (Hok f) as (? & ? & ? & ? & ? & ? & ? & ?); [by left | done]. }
  set (s1 := State (world_after (cur s) e1) (log s ++ e1)).
  set (s2 := State (world_after (cur s1) ck) (log s1 ++ ck)).
  destruct (IH (record_processed acc f) s2) as (evs & H2 & Hout & Hlog & Hck).
  { intros g Hg. apply Hok. by right. }
  { done. }
  { intros g Hg [Hin | ->%list_elem_of_singleton]%elem_of_app; [| done].
    apply (Hnew g); [by right | done]. }
  cbn [record_processed processed_files num_processed num_skipped num_errors results]
    in H2, Hck.
  replace ((processed_files acc ++ [f]) ++ rest)
    with (processed_files acc ++ f :: rest) in H2, Hck by by rewrite <- app_assoc.
  replace (S (num_processed acc) + length rest)%nat
    with (num_processed acc + length (f :: rest))%nat in H2 by (simpl; lia).
  replace ((results acc ++ [FileResult Processed f]) ++ (FileResult Processed <$> rest))
    with (results acc ++ (FileResult Processed <$> f :: rest)) in H2
    by by rewrite fmap_cons, <- app_assoc.
  assert (Hw : world_after (cur s) (e1 ++ ck ++ evs) = world_after (cur s2) evs)
    by by rewrite !world_after_app.
  exists (e1 ++ ck ++ evs). rewrite Hw. split_and!.
  - cbn [Sequential.process_loop].
    eapply steps_bind; [exact H1 |]. cbn [st file_name].
    eapply steps_bind; [| exact H2].
    eapply steps_events; [| apply (app_nil_r ck)].
    eapply steps_bind; [| apply steps_ret].
    pose proof (steps_save_checkpoint (processed_files acc ++ [f]) IoOk) as H.
    rewrite Hio. apply H.
  - rewrite Hout. subst s2 s1 e1 ck. cbn. by rewrite insert_insert_eq.
  - by rewrite Hlog.
  - intros _. destruct rest as [|g rest]; [| by apply Hck].
    apply steps_det with (r' := Ok (record_processed acc f)) (e' := []) in H2
      as [_ ->]; [| apply steps_ret]. done.
Qed.

End SequentialHappy.

(** ** The exam pack driver when every item is handled *)

Section ExamPacksHappy.

Import ExamPacks.

Variable json_loads : string -> loads_outcome.
Variable manual : string -> question_data -> dict.

Local Abbreviation generate_response := (ExamPacks.generate_response json_loads manual).
Local Abbreviation process_file := (ExamPacks.process_file json_loads manual).
Local Abbreviation process_batch := (ExamPacks.process_batch json_loads manual).
Local Abbreviation process_batches := (ExamPacks.process_batches json_loads manual).
Local Abbreviation run := (ExamPacks.run json_loads manual).

Local Abbreviation saved_result := (ExamPacks.saved_result json_loads manual).

(** The recursion budget of [generate_response] is never used up: the
    function satisfies the recursive equation of the source. *)
Lemma exam_generate_response_unfold env qd retry_count :
  generate_response env qd retry_count
  = (emit (EvRequest (question_number qd) retry_count) ;;;
     match service env retry_count with
     | CallText response_text =>
         ret (parse_response json_loads manual response_text qd)
     | CallBroken msg => raise (OtherError msg)
     | CallFails msg =>
         if (retry_count <? MAX_RETRIES)%nat then
           append_error_log (retry_line env qd msg) (retry_log_ok env retry_count) ;;;
           generate_response env qd (S retry_count)
         else
           append_error_log (final_line env qd msg) (final_log_ok env) ;;;
           ret {[ "error"%string
                  := JStr ("API request failed after " +:+ pretty MAX_RETRIES
                           +:+ " retries: " +:+ msg) ]}
     end).
Proof.
  unfold ExamPacks.generate_response.
  destruct (Nat.ltb_spec retry_count MAX_RETRIES) as [Hlt|Hge].
  - replace (MAX_RETRIES - retry_count)%nat
      with (S (MAX_RETRIES - S retry_count)) by lia.
    cbn [generate_response_from].
    apply Nat.ltb_lt in Hlt. by rewrite Hlt.
  - apply Nat.ltb_ge in Hge as Hge'.
    destruct (MAX_RETRIES - retry_count)%nat;
      cbn [generate_response_from]; by rewrite Hge'.
Qed.

Lemma process_file_succeeds env f p text ls s :
  succeeds env p text ->
  steps (process_file env f ls) s
        (Ok (LoopState (ls_processed_files ls ++ [f])
                       (ls_batch_results ls ++ [saved_result f p text])))
        [EvRequest (question_number_of f) 0;
         EvOutputOpen (output_of f);
         EvOutputDump (output_of f) (saved_result f p text);
         EvCheckpointOpen;
         EvCheckpointDump (ls_processed_files ls ++ [f])].
Proof.
  intros (Hhtml & Hsvc & Hsave & Hck).
  unfold ExamPacks.process_file, try_file. rewrite Hhtml, Hsave, Hck.
  apply (steps_bind _ _ _ (LoopState (ls_processed_files ls ++ [f])
                                     (ls_batch_results ls ++ [saved_result f p text]),
                           None) [_; _; _; _; _] _ []); [| apply steps_ret].
  apply steps_try_ok.
  apply (steps_bind _ _ _ (load_html_file f p) [] _ [_; _; _; _; _]); [apply steps_ret |].
  apply (steps_bind _ _ _ (parse_response json_loads manual text (load_html_file f p))
           [_] _ [_; _; _; _]).
  { unfold ExamPacks.generate_response, MAX_RETRIES.
    cbn [Nat.sub generate_response_from]. rewrite Hsvc.
    apply (steps_bind _ _ _ tt [_] _ []); [apply steps_emit | apply steps_ret]. }
  apply (steps_bind _ _ _ tt [_; _] _ [_; _]).
  { apply (steps_bind _ _ _ tt [_] _ [_]); apply steps_emit. }
  apply steps_try_ok.
  apply (steps_bind _ _ _ tt [_; _] _ []); [| apply steps_ret].
  apply (steps_bind _ _ _ tt [_] _ [_]); apply steps_emit.
Qed.


(** The inner loop over files that are all handled. *)
Lemma process_batch_succeeds env (pages : string -> page) (texts : string -> string)
    batch ls s :
  (forall f, f ∈ batch -> succeeds (env f) (pages f) (texts f)) ->
  exists evs,
    steps (process_batch env batch ls) s
          (Ok (LoopState
                 (ls_processed_files ls ++ batch)
                 (ls_batch_results ls
                    ++ ((fun f => saved_result f (pages f) (texts f)) <$> batch)))) evs
    /\ outputs (world_after (cur s) evs)
       = foldl (fun o f => <[output_of f := Complete (saved_result f (pages f) (texts f))]> o)
               (outputs (cur s)) batch
    /\ error_log (world_after (cur s) evs) = error_log (cur s)
    /\ (batch <> [] ->
        checkpoint (world_after (cur s) evs)
        = CkHolds {[ "processed_files"%string := ls_processed_files ls ++ batch ]}).
Proof.
  revert ls s. induction batch as [|f rest IH]; intros ls s Hok.
  { exists []. rewrite !app_nil_r. split_and!; [| done..].
    destruct ls. apply steps_ret. }
  pose proof (process_file_succeeds (env f) f (pages f) (texts f) ls s
                (Hok f ltac:(by left))) as H1.
  set (e1 := [EvRequest (question_number_of f) 0; EvOutputOpen (output_of f);
              EvOutputDump (output_of f) (saved_result f (pages f) (texts f));
              EvCheckpointOpen; EvCheckpointDump (ls_processed_files ls ++ [f])]) in *.
  set (s1 := State (world_after (cur s) e1) (log s ++ e1)).
  destruct (IH (LoopState (ls_processed_files ls ++ [f])
                  (ls_batch_results ls ++ [saved_result f (pages f) (texts f)])) s1)
    as (evs & H2 & Hout & Hlog & Hck).
  { intros g Hg. apply Hok. by right. }
  cbn [ls_processed_files ls_batch_results] in H2, Hck.
  replace ((ls_processed_files ls ++ [f]) ++ rest)
    with (ls_processed_files ls ++ f :: rest) in H2, Hck by by rewrite <- app_assoc.
  replace ((ls_batch_results ls ++ [saved_result f (pages f) (texts f)])
             ++ ((fun f => saved_result f (pages f) (texts f)) <$> rest))
    with (ls_batch_results ls
            ++ ((fun f => saved_result f (pages f) (texts f)) <$> f :: rest)) in H2
    by by rewrite fmap_cons, <- app_assoc.
  assert (Hw : world_after (cur s) (e1 ++ evs) = world_after (cur s1) evs)
    by by rewrite world_after_app.
  exists (e1 ++ evs). rewrite Hw. split_and!.
  - cbn [ExamPacks.process_batch]. eapply steps_bind; [exact H1 | exact H2].
  - rewrite Hout. subst s1 e1. cbn. by rewrite insert_insert_eq.
  - by rewrite Hlog.
  - intros _. destruct rest as [|g rest]; [| by apply Hck].
    apply steps_det with (r' := Ok (LoopState (ls_processed_files ls ++ [f])
             (ls_batch_results ls ++ [saved_result f (pages f) (texts f)]))) (e' := [])
      in H2 as [_ ->]; [| apply steps_ret]. done.
Qed.

(** The first write of the aggregate file. *)
Lemma save_all_results_first all_results s :
  outputs (cur s) !! all_results_name = None ->
  steps (save_all_results all_results IoOk) s (Ok tt)
        [EvOutputOpen all_results_name;
         EvOutputDump all_results_name (JArr all_results)].
Proof.
  intros Hnone. unfold save_all_results.
  apply (steps_bind _ _ _ (cur s) [] _ [_; _]).
  { unfold steps, read_world. destruct s. simpl. by rewrite app_nil_r. }
  rewrite world_after_nil_state. rewrite Hnone.
  apply (steps_bind _ _ _ [] [] _ [_; _]); [apply steps_ret |].
  apply (steps_bind _ _ _ [] [] _ [_; _]); [apply steps_ret |].
  rewrite app_nil_r.
  apply (steps_bind _ _ _ tt [_] _ [_]); apply steps_emit.
Qed.


Lemma output_of_not_aggregate f : output_of f <> all_results_name.
Proof. unfold output_of, all_results_name. by rewrite append_cons. Qed.

(** A work list that fits into one batch. *)
Lemma process_batches_one env aggregate_io (pages : string -> page)
    (texts : string -> string) fuel files pf s :
  files <> [] ->
  (length files <= BATCH_SIZE)%nat ->
  (forall f, f ∈ files -> succeeds (env f) (pages f) (texts f)) ->
  aggregate_io 0%nat = IoOk ->
  outputs (cur s) !! all_results_name = None ->
  let saved := (fun f => saved_result f (pages f) (texts f)) <$> files in
  exists evs,
    steps (process_batches (S fuel) env aggregate_io 0 files pf []) s
          (Ok (pf ++ files, saved)) evs
    /\ outputs (world_after (cur s) evs)
       = <[all_results_name := Complete (JArr saved)]>
           (foldl (fun o f => <[output_of f
                                 := Complete (saved_result f (pages f) (texts f))]> o)
                  (outputs (cur s)) files)
    /\ error_log (world_after (cur s) evs) = error_log (cur s)
    /\ checkpoint (world_after (cur s) evs)
       = CkHolds {[ "processed_files"%string := pf ++ files ]}.
Proof.
  intros Hne Hlen Hok Hio Hnone saved.
  destruct (process_batch_succeeds env pages texts files (LoopState pf []) s Hok)
    as (e1 & H1 & Hout & Hlog & Hck).
  cbn [ls_processed_files ls_batch_results] in H1, Hck. rewrite app_nil_l in H1.
  fold saved in H1.
  set (s1 := State (world_after (cur s) e1) (log s ++ e1)).
  set (e2 := [EvOutputOpen all_results_name; EvOutputDump all_results_name (JArr saved)]).
  assert (H2 : steps (save_all_results saved (aggregate_io 0%nat)) s1 (Ok tt) e2).
  { rewrite Hio. apply save_all_results_first. subst s1. cbn [cur].
    rewrite Hout. rewrite lookup_foldl_other; [done |].
    intros f _. apply output_of_not_aggregate. }
  exists (e1 ++ e2 ++ []). split_and!.
  - destruct files as [|f rest]; [done |].
    cbn [ExamPacks.process_batches].
    rewrite take_ge by done. rewrite drop_ge by done.
    eapply steps_bind; [exact H1 |]. cbn [ls_batch_results ls_processed_files app].
    eapply steps_bind; [exact H2 |].
    destruct fuel; apply steps_ret.
  - rewrite app_nil_r, world_after_app. subst e2. cbn.
    rewrite Hout. by rewrite insert_insert_eq.
  - rewrite app_nil_r, world_after_app. subst e2. cbn. by rewrite Hlog.
  - rewrite app_nil_r, world_after_app. subst e2. cbn. by rewrite Hck.
Qed.

Lemma read_checkpoint_fresh c :
  fresh_checkpoint c ->
  exists d, read_checkpoint c = Ok d /\ get_processed_files d = [].
Proof.
  intros [-> | (d & -> & Hd)]; [by exists empty_checkpoint | by exists d].
Qed.

Lemma filter_not_in_nil (l : list string) :
  filter (fun f => f ∉ ([] : list string)) l = l.
Proof.
  induction l as [|x l IH]; [done |].
  rewrite filter_cons_True by apply not_elem_of_nil. by rewrite IH.
Qed.

(** The run of the scenario: ten pages, no identifier in the checkpoint, a
    fresh output directory, a limit of five. *)
Lemma filter_all_true {A} (P : A -> Prop) `{!forall x, Decision (P x)} (l : list A) :
  (forall x, x ∈ l -> P x) -> filter P l = l.
Proof.
  induction l as [|x l IH]; intros Hall; [done |].
  rewrite filter_cons_True by (apply Hall; by left).
  rewrite IH; [done |]. intros y Hy. apply Hall. by right.
Qed.

Lemma run_limit_five env aggregate_io dir (pages : string -> page)
    (texts : string -> string) w0 :
  size dir = 10%nat ->
  (forall f, f ∈ dir -> is_question_page f = true) ->
  outputs w0 = ∅ ->
  fresh_checkpoint (checkpoint w0) ->
  aggregate_io 0%nat = IoOk ->
  let first5 := take 5 (sorted_names dir) in
  (forall f, f ∈ first5 -> succeeds (env f) (pages f) (texts f)) ->
  let saved := (fun f => saved_result f (pages f) (texts f)) <$> first5 in
  exists evs,
    run env aggregate_io dir None None (Some 5) w0
    = (Ok (Some (first5, saved)), State (world_after w0 evs) evs)
    /\ outputs (world_after w0 evs)
       = <[all_results_name := Complete (JArr saved)]>
           (foldl (fun o f => <[output_of f
                                 := Complete (saved_result f (pages f) (texts f))]> o)
                  ∅ first5)
    /\ checkpoint (world_after w0 evs) = CkHolds {[ "processed_files"%string := first5 ]}.
Proof.
  intros Hsize Hglob Hfresh Hck Hio first5 Hok saved.
  destruct (read_checkpoint_fresh _ Hck) as (d & Hd & Hids).
  assert (Hlen : length (sorted_names dir) = 10%nat) by by rewrite length_sorted_names.
  assert (Hlen5 : length first5 = 5%nat).
  { subst first5. rewrite length_take. lia. }
  destruct (process_batches_one env aggregate_io pages texts 4 first5 [] (State w0 []))
    as (evs & H1 & Hout & _ & Hckpt); try done.
  { intros ->. done. }
  { unfold BATCH_SIZE. lia. }
  { cbn. by rewrite Hfresh. }
  exists evs. cbn [cur] in *. rewrite Hfresh in Hout. split_and!; [| done..].
  unfold ExamPacks.run, process_all_files, bind, read_world. cbn [cur].
  rewrite Hd. cbn [ret]. rewrite Hids, filter_not_in_nil.
  rewrite filter_all_true by (intros f Hf; apply Hglob; by apply elem_of_elements).
  destruct (elements dir) as [|x l] eqn:He.
  { exfalso. unfold sorted_names in Hlen. rewrite He in Hlen. done. }
  rewrite <- He. fold (sorted_names dir).
  assert (Hsel : select_files (sorted_names dir) None None (Some 5) = first5).
  { unfold select_files. rewrite Hlen. apply (slice_list_limit _ 5). }
  rewrite Hsel, Hlen5. unfold steps in H1. by rewrite H1.
Qed.

End ExamPacksHappy.

(** ** The scenario of ten pages and a limit of five *)

Section LimitFive.

Local Open Scope string_scope.

Variable json_loads : string -> loads_outcome.
Variable py_repr : json -> string.
Variable manual : string -> question_data -> dict.

Lemma checkpoint_ids_fresh w :
  fresh_checkpoint (checkpoint w) -> Sequential.checkpoint_ids w = [].
Proof.
  unfold Sequential.checkpoint_ids. by intros [-> | (d & -> & Hd)].
Qed.

Lemma output_name_not_aggregate f :
  Sequential.output_name f <> ExamPacks.all_results_name.
Proof. unfold Sequential.output_name, ExamPacks.all_results_name. by rewrite append_cons. Qed.

(** C7, amended.  Ten pages, no identifier in the checkpoint, an empty
    output directory, a limit of five, and the five lowest file names
    handled without failure and with output files of their own.  One run of
    the sequential driver then creates exactly the five output files of
    those pages and leaves a checkpoint file that lists exactly their
    names, and it writes no aggregate file.  One run of the exam pack
    driver, when the ten pages have names that its pattern
    [question_*.html] finds, creates the five output files, leaves the
    same checkpoint, and writes the aggregate file with exactly the five
    saved results. *)
Theorem limit_five_scenario (dir : gset string) (w0 : world)
    (senv : string -> Sequential.item_env) (ds : string -> dict)
    (eenv : string -> ExamPacks.item_env) (aggregate_io : nat -> io_outcome)
    (pages : string -> page) (texts : string -> string) :
  size dir = 10%nat ->
  outputs w0 = ∅ ->
  fresh_checkpoint (checkpoint w0) ->
  let first5 := take 5 (sorted_names dir) in
  (forall f, f ∈ first5 -> Sequential.succeeds json_loads (senv f) f (ds f)) ->
  Sequential.distinct_outputs first5 ->
  (forall f, f ∈ first5 -> ExamPacks.succeeds (eenv f) (pages f) (texts f)) ->
  aggregate_io 0%nat = IoOk ->
  NoDup (ExamPacks.output_of <$> first5) ->
  let srun := Sequential.run json_loads py_repr senv dir None None (Some 5) false w0 in
  let erun := ExamPacks.run json_loads manual eenv aggregate_io dir None None (Some 5) w0 in
  let saved := (fun f => ExamPacks.saved_result json_loads manual f (pages f) (texts f))
                 <$> first5 in
  (length first5 = 5%nat /\
   forall f g, f ∈ first5 -> g ∈ dir -> g ∉ first5 -> str_le f g)
  /\ (exists stats,
        srun.1 = Ok stats
        /\ Sequential.processed_files stats = first5
        /\ Sequential.num_processed stats = 5%nat
        /\ dom (outputs (cur srun.2)) = list_to_set (Sequential.output_name <$> first5)
        /\ size (outputs (cur srun.2)) = 5%nat
        /\ (forall f, f ∈ first5 ->
              outputs (cur srun.2) !! Sequential.output_name f
              = Some (Complete (JObj (ds f))))
        /\ checkpoint (cur srun.2) = CkHolds {[ "processed_files" := first5 ]}
        /\ outputs (cur srun.2) !! ExamPacks.all_results_name = None)
  /\ ((forall f, f ∈ dir -> ExamPacks.is_question_page f = true) ->
      erun.1 = Ok (Some (first5, saved))
      /\ dom (outputs (cur erun.2))
         = list_to_set (ExamPacks.output_of <$> first5) ∪ {[ ExamPacks.all_results_name ]}
      /\ size (outputs (cur erun.2)) = 6%nat
      /\ (forall f, f ∈ first5 ->
            outputs (cur erun.2) !! ExamPacks.output_of f
            = Some (Complete (ExamPacks.saved_result json_loads manual f
                                (pages f) (texts f))))
      /\ outputs (cur erun.2) !! ExamPacks.all_results_name = Some (Complete (JArr saved))
      /\ length saved = 5%nat
      /\ checkpoint (cur erun.2) = CkHolds {[ "processed_files" := first5 ]}).
Proof.
  intros Hsize Hout0 Hfresh first5 Hsok Hsd Heok Hio Hend srun erun saved.
  assert (Hlen : length (sorted_names dir) = 10%nat) by by rewrite length_sorted_names.
  assert (Hlen5 : length first5 = 5%nat).
  { subst first5. rewrite length_take. lia. }
  assert (Hnd : NoDup first5).
  { eapply sublist_NoDup; [apply NoDup_sorted_names | apply sublist_take]. }
  split_and!.
  - done.
  - intros f g. apply first_names_lowest.
  - subst srun. rewrite run_unfold, (checkpoint_ids_fresh _ Hfresh).
    assert (Hsel : Sequential.select_files (sorted_names dir) None None (Some 5) false
                   = first5) by apply (slice_list_limit _ 5).
    rewrite Hsel.
    destruct (process_loop_succeeds json_loads py_repr senv ds first5
                (Sequential.RunStats [] 0 0 0 []) (State w0 []))
      as (evs & H1 & Ho & _ & Hck); [done | done | |].
    { intros f _. apply not_elem_of_nil. }
    unfold steps in H1. rewrite H1. cbn [fst snd cur] in *.
    rewrite Hout0 in Ho.
    assert (Hdom : dom (outputs (world_after w0 evs))
                   = list_to_set (Sequential.output_name <$> first5)).
    { by rewrite Ho, dom_foldl_insert, dom_empty_L, union_empty_l_L. }
    eexists. split_and!; [done | done | cbn; lia | done | | | |].
    + rewrite <- size_dom, Hdom, size_list_to_set, length_fmap; [done |].
      apply NoDup_fmap_2_strong; [| done].
      by apply distinct_outputs_spec.
    + intros f Hf. rewrite Ho.
      apply (lookup_foldl_insert Sequential.output_name (fun f => Complete (JObj (ds f))));
        [| by left].
      intros g Hg Heq. by apply (proj1 (distinct_outputs_spec _) Hsd).
    + apply Hck. intros Hnil. by rewrite Hnil in Hlen5.
    + apply not_elem_of_dom. rewrite Hdom.
      intros (f & Hf & _)%elem_of_list_to_set%list_elem_of_fmap.
      by apply (output_name_not_aggregate f).
  - intros Hglob. subst erun.
    destruct (run_limit_five json_loads manual eenv aggregate_io dir pages texts w0)
      as (evs & -> & Ho & Hck); try done.
    cbn [fst snd cur]. split_and!.
    + done.
    + rewrite Ho, dom_insert_L, dom_foldl_insert, dom_empty_L, union_empty_l_L.
      apply (comm_L (∪)).
    + rewrite Ho, map_size_insert_None.
      * rewrite <- size_dom, dom_foldl_insert, dom_empty_L, union_empty_l_L.
        rewrite size_list_to_set, length_fmap by done.
        change (S (length first5) = 6%nat). by rewrite Hlen5.
      * rewrite lookup_foldl_other; [done |].
        intros f _. apply output_of_not_aggregate.
    + intros f Hf. rewrite Ho.
      rewrite lookup_insert_ne by (symmetry; apply output_of_not_aggregate).
      apply (lookup_foldl_insert ExamPacks.output_of
               (fun f => Complete (ExamPacks.saved_result json_loads manual f
                                     (pages f) (texts f)))); [| by left].
      intros g Hg Heq.
      by apply (NoDup_fmap_inj_on ExamPacks.output_of first5).
    + by rewrite Ho, lookup_insert_eq.
    + subst saved. by rewrite length_fmap.
    + done.
Qed.

End LimitFive.

(** ** Examples *)

Section Examples.

Import Scenario.

Local Open Scope string_scope.

Local Abbreviation srun := (Sequential.run loads repr).

(** Two pages of one directory can share an output file, since every
    occurrence of the extension is replaced: this is why the resume
    invariant asks for distinct output names. *)
Remark output_names_can_collide :
  "a.html.html" <> "a.json.html"
  /\ Sequential.output_name "a.html.html" = Sequential.output_name "a.json.html".
Proof. split; [discriminate | vm_compute; reflexivity]. Qed.

(** The witness of C1: two pages, a service that answers, a fresh world. *)
Lemma resume_invariant_witness :
  Sequential.distinct_outputs
    (Sequential.checkpoint_ids fresh
       ++ Sequential.select_files (sorted_names two_pages) None None None false)
  /\ Sequential.checkpoint_backed fresh
  /\ always Sequential.checkpoint_backed fresh
       (log (srun (fun _ => answering) two_pages None None None false fresh).2).
Proof.
  assert (Hd : Sequential.distinct_outputs
                 (Sequential.checkpoint_ids fresh
                    ++ Sequential.select_files (sorted_names two_pages)
                         None None None false)).
  { apply (bool_decide_unpack _). vm_compute. exact I. }
  assert (Hb : Sequential.checkpoint_backed fresh).
  { intros f Hf. by apply elem_of_nil in Hf. }
  split_and!; [exact Hd | exact Hb |].
  exact (proj1 (proj2 (resume_invariant loads repr (fun _ => answering) two_pages
                         None None None false fresh) Hd Hb)).
Defined.

(** The counterexample to C1 as stated.  Two pages whose names differ in
    an inner extension share an output file: when the second page is
    started, the checkpoint names the first page while the output file of
    both is truncated, so a process killed there leaves a checkpoint that
    is not backed.  And a checkpoint that cannot be written is passed over
    in silence: both pages are recorded as processed and have their
    output files, and the checkpoint file names neither. *)
Lemma checkpoint_without_output :
  let evs := log (srun (fun _ => answering) colliding_pages None None None false fresh).2 in
  let w := world_after fresh (take 7 evs) in
  let r := srun (fun _ => answering_unsaved) two_pages None None None false fresh in
  Sequential.checkpoint_backed fresh
  /\ Sequential.output_name "a.html.html" = Sequential.output_name "a.json.html"
  /\ checkpoint w = CkHolds {[ "processed_files" := ["a.html.html"] ]}
  /\ outputs w !! Sequential.output_name "a.html.html" = Some Truncated
  /\ ~ Sequential.checkpoint_backed w
  /\ (Sequential.results <$> match r.1 with Ok stats => Some stats | Raise _ => None end)
     = Some [FileResult Processed "cr_1.html"; FileResult Processed "cr_2.html"]
  /\ Sequential.output_complete (cur r.2) "cr_1.html"
  /\ Sequential.output_complete (cur r.2) "cr_2.html"
  /\ Sequential.checkpoint_ids (cur r.2) = [].
Proof.
  cbv zeta. split_and!.
  - intros f Hf. by apply elem_of_nil in Hf.
  - vm_compute. reflexivity.
  - vm_compute. reflexivity.
  - vm_compute. reflexivity.
  - intros Hb. specialize (Hb "a.html.html"). vm_compute in Hb.
    destruct Hb as [content Hc]; [by left | discriminate Hc].
  - vm_compute. reflexivity.
  - vm_compute. by eexists.
  - vm_compute. by eexists.
  - vm_compute. reflexivity.
Qed.

(** The witness of C2. *)
Lemma retries_exhausted_witness :
  (Sequential.process_file_sequentially loads repr down "cr_1.html" []
     (State fresh [])).1
  = Ok (FileResult Errored "cr_1.html").
Proof.
  destruct (retries_exhausted loads repr down "cr_1.html" [] (State fresh []) a_page
              "connection refused" "connection refused" "connection refused"
              "connection refused") as [H _];
    [apply not_elem_of_nil | reflexivity..|].
  by rewrite H.
Defined.

(** The counterexample to C2 as stated: after three failed requests a
    fourth one is sent, and when it is answered the item is processed, its
    output file is written, nothing is logged, and the loop puts the item
    into the checkpoint. *)
Lemma three_failures_then_answer :
  let r := Sequential.process_loop loads repr (fun _ => flaky) ["cr_1.html"]
             (Sequential.RunStats [] 0 0 0 []) (State fresh []) in
  Sequential.service flaky 0 = CallFails "timed out"
  /\ Sequential.service flaky 1 = CallFails "timed out"
  /\ Sequential.service flaky 2 = CallFails "timed out"
  /\ (Sequential.results <$> match r.1 with Ok stats => Some stats | Raise _ => None end)
     = Some [FileResult Processed "cr_1.html"]
  /\ filter is_request (log r.2)
     = [EvRequest "1" 0; EvRequest "1" 1; EvRequest "1" 2; EvRequest "1" 3]
  /\ error_log (cur r.2) = []
  /\ is_Some (outputs (cur r.2) !! "processed_cr_1.json")
  /\ checkpoint (cur r.2) = CkHolds {[ "processed_files" := ["cr_1.html"] ]}.
Proof. vm_compute. split_and!; try reflexivity. by eexists. Qed.

(** The witness of C3. *)
Lemma no_delimiters_falls_back_witness :
  Py.contains "{" plain_answer = false
  /\ Py.contains "}" plain_answer = false
  /\ Sequential.parse_response loads plain_answer
       (Sequential.load_html_file "cr_1.html" a_page)
     = Ok (Sequential.manually_extract_components plain_answer
             (Sequential.load_html_file "cr_1.html" a_page)).
Proof.
  assert (H1 : Py.contains "{" plain_answer = false) by reflexivity.
  assert (H2 : Py.contains "}" plain_answer = false) by reflexivity.
  split_and!; [exact H1 | exact H2 |].
  exact (proj1 (no_delimiters_falls_back loads plain_answer
                  (Sequential.load_html_file "cr_1.html" a_page) H1 H2)).
Defined.

(** The counterexample to C3 as stated: on an answer without braces the
    exam pack driver returns an object with an error entry and without the
    required keys. *)
Lemma exam_pack_driver_reports_error :
  let r := ExamPacks.parse_response loads no_extraction plain_answer
             (ExamPacks.load_html_file "question_1.html" a_page) in
  Py.contains "{" plain_answer = false
  /\ Py.contains "}" plain_answer = false
  /\ r !! "error" = Some (JStr "Could not find JSON structure")
  /\ r !! "raw_response" = Some (JStr plain_answer)
  /\ Forall (fun key => r !! key = None) ExamPacks.required_keys.
Proof. vm_compute. split_and!; try reflexivity. by repeat constructor. Qed.

(** The witness of C4. *)
Lemma structured_path_extracts_object_witness :
  Py.contains "{" "Here it is: " = false
  /\ Py.contains "}" " Done." = false
  /\ loads object_text = Loaded {[ "a" := JNum 1 ]}
  /\ Sequential.json_candidate ("Here it is: " +:+ object_text +:+ " Done.")
     = Some object_text.
Proof.
  assert (H1 : Py.contains "{" "Here it is: " = false) by reflexivity.
  assert (H2 : Py.contains "}" " Done." = false) by reflexivity.
  assert (H3 : loads object_text = Loaded {[ "a" := JNum 1 ]}) by reflexivity.
  split_and!; [exact H1 | exact H2 | exact H3 |].
  exact (proj1 (structured_path_extracts_object loads "Here it is: " object_body
                  " Done." {[ "a" := JNum 1 ]}
                  (Sequential.load_html_file "cr_1.html" a_page) H1 H2 H3)).
Defined.

(** The counterexample to C4 as stated: a brace in the prose before the
    object moves the start of the substring, and a brace in the prose after
    it moves the end; what is extracted is not the object, and it does not
    parse. *)
Lemma braces_in_prose_break_extraction :
  loads object_text = Loaded {[ "a" := JNum 1 ]}
  /\ Sequential.json_candidate ("Use {braces}: " +:+ object_text)
     = Some ("{braces}: " +:+ object_text)
  /\ Sequential.json_candidate ("Use {braces}: " +:+ object_text) <> Some object_text
  /\ loads ("{braces}: " +:+ object_text) = LoadsDecodeError "Expecting value"
  /\ Sequential.json_candidate (object_text +:+ " (see note})")
     = Some (object_text +:+ " (see note}").
Proof. vm_compute. split_and!; try reflexivity. discriminate. Qed.

(** The witness of C5. *)
Lemma skip_is_idempotent_witness :
  "cr_1.html" ∈ ["cr_1.html"]
  /\ Sequential.process_file_sequentially loads repr down "cr_1.html" ["cr_1.html"]
       (State fresh [])
     = (Ok (FileResult Skipped "cr_1.html"), State fresh []).
Proof.
  assert (H : "cr_1.html" ∈ ["cr_1.html"]) by apply list_elem_of_here.
  split; [exact H |].
  exact (proj1 (skip_is_idempotent loads repr (fun _ => down) "cr_1.html")
           ["cr_1.html"] (State fresh []) H).
Defined.

(** The witness of C6: the service is down, the error log can be written. *)
Lemma failures_isolated_witness :
  exists stats,
    (Sequential.process_loop loads repr (fun _ => down) ["cr_1.html"; "cr_2.html"]
       (Sequential.RunStats [] 0 0 0 []) (State fresh [])).1 = Ok stats
    /\ file_name <$> Sequential.results stats = ["cr_1.html"; "cr_2.html"].
Proof.
  apply (failures_isolated loads repr (fun _ => down) ["cr_1.html"; "cr_2.html"]
           (Sequential.RunStats [] 0 0 0 []) (State fresh [])).
  intros f _. reflexivity.
Defined.

(** The counterexample to C6 as stated: when the service is down and the
    error log cannot be opened, the exception of the append in the handler
    of the first item ends the run; the second item is never looked at. *)
Lemma unwritable_error_log_ends_run :
  let r := srun (fun _ => down_unlogged) two_pages None None None false fresh in
  Sequential.select_files (sorted_names two_pages) None None None false
  = ["cr_1.html"; "cr_2.html"]
  /\ r.1 = Raise (OtherError "error log")
  /\ log r.2 = [EvRequest "1" 0; EvRequest "1" 1; EvRequest "1" 2; EvRequest "1" 3].
Proof. vm_compute. by split_and!. Qed.

(** The counterexample to C8 as stated: [read_checkpoint] of the exam pack
    driver raises when the file cannot be read, and the run ends there. *)
Lemma read_checkpoint_raises_when_unreadable :
  ExamPacks.read_checkpoint CkUnreadable = Raise (OtherError "checkpoint")
  /\ ExamPacks.run loads no_extraction (fun _ => answering_exam) (fun _ => IoOk)
       two_pages None None None (World ∅ CkUnreadable [])
     = (Raise (OtherError "checkpoint"), State (World ∅ CkUnreadable []) []).
Proof. by vm_compute. Qed.

(** The witness of C9. *)
Lemma valid_result_characterised_witness :
  CombineResults.is_valid_result (JObj complete_result) = Ok true.
Proof.
  assert (Hshape : forall a, complete_result !! "analysis" = Some a -> exists m, a = JObj m).
  { intros a Ha. unfold complete_result in Ha. rewrite lookup_singleton_eq in Ha.
    injection Ha as <-. by eexists. }
  destruct (valid_result_characterised complete_result Hshape) as [_ [_ H]].
  apply H. eexists. split; [apply lookup_singleton_eq |].
  split; [reflexivity |].
  repeat constructor; by eexists.
Defined.

(** The witness of C7: ten pages with names that both drivers find, a
    service that answers. *)
Lemma limit_five_scenario_witness :
  size ten_question_pages = 10%nat
  /\ Forall (fun f => ExamPacks.is_question_page f = true) (elements ten_question_pages)
  /\ size (outputs (cur (srun (fun _ => answering) ten_question_pages
                           None None (Some 5) false fresh).2))
     = 5%nat
  /\ size (outputs (cur (ExamPacks.run loads no_extraction (fun _ => answering_exam)
                           (fun _ => IoOk) ten_question_pages None None (Some 5)
                           fresh).2))
     = 6%nat.
Proof.
  assert (Hsize : size ten_question_pages = 10%nat) by (vm_compute; reflexivity).
  assert (Hglob : Forall (fun f => ExamPacks.is_question_page f = true)
                    (elements ten_question_pages)).
  { apply (bool_decide_unpack _). vm_compute. exact I. }
  assert (Hsok : forall f, f ∈ take 5 (sorted_names ten_question_pages) ->
            Sequential.succeeds loads (answering) f
              (Sequential.manually_extract_components plain_answer
                 (Sequential.load_html_file f a_page))).
  { intros f _. exists a_page, plain_answer.
    split_and!;
      first [ reflexivity
            | apply manual_no_error
            | exact (parse_response_no_brace loads plain_answer _ eq_refl) ]. }
  assert (Hsd : Sequential.distinct_outputs (take 5 (sorted_names ten_question_pages))).
  { apply (bool_decide_unpack _). vm_compute. exact I. }
  assert (Heok : forall f, f ∈ take 5 (sorted_names ten_question_pages) ->
            ExamPacks.succeeds answering_exam a_page plain_answer).
  { intros f _. by repeat split. }
  assert (Hnd : NoDup (ExamPacks.output_of <$> take 5 (sorted_names ten_question_pages))).
  { apply (bool_decide_unpack _). vm_compute. exact I. }
  destruct (limit_five_scenario loads repr no_extraction ten_question_pages fresh
              (fun _ => answering)
              (fun f => Sequential.manually_extract_components plain_answer
                          (Sequential.load_html_file f a_page))
              (fun _ => answering_exam) (fun _ => IoOk) (fun _ => a_page)
              (fun _ => plain_answer) Hsize eq_refl (or_introl eq_refl) Hsok Hsd Heok
              eq_refl Hnd)
    as (_ & (stats & _ & _ & _ & _ & Hfive & _) & Hexam).
  destruct Hexam as (_ & _ & Hsix & _).
  { intros f Hf. rewrite Forall_forall in Hglob. apply Hglob.
    by apply elem_of_elements. }
  split_and!; [exact Hsize | exact Hglob | exact Hfive | exact Hsix].
Defined.

(** The counterexample to C7 as stated: in the scenario the sequential
    driver writes the five output files and the checkpoint, and no
    aggregate file. *)
Lemma sequential_driver_writes_no_aggregate :
  let w := cur (srun (fun _ => answering) ten_pages None None (Some 5) false fresh).2 in
  size ten_pages = 10%nat
  /\ dom (outputs w)
     = {[ "processed_cr_01.json"; "processed_cr_02.json"; "processed_cr_03.json";
          "processed_cr_04.json"; "processed_cr_05.json" ]}
  /\ outputs w !! ExamPacks.all_results_name = None
  /\ checkpoint w
     = CkHolds {[ "processed_files" := ["cr_01.html"; "cr_02.html"; "cr_03.html";
                                          "cr_04.html"; "cr_05.html"] ]}.
Proof. vm_compute. by split_and!. Qed.

End Examples.

(** ** The attempts of the sequential driver for one item *)

Section SequentialAttempts.

Import Sequential.

Variable json_loads : string -> loads_outcome.
Variable py_repr : json -> string.

Local Abbreviation generate_response := (Sequential.generate_response json_loads).
Local Abbreviation process_file_sequentially :=
  (Sequential.process_file_sequentially json_loads py_repr).

Lemma requests_from_S qd i n :
  requests_from qd i (S n) = requests_from qd i n ++ [EvRequest (question_number qd) (i + n)].
Proof. unfold requests_from. by rewrite seq_S, fmap_app. Qed.

Lemma requests_from_cons qd i n :
  requests_from qd i (S n) = EvRequest (question_number qd) i :: requests_from qd (S i) n.
Proof. done. Qed.

Lemma Forall_is_request qd i n : Forall is_request (requests_from qd i n).
Proof.
  unfold requests_from. revert i. induction n as [|n IH]; intros i; [done |].
  cbn. constructor; [done | apply IH].
Qed.

(** Attempts that fail are followed by the next attempt, as long as the
    retry count stays within the limit. *)
Lemma generate_response_skips service qd n i s :
  (i + n <= MAX_RETRIES)%nat ->
  (forall j, (i <= j < i + n)%nat -> attempt_fails json_loads service qd j) ->
  generate_response service qd i s
  = generate_response service qd (i + n)
      (State (cur s) (log s ++ requests_from qd i n)).
Proof.
  revert i s. induction n as [|n IH]; intros i s Hle Hfail.
  { rewrite Nat.add_0_r. destruct s. cbn. by rewrite app_nil_r. }
  rewrite generate_response_unfold.
  assert (Hlt : (i <? MAX_RETRIES)%nat = true) by (apply Nat.ltb_lt; lia).
  assert (Hnext : generate_response service qd (S i)
                    (State (cur s) (log s ++ [EvRequest (question_number qd) i]))
                  = generate_response service qd (i + S n)
                      (State (cur s) (log s ++ requests_from qd i (S n)))).
  { rewrite (IH (S i)); [| lia | intros j Hj; apply Hfail; lia].
    cbn [cur log]. rewrite requests_from_cons, <- app_assoc.
    by replace (S i + n)%nat with (i + S n)%nat by lia. }
  pose proof (Hfail i ltac:(lia)) as Hi. unfold attempt_fails in Hi.
  destruct (service i) as [msg|msg|text]; [| done |].
  - rewrite Hlt. unfold bind, emit. cbn. exact Hnext.
  - destruct Hi as [e He]. rewrite He, Hlt. unfold bind, emit. cbn. exact Hnext.
Qed.

(** The last attempt. *)
Lemma generate_response_last service qd s :
  attempt_fails json_loads service qd MAX_RETRIES ->
  generate_response service qd MAX_RETRIES s
  = (Ok (gives_up service),
     State (cur s) (log s ++ [EvRequest (question_number qd) MAX_RETRIES])).
Proof.
  intros Hf. rewrite generate_response_unfold. unfold attempt_fails, gives_up in *.
  destruct (service MAX_RETRIES) as [msg|msg|text]; [done | done |].
  destruct Hf as [e ->]. done.
Qed.

(** The answer of an attempt within the limit, after failed attempts. *)
Lemma first_answer_wins_at service qd k text d s :
  (k <= MAX_RETRIES)%nat ->
  (forall j, (j < k)%nat -> attempt_fails json_loads service qd j) ->
  service k = CallText text ->
  parse_response json_loads text qd = Ok d ->
  generate_response service qd 0 s
  = (Ok d, State (cur s) (log s ++ requests_from qd 0 (S k))).
Proof.
  intros Hk Hfail Hsvc Hparse.
  rewrite (generate_response_skips service qd k 0 s);
    [| lia | intros j Hj; apply Hfail; lia].
  rewrite generate_response_unfold. cbn [Nat.add]. rewrite Hsvc, Hparse.
  rewrite requests_from_S, app_assoc. by destruct s.
Qed.

(** X1.  The answer of the first attempt that does not fail is the result:
    when the attempts with the retry counts below [k] fail, by a request
    exception or by an exception while the answer is worked on, and the
    attempt with the retry count [k], at most three, is answered by a text
    from which an object is obtained, then [generate_response] returns that
    object after exactly [k + 1] requests, numbered from 0, and touches no
    file. *)
Theorem first_answer_wins service qd k text d s :
  (k <= MAX_RETRIES)%nat ->
  (forall j, (j < k)%nat -> attempt_fails json_loads service qd j) ->
  service k = CallText text ->
  parse_response json_loads text qd = Ok d ->
  generate_response service qd 0 s
  = (Ok d, State (cur s) (log s ++ requests_from qd 0 (S k))).
Proof. apply first_answer_wins_at. Qed.

(** What the attempts from the retry count [k] on lead to, when the
    earlier ones have failed. *)
Lemma generate_response_outcome service qd s m k :
  (k + m = S MAX_RETRIES)%nat ->
  (forall j, (j < k)%nat -> attempt_fails json_loads service qd j) ->
  exists r n,
    (1 <= n <= S MAX_RETRIES)%nat
    /\ generate_response service qd 0 s
       = (r, State (cur s) (log s ++ requests_from qd 0 n))
    /\ (forall j, (j < n - 1)%nat -> attempt_fails json_loads service qd j)
    /\ match r with
       | Ok d =>
           (exists text, service (n - 1)%nat = CallText text
                         /\ parse_response json_loads text qd = Ok d)
           \/ (n = S MAX_RETRIES
               /\ attempt_fails json_loads service qd MAX_RETRIES
               /\ d = gives_up service)
       | Raise e =>
           exists msg, service (n - 1)%nat = CallBroken msg /\ e = OtherError msg
       end.
Proof.
  revert k. induction m as [|m IH]; intros k Hk Hfail.
  - exists (Ok (gives_up service)), (S MAX_RETRIES).
    rewrite Nat.add_0_r in Hk. subst k. split_and!; [lia | lia | | |].
    + rewrite (generate_response_skips service qd MAX_RETRIES 0 s);
        [| lia | intros j Hj; apply Hfail; lia].
      rewrite generate_response_last by (apply Hfail; lia).
      cbn [cur log Nat.add]. by rewrite (requests_from_S qd 0 MAX_RETRIES), app_assoc.
    + intros j Hj. apply Hfail. lia.
    + right. split_and!; [done | apply Hfail; lia | done].
  - assert (Hstart : generate_response service qd 0 s
                     = generate_response service qd k
                         (State (cur s) (log s ++ requests_from qd 0 k))).
    { apply (generate_response_skips service qd k 0 s);
        [lia | intros j Hj; apply Hfail; lia]. }
    assert (Hstep : attempt_fails json_loads service qd k ->
              exists r n,
                (1 <= n <= S MAX_RETRIES)%nat
                /\ generate_response service qd 0 s
                   = (r, State (cur s) (log s ++ requests_from qd 0 n))
                /\ (forall j, (j < n - 1)%nat -> attempt_fails json_loads service qd j)
                /\ match r with
                   | Ok d =>
                       (exists text, service (n - 1)%nat = CallText text
                                     /\ parse_response json_loads text qd = Ok d)
                       \/ (n = S MAX_RETRIES
                           /\ attempt_fails json_loads service qd MAX_RETRIES
                           /\ d = gives_up service)
                   | Raise e =>
                       exists msg, service (n - 1)%nat = CallBroken msg
                                   /\ e = OtherError msg
                   end).
    { intros Hf. apply (IH (S k)); [lia |].
      intros j Hj. destruct (decide (j = k)) as [-> | ?]; [done | apply Hfail; lia]. }
    destruct (service k) as [msg|msg|text] eqn:Hsvc.
    + apply Hstep. unfold attempt_fails. by rewrite Hsvc.
    + exists (Raise (OtherError msg)), (S k).
      replace (S k - 1)%nat with k by lia.
      split_and!; [lia | lia | | done | by exists msg].
      rewrite Hstart, generate_response_unfold, Hsvc.
      rewrite requests_from_S, app_assoc. by destruct s.
    + destruct (parse_response json_loads text qd) as [d|e] eqn:Hparse.
      * exists (Ok d), (S k). replace (S k - 1)%nat with k by lia.
        split_and!; [lia | lia | | done | left; by exists text].
        rewrite Hstart, generate_response_unfold, Hsvc, Hparse.
        rewrite requests_from_S, app_assoc. by destruct s.
      * apply Hstep. unfold attempt_fails. rewrite Hsvc. by exists e.
Qed.

(** X2.  [generate_response] sends at least one and at most four requests
    for a question, with the retry counts 0, 1, ... in order, and does
    nothing else; every attempt but the last one has failed, and the last
    one decides the result: the object obtained from its answer, the error
    object when the fourth attempt has failed too, or the exception of a
    call that raised something other than a request exception. *)
Theorem requests_are_bounded service qd s :
  exists r n,
    (1 <= n <= S MAX_RETRIES)%nat
    /\ generate_response service qd 0 s
       = (r, State (cur s) (log s ++ requests_from qd 0 n))
    /\ (forall j, (j < n - 1)%nat -> attempt_fails json_loads service qd j)
    /\ match r with
       | Ok d =>
           (exists text, service (n - 1)%nat = CallText text
                         /\ parse_response json_loads text qd = Ok d)
           \/ (n = S MAX_RETRIES
               /\ attempt_fails json_loads service qd MAX_RETRIES
               /\ d = gives_up service)
       | Raise e => exists msg, service (n - 1)%nat = CallBroken msg /\ e = OtherError msg
       end.
Proof.
  apply (generate_response_outcome service qd s (S MAX_RETRIES) 0%nat); [done | intros j Hj; lia].
Qed.

(** The error object of the last attempt has an error entry. *)
Lemma gives_up_error service : is_Some (gives_up service !! "error"%string).
Proof.
  unfold gives_up, error_dict.
  destruct (service MAX_RETRIES); rewrite lookup_singleton_eq; by eexists.
Qed.

(** One call of [process_file_sequentially] for a file that is not in the
    checkpoint list and whose page loads, by the result of the attempts. *)
Lemma process_file_sequentially_attempts env f pf s p r s1 :
  f ∉ pf ->
  html env = Ok p ->
  generate_response (service env) (load_html_file f p) 0 s = (r, s1) ->
  process_file_sequentially env f pf s
  = try_except
      (fun _ =>
         match r with
         | Ok result =>
             match result !! "error"%string with
             | Some err =>
                 (append_error_log (error_line (now env) f (py_str py_repr err))
                                   (error_log_ok env) ;;;
                  ret (FileResult Errored f)) s1
             | None =>
                 (save_result (output_name f) result (save_result_io env) ;;;
                  ret (FileResult Processed f)) s1
             end
         | Raise e => (Raise e, s1)
         end)
      (fun e =>
         append_error_log (error_line (now env) f (exn_msg e)) (handler_log_ok env) ;;;
         ret (FileResult Errored f)) s.
Proof.
  intros Hin Hhtml Hgen. unfold Sequential.process_file_sequentially.
  rewrite bool_decide_eq_false_2 by done. rewrite Hhtml.
  unfold try_except, bind at 1. cbn [ret]. unfold bind at 1. rewrite Hgen.
  destruct r as [d|e]; [by destruct (d !! "error"%string) | done].
Qed.

(** X3.  When the answers keep breaking the work on the response (an
    exception other than a JSON syntax error), the question is asked again,
    with the same limit as for failed requests: if the first three attempts
    fail in either way and the work on the answer of the fourth raises, the
    item ends as Errored after four requests, the line that names the file
    and the failed extraction is appended to the error log, and no output
    file is touched. *)
Theorem broken_answers_are_retried env f pf s p text e :
  f ∉ pf ->
  html env = Ok p ->
  let qd := load_html_file f p in
  (forall j, (j < MAX_RETRIES)%nat -> attempt_fails json_loads (service env) qd j) ->
  service env MAX_RETRIES = CallText text ->
  parse_response json_loads text qd = Raise e ->
  error_log_ok env = true ->
  let line := error_line (now env) f "Failed to extract valid JSON after 3 retries" in
  process_file_sequentially env f pf s
  = (Ok (FileResult Errored f),
     State (World (outputs (cur s)) (checkpoint (cur s)) (error_log (cur s) ++ [line]))
           (log s ++ requests_from qd 0 4 ++ [EvErrorLog line])).
Proof.
  intros Hin Hhtml qd Hfail Hsvc Hparse Hlog line.
  assert (Hlast : attempt_fails json_loads (service env) qd MAX_RETRIES).
  { unfold attempt_fails. rewrite Hsvc. by exists e. }
  assert (Hgen : generate_response (service env) qd 0 s
                 = (Ok (error_dict "Failed to extract valid JSON after 3 retries"),
                    State (cur s) (log s ++ requests_from qd 0 4))).
  { rewrite (generate_response_skips (service env) qd MAX_RETRIES 0 s);
      [| lia | intros j Hj; apply Hfail; lia].
    rewrite generate_response_last by done.
    unfold gives_up. rewrite Hsvc. cbn [cur log Nat.add].
    by rewrite (requests_from_S qd 0 3), app_assoc. }
  rewrite (process_file_sequentially_attempts env f pf s p _ _ Hin Hhtml Hgen).
  unfold error_dict. rewrite lookup_singleton_eq, Hlog.
  unfold try_except, bind, append_error_log, emit, ret. cbn.
  by rewrite <- app_assoc.
Qed.

(** X4.  An exception that is not a failed request is not retried.  When
    the page cannot be read, no request is sent; when a call raises
    something other than a request exception, after earlier attempts that
    failed, no further request is sent.  In both cases the item ends as
    Errored with the message of the exception in the error log, provided
    the log can be written, and no output file is touched. *)
Theorem other_exceptions_are_not_retried env f pf s :
  f ∉ pf ->
  handler_log_ok env = true ->
  let logged line evs :=
    State (World (outputs (cur s)) (checkpoint (cur s)) (error_log (cur s) ++ [line]))
          (log s ++ evs ++ [EvErrorLog line]) in
  (forall e, html env = Raise e ->
     process_file_sequentially env f pf s
     = (Ok (FileResult Errored f), logged (error_line (now env) f (exn_msg e)) []))
  /\ (forall p k msg,
        html env = Ok p ->
        (k <= MAX_RETRIES)%nat ->
        (forall j, (j < k)%nat ->
           attempt_fails json_loads (service env) (load_html_file f p) j) ->
        service env k = CallBroken msg ->
        process_file_sequentially env f pf s
        = (Ok (FileResult Errored f),
           logged (error_line (now env) f msg)
                  (requests_from (load_html_file f p) 0 (S k)))).
Proof.
  intros Hin Hlog logged. split.
  - intros e Hhtml. unfold Sequential.process_file_sequentially.
    rewrite bool_decide_eq_false_2 by done. rewrite Hhtml, Hlog.
    unfold try_except, bind, raise, append_error_log, emit, ret. by cbn.
  - intros p k msg Hhtml Hk Hfail Hsvc.
    assert (Hgen : generate_response (service env) (load_html_file f p) 0 s
                   = (Raise (OtherError msg),
                      State (cur s)
                            (log s ++ requests_from (load_html_file f p) 0 (S k)))).
    { rewrite (generate_response_skips (service env) _ k 0 s);
        [| lia | intros j Hj; apply Hfail; lia].
      rewrite generate_response_unfold. cbn [Nat.add]. rewrite Hsvc.
      rewrite requests_from_S, app_assoc. by destruct s. }
    rewrite (process_file_sequentially_attempts env f pf s p _ _ Hin Hhtml Hgen), Hlog.
    unfold try_except, bind, append_error_log, emit, ret, logged. cbn.
    by rewrite <- app_assoc.
Qed.

End SequentialAttempts.

(** ** What the sequential driver saves *)

Section SequentialOutputs.

Import Sequential.

Local Open Scope string_scope.

Variable json_loads : string -> loads_outcome.
Variable py_repr : json -> string.

Local Abbreviation generate_response := (Sequential.generate_response json_loads).
Local Abbreviation process_file_sequentially :=
  (Sequential.process_file_sequentially json_loads py_repr).
Local Abbreviation process_loop := (Sequential.process_loop json_loads py_repr).
Local Abbreviation run := (Sequential.run json_loads py_repr).

(** What [complete_parsed] makes of the object of the model, key by key. *)
Lemma complete_parsed_lookup parsed qd :
  let p := complete_parsed parsed qd in
  p !! "question_type" = Some (JStr "Critical Reasoning")
  /\ p !! "metadata"
     = Some (JObj (match parsed !! "cr_specific_type" with
                   | Some v => <["cr_specific_type" := v]> (metadata qd)
                   | None => metadata qd
                   end))
  /\ p !! "cr_specific_type" = None
  /\ p !! "answer_stats" = Some (default (answer_stats qd) (parsed !! "answer_stats"))
  /\ p !! "session_stats" = Some (default (session_stats qd) (parsed !! "session_stats"))
  /\ (forall k, k ∉ ["question_type"; "metadata"; "cr_specific_type"; "answer_stats";
                     "session_stats"] -> p !! k = parsed !! k).
Proof.
  unfold complete_parsed, has_key.
  set (p1 := if bool_decide (is_Some (parsed !! "answer_stats")) then parsed
             else <["answer_stats" := answer_stats qd]> parsed).
  set (p2 := if bool_decide (is_Some (p1 !! "session_stats")) then p1
             else <["session_stats" := session_stats qd]> p1).
  assert (H1 : forall k, k <> "answer_stats" -> p1 !! k = parsed !! k).
  { intros k Hk. subst p1. case_bool_decide; [done | by rewrite lookup_insert_ne]. }
  assert (H1' : p1 !! "answer_stats"
                = Some (default (answer_stats qd) (parsed !! "answer_stats"))).
  { subst p1. case_bool_decide as Hc.
    - by destruct Hc as [v ->].
    - rewrite lookup_insert_eq. destruct (parsed !! "answer_stats"); [| done].
      exfalso. apply Hc. by eexists. }
  assert (H2 : forall k, k <> "session_stats" -> p2 !! k = p1 !! k).
  { intros k Hk. subst p2. case_bool_decide; [done | by rewrite lookup_insert_ne]. }
  assert (H2' : p2 !! "session_stats"
                = Some (default (session_stats qd) (parsed !! "session_stats"))).
  { subst p2. case_bool_decide as Hc.
    - rewrite H1 by done. rewrite H1 in Hc by done. by destruct Hc as [v ->].
    - rewrite lookup_insert_eq. rewrite H1 in Hc by done.
      destruct (parsed !! "session_stats"); [| done].
      exfalso. apply Hc. by eexists. }
  assert (Hcr : p2 !! "cr_specific_type" = parsed !! "cr_specific_type")
    by (by rewrite H2, H1).
  clearbody p1 p2. rewrite Hcr.
  destruct (parsed !! "cr_specific_type") as [v|] eqn:Hv; simpl.
  - split_and!.
    + by rewrite lookup_insert_eq.
    + rewrite lookup_insert_ne by done. by rewrite lookup_insert_eq.
    + rewrite !lookup_insert_ne by done. by rewrite lookup_delete_eq.
    + rewrite !lookup_insert_ne by done. rewrite lookup_delete_ne by done.
      by rewrite H2.
    + rewrite !lookup_insert_ne by done. by rewrite lookup_delete_ne.
    + intros k Hk. rewrite !not_elem_of_cons in Hk.
      destruct Hk as (? & ? & ? & ? & ? & _).
      rewrite !lookup_insert_ne by done. rewrite lookup_delete_ne by done.
      rewrite H2 by done. by apply H1.
  - split_and!.
    + by rewrite lookup_insert_eq.
    + rewrite lookup_insert_ne by done. by rewrite lookup_insert_eq.
    + rewrite !lookup_insert_ne by done. by rewrite Hcr.
    + rewrite !lookup_insert_ne by done. by rewrite H2.
    + by rewrite !lookup_insert_ne.
    + intros k Hk. rewrite !not_elem_of_cons in Hk.
      destruct Hk as (? & ? & ? & ? & ? & _).
      rewrite !lookup_insert_ne by done.
      rewrite H2 by done. by apply H1.
Qed.

Ltac manual_key :=
  unfold Sequential.manually_extract_components;
  match goal with
  | |- context [match ?v with Some _ => _ | None => _ end] => destruct v
  end;
  repeat first
    [ rewrite lookup_set_if_found_eq
    | rewrite lookup_set_if_found_ne by done
    | rewrite lookup_insert_eq
    | rewrite lookup_insert_ne by done
    | rewrite lookup_empty ];
  try done;
  try (by eexists);
  match goal with
  | |- context [Sequential.marked_value ?t ?m] =>
      destruct (Sequential.marked_value t m); by eexists
  end.

(** The object of the manual extraction has every key that is saved. *)
Lemma manual_saved_keys text qd :
  Forall (fun key => is_Some (manually_extract_components text qd !! key)) saved_keys.
Proof.
  repeat constructor.
  - rewrite manual_argument. by eexists.
  - rewrite manual_question_stem. by eexists.
  - rewrite manual_options. by eexists.
  - rewrite manual_correct_answer. by eexists.
  - rewrite manual_explanation. by eexists.
  - rewrite manual_question_type. by eexists.
  - manual_key.
  - manual_key.
  - manual_key.
Qed.

(** Whatever the parsing paths return has every key that is saved, and the
    question type of this driver. *)
Lemma parse_response_saved_keys text qd d :
  parse_response json_loads text qd = Ok d ->
  Forall (fun key => is_Some (d !! key)) saved_keys
  /\ d !! "question_type" = Some (JStr "Critical Reasoning").
Proof.
  assert (Hmanual : forall d', Ok (manually_extract_components text qd) = Ok d' ->
            Forall (fun key => is_Some (d' !! key)) saved_keys
            /\ d' !! "question_type" = Some (JStr "Critical Reasoning")).
  { intros d' [= <-]. split; [apply manual_saved_keys | apply manual_question_type]. }
  unfold parse_response.
  destruct (json_candidate text) as [json_str|]; [| apply Hmanual].
  destruct (json_loads json_str) as [parsed|msg|msg]; [| apply Hmanual | done].
  destruct (filter _ required_keys) eqn:Hf; [| apply Hmanual].
  intros [= <-]. apply (proj1 (filter_missing_nil json_loads _ _)) in Hf.
  destruct (complete_parsed_lookup parsed qd) as (Hq & Hm & _ & Ha & Hs & _).
  split; [| done].
  unfold saved_keys. apply Forall_app. split; [done |].
  repeat constructor; by eexists.
Qed.

(** Requests are no output. *)
Lemma dumps_well_formed_requests reqs : Forall is_request reqs -> dumps_well_formed reqs.
Proof.
  unfold dumps_well_formed. intros H. eapply Forall_impl; [exact H |]. by intros [].
Qed.

Lemma dumps_well_formed_app e1 e2 :
  dumps_well_formed e1 -> dumps_well_formed e2 -> dumps_well_formed (e1 ++ e2).
Proof. intros. by apply Forall_app. Qed.

(** One item adds well formed outputs only. *)
Lemma process_file_sequentially_dumps env f pf s :
  dumps_well_formed (log s) ->
  dumps_well_formed (log (process_file_sequentially env f pf s).2).
Proof.
  intros Hs. unfold Sequential.process_file_sequentially.
  case_bool_decide as Hin; [done |].
  destruct (html env) as [p|e0] eqn:Hhtml.
  { destruct (generate_response_outcome json_loads (service env)
                (load_html_file f p) s (S MAX_RETRIES) 0%nat)
      as (r & n & _ & Hgen & _ & Hr); [done | intros j Hj; lia |].
    pose proof (process_file_sequentially_attempts json_loads py_repr env f pf s p _ _
                  Hin Hhtml Hgen) as Heq.
    unfold Sequential.process_file_sequentially in Heq.
    rewrite bool_decide_eq_false_2, Hhtml in Heq by done. rewrite Heq. clear Heq.
    assert (Hreqs : dumps_well_formed (log s ++ requests_from (load_html_file f p) 0 n)).
    { apply dumps_well_formed_app; [done |].
      apply dumps_well_formed_requests, Forall_is_request. }
    unfold try_except, bind, append_error_log, save_result, write_output, emit, raise, ret.
    destruct r as [d|e].
    - destruct (d !! "error") as [err|] eqn:Herr.
      + destruct (error_log_ok env); cbn.
        * apply dumps_well_formed_app; [done | by repeat constructor].
        * destruct (handler_log_ok env); cbn; [| done].
          apply dumps_well_formed_app; [done | by repeat constructor].
      + assert (Hwf : well_formed_output (JObj d)).
        { destruct Hr as [(text & _ & Hparse) | (_ & _ & ->)].
          - apply parse_response_saved_keys in Hparse as [Hkeys Hq]. by exists d.
          - destruct (gives_up_error (service env)) as [v Hv]. congruence. }
        destruct (save_result_io env); cbn.
        * rewrite <- app_assoc.
          apply dumps_well_formed_app; [done | by repeat constructor].
        * destruct (handler_log_ok env); cbn; [| done].
          apply dumps_well_formed_app; [done | by repeat constructor].
        * destruct (handler_log_ok env); cbn.
          -- rewrite <- app_assoc.
             apply dumps_well_formed_app; [done | by repeat constructor].
          -- apply dumps_well_formed_app; [done | by repeat constructor].
    - destruct (handler_log_ok env); cbn; [| done].
      apply dumps_well_formed_app; [done | by repeat constructor]. }
  unfold try_except, bind, append_error_log, emit, raise, ret.
  destruct (handler_log_ok env); cbn; [| done].
  apply dumps_well_formed_app; [done | by repeat constructor].
Qed.

Lemma save_checkpoint_dumps pfs io s :
  dumps_well_formed (log s) ->
  dumps_well_formed (log (save_checkpoint pfs io s).2).
Proof.
  intros Hs. pose proof (steps_save_checkpoint pfs io s) as H. unfold steps in H.
  rewrite H. cbn [snd log]. apply dumps_well_formed_app; [done |].
  destruct io; by repeat constructor.
Qed.

Lemma process_loop_dumps env files acc s :
  dumps_well_formed (log s) ->
  dumps_well_formed (log (process_loop env files acc s).2).
Proof.
  revert acc s. induction files as [|f rest IH]; intros acc s Hs; [done |].
  rewrite process_loop_cons.
  pose proof (process_file_sequentially_dumps (env f) f (processed_files acc) s Hs) as H1.
  destruct (process_file_sequentially (env f) f (processed_files acc) s)
    as [[result|e] s1]; [| done].
  cbn [snd] in H1.
  destruct (st result).
  - pose proof (save_checkpoint_dumps (processed_files acc ++ [file_name result])
                  (save_checkpoint_io (env f)) s1 H1) as H2.
    destruct (save_checkpoint _ _ s1) as [[[]|e] s2]; [| done].
    apply IH. exact H2.
  - apply IH. exact H1.
  - apply IH. exact H1.
Qed.

(** X5.  Whatever a run of the sequential driver writes to an output file
    is an object without an error entry that has every required key, the
    metadata and both statistics, and whose question type is Critical
    Reasoning: an error object or an incomplete answer of the model is
    never saved, whatever the service answers and whichever operation
    fails. *)
Theorem saved_outputs_are_well_formed env dir a b lim t w0 :
  dumps_well_formed (log (run env dir a b lim t w0).2).
Proof.
  rewrite run_unfold. apply process_loop_dumps. by constructor.
Qed.

End SequentialOutputs.

(** ** The counters, the checkpoint and the files of a run *)

Section SequentialAccounts.

Import Sequential.

Variable json_loads : string -> loads_outcome.
Variable py_repr : json -> string.

Local Abbreviation process_file_sequentially :=
  (Sequential.process_file_sequentially json_loads py_repr).
Local Abbreviation process_loop := (Sequential.process_loop json_loads py_repr).
Local Abbreviation run := (Sequential.run json_loads py_repr).

Lemma count_status_app x l1 l2 :
  count_status x (l1 ++ l2) = (count_status x l1 + count_status x l2)%nat.
Proof. unfold count_status. by rewrite filter_app, length_app. Qed.

Lemma count_status_total rs :
  (count_status Processed rs + count_status Skipped rs + count_status Errored rs)%nat
  = length rs.
Proof.
  unfold count_status. induction rs as [|[[] f] rs IH]; [done | ..];
    rewrite !filter_cons; simpl;
    repeat (case_decide; try done); simpl; lia.
Qed.

(** The counters of the loop count the results by their status. *)
Lemma loop_spec_counters env files acc r evs :
  loop_spec env files acc r evs ->
  forall stats, r = Ok stats ->
  exists new,
    results stats = results acc ++ new
    /\ num_processed stats = (num_processed acc + count_status Processed new)%nat
    /\ num_skipped stats = (num_skipped acc + count_status Skipped new)%nat
    /\ num_errors stats = (num_errors acc + count_status Errored new)%nat.
Proof.
  induction 1 as [acc | f rest acc r evs Hin _ IH
                 | f rest acc reqs content r evs Hin Hreqs _ IH
                 | f rest acc reqs opens line r evs Hin Hreqs Hopens _ IH
                 | f rest acc reqs opens e Hin Hreqs Hopens Hh];
    intros stats Hr; [| | | | done].
  - injection Hr as <-. exists []. rewrite app_nil_r. unfold count_status. simpl.
    split_and!; [done | lia..].
  - destruct (IH stats Hr) as (new & H1 & H2 & H3 & H4).
    cbn [record_skipped results num_processed num_skipped num_errors] in *.
    exists (FileResult Skipped f :: new).
    rewrite H1, H2, H3, H4, <- app_assoc.
    change (FileResult Skipped f :: new) with ([FileResult Skipped f] ++ new).
    rewrite !count_status_app. unfold count_status at 1 3 5. simpl.
    split_and!; [done | lia..].
  - destruct (IH stats Hr) as (new & H1 & H2 & H3 & H4).
    cbn [record_processed results num_processed num_skipped num_errors] in *.
    exists (FileResult Processed f :: new).
    rewrite H1, H2, H3, H4, <- app_assoc.
    change (FileResult Processed f :: new) with ([FileResult Processed f] ++ new).
    rewrite !count_status_app. unfold count_status at 1 3 5. simpl.
    split_and!; [done | lia..].
  - destruct (IH stats Hr) as (new & H1 & H2 & H3 & H4).
    cbn [record_errored results num_processed num_skipped num_errors] in *.
    exists (FileResult Errored f :: new).
    rewrite H1, H2, H3, H4, <- app_assoc.
    change (FileResult Errored f :: new) with ([FileResult Errored f] ++ new).
    rewrite !count_status_app. unfold count_status at 1 3 5. simpl.
    split_and!; [done | lia..].
Qed.

(** X6.  The counters of a run that ends add up: there is one result for
    every selected file, in the order of the file names; the numbers of
    processed, skipped and failed items are the numbers of results with
    that status, and their sum is the number of selected files; the
    checkpoint list at the end is the list found at the start followed by
    the names of the processed items, in order. *)
Theorem run_accounting env dir a b lim t w0 stats :
  (run env dir a b lim t w0).1 = Ok stats ->
  let files := select_files (sorted_names dir) a b lim t in
  file_name <$> results stats = files
  /\ num_processed stats = count_status Processed (results stats)
  /\ num_skipped stats = count_status Skipped (results stats)
  /\ num_errors stats = count_status Errored (results stats)
  /\ (num_processed stats + num_skipped stats + num_errors stats)%nat = length files
  /\ processed_files stats
     = checkpoint_ids w0
       ++ (file_name <$> filter (fun x => st x = Processed) (results stats)).
Proof.
  intros Hrun files.
  destruct (run_spec json_loads py_repr env dir a b lim t w0) as (r & evs & Hr & Hl).
  rewrite Hr in Hrun. simpl in Hrun. subst r. fold files in Hl.
  destruct (loop_spec_results _ _ _ _ _ Hl stats eq_refl)
    as (new & H1 & H2 & H3 & _).
  destruct (loop_spec_counters _ _ _ _ _ Hl stats eq_refl)
    as (new' & H1' & Hp & Hs & He).
  cbn [results processed_files num_processed num_skipped num_errors] in *.
  rewrite app_nil_l in H1, H1'. subst new new'.
  split_and!; [done | done | done | done | | done].
  rewrite Hp, Hs, He. simpl. rewrite count_status_total.
  by rewrite <- H2, length_fmap.
Qed.

End SequentialAccounts.

Section SequentialCheckpoint.

Import Sequential.

Variable json_loads : string -> loads_outcome.
Variable py_repr : json -> string.

Local Abbreviation process_file_sequentially :=
  (Sequential.process_file_sequentially json_loads py_repr).
Local Abbreviation process_loop := (Sequential.process_loop json_loads py_repr).
Local Abbreviation run := (Sequential.run json_loads py_repr).

Lemma keeps_checkpoint_extends c0 ids0 e w :
  keeps_checkpoint ids0 e ->
  checkpoint_extends c0 ids0 w -> checkpoint_extends c0 ids0 (apply_event w e).
Proof.
  destruct e; simpl; intros He Hw; try exact Hw.
  - right. by left.
  - right. right. by eexists.
Qed.

Lemma keeps_checkpoint_requests ids0 reqs :
  Forall is_request reqs -> Forall (keeps_checkpoint ids0) reqs.
Proof. intros H. eapply Forall_impl; [exact H |]. by intros []. Qed.

Lemma keeps_checkpoint_unfinished ids0 f opens :
  unfinished_output f opens -> Forall (keeps_checkpoint ids0) opens.
Proof. intros [-> | ->]; by repeat constructor. Qed.

(** Every checkpoint the loop writes starts with the list the loop was
    started with. *)
Lemma loop_spec_keeps_checkpoint env files acc r evs :
  loop_spec env files acc r evs ->
  forall ids0, ids0 `prefix_of` processed_files acc ->
  Forall (keeps_checkpoint ids0) evs.
Proof.
  induction 1 as [acc | f rest acc r evs Hin _ IH
                 | f rest acc reqs content r evs Hin Hreqs _ IH
                 | f rest acc reqs opens line r evs Hin Hreqs Hopens _ IH
                 | f rest acc reqs opens e Hin Hreqs Hopens Hh];
    intros ids0 Hpre.
  - constructor.
  - by apply IH.
  - assert (Hpre' : ids0 `prefix_of` processed_files acc ++ [f])
      by by apply prefix_app_r.
    rewrite !Forall_app. split_and!.
    + by apply keeps_checkpoint_requests.
    + by repeat constructor.
    + destruct (save_checkpoint_io (env f)); by repeat constructor.
    + by apply IH.
  - rewrite !Forall_app. split_and!.
    + by apply keeps_checkpoint_requests.
    + by eapply keeps_checkpoint_unfinished.
    + by repeat constructor.
    + by apply IH.
  - rewrite !Forall_app. split.
    + by apply keeps_checkpoint_requests.
    + by eapply keeps_checkpoint_unfinished.
Qed.

(** A checkpoint write that succeeds leaves a truncated file half way. *)
Lemma loop_spec_truncates env files acc r evs :
  loop_spec env files acc r evs ->
  forall stats w f,
    r = Ok stats ->
    FileResult Processed f ∈ drop (length (results acc)) (results stats) ->
    save_checkpoint_io (env f) = IoOk ->
    exists p, p `prefix_of` evs /\ checkpoint (world_after w p) = CkUnparsable.
Proof.
  induction 1 as [acc | f rest acc r evs Hin H IH
                 | f rest acc reqs content r evs Hin Hreqs H IH
                 | f rest acc reqs opens line r evs Hin Hreqs Hopens H IH
                 | f rest acc reqs opens e Hin Hreqs Hopens Hh];
    intros stats w g Hr Hg Hio; [| | | | done].
  - injection Hr as <-. rewrite drop_all in Hg. by apply elem_of_nil in Hg.
  - destruct (loop_spec_results _ _ _ _ _ H stats Hr) as (new & H1 & _).
    cbn [record_skipped results] in *.
    rewrite H1, <- app_assoc, drop_app_length in Hg.
    apply elem_of_cons in Hg as [[=] | Hg].
    apply (IH stats w g Hr); [| done].
    by rewrite H1, drop_app_length.
  - destruct (loop_spec_results _ _ _ _ _ H stats Hr) as (new & H1 & _).
    cbn [record_processed results] in *.
    rewrite H1, <- app_assoc, drop_app_length in Hg.
    apply elem_of_cons in Hg as [[= <-] | Hg].
    + rewrite Hio. simpl.
      exists (reqs ++ [EvOutputOpen (output_name g); EvOutputDump (output_name g) content;
                       EvCheckpointOpen]).
      split.
      * exists (EvCheckpointDump (processed_files acc ++ [g]) :: evs).
        by rewrite <- !app_assoc.
      * rewrite world_after_app. done.
    + destruct (IH stats
                  (world_after w
                     (reqs ++ [EvOutputOpen (output_name f);
                               EvOutputDump (output_name f) content]
                           ++ checkpoint_events (processed_files acc ++ [f])
                                (save_checkpoint_io (env f)))) g Hr)
        as (p & Hp & Hck); [| done |].
      { by rewrite H1, drop_app_length. }
      exists ((reqs ++ [EvOutputOpen (output_name f);
                        EvOutputDump (output_name f) content]
                    ++ checkpoint_events (processed_files acc ++ [f])
                         (save_checkpoint_io (env f))) ++ p).
      split.
      * destruct Hp as [k ->]. exists k. by rewrite <- !app_assoc.
      * by rewrite world_after_app.
  - destruct (loop_spec_results _ _ _ _ _ H stats Hr) as (new & H1 & _).
    cbn [record_errored results] in *.
    rewrite H1, <- app_assoc, drop_app_length in Hg.
    apply elem_of_cons in Hg as [[=] | Hg].
    destruct (IH stats (world_after w (reqs ++ opens ++ [EvErrorLog line])) g Hr)
      as (p & Hp & Hck); [| done |].
    { by rewrite H1, drop_app_length. }
    exists ((reqs ++ opens ++ [EvErrorLog line]) ++ p). split.
    + destruct Hp as [k ->]. exists k. by rewrite <- !app_assoc.
    + by rewrite world_after_app.
Qed.

(** X7.  The checkpoint of a run only grows.  Every list a run writes to
    the checkpoint file starts with the identifiers found at the start, and
    so does the list the run ends with.  Wherever the run is cut, the
    checkpoint file is as it was at the start, or holds such a list, or has
    just been truncated by a write that is not finished.  The last case
    does occur: for every item that is processed and whose checkpoint write
    succeeds, the run goes through a point at which the checkpoint file
    does not parse, so that a driver started there finds no identifier. *)
Theorem checkpoint_only_grows env dir a b lim t w0 :
  let ids0 := checkpoint_ids w0 in
  let evs := log (run env dir a b lim t w0).2 in
  Forall (keeps_checkpoint ids0) evs
  /\ always (checkpoint_extends (checkpoint w0) ids0) w0 evs
  /\ forall stats, (run env dir a b lim t w0).1 = Ok stats ->
       ids0 `prefix_of` processed_files stats
       /\ forall f, FileResult Processed f ∈ results stats ->
            save_checkpoint_io (env f) = IoOk ->
            exists p, p `prefix_of` evs
                      /\ checkpoint (world_after w0 p) = CkUnparsable
                      /\ checkpoint_ids (world_after w0 p) = [].
Proof.
  intros ids0 evs. subst evs.
  destruct (run_spec json_loads py_repr env dir a b lim t w0) as (r & evs & -> & Hl).
  cbn [fst snd log].
  assert (Hkeeps : Forall (keeps_checkpoint ids0) evs).
  { by apply (loop_spec_keeps_checkpoint _ _ _ _ _ Hl). }
  split_and!.
  - exact Hkeeps.
  - apply always_preserved; [| by left].
    eapply Forall_impl; [exact Hkeeps |].
    intros e He w Hw. by apply keeps_checkpoint_extends.
  - intros stats ->. split.
    + destruct (loop_spec_results _ _ _ _ _ Hl stats eq_refl) as (new & _ & _ & H3 & _).
      cbn [processed_files] in H3. rewrite H3. by apply prefix_app_r.
    + intros f Hf Hio.
      destruct (loop_spec_truncates _ _ _ _ _ Hl stats w0 f eq_refl) as (p & Hp & Hck);
        [done | done |].
      exists p. split_and!; [done | done |].
      unfold checkpoint_ids. by rewrite Hck.
Qed.

End SequentialCheckpoint.

Section SequentialRerun.

Import Sequential.

Variable json_loads : string -> loads_outcome.
Variable py_repr : json -> string.

Local Abbreviation process_file_sequentially :=
  (Sequential.process_file_sequentially json_loads py_repr).
Local Abbreviation process_loop := (Sequential.process_loop json_loads py_repr).
Local Abbreviation run := (Sequential.run json_loads py_repr).

(** A loop over files that are all in the checkpoint list does nothing. *)
Lemma process_loop_all_skipped env files acc s :
  (forall f, f ∈ files -> f ∈ processed_files acc) ->
  process_loop env files acc s
  = (Ok (RunStats (processed_files acc) (num_processed acc)
                  (num_skipped acc + length files) (num_errors acc)
                  (results acc ++ (FileResult Skipped <$> files))), s).
Proof.
  revert acc. induction files as [|f rest IH]; intros acc Hall.
  { destruct acc. cbn. by rewrite Nat.add_0_r, app_nil_r. }
  rewrite process_loop_cons.
  rewrite process_file_sequentially_skips by (apply Hall; by left).
  cbn [st]. rewrite IH by (intros g Hg; apply Hall; by right).
  cbn [processed_files num_processed num_skipped num_errors results length].
  rewrite fmap_cons, <- app_assoc. do 3 f_equal. lia.
Qed.

(** X8.  A run that is repeated does nothing.  When a run has ended
    without an item that failed and its checkpoint writes have succeeded, a
    second run with the same arguments over the same directory, whatever
    the service and the file system do then, reports every selected file as
    skipped, sends no request and leaves every file as it is: the
    checkpoint is not even written again. *)
Theorem repeated_run_is_idle env1 env2 dir a b lim t w0 stats1 :
  let files := select_files (sorted_names dir) a b lim t in
  (run env1 dir a b lim t w0).1 = Ok stats1 ->
  num_errors stats1 = 0%nat ->
  (forall f, f ∈ files -> save_checkpoint_io (env1 f) = IoOk) ->
  let w1 := cur (run env1 dir a b lim t w0).2 in
  run env2 dir a b lim t w1
  = (Ok (RunStats (processed_files stats1) 0 (length files) 0
                  (FileResult Skipped <$> files)),
     State w1 []).
Proof.
  intros files Hrun Herr Hio w1. subst w1.
  destruct (run_spec json_loads py_repr env1 dir a b lim t w0) as (r & evs & Hr & Hl).
  rewrite Hr in *. simpl in Hrun. subst r. cbn [snd cur]. fold files in Hl.
  destruct (loop_spec_results _ _ _ _ _ Hl stats1 eq_refl)
    as (new & H1 & H2 & H3 & H4 & _).
  destruct (loop_spec_counters _ _ _ _ _ Hl stats1 eq_refl)
    as (new' & H1' & _ & _ & He).
  cbn [results processed_files num_errors] in *.
  rewrite app_nil_l in H1, H1'. rewrite H1' in H1. subst new'.
  assert (Hids : checkpoint_ids (world_after w0 evs) = processed_files stats1).
  { by apply (loop_spec_checkpoint_saved _ _ _ _ _ Hl). }
  assert (Hall : forall f, f ∈ files -> f ∈ processed_files stats1).
  { intros f Hf. rewrite <- H2 in Hf.
    apply list_elem_of_fmap in Hf as ([x g] & Hg & Hx). simpl in Hg. subst g.
    rewrite H3. apply elem_of_app. destruct x.
    - right. apply (list_elem_of_fmap_2 file_name _ (FileResult Processed f)).
      by apply list_elem_of_filter.
    - destruct (H4 f Hx) as [? | Hp]; [by left | right].
      apply (list_elem_of_fmap_2 file_name _ (FileResult Processed f)).
      by apply list_elem_of_filter.
    - exfalso. rewrite Herr in He. simpl in He.
      assert (Hc : (0 < count_status Errored new)%nat); [| lia].
      unfold count_status.
      assert (Hin : FileResult Errored f ∈ filter (fun r => st r = Errored) new)
        by by apply list_elem_of_filter.
      apply list_elem_of_lookup in Hin as [i Hi]. apply lookup_lt_Some in Hi. lia. }
  rewrite run_unfold, Hids. fold files.
  by rewrite process_loop_all_skipped.
Qed.

(** The loop touches the output files of the files it works on only, and
    it only adds lines to the error log. *)
Lemma loop_spec_frame env files acc r evs :
  loop_spec env files acc r evs ->
  forall w name,
    (forall f, f ∈ files -> f ∉ processed_files acc -> output_name f <> name) ->
    outputs (world_after w evs) !! name = outputs w !! name.
Proof.
  induction 1 as [acc | f rest acc r evs Hin _ IH
                 | f rest acc reqs content r evs Hin Hreqs _ IH
                 | f rest acc reqs opens line r evs Hin Hreqs Hopens _ IH
                 | f rest acc reqs opens e Hin Hreqs Hopens Hh];
    intros w name Hname.
  - done.
  - apply IH. intros g Hg. apply Hname. by right.
  - assert (Hf : output_name f <> name) by (apply Hname; [by left | done]).
    rewrite !world_after_app. rewrite IH.
    + assert (Hck : forall w', outputs (world_after w'
                       (checkpoint_events (processed_files acc ++ [f])
                          (save_checkpoint_io (env f)))) = outputs w').
      { intros w'. by destruct (save_checkpoint_io (env f)). }
      rewrite Hck. simpl. rewrite !lookup_insert_ne by done.
      by rewrite (world_after_requests w reqs).
    + intros g Hg Hng. apply Hname; [by right |].
      intros ?. apply Hng. cbn. apply elem_of_app. by left.
  - assert (Hf : output_name f <> name) by (apply Hname; [by left | done]).
    rewrite !world_after_app. rewrite IH.
    + simpl. rewrite (world_after_requests w reqs) by done.
      destruct Hopens as [-> | ->]; simpl; [done | by rewrite lookup_insert_ne].
    + intros g Hg Hng. apply Hname; [by right | done].
  - assert (Hf : output_name f <> name) by (apply Hname; [by left | done]).
    rewrite !world_after_app. rewrite (world_after_requests w reqs) by done.
    destruct Hopens as [-> | ->]; simpl; [done | by rewrite lookup_insert_ne].
Qed.

Lemma loop_spec_error_log env files acc r evs :
  loop_spec env files acc r evs ->
  forall w, error_log w `prefix_of` error_log (world_after w evs).
Proof.
  assert (Hck : forall w pf io,
            error_log (world_after w (checkpoint_events pf io)) = error_log w).
  { intros w pf io. by destruct io. }
  induction 1 as [acc | f rest acc r evs Hin _ IH
                 | f rest acc reqs content r evs Hin Hreqs _ IH
                 | f rest acc reqs opens line r evs Hin Hreqs Hopens _ IH
                 | f rest acc reqs opens e Hin Hreqs Hopens Hh];
    intros w.
  - done.
  - apply IH.
  - rewrite !world_after_app. etrans; [| apply IH].
    rewrite Hck. simpl. by rewrite (world_after_requests w reqs).
  - rewrite !world_after_app. etrans; [| apply IH].
    simpl. rewrite (world_after_requests w reqs) by done.
    destruct Hopens as [-> | ->]; simpl; by apply prefix_app_r.
  - rewrite !world_after_app. rewrite (world_after_requests w reqs) by done.
    by destruct Hopens as [-> | ->].
Qed.

(** X9.  A run leaves alone what it has no business with: an output file
    that is not the output file of a selected file outside the checkpoint
    is, after the run, exactly as before, whether the run ends or breaks
    off; in particular the output of an item of the checkpoint is never
    written again, unless another item shares its name.  The error log is
    only appended to. *)
Theorem run_touches_its_outputs_only env dir a b lim t w0 name :
  (forall f, f ∈ select_files (sorted_names dir) a b lim t ->
             f ∉ checkpoint_ids w0 -> output_name f <> name) ->
  let w1 := cur (run env dir a b lim t w0).2 in
  outputs w1 !! name = outputs w0 !! name
  /\ error_log w0 `prefix_of` error_log w1.
Proof.
  intros Hname w1. subst w1.
  destruct (run_spec json_loads py_repr env dir a b lim t w0) as (r & evs & -> & Hl).
  cbn [snd cur]. split.
  - by apply (loop_spec_frame _ _ _ _ _ Hl).
  - by apply (loop_spec_error_log _ _ _ _ _ Hl).
Qed.

End SequentialRerun.

(** ** The selection of the files *)

Section Selection.

Lemma slice_list_nat {X} (l : list X) (a b : nat) :
  slice_list l (Z.of_nat a) (Z.of_nat b) = take (b - a) (drop a l).
Proof.
  unfold slice_list, Py.clip.
  destruct (Z.ltb_spec (Z.of_nat a) 0); [lia |].
  destruct (Z.ltb_spec (Z.of_nat b) 0); [lia |].
  destruct (decide (length l <= a)%nat) as [Ha | Ha].
  - rewrite (Z.min_r (Z.of_nat a)) by lia. rewrite Nat2Z.id.
    rewrite !drop_ge by lia. by rewrite !take_nil.
  - rewrite (Z.min_l (Z.of_nat a)) by lia. rewrite Nat2Z.id.
    destruct (decide (length l <= b)%nat) as [Hb | Hb].
    + rewrite (Z.min_r (Z.of_nat b)) by lia.
      rewrite !take_ge; [done | rewrite length_drop; lia | rewrite length_drop; lia].
    + rewrite (Z.min_l (Z.of_nat b)) by lia.
      assert (Z.to_nat (Z.of_nat b - Z.of_nat a) = (b - a)%nat) as -> by (clear; lia). done.
Qed.

Lemma slice_list_drop_last {X} (l : list X) (k : nat) :
  (0 < k)%nat -> slice_list l 0 (- Z.of_nat k) = take (length l - k) l.
Proof.
  intros Hk. unfold slice_list, Py.clip.
  destruct (Z.ltb_spec (- Z.of_nat k) 0); [| lia].
  change (0 <? 0) with false. cbv iota.
  rewrite (Z.min_l 0) by lia. simpl (Z.to_nat 0). rewrite drop_0. f_equal. lia.
Qed.

(** X10.  The files a run of the sequential driver works on, by its
    arguments.  With a start and an end index the files at the positions
    from the start to the end, the end included, are selected; with a start
    index alone, the files from that position on; in both cases a limit and
    the test mode are ignored.  Without a start index an end index is
    ignored: a limit that is not negative selects the first files up to
    that number, a negative limit selects all files but the last ones, the
    test mode alone selects the first three files, and without any argument
    all files are selected. *)
Theorem selection_by_arguments (l : list string) (s e n k : nat) lim t e' :
  Sequential.select_files l (Some (Z.of_nat s)) (Some (Z.of_nat e)) lim t
  = take (S e - s) (drop s l)
  /\ Sequential.select_files l (Some (Z.of_nat s)) None lim t = drop s l
  /\ Sequential.select_files l None e' (Some (Z.of_nat n)) t = take n l
  /\ Sequential.select_files l None e' (Some (- Z.of_nat (S k))) t
     = take (length l - S k) l
  /\ Sequential.select_files l None e' None true = take 3 l
  /\ Sequential.select_files l None e' None false = l.
Proof.
  unfold Sequential.select_files. split_and!.
  - replace (Z.of_nat e + 1) with (Z.of_nat (S e)) by lia. apply slice_list_nat.
  - rewrite slice_list_nat. apply take_ge. rewrite length_drop. lia.
  - apply slice_list_limit.
  - apply slice_list_drop_last. lia.
  - apply (slice_list_limit l 3).
  - done.
Qed.

End Selection.

(** ** More facts about the string primitives *)

Section SearchFacts.

Local Open Scope string_scope.
Local Open Scope Z_scope.

Lemma append_nil_r (s : string) : s +:+ EmptyString = s.
Proof. induction s as [|c s IH]; [done |]. by rewrite append_cons, IH. Qed.

Lemma prefix_app_true (sub a r : string) :
  String.prefix sub a = true -> String.prefix sub (a +:+ r) = true.
Proof.
  revert a. induction sub as [|c sub IH]; intros a H; [apply prefix_empty |].
  destruct a as [|x a]; [done |]. rewrite append_cons. cbn [String.prefix] in *.
  destruct (ascii_dec c x); [by apply IH | done].
Qed.

Lemma prefix_app_long (sub a r : string) :
  (String.length sub <= String.length a)%nat ->
  String.prefix sub (a +:+ r) = String.prefix sub a.
Proof.
  revert a. induction sub as [|c sub IH]; intros a H; [by rewrite !prefix_empty |].
  destruct a as [|x a]; [simpl in H; lia |]. rewrite append_cons. cbn [String.prefix].
  destruct (ascii_dec c x); [| done]. apply IH. simpl in H. lia.
Qed.

Lemma prefix_length (sub a : string) :
  String.prefix sub a = true -> (String.length sub <= String.length a)%nat.
Proof.
  revert a. induction sub as [|c sub IH]; intros a H; [simpl; lia |].
  destruct a as [|x a]; [done |]. cbn [String.prefix] in H.
  destruct (ascii_dec c x); [| done]. apply IH in H. simpl. lia.
Qed.

(** An occurrence that is found lies within the text. *)
Lemma find_from_fits (sub s : string) (off i : nat) :
  Py.find_from sub s off = Some i ->
  (off <= i)%nat /\ (i - off + String.length sub <= String.length s)%nat.
Proof.
  revert off. induction s as [|c s IH]; intros off; cbn [Py.find_from].
  - destruct (String.prefix sub EmptyString) eqn:Hp; [| done].
    intros [= <-]. apply prefix_length in Hp. lia.
  - destruct (String.prefix sub (String c s)) eqn:Hp.
    + intros [= <-]. apply prefix_length in Hp. lia.
    + intros H. apply IH in H. simpl. lia.
Qed.

(** The first occurrence in a text is the first occurrence in every
    longer text. *)
Lemma find_from_app_stable (sub a r : string) (off i : nat) :
  Py.find_from sub a off = Some i -> Py.find_from sub (a +:+ r) off = Some i.
Proof.
  revert off. induction a as [|c a IH]; intros off; cbn [Py.find_from].
  - destruct (String.prefix sub EmptyString) eqn:Hp; [| done].
    intros [= <-]. destruct sub; [| done]. rewrite append_nil.
    destruct r; cbn [Py.find_from]; by rewrite ?prefix_empty.
  - rewrite append_cons. cbn [Py.find_from].
    destruct (String.prefix sub (String c a)) eqn:Hp.
    + intros [= <-].
      rewrite <- append_cons, (prefix_app_true _ _ _ Hp). done.
    + intros H. pose proof (find_from_fits _ _ _ _ H) as [_ Hfit].
      rewrite <- append_cons, prefix_app_long, Hp by (simpl; lia).
      by apply IH.
Qed.

Lemma drop_chars_app (p s : string) : Py.drop_chars (String.length p) (p +:+ s) = s.
Proof. induction p as [|c p IH]; [done |]. rewrite append_cons. apply IH. Qed.

(** A search that starts where a prefix of the text ends. *)
Lemma find_after_prefix (sub p s : string) :
  Py.find sub (p +:+ s) (Z.of_nat (String.length p))
  = match Py.find_from sub s (String.length p) with
    | Some i => Z.of_nat i
    | None => -1
    end.
Proof.
  unfold Py.find. rewrite length_append.
  destruct (Z.ltb_spec (Z.of_nat (String.length p)) 0); [lia |].
  destruct (Z.ltb_spec (Z.of_nat (String.length p + String.length s))
              (Z.of_nat (String.length p))); [lia |].
  by rewrite Nat2Z.id, drop_chars_app.
Qed.

Lemma find_from_shift (sub s : string) (off : nat) :
  Py.find_from sub s off = (fun i => (i + off)%nat) <$> Py.find_from sub s 0.
Proof.
  revert off. induction s as [|c s IH]; intros off; cbn [Py.find_from].
  - by destruct (String.prefix sub EmptyString).
  - destruct (String.prefix sub (String c s)); [done |].
    rewrite (IH (S off)), (IH 1%nat).
    destruct (Py.find_from sub s 0); simpl; [apply (f_equal Some); lia | done].
Qed.

(** The pattern of a quote and a comma, when it does not occur in a text
    that is followed by a quote, occurs first right after the text. *)
Lemma find_from_terminator (body post : string) (off : nat) :
  Py.find_from (String Py.dquote ",") (body +:+ String Py.dquote EmptyString) off = None ->
  Py.find_from (String Py.dquote ",") (body +:+ String Py.dquote "," +:+ post) off
  = Some (off + String.length body)%nat.
Proof.
  revert off. induction body as [|c body IH]; intros off H.
  - rewrite append_nil, !append_cons, append_nil.
    cbn [Py.find_from String.prefix String.length].
    destruct (ascii_dec Py.dquote Py.dquote); [| done].
    destruct (ascii_dec "," ","); [| done].
    rewrite prefix_empty. apply (f_equal Some). lia.
  - rewrite append_cons. rewrite append_cons in H.
    cbn [Py.find_from] in H |- *.
    assert (Hp : String.prefix (String Py.dquote ",")
                   (String c (body +:+ String Py.dquote "," +:+ post))
                 = String.prefix (String Py.dquote ",")
                     (String c (body +:+ String Py.dquote EmptyString))).
    { destruct body as [|x body].
      - rewrite !append_nil, !append_cons. cbn [String.prefix].
        destruct (ascii_dec Py.dquote c); [| done].
        by destruct (ascii_dec "," Py.dquote).
      - rewrite !append_cons. cbn [String.prefix]. by rewrite !prefix_empty. }
    rewrite Hp.
    destruct (String.prefix _ (String c (body +:+ String Py.dquote EmptyString)));
      [done |].
    rewrite (IH _ H). apply (f_equal Some). simpl. lia.
Qed.

(** A character that is neither in the key nor the quote is not in the
    quoted key. *)
Lemma find_from_char_quoted (c : ascii) (key : string) (off : nat) :
  c <> Py.dquote ->
  Py.contains (String c EmptyString) key = false ->
  Py.find_from (String c EmptyString) (Py.quoted key) off = None.
Proof.
  intros Hc Hkey%contains_false. unfold Py.quoted.
  cbn [Py.find_from String.prefix]. destruct (ascii_dec c Py.dquote) as [|Hne]; [done |].
  clear Hc. generalize (S off). clear off.
  induction key as [|x key IH]; intros off.
  - rewrite append_nil. cbn [Py.find_from String.prefix].
    by destruct (ascii_dec c Py.dquote).
  - rewrite append_cons. cbn [Py.find_from String.prefix] in Hkey |- *.
    rewrite prefix_empty in Hkey.
    destruct (ascii_dec c x); [done |].
    apply IH. by apply (find_from_None_off _ _ 1%nat).
Qed.

End SearchFacts.

(** ** Stripping *)

Section StripFacts.

Local Open Scope string_scope.

Lemma length_lstrip (p : ascii -> bool) (s : string) :
  (String.length (Py.lstrip_chars p s) <= String.length s)%nat.
Proof.
  induction s as [|c s IH]; [done |]. cbn [Py.lstrip_chars].
  destruct (p c); simpl; lia.
Qed.

Lemma length_rstrip (p : ascii -> bool) (s : string) :
  (String.length (Py.rstrip_chars p s) <= String.length s)%nat.
Proof.
  induction s as [|c s IH]; [done |]. cbn [Py.rstrip_chars].
  destruct (Py.rstrip_chars p s); [destruct (p c) |]; simpl in *; lia.
Qed.

Lemma lstrip_same_length (p : ascii -> bool) (s : string) :
  String.length (Py.lstrip_chars p s) = String.length s -> Py.lstrip_chars p s = s.
Proof.
  destruct s as [|c s]; [done |]. cbn [Py.lstrip_chars].
  destruct (p c); [| done]. intros H.
  pose proof (length_lstrip p s). simpl in H. lia.
Qed.

(** A text that stripping leaves as it is has nothing to strip at either
    end. *)
Lemma strip_chars_fixed (p : ascii -> bool) (s : string) :
  Py.strip_chars p s = s ->
  Py.lstrip_chars p s = s /\ Py.rstrip_chars p s = s.
Proof.
  unfold Py.strip_chars. intros H.
  assert (Hl : Py.lstrip_chars p s = s).
  { apply lstrip_same_length.
    pose proof (length_lstrip p s).
    pose proof (length_rstrip p (Py.lstrip_chars p s)) as Hr.
    rewrite H in Hr. lia. }
  split; [done |]. by rewrite Hl in H.
Qed.

Lemma rstrip_cons_keep (p : ascii -> bool) (c : ascii) (s : string) :
  p c = false -> Py.rstrip_chars p (String c s) = String c (Py.rstrip_chars p s).
Proof.
  intros Hc. cbn [Py.rstrip_chars]. destruct (Py.rstrip_chars p s); [| done].
  by rewrite Hc.
Qed.

(** The value of a field written as a quoted text after a blank, as it is
    between the colon and the closing quote. *)
Lemma strip_field_value (v : string) :
  Py.strip v = v ->
  Py.strip_quotes v = v ->
  Py.strip (Py.strip_quotes (Py.strip (String " " (String Py.dquote v)))) = v.
Proof.
  intros Hs Hq.
  destruct (strip_chars_fixed _ _ Hs) as [_ Hr].
  assert (H1 : Py.strip (String " " (String Py.dquote v)) = String Py.dquote v).
  { unfold Py.strip, Py.strip_chars. cbn [Py.lstrip_chars].
    change (Py.is_space " ") with true. change (Py.is_space Py.dquote) with false.
    cbv iota. rewrite rstrip_cons_keep by done. by rewrite Hr. }
  rewrite H1.
  assert (H2 : Py.strip_quotes (String Py.dquote v) = v).
  { unfold Py.strip_quotes, Py.strip_chars in *. cbn [Py.lstrip_chars].
    by rewrite bool_decide_eq_true_2. }
  by rewrite H2.
Qed.

End StripFacts.

(** ** The manual extraction finds a field *)

Section ManualExtraction.

Local Open Scope string_scope.
Local Open Scope Z_scope.

Ltac normalize_text :=
  unfold Py.quoted;
  repeat first [rewrite append_assoc | rewrite append_cons | rewrite append_nil].

(** The text between the colon after the first occurrence of a marker and
    the next quote followed by a comma. *)
Lemma marked_value_between (pre marker body post : string) :
  Py.find marker (pre +:+ marker) 0 = Z.of_nat (String.length pre) ->
  (forall off, Py.find_from ":" marker off = None) ->
  Py.find_from (String Py.dquote ",") (body +:+ String Py.dquote EmptyString) 0 = None ->
  Sequential.marked_value
    (pre +:+ marker +:+ ":" +:+ body +:+ String Py.dquote "," +:+ post) marker
  = Some (Py.strip (Py.strip_quotes (Py.strip body))).
Proof.
  intros Hfirst Hcolon Hterm.
  set (text := pre +:+ marker +:+ ":" +:+ body +:+ String Py.dquote "," +:+ post).
  set (rest := body +:+ String Py.dquote "," +:+ post).
  assert (Hstart : Py.find marker text 0 = Z.of_nat (String.length pre)).
  { rewrite find_start_0 in Hfirst |- *.
    destruct (Py.find_from marker (pre +:+ marker) 0) as [i|] eqn:Hi; [| lia].
    assert (i = String.length pre) as -> by lia.
    subst text. rewrite <- append_assoc.
    by rewrite (find_from_app_stable _ _ _ _ _ Hi). }
  assert (Hvalue : Py.find ":" text (Z.of_nat (String.length pre))
                   = Z.of_nat (String.length (pre +:+ marker))).
  { subst text. rewrite find_after_prefix.
    change (":" +:+ rest) with (String ":" rest).
    rewrite (find_from_char_app ":" marker rest _ (Hcolon _)).
    by rewrite length_append. }
  assert (Hlen : Z.of_nat (String.length (pre +:+ marker)) + 1
                 = Z.of_nat (String.length (pre +:+ marker +:+ ":"))).
  { rewrite !length_append. simpl. lia. }
  assert (Hshape : text = (pre +:+ marker +:+ ":") +:+ rest).
  { subst text rest. by rewrite !append_assoc. }
  assert (Hend : Py.find (String Py.dquote ",") text
                   (Z.of_nat (String.length (pre +:+ marker +:+ ":")))
                 = Z.of_nat (String.length (pre +:+ marker +:+ ":"))
                   + Z.of_nat (String.length body)).
  { rewrite Hshape, find_after_prefix. subst rest.
    rewrite (find_from_terminator body post _ (find_from_None_off _ _ _ _ Hterm)).
    lia. }
  unfold Sequential.marked_value. fold text.
  rewrite Hstart, Hvalue, Hlen, Hend.
  destruct (Z.leb_spec 0 (Z.of_nat (String.length pre))); [| lia].
  destruct (Z.leb_spec 0 (Z.of_nat (String.length (pre +:+ marker +:+ ":"))
                          + Z.of_nat (String.length body))); [| lia].
  do 4 f_equal. rewrite Hshape. subst rest. apply slice_middle.
Qed.

(** X11.  The manual extraction finds a field that is written as in a JSON
    object.  When the first occurrence of the quoted key in the text is
    followed by a colon, a blank and the quoted value, and then by a comma,
    and the value has no blank or quote at either end and contains no quote
    followed by a comma, then the value is what is extracted for the key;
    for the four text fields of the result it is the entry of the object
    that [manually_extract_components] returns. *)
Theorem field_is_recovered pre key v post qd :
  let marker := Py.quoted key in
  let text := pre +:+ marker +:+ ": " +:+ Py.quoted v +:+ "," +:+ post in
  Py.find marker (pre +:+ marker) 0 = Z.of_nat (String.length pre) ->
  Py.contains ":" key = false ->
  Py.contains (String Py.dquote ",") (Py.quoted v) = false ->
  Py.strip v = v ->
  Py.strip_quotes v = v ->
  Sequential.marked_value text marker = Some v
  /\ (key ∈ ["argument"; "question_stem"; "correct_answer"; "explanation"] ->
      Sequential.manually_extract_components text qd !! key = Some (JStr v)).
Proof.
  intros marker text Hfirst Hcolon Hterm Hstrip Hquotes.
  assert (Hvalue : Sequential.marked_value text marker = Some v).
  { assert (Htext : text = pre +:+ marker +:+ ":" +:+ String " " (String Py.dquote v)
                             +:+ String Py.dquote "," +:+ post).
    { subst text marker. by normalize_text. }
    rewrite Htext, marked_value_between; [by rewrite strip_field_value | done | |].
    - intros off. by apply find_from_char_quoted.
    - apply contains_false in Hterm. rewrite append_cons.
      cbn [Py.find_from String.prefix].
      destruct (ascii_dec Py.dquote " "); [done |].
      unfold Py.quoted in Hterm. rewrite append_cons.
      by apply (find_from_None_off _ _ 0%nat). }
  split; [done |].
  rewrite !elem_of_cons, elem_of_nil. subst marker.
  intros [-> | [-> | [-> | [-> | []]]]].
  - by rewrite manual_argument, Hvalue.
  - by rewrite manual_question_stem, Hvalue.
  - by rewrite manual_correct_answer, Hvalue.
  - by rewrite manual_explanation, Hvalue.
Qed.

End ManualExtraction.

(** ** Replacing, and the names derived from a file name *)

Section ReplaceFacts.

Local Open Scope string_scope.

Lemma prefix_refl (s : string) : String.prefix s s = true.
Proof.
  induction s as [|c s IH]; [done |]. cbn [String.prefix].
  by destruct (ascii_dec c c).
Qed.

Lemma drop_chars_all (s : string) : Py.drop_chars (String.length s) s = EmptyString.
Proof. by induction s. Qed.

Lemma replace_fuel_empty (fuel : nat) (c : ascii) (old new : string) :
  Py.replace_fuel fuel (String c old) new EmptyString = EmptyString.
Proof. by destruct fuel. Qed.

(** A character is in neither of two texts: it is not in their
    concatenation. *)
Lemma find_from_char_app_None (c : ascii) (a b : string) (off : nat) :
  Py.find_from (String c EmptyString) a 0 = None ->
  Py.find_from (String c EmptyString) b 0 = None ->
  Py.find_from (String c EmptyString) (a +:+ b) off = None.
Proof.
  intros Ha Hb. revert off. induction a as [|x a IH]; intros off.
  - rewrite append_nil. by apply (find_from_None_off _ _ 0%nat).
  - rewrite append_cons. cbn [Py.find_from] in Ha |- *. rewrite prefix_char_app.
    destruct (String.prefix (String c EmptyString) (String x a)); [done |].
    apply IH. by apply (find_from_None_off _ _ 1%nat).
Qed.

(** Nothing is replaced in a text without the first character of the
    pattern. *)
Lemma replace_fuel_without (fuel : nat) (c : ascii) (old new s : string) :
  Py.find_from (String c EmptyString) s 0 = None ->
  Py.replace_fuel fuel (String c old) new s = s.
Proof.
  revert fuel. induction s as [|x s IH]; intros fuel H.
  - apply replace_fuel_empty.
  - destruct fuel as [|fuel]; [done |].
    cbn [Py.find_from String.prefix] in H. rewrite prefix_empty in H.
    cbn [Py.replace_fuel String.prefix].
    destruct (ascii_dec c x); [done |].
    by rewrite IH by by apply (find_from_None_off _ _ 1%nat).
Qed.

(** The pattern at the end of a text without its first character. *)
Lemma replace_fuel_suffix (fuel : nat) (c : ascii) (old new stem : string) :
  Py.find_from (String c EmptyString) stem 0 = None ->
  (String.length stem < fuel)%nat ->
  Py.replace_fuel fuel (String c old) new (stem +:+ String c old) = stem +:+ new.
Proof.
  revert fuel. induction stem as [|x stem IH]; intros fuel H Hfuel.
  - destruct fuel as [|fuel]; [simpl in Hfuel; lia |].
    rewrite !append_nil. cbn [Py.replace_fuel].
    rewrite prefix_refl, drop_chars_all, replace_fuel_empty. apply append_nil_r.
  - destruct fuel as [|fuel]; [simpl in Hfuel; lia |].
    cbn [Py.find_from String.prefix] in H. rewrite prefix_empty in H.
    rewrite !append_cons. cbn [Py.replace_fuel String.prefix].
    destruct (ascii_dec c x); [done |].
    rewrite IH; [done | by apply (find_from_None_off _ _ 1%nat) | simpl in Hfuel; lia].
Qed.

Lemma replace_suffix (c : ascii) (old new stem : string) :
  Py.contains (String c EmptyString) stem = false ->
  Py.replace (String c old) new (stem +:+ String c old) = stem +:+ new.
Proof.
  intros H%contains_false. unfold Py.replace. apply replace_fuel_suffix; [done |].
  rewrite length_append. simpl. lia.
Qed.

(** The pattern at the start of a text whose rest is without the first
    character of the pattern. *)
Lemma replace_prefix (c : ascii) (old new s : string) :
  Py.contains (String c EmptyString) s = false ->
  Py.replace (String c old) new (String c old +:+ s) = new +:+ s.
Proof.
  intros H%contains_false. unfold Py.replace. rewrite length_append.
  cbn [String.length Nat.add Py.replace_fuel].
  rewrite (prefix_app_true _ _ _ (prefix_refl (String c old))).
  change (S (String.length old)) with (String.length (String c old)).
  rewrite drop_chars_app. by rewrite replace_fuel_without.
Qed.

Lemma append_inv_r (a b s : string) : a +:+ s = b +:+ s -> a = b.
Proof.
  revert b. induction a as [|x a IH]; intros [|y b] H.
  - done.
  - apply (f_equal String.length) in H. rewrite append_cons in H.
    rewrite append_nil in H. simpl in H. rewrite length_append in H. lia.
  - apply (f_equal String.length) in H. rewrite append_cons in H.
    rewrite append_nil in H. simpl in H. rewrite length_append in H. lia.
  - rewrite !append_cons in H. injection H as -> H. f_equal. by apply IH.
Qed.

Lemma append_inv_l (s a b : string) : s +:+ a = s +:+ b -> a = b.
Proof.
  induction s as [|x s IH]; [done |]. rewrite !append_cons. intros [= H]. by apply IH.
Qed.

End ReplaceFacts.

Section Names.

Local Open Scope string_scope.

Lemma output_name_stem (stem : string) :
  Py.contains "." stem = false ->
  Sequential.output_name (stem +:+ ".html") = "processed_" +:+ stem +:+ ".json".
Proof.
  intros H. unfold Sequential.output_name. by rewrite (replace_suffix "." "html").
Qed.

(** X12.  The names the sequential driver derives from the name of a page.
    For a page [cr_<n>.html] whose part [n] contains neither the letter c
    nor a dot, the question number is [n] and the output file is
    [processed_cr_<n>.json]; and no two pages whose names are a text
    without a dot followed by [.html] share an output file, so that the
    resume invariant applies to a directory of such pages. *)
Theorem names_of_a_page (n : string) (p : page) (names : list string) :
  Py.contains "c" n = false ->
  Py.contains "." n = false ->
  Forall (fun f => exists stem, f = stem +:+ ".html" /\ Py.contains "." stem = false)
         names ->
  let f := "cr_" +:+ n +:+ ".html" in
  question_number (Sequential.load_html_file f p) = n
  /\ Sequential.output_name f = "processed_cr_" +:+ n +:+ ".json"
  /\ Sequential.distinct_outputs names.
Proof.
  intros Hc Hdot Hnames f. split_and!.
  - unfold Sequential.load_html_file. cbn [question_number]. subst f.
    rewrite (replace_prefix "c" "r_").
    + rewrite append_nil. rewrite (replace_suffix "." "html") by done.
      apply append_nil_r.
    + apply contains_false. apply find_from_char_app_None; [| done].
      by apply contains_false.
  - subst f. rewrite <- append_assoc. rewrite output_name_stem.
    + by rewrite !append_assoc.
    + apply contains_false. apply find_from_char_app_None; [done |].
      by apply contains_false.
  - apply distinct_outputs_spec. intros a b Ha Hb Heq.
    rewrite Forall_forall in Hnames.
    destruct (Hnames a Ha) as (sa & -> & Hsa), (Hnames b Hb) as (sb & -> & Hsb).
    rewrite !output_name_stem in Heq by done.
    apply append_inv_l in Heq. by apply append_inv_r in Heq as ->.
Qed.

(** X13.  The names the exam pack driver derives from the name of a page.
    For a page [question_<n>.html] whose part [n] contains neither the
    letter q nor a dot, the question number is [n], the output file is
    [processed_<n>.json], and the object saved for the page carries [n] as
    its question number, whatever the analysis is. *)
Theorem names_of_an_exam_page (n : string) (p : page) (response : dict) :
  Py.contains "q" n = false ->
  Py.contains "." n = false ->
  let f := "question_" +:+ n +:+ ".html" in
  let qd := ExamPacks.load_html_file f p in
  question_number qd = n
  /\ ExamPacks.output_name qd = "processed_" +:+ n +:+ ".json"
  /\ ExamPacks.output_of f = ExamPacks.output_name qd
  /\ ExamPacks.result_question_number (ExamPacks.combined_result qd response) = [n].
Proof.
  intros Hq Hdot f qd.
  assert (Hn : question_number qd = n).
  { subst qd f. unfold ExamPacks.load_html_file, ExamPacks.question_number_of.
    cbn [question_number].
    rewrite (replace_prefix "q" "uestion_").
    - rewrite append_nil. rewrite (replace_suffix "." "html") by done.
      apply append_nil_r.
    - apply contains_false. apply find_from_char_app_None; [| done].
      by apply contains_false. }
  split_and!.
  - done.
  - unfold ExamPacks.output_name. by rewrite Hn.
  - done.
  - unfold ExamPacks.result_question_number, ExamPacks.combined_result.
    rewrite lookup_insert_eq. by rewrite Hn.
Qed.

End Names.

(** ** What becomes of a structured answer *)

Section StructuredAnswer.

Import Sequential.

Local Open Scope string_scope.

Variable json_loads : string -> loads_outcome.
Variable py_repr : json -> string.

Local Abbreviation generate_response := (Sequential.generate_response json_loads).
Local Abbreviation process_file_sequentially :=
  (Sequential.process_file_sequentially json_loads py_repr).

(** An answer with the five fields of the model is returned as completed
    by the driver. *)
Lemma parse_response_structured text js parsed qd :
  json_candidate text = Some js ->
  json_loads js = Loaded parsed ->
  Forall (fun k => is_Some (parsed !! k))
         ["argument"; "question_stem"; "options"; "correct_answer"; "explanation"] ->
  parse_response json_loads text qd = Ok (complete_parsed parsed qd).
Proof.
  intros Hc Hl Hkeys. unfold parse_response. rewrite Hc, Hl.
  destruct (complete_parsed_lookup parsed qd) as (Hq & _ & _ & _ & _ & Hother).
  assert (Hall : Forall (fun key => is_Some (complete_parsed parsed qd !! key))
                        required_keys).
  { rewrite !Forall_cons in Hkeys. destruct Hkeys as (H1 & H2 & H3 & H4 & H5 & _).
    assert (Hk : forall k, is_Some (parsed !! k) ->
              k ∉ ["question_type"; "metadata"; "cr_specific_type"; "answer_stats";
                   "session_stats"] ->
              is_Some (complete_parsed parsed qd !! k)).
    { intros k Hk Hnot. by rewrite Hother. }
    unfold required_keys. rewrite !Forall_cons. split_and!;
      [ apply Hk; [done | unfold not; list_solver] ..
      | by rewrite Hq | by apply Forall_nil ]. }
  by rewrite (proj2 (filter_missing_nil json_loads _ _) Hall).
Qed.

(** X14.  What the sequential driver makes of a structured answer.  When
    the text between the braces parses to an object with the five fields
    of the model, that object is the result, changed as follows and in no
    other way: the question type is Critical Reasoning, whatever the model
    wrote and also when it wrote none; the metadata are those of the page,
    with the specific type of the answer moved into them from the top
    level; the statistics of the answer are kept when it has some, and
    those of the page are used otherwise. *)
Theorem structured_answer_is_completed text js parsed qd :
  json_candidate text = Some js ->
  json_loads js = Loaded parsed ->
  Forall (fun k => is_Some (parsed !! k))
         ["argument"; "question_stem"; "options"; "correct_answer"; "explanation"] ->
  exists p,
    parse_response json_loads text qd = Ok p
    /\ p !! "question_type" = Some (JStr "Critical Reasoning")
    /\ p !! "metadata"
       = Some (JObj (match parsed !! "cr_specific_type" with
                     | Some v => <["cr_specific_type" := v]> (metadata qd)
                     | None => metadata qd
                     end))
    /\ p !! "cr_specific_type" = None
    /\ p !! "answer_stats" = Some (default (answer_stats qd) (parsed !! "answer_stats"))
    /\ p !! "session_stats" = Some (default (session_stats qd) (parsed !! "session_stats"))
    /\ (forall k, k ∉ ["question_type"; "metadata"; "cr_specific_type"; "answer_stats";
                       "session_stats"] -> p !! k = parsed !! k).
Proof.
  intros Hc Hl Hkeys. exists (complete_parsed parsed qd).
  split; [by apply (parse_response_structured text js) |].
  apply complete_parsed_lookup.
Qed.

(** X15.  An answer that carries an error entry is not saved.  When the
    first answer parses to an object with the five fields of the model and
    an entry named error besides, the item ends as Errored after this one
    request: the text of that entry is appended to the error log with the
    time stamp and the file name, no output file is touched, and the
    question is not asked again. *)
Theorem answer_with_error_entry env f pf s p text js parsed err :
  f ∉ pf ->
  html env = Ok p ->
  service env 0%nat = CallText text ->
  json_candidate text = Some js ->
  json_loads js = Loaded parsed ->
  Forall (fun k => is_Some (parsed !! k))
         ["argument"; "question_stem"; "options"; "correct_answer"; "explanation"] ->
  parsed !! "error" = Some err ->
  error_log_ok env = true ->
  let line := error_line (now env) f (py_str py_repr err) in
  process_file_sequentially env f pf s
  = (Ok (FileResult Errored f),
     State (World (outputs (cur s)) (checkpoint (cur s)) (error_log (cur s) ++ [line]))
           (log s ++ [EvRequest (question_number (load_html_file f p)) 0;
                      EvErrorLog line])).
Proof.
  intros Hin Hhtml Hsvc Hc Hl Hkeys Herr Hlog line.
  set (qd := load_html_file f p).
  pose proof (parse_response_structured text js parsed qd Hc Hl Hkeys) as Hparse.
  assert (Hgen : generate_response (service env) qd 0 s
                 = (Ok (complete_parsed parsed qd),
                    State (cur s) (log s ++ requests_from qd 0 1))).
  { apply (first_answer_wins_at json_loads (service env) qd 0 text);
      [unfold MAX_RETRIES; lia | intros j Hj; lia | done | done]. }
  rewrite (process_file_sequentially_attempts json_loads py_repr env f pf s p _ _
             Hin Hhtml Hgen).
  destruct (complete_parsed_lookup parsed qd) as (_ & _ & _ & _ & _ & Hother).
  rewrite Hother, Herr, Hlog by (unfold not; list_solver).
  unfold try_except, bind, append_error_log, emit, ret. cbn.
  by rewrite <- app_assoc.
Qed.

End StructuredAnswer.

(** ** The exam pack driver: one item *)

Section ExamPacksItem.

Import ExamPacks.

Variable json_loads : string -> loads_outcome.
Variable manual : string -> question_data -> dict.

Local Abbreviation parse_response := (ExamPacks.parse_response json_loads manual).
Local Abbreviation generate_response := (ExamPacks.generate_response json_loads manual).
Local Abbreviation try_file := (ExamPacks.try_file json_loads manual).
Local Abbreviation process_file := (ExamPacks.process_file json_loads manual).
Local Abbreviation process_batch := (ExamPacks.process_batch json_loads manual).
Local Abbreviation process_batches := (ExamPacks.process_batches json_loads manual).
Local Abbreviation run := (ExamPacks.run json_loads manual).

(** The error object of the exam pack driver after the last attempt. *)
Lemma exam_gives_up env qd msg s :
  service env MAX_RETRIES = CallFails msg ->
  steps (generate_response env qd MAX_RETRIES) s
        (if final_log_ok env
         then Ok {[ "error"%string := JStr ("API request failed after 3 retries: " +:+ msg) ]}
         else Raise (OtherError "error log"))
        (EvRequest (question_number qd) MAX_RETRIES
           :: if final_log_ok env then [EvErrorLog (final_line env qd msg)] else []).
Proof.
  intros Hsvc. rewrite exam_generate_response_unfold, Hsvc.
  change (MAX_RETRIES <? MAX_RETRIES)%nat with false. cbv iota.
  destruct (final_log_ok env).
  - apply (steps_bind _ _ _ tt [_] _ [_]); [apply steps_emit |].
    apply (steps_bind _ _ _ tt [_] _ []); [apply steps_emit | apply steps_ret].
  - apply (steps_bind _ _ _ tt [_] _ []); [apply steps_emit |].
    apply steps_bind_raise, steps_raise.
Qed.

(** A failed request within the limit whose line is logged is followed by
    the next attempt. *)
Lemma exam_retry env qd retry_count msg s r evs :
  service env retry_count = CallFails msg ->
  (retry_count < MAX_RETRIES)%nat ->
  retry_log_ok env retry_count = true ->
  let s1 := State (world_after (cur s) [EvRequest (question_number qd) retry_count])
                  (log s ++ [EvRequest (question_number qd) retry_count]) in
  steps (generate_response env qd (S retry_count))
        (State (world_after (cur s1) [EvErrorLog (retry_line env qd msg)])
               (log s1 ++ [EvErrorLog (retry_line env qd msg)])) r evs ->
  steps (generate_response env qd retry_count) s r
        ([EvRequest (question_number qd) retry_count;
          EvErrorLog (retry_line env qd msg)] ++ evs).
Proof.
  intros Hsvc Hlt%Nat.ltb_lt Hlog s1 Hnext.
  rewrite exam_generate_response_unfold, Hsvc, Hlt, Hlog.
  apply (steps_bind _ _ _ tt [_] _ (_ :: evs)); [apply steps_emit |].
  apply (steps_bind _ _ _ tt [_] _ evs); [apply steps_emit | exact Hnext].
Qed.

(** A failed request whose line cannot be logged ends the attempts. *)
Lemma exam_retry_unlogged env qd retry_count msg s :
  service env retry_count = CallFails msg ->
  (retry_count < MAX_RETRIES)%nat ->
  retry_log_ok env retry_count = false ->
  steps (generate_response env qd retry_count) s (Raise (OtherError "error log"))
        [EvRequest (question_number qd) retry_count].
Proof.
  intros Hsvc Hlt%Nat.ltb_lt Hlog.
  rewrite exam_generate_response_unfold, Hsvc, Hlt, Hlog.
  apply (steps_bind _ _ _ tt [_] _ []); [apply steps_emit |].
  apply steps_bind_raise, steps_raise.
Qed.

(** The events of [generate_response] touch neither an output file nor
    the checkpoint. *)
Lemma exam_generate_response_quiet env qd budget retry_count s :
  exists r evs,
    steps (generate_response_from json_loads manual budget env qd retry_count) s r evs
    /\ Forall quiet evs
    /\ match r with
       | Ok d =>
           (exists text, d = parse_response text qd)
           \/ (exists msg, d = {[ "error"%string := JStr msg ]})
       | Raise _ => True
       end.
Proof.
  revert retry_count s. induction budget as [|budget IH]; intros rc s;
    cbn [generate_response_from].
  - destruct (service env rc) as [msg|msg|text].
    + destruct (rc <? MAX_RETRIES)%nat.
      * destruct (retry_log_ok env rc).
        -- eexists _, [_; _]. split.
           { apply (steps_bind _ _ _ tt [_] _ [_]); [apply steps_emit |].
             apply (steps_bind _ _ _ tt [_] _ []); [apply steps_emit | apply steps_raise]. }
           split; [by repeat constructor | done].
        -- eexists _, [_]. split.
           { apply (steps_bind _ _ _ tt [_] _ []); [apply steps_emit |].
             apply steps_bind_raise, steps_raise. }
           split; [by repeat constructor | done].
      * destruct (final_log_ok env).
        -- eexists _, [_; _]. split.
           { apply (steps_bind _ _ _ tt [_] _ [_]); [apply steps_emit |].
             apply (steps_bind _ _ _ tt [_] _ []); [apply steps_emit | apply steps_ret]. }
           split; [by repeat constructor | right; by eexists].
        -- eexists _, [_]. split.
           { apply (steps_bind _ _ _ tt [_] _ []); [apply steps_emit |].
             apply steps_bind_raise, steps_raise. }
           split; [by repeat constructor | done].
    + eexists _, [_]. split.
      { apply (steps_bind _ _ _ tt [_] _ []); [apply steps_emit | apply steps_raise]. }
      split; [by repeat constructor | done].
    + eexists _, [_]. split.
      { apply (steps_bind _ _ _ tt [_] _ []); [apply steps_emit | apply steps_ret]. }
      split; [by repeat constructor | left; by eexists].
  - destruct (service env rc) as [msg|msg|text].
    + destruct (rc <? MAX_RETRIES)%nat.
      * destruct (retry_log_ok env rc).
        -- set (s1 := State (world_after (cur s) [EvRequest (question_number qd) rc])
                             (log s ++ [EvRequest (question_number qd) rc])).
           destruct (IH (S rc)
                       (State (world_after (cur s1) [EvErrorLog (retry_line env qd msg)])
                              (log s1 ++ [EvErrorLog (retry_line env qd msg)])))
             as (r & evs & Hr & Hq & Hd).
           exists r, ([EvRequest (question_number qd) rc;
                       EvErrorLog (retry_line env qd msg)] ++ evs).
           split.
           { apply (steps_bind _ _ _ tt [_] _ (_ :: evs)); [apply steps_emit |].
             apply (steps_bind _ _ _ tt [_] _ evs); [apply steps_emit | exact Hr]. }
           split; [by repeat constructor | done].
        -- eexists _, [_]. split.
           { apply (steps_bind _ _ _ tt [_] _ []); [apply steps_emit |].
             apply steps_bind_raise, steps_raise. }
           split; [by repeat constructor | done].
      * destruct (final_log_ok env).
        -- eexists _, [_; _]. split.
           { apply (steps_bind _ _ _ tt [_] _ [_]); [apply steps_emit |].
             apply (steps_bind _ _ _ tt [_] _ []); [apply steps_emit | apply steps_ret]. }
           split; [by repeat constructor | right; by eexists].
        -- eexists _, [_]. split.
           { apply (steps_bind _ _ _ tt [_] _ []); [apply steps_emit |].
             apply steps_bind_raise, steps_raise. }
           split; [by repeat constructor | done].
    + eexists _, [_]. split.
      { apply (steps_bind _ _ _ tt [_] _ []); [apply steps_emit | apply steps_raise]. }
      split; [by repeat constructor | done].
    + eexists _, [_]. split.
      { apply (steps_bind _ _ _ tt [_] _ []); [apply steps_emit | apply steps_ret]. }
      split; [by repeat constructor | left; by eexists].
Qed.



(** X17.  The exam pack driver records a question whose requests have all
    failed as processed.  When the request fails at the first attempt and
    at each of the three retries, and the error log and the files can be
    written, the error object is saved as the analysis of the question in
    its output file, the file name is appended to the checkpoint and the
    checkpoint is saved; the saved object is not a valid result. *)
Theorem failed_analysis_is_checkpointed env f ls s p m0 m1 m2 m3 :
  html env = Ok p ->
  service env 0%nat = CallFails m0 ->
  service env 1%nat = CallFails m1 ->
  service env 2%nat = CallFails m2 ->
  service env 3%nat = CallFails m3 ->
  retry_log_ok env 0%nat = true ->
  retry_log_ok env 1%nat = true ->
  retry_log_ok env 2%nat = true ->
  final_log_ok env = true ->
  save_result_io env = IoOk ->
  save_checkpoint_io env = IoOk ->
  let qd := load_html_file f p in
  let q := question_number qd in
  let result :=
    combined_result qd
      {[ "error"%string := JStr ("API request failed after 3 retries: " +:+ m3) ]} in
  steps (process_file env f ls) s
        (Ok (LoopState (ls_processed_files ls ++ [f]) (ls_batch_results ls ++ [result])))
        [EvRequest q 0; EvErrorLog (retry_line env qd m0);
         EvRequest q 1; EvErrorLog (retry_line env qd m1);
         EvRequest q 2; EvErrorLog (retry_line env qd m2);
         EvRequest q 3; EvErrorLog (final_line env qd m3);
         EvOutputOpen (output_of f); EvOutputDump (output_of f) result;
         EvCheckpointOpen; EvCheckpointDump (ls_processed_files ls ++ [f])]
  /\ CombineResults.is_valid_result result = Ok false.
Proof.
  intros Hhtml H0 H1 H2 H3 L0 L1 L2 Lf Hsave Hck qd q result. split.
  - unfold ExamPacks.process_file, ExamPacks.try_file. rewrite Hhtml, Hsave, Hck.
    apply (steps_bind _ _ _ (LoopState (ls_processed_files ls ++ [f])
                                       (ls_batch_results ls ++ [result]), None)
             [_; _; _; _; _; _; _; _; _; _; _; _] _ []); [| apply steps_ret].
    apply steps_try_ok.
    apply (steps_bind _ _ _ qd [] _ [_; _; _; _; _; _; _; _; _; _; _; _]);
      [apply steps_ret |].
    apply (steps_bind _ _ _
             {[ "error"%string := JStr ("API request failed after 3 retries: " +:+ m3) ]}
             [_; _; _; _; _; _; _; _] _ [_; _; _; _]).
    { apply (exam_retry _ _ 0 m0); [done | unfold MAX_RETRIES; lia | done |].
      apply (exam_retry _ _ 1 m1); [done | unfold MAX_RETRIES; lia | done |].
      apply (exam_retry _ _ 2 m2); [done | unfold MAX_RETRIES; lia | done |].
      pose proof (exam_gives_up env qd m3) as Hlast. rewrite Lf in Hlast.
      by apply Hlast. }
    apply (steps_bind _ _ _ tt [_; _] _ [_; _]).
    { apply (steps_bind _ _ _ tt [_] _ [_]); apply steps_emit. }
    apply steps_try_ok.
    apply (steps_bind _ _ _ tt [_; _] _ []); [| apply steps_ret].
    apply (steps_bind _ _ _ tt [_] _ [_]); apply steps_emit.
  - unfold CombineResults.is_valid_result, result, combined_result.
    cbn [CombineResults.truthy CombineResults.py_in CombineResults.py_getitem].
    rewrite bool_decide_eq_false_2.
    2: { intros Hsize. apply map_size_empty_inv in Hsize.
         apply (f_equal (fun m => m !! "question_number"%string)) in Hsize.
         by rewrite lookup_insert_eq, lookup_empty in Hsize. }
    cbn [negb]. unfold has_key.
    rewrite !lookup_insert_ne, lookup_insert_eq by done.
    rewrite bool_decide_eq_true_2 by by eexists.
    rewrite lookup_singleton_eq.
    by rewrite bool_decide_eq_true_2 by by eexists.
Qed.

(** X18.  In the exam pack driver a failed request is retried only when the
    line about it can be appended to the error log.  When the first request
    fails and that line cannot be written, no further request is sent and
    no output file is touched: the exception of the append is handled as an
    error of the item when the handler can write to the log, and otherwise
    it ends the loop over the batch, before any other page is looked at. *)
Theorem unlogged_failure_is_not_retried env f rest ls s p msg :
  html (env f) = Ok p ->
  service (env f) 0%nat = CallFails msg ->
  retry_log_ok (env f) 0%nat = false ->
  let q := question_number_of f in
  (handler_log_ok (env f) = true ->
   steps (process_file (env f) f ls) s (Ok ls)
         [EvRequest q 0; EvErrorLog (error_line (env f) f "error log")])
  /\ (handler_log_ok (env f) = false ->
      steps (process_batch env (f :: rest) ls) s (Raise (OtherError "error log"))
            [EvRequest q 0]).
Proof.
  intros Hhtml Hsvc Hretry q.
  assert (Htry : steps (try_file (env f) f ls) s (Ok (ls, Some (OtherError "error log")))
                   [EvRequest q 0]).
  { unfold ExamPacks.try_file. rewrite Hhtml.
    apply (steps_try_raise _ _ _ (OtherError "error log") [_] _ []); [| apply steps_ret].
    apply (steps_bind _ _ _ (load_html_file f p) [] _ [_]); [apply steps_ret |].
    apply steps_bind_raise.
    apply (exam_retry_unlogged (env f) (load_html_file f p) 0 msg);
      [done | unfold MAX_RETRIES; lia | done]. }
  split; intros Hh.
  - unfold ExamPacks.process_file.
    apply (steps_bind _ _ _ _ [_] _ [_] Htry).
    cbn [exn_msg]. rewrite Hh.
    apply (steps_bind _ _ _ tt [_] _ []); [apply steps_emit | apply steps_ret].
  - cbn [ExamPacks.process_batch]. apply steps_bind_raise.
    unfold ExamPacks.process_file.
    apply (steps_events _ _ _ ([EvRequest q 0] ++ [])); [| done].
    apply (steps_bind _ _ _ _ [_] _ [] Htry).
    cbn [exn_msg]. rewrite Hh.
    apply steps_bind_raise, steps_raise.
Qed.

End ExamPacksItem.

(** ** The exam pack driver: the loop over a batch *)

Section ExamPacksBatch.

Import ExamPacks.

Variable json_loads : string -> loads_outcome.
Variable manual : string -> question_data -> dict.

Local Abbreviation generate_response := (ExamPacks.generate_response json_loads manual).
Local Abbreviation try_file := (ExamPacks.try_file json_loads manual).
Local Abbreviation process_file := (ExamPacks.process_file json_loads manual).
Local Abbreviation process_batch := (ExamPacks.process_batch json_loads manual).
Local Abbreviation process_batches := (ExamPacks.process_batches json_loads manual).
Local Abbreviation run := (ExamPacks.run json_loads manual).

(** What the [try] block of one page does: it never raises. *)
Lemma try_file_steps env f ls s :
  exists ls' oe evs pre,
    steps (try_file env f ls) s (Ok (ls', oe)) evs
    /\ Forall quiet pre
    /\ ((exists result,
           ls' = record_saved ls f result /\ oe = None
           /\ evs = pre ++ [EvOutputOpen (output_of f); EvOutputDump (output_of f) result;
                            EvCheckpointOpen;
                            EvCheckpointDump (ls_processed_files ls ++ [f])])
        \/ (exists result ck e,
              ls' = record_saved ls f result /\ oe = Some e
              /\ opened_only EvCheckpointOpen ck
              /\ evs = pre ++ [EvOutputOpen (output_of f);
                               EvOutputDump (output_of f) result] ++ ck)
        \/ (exists opens e,
              ls' = ls /\ oe = Some e
              /\ opened_only (EvOutputOpen (output_of f)) opens
              /\ evs = pre ++ opens)).
Proof.
  unfold ExamPacks.try_file, steps. destruct s as [w0 l0]. cbn [cur log].
  destruct (html env) as [p|e0] eqn:Hhtml.
  2: { exists ls, (Some e0), [], []. split_and!; [| done |].
       - unfold try_except, bind, raise, ret. cbn. by rewrite app_nil_r.
       - right. right. exists [], e0. split_and!; [done | done | by left | done]. }
  set (qd := load_html_file f p).
  destruct (exam_generate_response_quiet json_loads manual env qd (MAX_RETRIES - 0) 0
              (State w0 l0)) as (rg & pre & Hg & Hpre & _).
  change (generate_response_from json_loads manual (MAX_RETRIES - 0) env qd 0)
    with (generate_response env qd 0) in Hg.
  unfold steps in Hg. cbn [cur log] in Hg.
  assert (Hw : forall evs,
            world_after w0 (pre ++ evs) = world_after (world_after w0 pre) evs)
    by (intros; apply world_after_app).
  unfold try_except, bind at 1. unfold ret at 1. unfold bind at 1. rewrite Hg.
  destruct rg as [response|e].
  2: { exists ls, (Some e), (pre ++ []), pre. split_and!; [| done |].
       - unfold ret. cbn. by rewrite !app_nil_r.
       - right. right. exists [], e. split_and!; [done | done | by left | done]. }
  set (result := combined_result qd response).
  unfold save_result, write_output, save_checkpoint, try_except, bind, emit, raise, ret.
  destruct (save_result_io env) as [|msg|msg] eqn:Hsave.
  - destruct (save_checkpoint_io env) as [|msg|msg] eqn:Hck.
    + exists (record_saved ls f result), None,
        (pre ++ [EvOutputOpen (output_of f); EvOutputDump (output_of f) result;
                 EvCheckpointOpen; EvCheckpointDump (ls_processed_files ls ++ [f])]), pre.
      split_and!; [| done |].
      * rewrite Hw. cbn. by rewrite <- !app_assoc.
      * left. by exists result.
    + exists (record_saved ls f result), (Some (OtherError msg)),
        (pre ++ [EvOutputOpen (output_of f); EvOutputDump (output_of f) result] ++ []),
        pre.
      split_and!; [| done |].
      * rewrite Hw. cbn. by rewrite <- !app_assoc.
      * right. left. exists result, [], (OtherError msg).
        split_and!; [done | done | by left | done].
    + exists (record_saved ls f result), (Some (OtherError msg)),
        (pre ++ [EvOutputOpen (output_of f); EvOutputDump (output_of f) result]
             ++ [EvCheckpointOpen]), pre.
      split_and!; [| done |].
      * rewrite Hw. cbn. by rewrite <- !app_assoc.
      * right. left. exists result, [EvCheckpointOpen], (OtherError msg).
        split_and!; [done | done | by right | done].
  - exists ls, (Some (OtherError msg)), (pre ++ []), pre.
    split_and!; [| done |].
    + cbn. by rewrite !app_nil_r.
    + right. right. exists [], (OtherError msg).
      split_and!; [done | done | by left | done].
  - exists ls, (Some (OtherError msg)), (pre ++ [EvOutputOpen (output_of f)]), pre.
    split_and!; [| done |].
    + rewrite Hw. cbn. by rewrite <- !app_assoc.
    + right. right. exists [EvOutputOpen (output_of f)], (OtherError msg).
      split_and!; [done | done | by right | done].
Qed.

(** Every iteration of the inner loop is one that [file_run] describes. *)
Lemma process_file_run env f ls s :
  exists r evs, steps (process_file env f ls) s r evs /\ file_run env f ls r evs.
Proof.
  destruct (try_file_steps env f ls s) as (ls' & oe & evs & pre & Htry & Hpre & Hcases).
  unfold ExamPacks.process_file.
  assert (Hnone : oe = None -> steps (r <- try_file env f ls ;;
                                      match r with
                                      | (ls', None) => ret ls'
                                      | (ls', Some e) =>
                                          append_error_log
                                            (error_line env f (exn_msg e))
                                            (handler_log_ok env) ;;;
                                          ret ls'
                                      end) s (Ok ls') evs).
  { intros ->. apply (steps_events _ _ _ (evs ++ [])); [| by rewrite app_nil_r].
    apply (steps_bind _ _ _ _ evs _ [] Htry). apply steps_ret. }
  assert (Hsome : forall e, oe = Some e ->
            if handler_log_ok env
            then steps (r <- try_file env f ls ;;
                        match r with
                        | (ls', None) => ret ls'
                        | (ls', Some e) =>
                            append_error_log (error_line env f (exn_msg e))
                                             (handler_log_ok env) ;;;
                            ret ls'
                        end) s (Ok ls')
                       (evs ++ [EvErrorLog (error_line env f (exn_msg e))])
            else steps (r <- try_file env f ls ;;
                        match r with
                        | (ls', None) => ret ls'
                        | (ls', Some e) =>
                            append_error_log (error_line env f (exn_msg e))
                                             (handler_log_ok env) ;;;
                            ret ls'
                        end) s (Raise (OtherError "error log")) evs).
  { intros e ->. destruct (handler_log_ok env) eqn:Hh.
    - apply (steps_bind _ _ _ _ evs _ [_] Htry).
      apply (steps_bind _ _ _ tt [_] _ []); [apply steps_emit | apply steps_ret].
    - apply (steps_events _ _ _ (evs ++ [])); [| by rewrite app_nil_r].
      apply (steps_bind _ _ _ _ evs _ [] Htry).
      apply steps_bind_raise, steps_raise. }
  destruct Hcases as [(result & -> & -> & ->)
                     | [(result & ck & e & -> & -> & Hck & ->)
                       | (opens & e & -> & -> & Hopens & ->)]].
  - eexists _, _. split; [by apply Hnone |]. by constructor.
  - specialize (Hsome e eq_refl). destruct (handler_log_ok env) eqn:Hh.
    + eexists _, _. split; [exact Hsome |].
      rewrite <- !app_assoc. by apply file_saved_only.
    + eexists _, _. split; [exact Hsome |].
      apply file_crashed; [done | | done].
      apply Forall_app. split; [by repeat constructor |].
      destruct Hck as [-> | ->]; by repeat constructor.
  - specialize (Hsome e eq_refl). destruct (handler_log_ok env) eqn:Hh.
    + eexists _, _. split; [exact Hsome |].
      rewrite <- !app_assoc. by apply file_failed.
    + eexists _, _. split; [exact Hsome |].
      apply file_crashed; [done | | done].
      destruct Hopens as [-> | ->]; by repeat constructor.
Qed.

(** One iteration of the loop over a batch. *)
Lemma process_batch_cons env f rest ls s :
  process_batch env (f :: rest) ls s
  = match process_file (env f) f ls s with
    | (Ok ls', s1) => process_batch env rest ls' s1
    | (Raise e, s1) => (Raise e, s1)
    end.
Proof. done. Qed.

(** X19.  An error while one page is handled does not end the loop of the
    exam pack driver over a batch, provided the handler can append to the
    error log: whatever fails (reading the page, the requests, the appends
    to the error log in between, writing the output file or the
    checkpoint), the loop ends normally; the pages it has added to the
    checkpoint list are pages of the batch, in their order, and it has
    appended one result for each of them. *)
Theorem exam_failures_are_isolated env batch ls s :
  (forall f, f ∈ batch -> handler_log_ok (env f) = true) ->
  exists ls' saved,
    (process_batch env batch ls s).1 = Ok ls'
    /\ ls_processed_files ls' = ls_processed_files ls ++ saved
    /\ saved `sublist_of` batch
    /\ length (ls_batch_results ls') = (length (ls_batch_results ls) + length saved)%nat.
Proof.
  revert ls s. induction batch as [|f rest IH]; intros ls s Hok.
  { exists ls, []. rewrite app_nil_r. cbn. split_and!; [done | done | done | lia]. }
  rewrite process_batch_cons.
  destruct (process_file_run (env f) f ls s) as (r & evs & Hr & Hrun).
  unfold steps in Hr. rewrite Hr.
  assert (Hrest : forall g, g ∈ rest -> handler_log_ok (env g) = true)
    by (intros g Hg; apply Hok; by right).
  destruct Hrun as [pre result Hpre | pre result ck line Hpre Hck
                   | pre opens line Hpre Hopens | pre touched e Hpre Htouched Hh].
  - match goal with
    | |- context [ExamPacks.process_batch _ _ env rest ?l ?st] =>
        destruct (IH l st Hrest) as (ls' & saved & H1 & H2 & H3 & H4)
    end.
    exists ls', (f :: saved). split_and!; [exact H1 | | by apply sublist_skip |].
    + rewrite H2. cbn. by rewrite <- app_assoc.
    + rewrite H4. cbn. rewrite length_app. simpl. lia.
  - match goal with
    | |- context [ExamPacks.process_batch _ _ env rest ?l ?st] =>
        destruct (IH l st Hrest) as (ls' & saved & H1 & H2 & H3 & H4)
    end.
    exists ls', (f :: saved). split_and!; [exact H1 | | by apply sublist_skip |].
    + rewrite H2. cbn. by rewrite <- app_assoc.
    + rewrite H4. cbn. rewrite length_app. simpl. lia.
  - match goal with
    | |- context [ExamPacks.process_batch _ _ env rest ?l ?st] =>
        destruct (IH l st Hrest) as (ls' & saved & H1 & H2 & H3 & H4)
    end.
    exists ls', saved. split_and!; [exact H1 | done | by apply sublist_cons | done].
  - rewrite Hok in Hh by by left. done.
Qed.

End ExamPacksBatch.

(** ** The exam pack driver: output files before the checkpoint *)

Section ExamPacksOrdering.

Import ExamPacks.

Variable json_loads : string -> loads_outcome.
Variable manual : string -> question_data -> dict.

Local Abbreviation process_file := (ExamPacks.process_file json_loads manual).
Local Abbreviation process_batch := (ExamPacks.process_batch json_loads manual).
Local Abbreviation process_batches := (ExamPacks.process_batches json_loads manual).
Local Abbreviation run := (ExamPacks.run json_loads manual).

Lemma saved_in_app l e f : saved_in l f -> saved_in (l ++ e) f.
Proof. intros [c Hc]. exists c. apply elem_of_app. by left. Qed.

Lemma quiet_no_checkpoint_dump pre : Forall quiet pre -> Forall no_checkpoint_dump pre.
Proof. intros H. eapply Forall_impl; [exact H |]. by intros []. Qed.

(** Events that write no checkpoint may follow. *)
Lemma output_before_checkpoint_then ids0 l e :
  output_before_checkpoint ids0 l ->
  Forall no_checkpoint_dump e ->
  output_before_checkpoint ids0 (l ++ e).
Proof.
  intros Hl He pre pf post Heq f Hf.
  apply app_eq_split in Heq as [(mid & -> & ->) | (mid & -> & ->)].
  - by apply (Hl pre pf mid).
  - rewrite Forall_app, Forall_cons in He. by destruct He as (_ & [] & _).
Qed.

(** A checkpoint may follow when its identifiers are backed. *)
Lemma output_before_checkpoint_then_dump ids0 l pf :
  output_before_checkpoint ids0 l ->
  (forall f, f ∈ pf -> f ∈ ids0 \/ saved_in l f) ->
  output_before_checkpoint ids0 (l ++ [EvCheckpointDump pf]).
Proof.
  intros Hl Hpf pre pf' post Heq f Hf.
  apply app_eq_split in Heq as [(mid & -> & ->) | (mid & -> & Heq)].
  - by apply (Hl pre pf' mid).
  - destruct mid as [|x mid].
    + injection Heq as <- _. rewrite app_nil_r. by apply Hpf.
    + injection Heq as _ Heq. by destruct mid.
Qed.

Lemma backed_then ids0 pf l e :
  backed ids0 pf l -> Forall no_checkpoint_dump e -> backed ids0 pf (l ++ e).
Proof.
  intros [H1 H2] He. split; [by apply output_before_checkpoint_then |].
  intros f Hf. destruct (H2 f Hf); [by left | right; by apply saved_in_app].
Qed.

Lemma file_run_backed env f ls r evs ids0 l :
  file_run env f ls r evs ->
  backed ids0 (ls_processed_files ls) l ->
  output_before_checkpoint ids0 (l ++ evs)
  /\ forall ls', r = Ok ls' -> backed ids0 (ls_processed_files ls') (l ++ evs).
Proof.
  intros Hrun Hb.
  assert (Hgrow : forall result pre tail,
            Forall quiet pre ->
            forall g, g ∈ ls_processed_files ls ++ [f] ->
              g ∈ ids0
              \/ saved_in (l ++ pre ++ [EvOutputOpen (output_of f);
                                        EvOutputDump (output_of f) result] ++ tail) g).
  { intros result pre tail Hpre g [Hg | ->%list_elem_of_singleton]%elem_of_app.
    - destruct (proj2 Hb g Hg); [by left | right; by apply saved_in_app].
    - right. exists result. list_solver. }
  destruct Hrun as [pre result Hpre | pre result ck line Hpre Hck
                   | pre opens line Hpre Hopens | pre touched e Hpre Htouched Hh].
  - assert (Hb' : backed ids0 (ls_processed_files ls ++ [f])
                    (l ++ pre ++ [EvOutputOpen (output_of f);
                                  EvOutputDump (output_of f) result;
                                  EvCheckpointOpen;
                                  EvCheckpointDump (ls_processed_files ls ++ [f])])).
    { split; [| apply (Hgrow result pre [_; _] Hpre)].
      replace (l ++ pre ++ [EvOutputOpen (output_of f); EvOutputDump (output_of f) result;
                            EvCheckpointOpen;
                            EvCheckpointDump (ls_processed_files ls ++ [f])])
        with ((l ++ pre ++ [EvOutputOpen (output_of f);
                            EvOutputDump (output_of f) result] ++ [EvCheckpointOpen])
              ++ [EvCheckpointDump (ls_processed_files ls ++ [f])])
        by (by rewrite <- !app_assoc).
      apply output_before_checkpoint_then_dump; [| apply (Hgrow result pre [_] Hpre)].
      apply output_before_checkpoint_then; [apply Hb |].
      apply Forall_app. split; [by apply quiet_no_checkpoint_dump |].
      by repeat constructor. }
    split; [apply Hb' |]. by intros ls' [= <-].
  - assert (Hno : Forall no_checkpoint_dump
                    (pre ++ [EvOutputOpen (output_of f);
                             EvOutputDump (output_of f) result] ++ ck ++ [EvErrorLog line])).
    { rewrite !Forall_app. split_and!; [by apply quiet_no_checkpoint_dump | ..].
      - by repeat constructor.
      - destruct Hck as [-> | ->]; by repeat constructor.
      - by repeat constructor. }
    split; [by apply output_before_checkpoint_then; [apply Hb |] |].
    intros ls' [= <-]. split; [by apply output_before_checkpoint_then; [apply Hb |] |].
    apply (Hgrow result pre (ck ++ [EvErrorLog line]) Hpre).
  - assert (Hno : Forall no_checkpoint_dump (pre ++ opens ++ [EvErrorLog line])).
    { rewrite !Forall_app. split_and!; [by apply quiet_no_checkpoint_dump | ..].
      - destruct Hopens as [-> | ->]; by repeat constructor.
      - by repeat constructor. }
    split; [by apply output_before_checkpoint_then; [apply Hb |] |].
    intros ls' [= <-]. by apply backed_then.
  - split; [| done]. apply output_before_checkpoint_then; [apply Hb |].
    apply Forall_app. split; [by apply quiet_no_checkpoint_dump | done].
Qed.

Lemma process_batch_backed env batch ls s ids0 :
  backed ids0 (ls_processed_files ls) (log s) ->
  output_before_checkpoint ids0 (log (process_batch env batch ls s).2)
  /\ forall ls', (process_batch env batch ls s).1 = Ok ls' ->
       backed ids0 (ls_processed_files ls') (log (process_batch env batch ls s).2).
Proof.
  revert ls s. induction batch as [|f rest IH]; intros ls s Hb.
  { split; [apply Hb |]. by intros ls' [= <-]. }
  rewrite process_batch_cons.
  destruct (process_file_run json_loads manual (env f) f ls s) as (r & evs & Hr & Hrun).
  unfold steps in Hr. rewrite Hr.
  destruct (file_run_backed _ _ _ _ _ ids0 (log s) Hrun Hb) as [H1 H2].
  destruct r as [ls1|e]; [| by split].
  apply IH. by apply H2.
Qed.

(** The update of the aggregate file writes no checkpoint. *)
Lemma save_all_results_log all_results io s :
  exists e, log (save_all_results all_results io s).2 = log s ++ e
            /\ Forall no_checkpoint_dump e.
Proof.
  assert (Hw : forall kept s1,
            exists e, log (write_output all_results_name (JArr (all_results ++ kept)) io
                             s1).2 = log s1 ++ e
                      /\ Forall no_checkpoint_dump e).
  { intros kept s1. destruct (steps_write_output all_results_name
                                (JArr (all_results ++ kept)) io s1) as (r & e & Hr & He).
    unfold steps in Hr. rewrite Hr. exists e. split; [done |].
    destruct io; destruct He as [_ ->]; by repeat constructor. }
  assert (Hstop : exists e, log s = log s ++ e /\ Forall no_checkpoint_dump e).
  { exists []. by rewrite app_nil_r. }
  unfold save_all_results, bind, read_world. cbn [cur].
  destruct (outputs (cur s) !! all_results_name) as [[|j]|]; cbn.
  - apply Hw.
  - destruct (aggregate_entries j) as [l|e]; cbn; [| apply Hstop].
    destruct (keep_previous l _) as [kept|e']; cbn; [apply Hw | apply Hstop].
  - apply Hw.
Qed.

Lemma process_batches_backed fuel env aggregate_io i files pf all_results s ids0 :
  backed ids0 pf (log s) ->
  output_before_checkpoint ids0
    (log (process_batches fuel env aggregate_io i files pf all_results s).2).
Proof.
  revert i files pf all_results s.
  induction fuel as [|fuel IH]; intros i files pf all_results s Hb.
  { destruct files; apply Hb. }
  destruct files as [|f rest]; [apply Hb |].
  cbn [ExamPacks.process_batches]. unfold bind at 1.
  destruct (process_batch_backed env (take BATCH_SIZE (f :: rest)) (LoopState pf []) s
              ids0 Hb) as [H1 H2].
  destruct (process_batch env (take BATCH_SIZE (f :: rest)) (LoopState pf []) s)
    as [[ls|e] s1]; [| exact H1].
  specialize (H2 ls eq_refl). cbn [fst snd] in H1, H2.
  unfold bind at 1.
  destruct (save_all_results_log (all_results ++ ls_batch_results ls) (aggregate_io i) s1)
    as (e & He & Hno).
  destruct (save_all_results _ _ s1) as [[[]|e'] s2] eqn:Hsave; cbn [snd] in He.
  - apply IH. rewrite He. by apply backed_then.
  - cbn [snd]. rewrite He. apply output_before_checkpoint_then; [apply H2 | done].
Qed.

(** X20.  In the exam pack driver too, the output file of a page is written
    before the name of the page is saved in the checkpoint: in the events
    of a run, every identifier written to the checkpoint file either was
    in the checkpoint at the start or has had its output file completely
    written before, whatever fails on the way. *)
Theorem exam_output_before_checkpoint env aggregate_io dir a b lim w :
  let ids0 := match read_checkpoint (checkpoint w) with
              | Ok d => get_processed_files d
              | Raise _ => []
              end in
  output_before_checkpoint ids0 (log (run env aggregate_io dir a b lim w).2).
Proof.
  intros ids0.
  assert (Hnil : output_before_checkpoint ids0 []).
  { intros pre pf post Heq. by destruct pre. }
  unfold ExamPacks.run, process_all_files, bind at 1, read_world. cbn [cur].
  unfold bind at 1. subst ids0.
  destruct (read_checkpoint (checkpoint w)) as [d|e]; [| exact Hnil].
  cbn [ret].
  destruct (filter _ (filter _ (elements dir))) as [|f rest]; [exact Hnil |].
  unfold bind at 1.
  match goal with
  | |- context [ExamPacks.process_batches _ _ ?fuel env aggregate_io ?i ?files ?pf ?all ?s] =>
      pose proof (process_batches_backed fuel env aggregate_io i files pf all s
                    (get_processed_files d)) as H;
      destruct (ExamPacks.process_batches json_loads manual fuel env aggregate_io i files
                  pf all s) as [[r|e] s1]
  end.
  - apply H. split; [exact Hnil | by left].
  - apply H. split; [exact Hnil | by left].
Qed.

End ExamPacksOrdering.

(** ** The combination of the results: what [fix_result] returns *)

Section FixResult.

Import CombineResults.
Local Open Scope string_scope.

Lemma has_key_true k (d : dict) : has_key k d = true <-> is_Some (d !! k).
Proof. unfold has_key. by rewrite bool_decide_eq_true. Qed.

Lemma has_key_false k (d : dict) : has_key k d = false <-> d !! k = None.
Proof.
  unfold has_key. rewrite bool_decide_eq_false.
  by rewrite <- eq_None_not_Some.
Qed.

Lemma shape_empty : analysis_shape empty_analysis.
Proof.
  split.
  - intros k. unfold empty_analysis, required_keys.
    rewrite !lookup_insert_is_Some, lookup_empty, !elem_of_cons, elem_of_nil.
    split.
    + intros [->|[_ [->|[_ [->|[_ [->|[_ []%is_Some_None]]]]]]]]; auto.
    + intros [->|[->|[->|[->|[]]]]]; [by left | right; split; [done |] ..].
      * by left.
      * right. split; [done |]. by left.
      * right. split; [done |]. right. split; [done |]. by left.
  - exists empty_options. split; [done |].
    intros opt Hopt. unfold option_letters in Hopt.
    repeat (apply elem_of_cons in Hopt as [-> | Hopt]; [by eexists |]).
    by apply elem_of_nil in Hopt.
Qed.

Lemma shape_insert k v fa :
  k ∈ required_keys -> k <> "options" ->
  analysis_shape fa -> analysis_shape (<[k := v]> fa).
Proof.
  intros Hk Hne [H1 (o & Ho & Hl)]. split.
  - intros k'. rewrite lookup_insert_is_Some. split.
    + intros [<- | [_ H]]; [done | by apply H1].
    + intros H. destruct (decide (k = k')); [by left | right]. split; [done |]. by apply H1.
  - exists o. by rewrite lookup_insert_ne.
Qed.

Lemma shape_insert_options o fa :
  (forall opt, opt ∈ option_letters -> is_Some (o !! opt)) ->
  analysis_shape fa -> analysis_shape (<["options" := JObj o]> fa).
Proof.
  intros Hl [H1 _]. split.
  - intros k'. rewrite lookup_insert_is_Some. split.
    + intros [<- | [_ H]]; [unfold required_keys; repeat constructor | by apply H1].
    + intros H. destruct (decide ("options" = k')); [by left | right]. split; [done |].
      by apply H1.
  - exists o. by rewrite lookup_insert_eq.
Qed.

(** An assignment to an option does not fail and keeps the other entries. *)
Lemma shape_set_option opt v fa :
  analysis_shape fa ->
  exists fa', set_option opt v fa = Ok fa' /\ analysis_shape fa'
              /\ forall k, k <> "options" -> fa' !! k = fa !! k.
Proof.
  intros Hs. destruct (Hs) as [_ (o & Ho & Hl)].
  unfold set_option, getitem. rewrite Ho. cbn.
  eexists. split; [done |]. split.
  - apply shape_insert_options; [| done].
    intros opt' Hopt. apply lookup_insert_is_Some'. right. by apply Hl.
  - intros k Hk. by rewrite lookup_insert_ne.
Qed.

(** The option of a letter can be read. *)
Lemma shape_get_option opt fa :
  analysis_shape fa -> opt ∈ option_letters -> exists v, get_option fa opt = Ok v.
Proof.
  intros [_ (o & Ho & Hl)] Hopt. unfold get_option, getitem. rewrite Ho.
  cbn [bind_outcome py_getitem]. destruct (Hl opt Hopt) as [v ->]. by eexists.
Qed.

Lemma shape_getitem fa k :
  analysis_shape fa -> k ∈ required_keys -> exists v, fa !! k = Some v /\ getitem fa k = Ok v.
Proof.
  intros [H1 _] Hk. apply H1 in Hk as [v Hv]. exists v. unfold getitem. by rewrite Hv.
Qed.

Lemma shape_fold_options (f : dict -> string -> outcome dict) letters fa :
  (forall fa opt, analysis_shape fa ->
     forall fa', f fa opt = Ok fa' -> analysis_shape fa') ->
  analysis_shape fa ->
  forall fa', fold_outcome f letters fa = Ok fa' -> analysis_shape fa'.
Proof.
  intros Hf. revert fa. induction letters as [|opt rest IH]; intros fa Hs fa' H.
  { by injection H as <-. }
  cbn in H. destruct (f fa opt) as [fa1|e] eqn:H1; [| done].
  cbn in H. eapply IH; [| exact H]. by eapply Hf.
Qed.

Lemma shape_from_partial_json partial_json fa :
  analysis_shape fa ->
  forall fa', from_partial_json partial_json fa = Ok fa' -> analysis_shape fa'.
Proof.
  intros Hs fa'. unfold from_partial_json.
  set (fa1 := foldl _ fa key_mappings).
  assert (H1 : analysis_shape fa1).
  { subst fa1. unfold key_mappings. cbn [foldl].
    repeat match goal with
           | |- context [first_present ?l partial_json] =>
               destruct (first_present l partial_json)
           end;
      repeat (apply shape_insert; [unfold required_keys; list_solver | done |]); exact Hs. }
  clearbody fa1.
  destruct (partial_json !! "options") as [[| | | | |options]|]; try by intros [= <-].
  apply shape_fold_options; [| exact H1].
  intros fa2 opt H2 fa3. destruct (options !! opt) as [v|]; [| by intros [= <-]].
  destruct (shape_set_option opt v fa2 H2) as (fa4 & -> & H4 & _). by intros [= <-].
Qed.

Lemma shape_fix_option raw fa marker :
  analysis_shape fa ->
  forall fa', fix_option raw fa marker = Ok fa' -> analysis_shape fa'.
Proof.
  intros Hs fa'. unfold fix_option.
  destruct (get_option fa _) as [current|e]; [| done]. cbn.
  destruct (truthy current); [by intros [= <-] |].
  destruct (py_in marker raw) as [[]|e]; [| by intros [= <-] | done]. cbn.
  destruct (str_of raw) as [text|e]; [| done]. cbn.
  destruct (Py.after_first marker text) as [after|]; [| by intros [= <-]].
  destruct (shape_set_option (Py.slice marker 0 1) (JStr (Py.strip (Py.first_line after)))
              fa Hs) as (fa4 & -> & H4 & _).
  by intros [= <-].
Qed.

Ltac shape_step Hs key :=
  let v := fresh "v" in
  let Hv := fresh "Hv" in
  let Hg := fresh "Hg" in
  destruct (shape_getitem _ key Hs) as (v & Hv & Hg);
  [unfold required_keys; list_solver |];
  rewrite Hg; cbn;
  destruct (truthy v); [by intros [= <-] |];
  match goal with
  | |- context [str_of ?raw] => destruct (str_of raw) as [?|?]; [| done]
  end; cbn;
  match goal with
  | |- context [if ?b then _ else _] => destruct b
  end; [| by intros [= <-]];
  intros [= <-]; apply shape_insert; [unfold required_keys; list_solver | done | exact Hs].

Lemma shape_from_raw_response raw fa :
  analysis_shape fa ->
  forall fa', from_raw_response raw fa = Ok fa' -> analysis_shape fa'.
Proof.
  intros Hs fa'. unfold from_raw_response.
  destruct (fix_question raw fa) as [fa1|e] eqn:H1; [| done]. cbn [bind_outcome].
  assert (Hs1 : analysis_shape fa1).
  { revert H1. unfold fix_question. shape_step Hs "question". }
  destruct (fold_outcome (fix_option raw) option_markers fa1) as [fa2|e] eqn:H2; [| done].
  cbn [bind_outcome].
  assert (Hs2 : analysis_shape fa2).
  { eapply shape_fold_options; [| exact Hs1 | exact H2].
    intros fa0 opt H0 fa0'. by apply shape_fix_option. }
  destruct (fix_correct_answer raw fa2) as [fa3|e] eqn:H3; [| done]. cbn [bind_outcome].
  assert (Hs3 : analysis_shape fa3).
  { revert H3. unfold fix_correct_answer. shape_step Hs2 "correct_answer". }
  unfold fix_explanation. shape_step Hs3 "explanation".
Qed.

(** A result with an analysis of the right shape passes the check. *)
Lemma shaped_result_is_valid q u fa :
  analysis_shape fa -> is_valid_result (JObj (fixed_result q u fa)) = Ok true.
Proof.
  intros [H1 _]. unfold is_valid_result.
  assert (Ha : fixed_result q u fa !! "analysis" = Some (JObj fa)).
  { unfold fixed_result. rewrite !lookup_insert_ne by done. by rewrite lookup_insert_eq. }
  assert (Hne : truthy (JObj (fixed_result q u fa)) = true).
  { unfold truthy. apply negb_true_iff, bool_decide_eq_false.
    intros H%map_size_empty_iff. by rewrite H, lookup_empty in Ha. }
  rewrite Hne. cbn [negb py_in py_getitem].
  unfold has_key at 1. rewrite Ha, bool_decide_eq_true_2 by done.
  assert (He : has_key "error" fa = false).
  { apply has_key_false, eq_None_not_Some. intros H%H1. clear H1.
    unfold required_keys in H.
    repeat (apply elem_of_cons in H as [H|H]; [discriminate H |]).
    by apply elem_of_nil in H. }
  rewrite He. unfold required_keys, all_in, py_in.
  rewrite !(proj2 (has_key_true _ _)); [done | apply H1; unfold required_keys; repeat constructor ..].
Qed.

(** What is known when [fix_result] returns a result. *)
Lemma fix_result_inv result fixed :
  fix_result result = Ok (Some fixed) ->
  exists m analysis q u fa,
    result = JObj m
    /\ truthy result = true
    /\ m !! "question_number" = Some q
    /\ m !! "source_url" = Some u
    /\ m !! "analysis" = Some (JObj analysis)
    /\ has_key "error" analysis = true
    /\ analysis_shape fa
    /\ fixed = fixed_result q u fa.
Proof.
  unfold fix_result. destruct (truthy result) eqn:Ht; [| done]. cbn [negb].
  destruct (py_getitem result "question_number") as [q|e] eqn:Hq; [| done].
  cbn [bind_outcome].
  destruct (py_getitem result "source_url") as [u|e] eqn:Hu; [| done].
  cbn [bind_outcome].
  destruct result as [| | | | |m]; try done.
  destruct (m !! "analysis") as [[| | | | |analysis]|] eqn:Ha; try done.
  destruct (has_key "error" analysis) eqn:He; [| done].
  match goal with
  | |- context [bind_outcome ?r _] => destruct r as [fa1|e] eqn:H1; [| done]
  end.
  cbn [bind_outcome].
  assert (Hs1 : analysis_shape fa1).
  { destruct (analysis !! "partial_json") as [[| | | | |pj]|];
      try (injection H1 as <-; apply shape_empty).
    eapply shape_from_partial_json; [apply shape_empty | exact H1]. }
  match goal with
  | |- context [bind_outcome ?r _] => destruct r as [fa2|e] eqn:H2; [| done]
  end.
  cbn [bind_outcome].
  assert (Hs2 : analysis_shape fa2).
  { destruct (analysis !! "raw_response") as [raw|]; [| by injection H2 as <-].
    eapply shape_from_raw_response; [exact Hs1 | exact H2]. }
  destruct (getitem fa2 "question") as [qv|e]; [| done]. cbn [bind_outcome].
  destruct (getitem fa2 "correct_answer") as [cv|e]; [| done]. cbn [bind_outcome].
  destruct (getitem fa2 "explanation") as [ev|e]; [| done]. cbn [bind_outcome].
  destruct (truthy qv && truthy cv && truthy ev); [| done].
  intros [= <-]. exists m, analysis, q, u, fa2.
  unfold py_getitem in Hq, Hu.
  destruct (m !! "question_number"); [| done].
  destruct (m !! "source_url"); [| done].
  by simplify_eq.
Qed.

Lemma error_result_is_invalid m analysis :
  truthy (JObj m) = true ->
  m !! "analysis" = Some (JObj analysis) ->
  has_key "error" analysis = true ->
  is_valid_result (JObj m) = Ok false.
Proof.
  intros Ht Ha He. unfold is_valid_result. rewrite Ht. cbn [negb py_in py_getitem].
  unfold has_key at 1. rewrite Ha, bool_decide_eq_true_2 by done. by rewrite He.
Qed.

(** X21.  What [fix_result] returns is a valid result.  When [fix_result]
    returns a result, [is_valid_result] accepts it; the result it was given
    was not valid; and of that result it keeps the question number and the
    source, and nothing else but the analysis: the metadata are lost. *)
Theorem fixed_result_is_valid result fixed :
  fix_result result = Ok (Some fixed) ->
  is_valid_result (JObj fixed) = Ok true
  /\ is_valid_result result = Ok false
  /\ py_getitem (JObj fixed) "question_number" = py_getitem result "question_number"
  /\ py_getitem (JObj fixed) "source_url" = py_getitem result "source_url"
  /\ forall k, is_Some (fixed !! k) ->
       k ∈ ["question_number"; "source_url"; "analysis"].
Proof.
  intros (m & analysis & q & u & fa & -> & Ht & Hq & Hu & Ha & He & Hs & ->)%fix_result_inv.
  split_and!.
  - by apply shaped_result_is_valid.
  - by eapply error_result_is_invalid.
  - unfold py_getitem, fixed_result. by rewrite lookup_insert_eq, Hq.
  - unfold py_getitem, fixed_result.
    rewrite lookup_insert_ne by done. by rewrite lookup_insert_eq, Hu.
  - intros k. unfold fixed_result.
    rewrite !lookup_insert_is_Some, lookup_empty.
    intros [<-|[_ [<-|[_ [<-|[_ []%is_Some_None]]]]]]; repeat constructor.
Qed.

(** *** When [fix_result] does not fail *)

(** The loop over the letters of the options of [partial_json]. *)
Lemma copy_options_ok (options : dict) letters fa :
  analysis_shape fa ->
  exists fa',
    fold_outcome (fun fa opt => match options !! opt with
                                | Some v => set_option opt v fa
                                | None => Ok fa
                                end) letters fa = Ok fa'
    /\ analysis_shape fa'
    /\ forall k, k <> "options" -> fa' !! k = fa !! k.
Proof.
  revert fa. induction letters as [|opt rest IH]; intros fa Hs; [by exists fa |].
  cbn [fold_outcome]. destruct (options !! opt) as [v|].
  - destruct (shape_set_option opt v fa Hs) as (fa1 & -> & Hs1 & Hk1).
    cbn [bind_outcome]. destruct (IH fa1 Hs1) as (fa' & -> & Hs' & Hk').
    exists fa'. split_and!; [done | done |]. intros k Hk. by rewrite Hk', Hk1.
  - cbn [bind_outcome]. apply IH, Hs.
Qed.

(** The entries that the synonyms of [partial_json] give. *)
Local Abbreviation mapped partial_json fixed_analysis :=
  (foldl (fun fa '(target_key, possible_keys) =>
            match first_present possible_keys partial_json with
            | Some v => <[target_key := v]> fa
            | None => fa
            end)
         fixed_analysis key_mappings).

Lemma from_partial_json_ok partial_json fa :
  analysis_shape fa ->
  exists fa',
    from_partial_json partial_json fa = Ok fa'
    /\ analysis_shape fa'
    /\ forall k, k <> "options" -> fa' !! k = mapped partial_json fa !! k.
Proof.
  intros Hs. unfold from_partial_json.
  assert (H1 : analysis_shape (mapped partial_json fa)).
  { unfold key_mappings. cbn [foldl].
    repeat match goal with
           | |- context [first_present ?l partial_json] =>
               destruct (first_present l partial_json)
           end;
      repeat (apply shape_insert; [unfold required_keys; repeat constructor | done |]);
      exact Hs. }
  destruct (partial_json !! "options") as [[| | | | |options]|]; try by eexists.
  by apply copy_options_ok.
Qed.

(** The search of the text for one option. *)
Lemma fix_option_ok text fa marker :
  analysis_shape fa ->
  Py.slice marker 0 1 ∈ option_letters ->
  exists fa',
    fix_option (JStr text) fa marker = Ok fa'
    /\ analysis_shape fa'
    /\ forall k, k <> "options" -> fa' !! k = fa !! k.
Proof.
  intros Hs Hopt. unfold fix_option.
  destruct (shape_get_option _ fa Hs Hopt) as [current ->]. cbn [bind_outcome py_in str_of].
  destruct (truthy current); [by exists fa |].
  destruct (Py.contains marker text); [| by exists fa].
  destruct (Py.after_first marker text) as [after|]; [| by exists fa].
  apply shape_set_option, Hs.
Qed.

Lemma fix_options_ok text markers fa :
  analysis_shape fa ->
  Forall (fun marker => Py.slice marker 0 1 ∈ option_letters) markers ->
  exists fa',
    fold_outcome (fix_option (JStr text)) markers fa = Ok fa'
    /\ analysis_shape fa'
    /\ forall k, k <> "options" -> fa' !! k = fa !! k.
Proof.
  intros Hs Hm. revert fa Hs.
  induction Hm as [|marker rest Hmarker _ IH]; intros fa Hs; [by exists fa |].
  cbn [fold_outcome].
  destruct (fix_option_ok text fa marker Hs Hmarker) as (fa1 & -> & Hs1 & Hk1).
  cbn [bind_outcome]. destruct (IH fa1 Hs1) as (fa' & -> & Hs' & Hk').
  exists fa'. split_and!; [done | done |]. intros k Hk. by rewrite Hk', Hk1.
Qed.

Lemma option_markers_letters :
  Forall (fun marker => Py.slice marker 0 1 ∈ option_letters) option_markers.
Proof. unfold option_markers, option_letters. repeat constructor. Qed.

(** An entry that is filled is kept when another value is assigned to an
    entry that is not. *)
Lemma insert_keeps_truthy (fa : dict) key current new :
  fa !! key = Some current -> truthy current = false ->
  forall k v, fa !! k = Some v -> truthy v = true -> <[key := new]> fa !! k = Some v.
Proof.
  intros Hc Hf k v Hv Ht. destruct (decide (key = k)) as [<- | Hne].
  - rewrite Hc in Hv. injection Hv as <-. by rewrite Hf in Ht.
  - by rewrite lookup_insert_ne.
Qed.

Ltac text_step Hs key :=
  destruct (shape_getitem _ key Hs) as (current & Hcurrent & Hget);
  [unfold required_keys; repeat constructor |];
  rewrite Hget; cbn [bind_outcome str_of];
  destruct (truthy current) eqn:Hfalsy; [by eexists |];
  match goal with
  | |- context [if ?b then _ else _] => destruct b
  end; [| by eexists];
  eexists; split; [done |]; split;
  [apply shape_insert; [unfold required_keys; repeat constructor | done | exact Hs]
  | by apply (insert_keeps_truthy _ _ current)].

Lemma fix_question_ok text fa :
  analysis_shape fa ->
  exists fa', fix_question (JStr text) fa = Ok fa' /\ analysis_shape fa'
    /\ forall k v, fa !! k = Some v -> truthy v = true -> fa' !! k = Some v.
Proof. intros Hs. unfold fix_question. text_step Hs "question". Qed.

Lemma fix_correct_answer_ok text fa :
  analysis_shape fa ->
  exists fa', fix_correct_answer (JStr text) fa = Ok fa' /\ analysis_shape fa'
    /\ forall k v, fa !! k = Some v -> truthy v = true -> fa' !! k = Some v.
Proof. intros Hs. unfold fix_correct_answer. text_step Hs "correct_answer". Qed.

Lemma fix_explanation_ok text fa :
  analysis_shape fa ->
  exists fa', fix_explanation (JStr text) fa = Ok fa' /\ analysis_shape fa'
    /\ forall k v, fa !! k = Some v -> truthy v = true -> fa' !! k = Some v.
Proof. intros Hs. unfold fix_explanation. text_step Hs "explanation". Qed.

(** The search of a text does not fail, and it leaves alone the entries
    that are filled. *)
Lemma from_raw_response_ok text fa :
  analysis_shape fa ->
  exists fa',
    from_raw_response (JStr text) fa = Ok fa'
    /\ analysis_shape fa'
    /\ forall k v, k <> "options" -> fa !! k = Some v -> truthy v = true ->
                   fa' !! k = Some v.
Proof.
  intros Hs. unfold from_raw_response.
  destruct (fix_question_ok text fa Hs) as (fa1 & -> & Hs1 & H1). cbn [bind_outcome].
  destruct (fix_options_ok text option_markers fa1 Hs1 option_markers_letters)
    as (fa2 & -> & Hs2 & H2).
  cbn [bind_outcome].
  destruct (fix_correct_answer_ok text fa2 Hs2) as (fa3 & -> & Hs3 & H3).
  cbn [bind_outcome].
  destruct (fix_explanation_ok text fa3 Hs3) as (fa4 & -> & Hs4 & H4).
  exists fa4. split_and!; [done | done |].
  intros k v Hk Hv Ht. apply H4; [| done]. apply H3; [| done].
  rewrite H2 by done. by apply H1.
Qed.

(** X22.  A result is fixed from the entries of its partial answer.  When
    the analysis of a result has an error entry and a partial answer in
    which a question, a correct answer and an explanation are found under
    one of their names (the first name that is present counts), all three
    truthy, and its raw response is a text or is missing, then
    [fix_result] returns a result with just these three values, whatever
    the text holds. *)
Theorem fixed_from_partial_answer m analysis partial_json q u qv cv ev :
  m !! "question_number" = Some q ->
  m !! "source_url" = Some u ->
  m !! "analysis" = Some (JObj analysis) ->
  is_Some (analysis !! "error") ->
  analysis !! "partial_json" = Some (JObj partial_json) ->
  (forall raw, analysis !! "raw_response" = Some raw -> exists text, raw = JStr text) ->
  first_present ["question"; "prompt"; "problem"] partial_json = Some qv ->
  first_present ["correct_answer"; "answer"; "correct"; "solution"] partial_json = Some cv ->
  first_present ["explanation"; "solution"; "reasoning"; "steps"] partial_json = Some ev ->
  truthy qv = true -> truthy cv = true -> truthy ev = true ->
  exists fa,
    fix_result (JObj m) = Ok (Some (fixed_result q u fa))
    /\ fa !! "question" = Some qv
    /\ fa !! "correct_answer" = Some cv
    /\ fa !! "explanation" = Some ev.
Proof.
  intros Hq Hu Ha He Hpj Hraw Hqv Hcv Hev Htq Htc Hte.
  assert (Ht : truthy (JObj m) = true).
  { unfold truthy. apply negb_true_iff, bool_decide_eq_false.
    intros H%map_size_empty_iff. by rewrite H, lookup_empty in Ha. }
  unfold fix_result, py_getitem. rewrite Ht, Hq, Hu, Ha. cbn [negb bind_outcome].
  rewrite (proj2 (has_key_true _ _) He), Hpj.
  destruct (from_partial_json_ok partial_json empty_analysis shape_empty)
    as (fa1 & -> & Hs1 & H1).
  cbn [bind_outcome].
  assert (Hm : fa1 !! "question" = Some qv /\ fa1 !! "correct_answer" = Some cv
               /\ fa1 !! "explanation" = Some ev).
  { rewrite !H1 by done. unfold key_mappings. cbn [foldl]. rewrite Hqv, Hcv, Hev.
    split_and!.
    - rewrite !lookup_insert_ne by done. by rewrite lookup_insert_eq.
    - rewrite lookup_insert_ne by done. by rewrite lookup_insert_eq.
    - by rewrite lookup_insert_eq. }
  destruct Hm as (Hm1 & Hm2 & Hm3).
  assert (Hfa2 : exists fa2,
            match analysis !! "raw_response" with
            | Some raw_response => from_raw_response raw_response fa1
            | None => Ok fa1
            end = Ok fa2
            /\ fa2 !! "question" = Some qv /\ fa2 !! "correct_answer" = Some cv
            /\ fa2 !! "explanation" = Some ev).
  { destruct (analysis !! "raw_response") as [raw|]; [| by exists fa1].
    destruct (Hraw raw eq_refl) as [text ->].
    destruct (from_raw_response_ok text fa1 Hs1) as (fa2 & -> & _ & H2).
    exists fa2. split_and!; [done | by apply H2 ..]. }
  destruct Hfa2 as (fa2 & -> & H21 & H22 & H23). cbn [bind_outcome].
  exists fa2. unfold getitem. rewrite H21, H22, H23. cbn [bind_outcome].
  by rewrite Htq, Htc, Hte.
Qed.

(** X23.  [fix_result] does not fail on a result of the drivers.  On an
    object that has a question number and a source, and whose raw response,
    if the analysis has one, is a text, [fix_result] ends without
    exception. *)
Theorem fix_result_does_not_fail m :
  is_Some (m !! "question_number") ->
  is_Some (m !! "source_url") ->
  (forall analysis raw,
      m !! "analysis" = Some (JObj analysis) ->
      analysis !! "raw_response" = Some raw -> exists text, raw = JStr text) ->
  exists r, fix_result (JObj m) = Ok r.
Proof.
  intros [q Hq] [u Hu] Hraw. unfold fix_result, py_getitem.
  destruct (truthy (JObj m)); [| by eexists]. rewrite Hq, Hu. cbn [negb bind_outcome].
  destruct (m !! "analysis") as [[| | | | |analysis]|] eqn:Ha; try by eexists.
  destruct (has_key "error" analysis); [| by eexists].
  assert (H1 : exists fa1,
            match analysis !! "partial_json" with
            | Some (JObj partial_json) => from_partial_json partial_json empty_analysis
            | _ => Ok empty_analysis
            end = Ok fa1 /\ analysis_shape fa1).
  { destruct (analysis !! "partial_json") as [[| | | | |pj]|];
      try (exists empty_analysis; split; [done | apply shape_empty]).
    destruct (from_partial_json_ok pj empty_analysis shape_empty) as (fa1 & -> & Hs1 & _).
    by exists fa1. }
  destruct H1 as (fa1 & -> & Hs1). cbn [bind_outcome].
  assert (H2 : exists fa2,
            match analysis !! "raw_response" with
            | Some raw_response => from_raw_response raw_response fa1
            | None => Ok fa1
            end = Ok fa2 /\ analysis_shape fa2).
  { destruct (analysis !! "raw_response") as [raw|] eqn:Hr; [| by exists fa1].
    destruct (Hraw analysis raw eq_refl Hr) as [text ->].
    destruct (from_raw_response_ok text fa1 Hs1) as (fa2 & -> & Hs2 & _). by exists fa2. }
  destruct H2 as (fa2 & -> & Hs2). cbn [bind_outcome].
  destruct (shape_getitem fa2 "question" Hs2) as (qv & _ & ->);
    [unfold required_keys; repeat constructor |].
  destruct (shape_getitem fa2 "correct_answer" Hs2) as (cv & _ & ->);
    [unfold required_keys; repeat constructor |].
  destruct (shape_getitem fa2 "explanation" Hs2) as (ev & _ & ->);
    [unfold required_keys; repeat constructor |].
  cbn [bind_outcome]. destruct (truthy qv && truthy cv && truthy ev); by eexists.
Qed.

End FixResult.

(** ** The combination of the results: [process_results] *)

Section ProcessResults.

Import CombineResults.
Local Open Scope string_scope.

Variable py_repr : json -> string.

Local Abbreviation process_files := (CombineResults.process_files py_repr).
Local Abbreviation process_results := (CombineResults.process_results py_repr).
Local Abbreviation final_name := (CombineResults.final_name py_repr).

Lemma final_name_not_aggregate q : final_name q <> all_questions_name.
Proof. unfold CombineResults.final_name, all_questions_name. by rewrite append_cons. Qed.

(** The events of a write in the final directory. *)
Lemma write_final_log name content io s :
  match write_output name content io s with
  | (Ok _, s') => log s' = (log s ++ [EvOutputOpen name; EvOutputDump name content])%list
  | (Raise _, s') =>
      exists e, log s' = (log s ++ e)%list /\ (e = [] \/ e = [EvOutputOpen name])
  end.
Proof.
  destruct (steps_write_output name content io s) as (r & e & Hr & He).
  unfold steps in Hr. rewrite Hr.
  destruct io; destruct He as [-> ->]; cbn; eauto.
Qed.

(** One turn of the loop over the files. *)
Lemma process_files_cons io file rest acc s :
  process_files io (file :: rest) acc s =
  match load_json_file file with
  | Raise e => (Raise e, s)
  | Ok result =>
      match is_valid_result result with
      | Raise e => (Raise e, s)
      | Ok true =>
          match py_getitem result "question_number" with
          | Raise e => (Raise e, s)
          | Ok q =>
              match write_output (final_name q) result (io (final_name q)) s with
              | (Ok _, s1) => process_files io rest (acc ++ [result])%list s1
              | (Raise e, s1) => (Raise e, s1)
              end
          end
      | Ok false =>
          match fix_result result with
          | Raise e => (Raise e, s)
          | Ok None => process_files io rest acc s
          | Ok (Some fixed) =>
              if truthy (JObj fixed) then
                match getitem fixed "question_number" with
                | Raise e => (Raise e, s)
                | Ok q =>
                    match write_output (final_name q) (JObj fixed) (io (final_name q)) s with
                    | (Ok _, s1) => process_files io rest (acc ++ [JObj fixed])%list s1
                    | (Raise e, s1) => (Raise e, s1)
                    end
                end
              else process_files io rest acc s
          end
      end
  end.
Proof.
  cbn [CombineResults.process_files]. unfold bind, lift, ret, raise.
  destruct (load_json_file file) as [result|e]; [| done].
  destruct (is_valid_result result) as [[]|e]; [| | done].
  - destruct (py_getitem result "question_number") as [q|e]; [| done].
    by destruct (write_output _ _ _ s) as [[[]|e] s1].
  - destruct (fix_result result) as [[fixed|]|e]; [| done | done].
    destruct (truthy (JObj fixed)); [| done].
    destruct (getitem fixed "question_number") as [q|e]; [| done].
    by destruct (write_output _ _ _ s) as [[[]|e] s1].
Qed.

(** No turn of the loop writes the aggregate. *)
Lemma process_files_log io files acc s :
  exists pre,
    log (process_files io files acc s).2 = (log s ++ pre)%list
    /\ Forall (fun e => forall c, e <> EvOutputDump all_questions_name c) pre.
Proof.
  assert (Hstop : forall s : state,
            exists pre, log s = (log s ++ pre)%list
              /\ Forall (fun e => forall c, e <> EvOutputDump all_questions_name c) pre).
  { intros s0. exists []. by rewrite app_nil_r. }
  assert (Hwrite : forall q content (k : state -> outcome (list json) * state) s0,
            (forall s1, exists pre,
                log (k s1).2 = (log s1 ++ pre)%list
                /\ Forall (fun e => forall c, e <> EvOutputDump all_questions_name c) pre) ->
            exists pre,
              log (match write_output (final_name q) content (io (final_name q)) s0 with
                   | (Ok _, s1) => k s1
                   | (Raise e, s1) => (Raise e, s1)
                   end).2 = (log s0 ++ pre)%list
              /\ Forall (fun e => forall c, e <> EvOutputDump all_questions_name c) pre).
  { intros q content k s0 Hk.
    pose proof (write_final_log (final_name q) content (io (final_name q)) s0) as Hw.
    destruct (write_output _ _ _ s0) as [[[]|e] s1].
    - destruct (Hk s1) as (pre & -> & Hpre). rewrite Hw, <- app_assoc.
      eexists. split; [done |].
      apply Forall_cons. split; [done |]. apply Forall_cons. split; [| done].
      intros c H. apply (final_name_not_aggregate q). congruence.
    - cbn [snd]. destruct Hw as (e' & -> & He'). exists e'. split; [done |].
      destruct He' as [-> | ->]; by repeat constructor. }
  revert acc s. induction files as [|file rest IH]; intros acc s; [apply Hstop |].
  rewrite process_files_cons.
  destruct (load_json_file file) as [result|e]; [| apply Hstop].
  destruct (is_valid_result result) as [[]|e]; [| | apply Hstop].
  - destruct (py_getitem result "question_number") as [q|e]; [| apply Hstop].
    apply Hwrite. intros s1. apply IH.
  - destruct (fix_result result) as [[fixed|]|e]; [| apply IH | apply Hstop].
    destruct (truthy (JObj fixed)); [| apply IH].
    destruct (getitem fixed "question_number") as [q|e]; [| apply Hstop].
    apply Hwrite. intros s1. apply IH.
Qed.

(** What the loop has done when it ends without exception. *)
Lemma process_files_ok io files acc s rs s' :
  process_files io files acc s = (Ok rs, s') ->
  exists new pre,
    rs = (acc ++ new)%list
    /\ Forall (fun r => is_valid_result r = Ok true) new
    /\ (length new <= length files)%nat
    /\ log s' = (log s ++ pre)%list
    /\ Forall (fun r => exists q, py_getitem r "question_number" = Ok q
                                  /\ EvOutputDump (final_name q) r ∈ pre) new.
Proof.
  revert acc s. induction files as [|file rest IH]; intros acc s H.
  { injection H as <- <-. exists [], []. by rewrite !app_nil_r. }
  rewrite process_files_cons in H.
  assert (Hskip : process_files io rest acc s = (Ok rs, s') ->
            exists new pre,
              rs = (acc ++ new)%list
              /\ Forall (fun r => is_valid_result r = Ok true) new
              /\ (length new <= length (file :: rest))%nat
              /\ log s' = (log s ++ pre)%list
              /\ Forall (fun r => exists q, py_getitem r "question_number" = Ok q
                                            /\ EvOutputDump (final_name q) r ∈ pre) new).
  { intros (new & pre & H1 & H2 & H3 & H4 & H5)%IH. exists new, pre.
    split_and!; try done. cbn [length]. lia. }
  assert (Hkeep : forall r q,
            is_valid_result r = Ok true ->
            py_getitem r "question_number" = Ok q ->
            match write_output (final_name q) r (io (final_name q)) s with
            | (Ok _, s1) => process_files io rest (acc ++ [r])%list s1
            | (Raise e, s1) => (Raise e, s1)
            end = (Ok rs, s') ->
            exists new pre,
              rs = (acc ++ new)%list
              /\ Forall (fun r => is_valid_result r = Ok true) new
              /\ (length new <= length (file :: rest))%nat
              /\ log s' = (log s ++ pre)%list
              /\ Forall (fun r => exists q, py_getitem r "question_number" = Ok q
                                            /\ EvOutputDump (final_name q) r ∈ pre) new).
  { intros r q Hv Hq Hrun.
    pose proof (write_final_log (final_name q) r (io (final_name q)) s) as Hw.
    destruct (write_output _ _ _ s) as [[[]|e] s1]; [| done].
    apply IH in Hrun as (new & pre & H1 & H2 & H3 & H4 & H5).
    exists (r :: new), ([EvOutputOpen (final_name q); EvOutputDump (final_name q) r] ++ pre)%list.
    split_and!.
    - by rewrite H1, <- app_assoc.
    - by constructor.
    - cbn [length]. lia.
    - by rewrite H4, Hw, <- !app_assoc.
    - constructor.
      + exists q. split; [done |]. apply elem_of_app. left. repeat constructor.
      + eapply Forall_impl; [exact H5 |]. intros r' (q' & Hq' & Hin). exists q'.
        split; [done |]. apply elem_of_app. by right. }
  destruct (load_json_file file) as [result|e]; [| done].
  destruct (is_valid_result result) as [[]|e] eqn:Hv; [| | done].
  - destruct (py_getitem result "question_number") as [q|e] eqn:Hq; [| done].
    by apply (Hkeep result q).
  - destruct (fix_result result) as [[fixed|]|e] eqn:Hf; [| by apply Hskip | done].
    destruct (truthy (JObj fixed)); [| by apply Hskip].
    destruct (getitem fixed "question_number") as [q|e] eqn:Hq; [| done].
    apply fix_result_inv in Hf
      as (m & analysis & q0 & u & fa & -> & Ht & Hq0 & Hu & Ha & He & Hs & ->).
    apply (Hkeep (JObj (fixed_result q0 u fa)) q);
      [by apply shaped_result_is_valid | | done].
    unfold getitem in Hq. unfold py_getitem.
    by destruct (fixed_result q0 u fa !! "question_number").
Qed.

(** X24.  The combination holds valid results only.  When [process_results]
    ends without exception, every result it returns passes
    [is_valid_result], has a question number and has been written to the
    file of the final directory that is named after this number; there is
    at most one result for each file read; and the last the run does is
    to write the list of these results to all_questions.json. *)
Theorem combined_results_are_valid io json_files s rs s' :
  process_results io json_files s = (Ok rs, s') ->
  exists pre,
    log s' = (log s ++ pre ++ [EvOutputOpen all_questions_name;
                               EvOutputDump all_questions_name (JArr rs)])%list
    /\ Forall (fun r => is_valid_result r = Ok true
                        /\ exists q, py_getitem r "question_number" = Ok q
                                     /\ EvOutputDump (final_name q) r ∈ pre) rs
    /\ (length rs <= length json_files)%nat.
Proof.
  unfold CombineResults.process_results, bind, ret.
  destruct (process_files io json_files [] s) as [[rs0|e] s1] eqn:H; [| done].
  apply process_files_ok in H as (new & pre & H1 & H2 & H3 & H4 & H5).
  cbn [app] in H1. subst new.
  pose proof (write_final_log all_questions_name (JArr rs0) (io all_questions_name) s1) as Hw.
  destruct (write_output _ _ _ s1) as [[[]|e] s2]; [| done].
  intros [= <- <-]. exists pre. split_and!.
  - by rewrite Hw, H4, <- app_assoc.
  - apply Forall_and. by split.
  - done.
Qed.

(** X25.  A file that cannot be used ends the combination.  When one of the
    files cannot be read, or holds a value that is not falsy and has no
    question number (an object without this entry, a list, a string, a
    number), [process_results] ends with an exception and never writes
    all_questions.json, whatever the other files hold. *)
Theorem unusable_file_ends_combination io json_files s file :
  file ∈ json_files ->
  stops_combination file ->
  exists e pre,
    (process_results io json_files s).1 = Raise e
    /\ log (process_results io json_files s).2 = (log s ++ pre)%list
    /\ forall c, EvOutputDump all_questions_name c ∉ pre.
Proof.
  intros Hin Hstop.
  assert (H : forall acc s0, exists e, (process_files io json_files acc s0).1 = Raise e).
  { induction json_files as [|f rest IH]; [by apply elem_of_nil in Hin |].
    intros acc s0. rewrite process_files_cons.
    apply elem_of_cons in Hin as [<- | Hin].
    - destruct file as [|msg| |j]; try done; cbn [load_json_file]; [by eexists |].
      destruct Hstop as [Ht Hq].
      assert (Hno : exists e, py_getitem j "question_number" = Raise e).
      { unfold py_getitem. destruct j as [| | | | |m]; try by eexists.
        rewrite (Hq m eq_refl). by eexists. }
      destruct Hno as [e Hno].
      destruct (is_valid_result j) as [[]|e']; [| | by eexists].
      + rewrite Hno. by eexists.
      + unfold fix_result. rewrite Ht, Hno. by eexists.
    - destruct (load_json_file f) as [result|e]; [| by eexists].
      destruct (is_valid_result result) as [[]|e]; [| | by eexists].
      + destruct (py_getitem result "question_number") as [q|e]; [| by eexists].
        destruct (write_output _ _ _ s0) as [[[]|e] s1]; [by apply IH | by eexists].
      + destruct (fix_result result) as [[fixed|]|e]; [| by apply IH | by eexists].
        destruct (truthy (JObj fixed)); [| by apply IH].
        destruct (getitem fixed "question_number") as [q|e]; [| by eexists].
        destruct (write_output _ _ _ s0) as [[[]|e] s1]; [by apply IH | by eexists]. }
  destruct (H [] s) as [e He].
  destruct (process_files_log io json_files [] s) as (pre & Hlog & Hpre).
  exists e, pre. unfold CombineResults.process_results, bind.
  destruct (process_files io json_files [] s) as [[rs|e'] s1]; [done |].
  cbn [fst snd] in *. split_and!; [done | done |].
  intros c Hc. rewrite Forall_forall in Hpre. by apply (Hpre _ Hc c).
Qed.

Lemma all_in_missing keys key (analysis : dict) :
  key ∈ keys -> analysis !! key = None -> all_in keys (JObj analysis) = Ok false.
Proof.
  intros Hin Hnone. induction keys as [|k rest IH]; [by apply elem_of_nil in Hin |].
  cbn [all_in py_in]. destruct (has_key k analysis) eqn:Hk; [| done].
  apply elem_of_cons in Hin as [-> | Hin]; [| by apply IH].
  apply has_key_true in Hk. rewrite Hnone in Hk. by destruct Hk.
Qed.

Lemma left_out_turn file :
  left_out file ->
  exists j, load_json_file file = Ok j
            /\ is_valid_result j = Ok false
            /\ fix_result j = Ok None.
Proof.
  intros [| | j Hj | m analysis key [q Hq] [u Hu] Ha He Hkey Hnone].
  - exists JNull. by split_and!.
  - exists JNull. by split_and!.
  - exists j. unfold is_valid_result, fix_result. by rewrite Hj.
  - exists (JObj m).
    assert (Ht : truthy (JObj m) = true).
    { unfold truthy. apply negb_true_iff, bool_decide_eq_false.
      intros H%map_size_empty_iff. by rewrite H, lookup_empty in Ha. }
    assert (Herr : has_key "error" analysis = false) by by apply has_key_false.
    split_and!; [done | |].
    + unfold is_valid_result. rewrite Ht. cbn [negb py_in py_getitem].
      unfold has_key at 1. rewrite Ha, bool_decide_eq_true_2 by done.
      rewrite Herr. by apply (all_in_missing _ key).
    + unfold fix_result, py_getitem. rewrite Ht, Hq, Hu, Ha. cbn [negb bind_outcome].
      by rewrite Herr.
Qed.

Lemma process_files_left_out io pre file post acc s :
  left_out file ->
  process_files io (pre ++ file :: post)%list acc s
  = process_files io (pre ++ post)%list acc s.
Proof.
  intros (j & Hj & Hv & Hf)%left_out_turn. revert acc s.
  induction pre as [|f rest IH]; intros acc s.
  { cbn [app]. by rewrite process_files_cons, Hj, Hv, Hf. }
  cbn [app]. rewrite !process_files_cons.
  destruct (load_json_file f) as [result|e]; [| done].
  destruct (is_valid_result result) as [[]|e]; [| | done].
  - destruct (py_getitem result "question_number") as [q|e]; [| done].
    by destruct (write_output _ _ _ s) as [[[]|e] s1].
  - destruct (fix_result result) as [[fixed|]|e]; [| done | done].
    destruct (truthy (JObj fixed)); [| done].
    destruct (getitem fixed "question_number") as [q|e]; [| done].
    by destruct (write_output _ _ _ s) as [[[]|e] s1].
Qed.

(** X26.  What [process_results] passes over in silence.  A file that is
    missing or does not parse, that holds a falsy value (null, an empty
    object), or that holds a result whose analysis has no error entry and
    lacks one of the four required entries, has no influence on the
    combination: the run is the same as without this file. *)
Theorem left_out_file_changes_nothing io pre file post s :
  left_out file ->
  process_results io (pre ++ file :: post)%list s
  = process_results io (pre ++ post)%list s.
Proof.
  intros H. unfold CombineResults.process_results, bind.
  by rewrite process_files_left_out.
Qed.

End ProcessResults.

(** ** The exam pack driver: the aggregate file *)

Section ExamAggregate.

Import ExamPacks.
Local Open Scope string_scope.

Lemma plain_entry_kept r existing :
  plain_entry r ->
  exists v, entry_question_number r = Ok v
            /\ not_in_numbers v existing = Ok (bool_decide (kept_entry existing r)).
Proof.
  destruct r as [| | | | |m]; try done. intros Hr. exists (m !! "question_number").
  split; [done |]. unfold plain_entry in Hr.
  destruct (m !! "question_number") as [[|b|z|n|l|o]|] eqn:Hq; try done;
    cbn [not_in_numbers]; apply (f_equal Ok);
    try (symmetry; apply bool_decide_eq_true_2; unfold kept_entry; by rewrite Hq).
  apply bool_decide_ext. unfold kept_entry. by rewrite Hq.
Qed.

Lemma keep_previous_plain prev existing :
  Forall plain_entry prev ->
  keep_previous prev existing = Ok (filter (kept_entry existing) prev).
Proof.
  induction 1 as [|r rest Hr _ IH]; [done |].
  cbn [keep_previous]. rewrite IH, filter_cons.
  destruct (plain_entry_kept r existing Hr) as (v & -> & ->).
  destruct (decide (kept_entry existing r)).
  - by rewrite bool_decide_eq_true_2.
  - by rewrite bool_decide_eq_false_2.
Qed.

Lemma keep_previous_not_plain prev existing :
  Exists (fun r => ~ plain_entry r) prev ->
  exists e, keep_previous prev existing = Raise e.
Proof.
  induction 1 as [r rest Hr | r rest _ IH].
  - cbn [keep_previous]. destruct r as [| | | | |m]; try by eexists.
    cbn [entry_question_number]. unfold plain_entry in Hr.
    destruct (m !! "question_number") as [[|b|z|n|l|o]|]; try (by destruct Hr);
      by eexists.
  - cbn [keep_previous]. destruct IH as [e ->].
    destruct (entry_question_number r) as [v|]; [| by eexists].
    destruct (not_in_numbers v existing); by eexists.
Qed.

Lemma save_all_results_steps all_results previous s :
  match outputs (cur s) !! all_results_name with
  | Some (Complete j) => j = JArr previous /\ Forall plain_entry previous
  | _ => previous = []
  end ->
  steps (save_all_results all_results IoOk) s (Ok tt)
    [EvOutputOpen all_results_name;
     EvOutputDump all_results_name
       (JArr (all_results
              ++ filter (kept_entry (all_results ≫= result_question_number)) previous))].
Proof.
  intros H. unfold steps, save_all_results, bind, read_world.
  assert (Hprev : match outputs (cur s) !! all_results_name with
                  | None => ret []
                  | Some Truncated => ret []
                  | Some (Complete j) =>
                      match aggregate_entries j with
                      | Ok l => ret l
                      | Raise e => raise e
                      end
                  end s = (Ok previous, s)).
  { destruct (outputs (cur s) !! all_results_name) as [[|j]|]; try by subst.
    by destruct H as [-> _]. }
  rewrite Hprev. rewrite keep_previous_plain.
  - cbn [ret].
    destruct (steps_write_output all_results_name
                (JArr (all_results
                       ++ filter (kept_entry (all_results ≫= result_question_number))
                            previous)) IoOk s) as (r & evs & Hw & -> & ->).
    exact Hw.
  - destruct (outputs (cur s) !! all_results_name) as [[|j]|]; try by subst.
    by destruct H.
Qed.


Lemma numbered_plain r : numbered r -> plain_entry r.
Proof. intros (m & n & -> & Hn). unfold plain_entry. by rewrite Hn. Qed.

Lemma kept_entry_mono existing more r :
  kept_entry (existing ++ more)%list r -> kept_entry existing r.
Proof.
  unfold kept_entry. destruct r as [| | | | |m]; try done.
  destruct (m !! "question_number") as [[|b|z|n|l|o]|]; try done.
  intros H Hin. apply H, elem_of_app. by left.
Qed.

Lemma result_question_number_in r rs :
  r ∈ rs -> forall n, n ∈ result_question_number r -> n ∈ rs ≫= result_question_number.
Proof. intros Hr n Hn. apply list_elem_of_bind. by exists r. Qed.

Lemma numbered_all_dropped rs existing :
  Forall (fun r => forall n, n ∈ result_question_number r -> n ∈ existing) rs ->
  Forall numbered rs ->
  filter (kept_entry existing) rs = [].
Proof.
  induction 1 as [|r rest Hr _ IH]; [done |]. intros [Hn Hrest]%Forall_cons.
  rewrite filter_cons_False; [by apply IH |].
  destruct Hn as (m & n & -> & Hq). unfold kept_entry. rewrite Hq.
  intros H. apply H, Hr. unfold result_question_number. rewrite Hq. by left.
Qed.

(** The entries that a second update keeps of what the first has
    written. *)
Lemma filter_after_update rs1 rs2 previous :
  Forall numbered rs1 ->
  filter (kept_entry ((rs1 ++ rs2)%list ≫= result_question_number))
    (rs1 ++ filter (kept_entry (rs1 ≫= result_question_number)) previous)%list
  = filter (kept_entry ((rs1 ++ rs2)%list ≫= result_question_number)) previous.
Proof.
  intros Hn. rewrite filter_app, numbered_all_dropped; [| | done].
  - cbn [app]. apply list_filter_filter_l. intros r H.
    rewrite bind_app in H. by apply kept_entry_mono in H.
  - apply Forall_forall. intros r Hr n Hin.
    apply (result_question_number_in r); [| done]. apply elem_of_app. by left.
Qed.

(** X27.  The update of the aggregate file.  When the file does not exist
    or does not parse, the update writes the results of the run; when it
    holds a list of objects, the update writes the results of the run
    followed by the entries of this list whose question number is none of
    theirs, in the order they had; an entry without question number
    stays. *)
Theorem aggregate_is_updated all_results previous s :
  match outputs (cur s) !! all_results_name with
  | Some (Complete j) => j = JArr previous /\ Forall plain_entry previous
  | _ => previous = []
  end ->
  steps (save_all_results all_results IoOk) s (Ok tt)
    [EvOutputOpen all_results_name;
     EvOutputDump all_results_name
       (JArr (all_results
              ++ filter (kept_entry (all_results ≫= result_question_number)) previous))].
Proof. apply save_all_results_steps. Qed.

(** X28.  The updates of the aggregate file after the batches add up.
    When the results of the first batch are written and then those of the
    first two, the file holds in the end what one update with the results
    of both batches would have written: the results of the first batch are
    there once. *)
Theorem aggregate_updates_add_up rs1 rs2 previous s :
  match outputs (cur s) !! all_results_name with
  | Some (Complete j) => j = JArr previous /\ Forall plain_entry previous
  | _ => previous = []
  end ->
  Forall numbered rs1 ->
  steps (save_all_results rs1 IoOk ;;; save_all_results (rs1 ++ rs2)%list IoOk) s (Ok tt)
    [EvOutputOpen all_results_name;
     EvOutputDump all_results_name
       (JArr (rs1 ++ filter (kept_entry (rs1 ≫= result_question_number)) previous));
     EvOutputOpen all_results_name;
     EvOutputDump all_results_name
       (JArr ((rs1 ++ rs2)
              ++ filter (kept_entry ((rs1 ++ rs2)%list ≫= result_question_number))
                   previous))].
Proof.
  intros H Hn.
  apply (steps_bind _ _ _ tt [_; _] _ [_; _]); [by apply save_all_results_steps |].
  rewrite <- (filter_after_update rs1 rs2 previous Hn).
  apply save_all_results_steps. cbn [world_after foldl apply_event outputs cur].
  rewrite lookup_insert_eq. split; [done |].
  apply Forall_app. split.
  - eapply Forall_impl; [exact Hn |]. apply numbered_plain.
  - apply Forall_forall. intros r [_ Hr]%list_elem_of_filter.
    destruct (outputs (cur s) !! all_results_name) as [[|j]|]; try (subst; by inversion Hr).
    destruct H as [_ H]. rewrite Forall_forall in H. by apply H.
Qed.

(** X29.  A list in the aggregate file that the update cannot work on ends
    the run.  When the aggregate file holds a list with an entry that is
    not an object, or an object whose question number is a list or an
    object, the update ends with an exception before it touches the
    file. *)
Theorem odd_aggregate_stops_the_update all_results io previous s :
  outputs (cur s) !! all_results_name = Some (Complete (JArr previous)) ->
  Exists (fun r => ~ plain_entry r) previous ->
  exists e, save_all_results all_results io s = (Raise e, s).
Proof.
  intros H Hodd. unfold save_all_results, bind, read_world. rewrite H.
  cbn [aggregate_entries ret].
  destruct (keep_previous_not_plain previous (all_results ≫= result_question_number) Hodd)
    as [e ->].
  by exists e.
Qed.

End ExamAggregate.

(** ** From the exam pack driver to the combination *)

Section ExamToCombination.

Local Open Scope string_scope.

Variable json_loads : string -> loads_outcome.
Variable manual : string -> question_data -> dict.

Local Abbreviation parse_response := (ExamPacks.parse_response json_loads manual).

Lemma exam_result_valid qd (response : dict) :
  (has_key "error" response = false ->
   forall k, k ∈ CombineResults.required_keys -> is_Some (response !! k)) ->
  CombineResults.is_valid_result (ExamPacks.combined_result qd response)
  = Ok (negb (has_key "error" response)).
Proof.
  intros Hkeys. unfold CombineResults.is_valid_result, ExamPacks.combined_result.
  assert (Ha : (<["question_number" := JStr (question_number qd)]>
                  (<["source_url" := JStr (source_url qd)]>
                     (<["metadata" := JObj (metadata qd)]>
                        (<["analysis" := JObj response]> (∅ : dict)))))
                 !! "analysis" = Some (JObj response)).
  { rewrite !lookup_insert_ne by done. by rewrite lookup_insert_eq. }
  match goal with
  | |- context [CombineResults.truthy ?r] =>
      assert (Hne : CombineResults.truthy r = true)
  end.
  { unfold CombineResults.truthy. apply negb_true_iff, bool_decide_eq_false.
    intros H%map_size_empty_iff. by rewrite H, lookup_empty in Ha. }
  rewrite Hne. cbn [negb CombineResults.py_in CombineResults.py_getitem].
  unfold has_key at 1. rewrite Ha, bool_decide_eq_true_2 by done.
  destruct (has_key "error" response) eqn:He; [done |]. cbn [negb].
  specialize (Hkeys eq_refl).
  unfold CombineResults.required_keys, CombineResults.all_in, CombineResults.py_in.
  rewrite !(proj2 (has_key_true _ _));
    [done | apply Hkeys; unfold CombineResults.required_keys; repeat constructor ..].
Qed.

(** X30.  What the combination makes of the results of the exam pack
    driver.  The result that the driver saves for an answer of the service
    passes [is_valid_result] exactly when its analysis has no error
    entry. *)
Theorem exam_result_validity text qd :
  CombineResults.is_valid_result
    (ExamPacks.combined_result qd (parse_response text qd))
  = Ok (negb (has_key "error" (parse_response text qd))).
Proof.
  apply exam_result_valid. unfold ExamPacks.parse_response.
  assert (Herr : forall msg (d : dict),
            has_key "error" (<["error" := JStr msg]> d) = false ->
            forall k, k ∈ CombineResults.required_keys ->
                      is_Some ((<["error" := JStr msg]> d) !! k)).
  { intros msg d H. apply has_key_false in H. by rewrite lookup_insert_eq in H. }
  destruct (_ && _); [| apply Herr].
  destruct (json_loads _) as [parsed|msg|msg]; [| apply Herr ..].
  destruct (forallb _ _) eqn:Hall; [| apply Herr].
  intros _ k Hk. rewrite forallb_forall in Hall.
  apply has_key_true, Hall. apply list_elem_of_In.
  unfold CombineResults.required_keys in Hk. unfold ExamPacks.required_keys.
  repeat (apply elem_of_cons in Hk as [-> | Hk]; [repeat constructor |]).
  by apply elem_of_nil in Hk.
Qed.

End ExamToCombination.

(** ** The sequential driver: an item that ended as an error is attempted again *)

Section SequentialRetryLater.

Import Sequential.

Variable json_loads : string -> loads_outcome.
Variable py_repr : json -> string.

Local Abbreviation generate_response := (Sequential.generate_response json_loads).
Local Abbreviation process_file_sequentially :=
  (Sequential.process_file_sequentially json_loads py_repr).
Local Abbreviation process_loop := (Sequential.process_loop json_loads py_repr).
Local Abbreviation run := (Sequential.run json_loads py_repr).

Lemma attempted_app env f pre evs post :
  attempted env f evs -> attempted env f (pre ++ evs ++ post).
Proof.
  unfold attempted. destruct (html env); intros H; apply elem_of_app; right;
    apply elem_of_app; by left.
Qed.

(** A call for a file that is not in the checkpoint list and that does not
    end with an exception has attempted the file. *)
Lemma process_file_sequentially_attempted env f pf s r s1 :
  f ∉ pf ->
  process_file_sequentially env f pf s = (Ok r, s1) ->
  exists evs, log s1 = log s ++ evs /\ attempted env f evs.
Proof.
  intros Hin. unfold attempted. destruct (html env) as [p|e] eqn:Hhtml.
  - destruct (generate_response_outcome json_loads (service env) (load_html_file f p) s
                (S MAX_RETRIES) 0 eq_refl) as (r' & n & Hn & Hgen & _ & _).
    { intros j Hj. lia. }
    rewrite (process_file_sequentially_attempts json_loads py_repr env f pf s p r' _
               Hin Hhtml Hgen).
    assert (Hreq : EvRequest (question_number (load_html_file f p)) 0
                   ∈ requests_from (load_html_file f p) 0 n).
    { destruct n as [|n]; [lia |]. rewrite requests_from_cons. by left. }
    unfold try_except, bind, append_error_log, save_result, write_output, emit, ret, raise.
    destruct r' as [result|e].
    + destruct (result !! "error"%string) as [err|].
      * destruct (error_log_ok env), (handler_log_ok env); cbn;
          intros [= <- <-]; cbn [log]; eexists;
          (split; [rewrite <- ?app_assoc; reflexivity |]);
          first [exact Hreq | apply elem_of_app; left; exact Hreq].
      * destruct (save_result_io env), (handler_log_ok env); cbn;
          intros [= <- <-]; cbn [log]; eexists;
          (split; [rewrite <- ?app_assoc; reflexivity |]);
          first [exact Hreq | apply elem_of_app; left; exact Hreq].
    + destruct (handler_log_ok env); cbn; intros [= <- <-]; cbn [log]; eexists;
        (split; [rewrite <- ?app_assoc; reflexivity |]);
        first [exact Hreq | apply elem_of_app; left; exact Hreq].
  - unfold Sequential.process_file_sequentially.
    rewrite bool_decide_eq_false_2 by done. rewrite Hhtml.
    unfold try_except, bind, append_error_log, emit, ret, raise.
    destruct (handler_log_ok env); cbn; intros [= <- <-]; cbn [log].
    eexists. split; [done |]. by left.
Qed.

(** Every file of the list that is not in the checkpoint list is attempted
    by a loop that ends without exception. *)
Lemma process_loop_attempted env files acc s stats s' :
  process_loop env files acc s = (Ok stats, s') ->
  exists evs,
    log s' = log s ++ evs
    /\ forall f, f ∈ files -> f ∉ processed_files acc -> attempted (env f) f evs.
Proof.
  revert acc s. induction files as [|g rest IH]; intros acc s Hrun.
  { injection Hrun as <- <-. exists []. split; [by rewrite app_nil_r |].
    intros f Hf. by apply elem_of_nil in Hf. }
  rewrite process_loop_cons in Hrun.
  destruct (process_file_sequentially_spec json_loads py_repr (env g) g
              (processed_files acc) s) as (r1 & e1 & H1 & Hspec).
  pose proof H1 as Hstep. unfold steps in Hstep. rewrite Hstep in Hrun.
  destruct r1 as [[x g']|e]; [| done].
  assert (Hhead : g ∉ processed_files acc -> attempted (env g) g e1).
  { intros Hg.
    destruct (process_file_sequentially_attempted (env g) g (processed_files acc) s
                _ _ Hg Hstep) as (evs & Hlog & Hatt).
    cbn [log] in Hlog. apply app_inv_head in Hlog. by subst evs. }
  assert (Hrest : forall acc' s2 ck,
            log s2 = (log s ++ e1) ++ ck ->
            (forall f, f <> g -> f ∉ processed_files acc -> f ∉ processed_files acc') ->
            process_loop env rest acc' s2 = (Ok stats, s') ->
            exists evs,
              log s' = log s ++ evs
              /\ forall f, f ∈ g :: rest -> f ∉ processed_files acc ->
                           attempted (env f) f evs).
  { intros acc' s2 ck Hs2 Hacc Hloop.
    destruct (IH _ _ Hloop) as (evs & Hlog & Hatt). rewrite Hs2 in Hlog.
    exists (e1 ++ ck ++ evs). split; [by rewrite Hlog, <- !app_assoc |].
    intros f Hf Hnot. destruct (decide (f = g)) as [-> | Hne].
    - apply (attempted_app _ _ [] e1 (ck ++ evs)). by apply Hhead.
    - apply elem_of_cons in Hf as [-> | Hf]; [done |].
      rewrite app_assoc, <- (app_nil_r evs). apply (attempted_app _ _ (e1 ++ ck) evs []).
      apply Hatt; [done |]. by apply Hacc. }
  cbn [st file_name] in Hrun. destruct x.
  - destruct Hspec as (-> & _).
    pose proof (steps_save_checkpoint (processed_files acc ++ [g])
                  (save_checkpoint_io (env g))
                  (State (world_after (cur s) e1) (log s ++ e1))) as Hck.
    unfold steps in Hck. rewrite Hck in Hrun. cbn [cur log] in Hrun.
    apply (Hrest _ _ (checkpoint_events (processed_files acc ++ [g])
                        (save_checkpoint_io (env g)))) in Hrun; [done | done |].
    intros f Hne Hnot. cbn [processed_files].
    intros [Hf | Hf%list_elem_of_singleton]%elem_of_app; done.
  - apply (Hrest _ _ []) in Hrun; [done | by rewrite app_nil_r | done].
  - apply (Hrest _ _ []) in Hrun; [done | by rewrite app_nil_r | done].
Qed.

(** C10.  An item whose processing ends as Errored is not appended to the
    checkpoint list and is not in the checkpoint file the run leaves
    behind; hence a later run started from that world does not report it
    as Skipped: when the item is in its work list, the later run attempts
    it again (it loads the page and sends the first request for it, or,
    when the page does not load, logs the failure for it), and the item
    ends as Processed or as Errored. *)
Theorem errored_item_is_retried env1 dir1 a1 b1 lim1 t1 w0 stats1 f :
  (run env1 dir1 a1 b1 lim1 t1 w0).1 = Ok stats1 ->
  FileResult Errored f ∈ results stats1 ->
  let w1 := cur (run env1 dir1 a1 b1 lim1 t1 w0).2 in
  (f ∉ processed_files stats1) /\
  (f ∉ checkpoint_ids w1) /\
  forall env2 dir2 a2 b2 lim2 t2 stats2,
    (run env2 dir2 a2 b2 lim2 t2 w1).1 = Ok stats2 ->
    (FileResult Skipped f ∉ results stats2) /\
    (f ∈ select_files (sorted_names dir2) a2 b2 lim2 t2 ->
     attempted (env2 f) f (log (run env2 dir2 a2 b2 lim2 t2 w1).2)
     /\ (FileResult Processed f ∈ results stats2 \/ FileResult Errored f ∈ results stats2)).
Proof.
  intros Hrun Herr w1. subst w1.
  destruct (run_spec json_loads py_repr env1 dir1 a1 b1 lim1 t1 w0)
    as (r & evs & Hr & Hl).
  rewrite Hr in *. simpl in Hrun. subst r. cbn [snd cur].
  destruct (loop_spec_results _ _ _ _ _ Hl stats1 eq_refl)
    as (new & H1 & H2 & H3 & H4 & H5 & H6).
  cbn [results processed_files] in *. rewrite app_nil_l in H1. subst new.
  assert (Hnd : NoDup (file_name <$> results stats1)).
  { rewrite H2. apply NoDup_select_files, NoDup_sorted_names. }
  assert (Hnot : f ∉ processed_files stats1).
  { rewrite H3. intros [Hin | Hin]%elem_of_app; [by apply H6 in Herr |].
    apply list_elem_of_fmap in Hin as ([x g] & Hg & [Hx Hy]%list_elem_of_filter).
    simpl in *. subst x g.
    by pose proof (results_functional _ _ _ _ Hnd Herr Hy). }
  assert (Hids : f ∉ checkpoint_ids (world_after w0 evs)).
  { intros Hin. apply Hnot.
    by apply (loop_spec_ids _ _ _ _ _ Hl stats1 w0 eq_refl). }
  split_and!; [done.. |].
  intros env2 dir2 a2 b2 lim2 t2 stats2 Hrun2.
  assert (Hagain : f ∈ select_files (sorted_names dir2) a2 b2 lim2 t2 ->
            attempted (env2 f) f
              (log (run env2 dir2 a2 b2 lim2 t2 (world_after w0 evs)).2)).
  { intros Hf. rewrite (run_unfold json_loads py_repr) in Hrun2 |- *.
    destruct (process_loop env2 (select_files (sorted_names dir2) a2 b2 lim2 t2)
                (RunStats (checkpoint_ids (world_after w0 evs)) 0 0 0 [])
                (State (world_after w0 evs) [])) as [r2 s2] eqn:Hloop.
    cbn [fst snd] in *. subst r2.
    destruct (process_loop_attempted _ _ _ _ _ _ Hloop) as (evs2 & Hlog & Hatt).
    cbn [log app] in Hlog. rewrite Hlog. by apply Hatt. }
  destruct (run_spec json_loads py_repr env2 dir2 a2 b2 lim2 t2 (world_after w0 evs))
    as (r2 & evs2 & Hr2 & Hl2).
  rewrite Hr2 in Hrun2. simpl in Hrun2. subst r2.
  destruct (loop_spec_results _ _ _ _ _ Hl2 stats2 eq_refl)
    as (new & G1 & G2 & G3 & G4 & G5 & G6).
  cbn [results processed_files] in *. rewrite app_nil_l in G1. subst new.
  assert (Hnd2 : NoDup (file_name <$> results stats2)).
  { rewrite G2. apply NoDup_select_files, NoDup_sorted_names. }
  assert (Hskip : FileResult Skipped f ∉ results stats2).
  { intros Hs. destruct (G4 f Hs) as [? | Hp]; [done |].
    by pose proof (results_functional _ _ _ _ Hnd2 Hs Hp). }
  split; [done |].
  intros Hf. split; [by apply Hagain |].
  rewrite <- G2 in Hf. apply list_elem_of_fmap in Hf as ([x g] & Hg & Hx).
  simpl in Hg. subst g.
  destruct x; [by left | done | by right].
Qed.

End SequentialRetryLater.

(** ** More examples *)

Section MoreExamples.

Import Scenario.

Local Open Scope string_scope.

Local Abbreviation srun := (Sequential.run loads repr).
Local Abbreviation the_question := (Sequential.load_html_file "cr_1.html" a_page).

(** The witness of C10: the service is down in the first run and answers
    in the later one. *)
Lemma errored_item_is_retried_witness :
  ("cr_1.html"
   ∉ Sequential.checkpoint_ids
       (cur (srun (fun _ => down) two_pages None None None false fresh).2))
  /\ (EvRequest "1" 0
      ∈ log (srun (fun _ => answering) two_pages None None None false
               (cur (srun (fun _ => down) two_pages None None None false fresh).2)).2).
Proof.
  assert (Hrun : (srun (fun _ => down) two_pages None None None false fresh).1
                 = Ok (Sequential.RunStats [] 0 0 2
                         [FileResult Errored "cr_1.html"; FileResult Errored "cr_2.html"]))
    by (vm_compute; reflexivity).
  assert (Hin : FileResult Errored "cr_1.html"
                ∈ [FileResult Errored "cr_1.html"; FileResult Errored "cr_2.html"])
    by apply list_elem_of_here.
  assert (Hrun2 : (srun (fun _ => answering) two_pages None None None false
                     (cur (srun (fun _ => down) two_pages None None None false fresh).2)).1
                  = Ok (Sequential.RunStats ["cr_1.html"; "cr_2.html"] 2 0 0
                          [FileResult Processed "cr_1.html";
                           FileResult Processed "cr_2.html"]))
    by (vm_compute; reflexivity).
  assert (Hfiles : "cr_1.html"
                   ∈ Sequential.select_files (sorted_names two_pages)
                       None None None false).
  { apply (bool_decide_unpack _). vm_compute. exact I. }
  destruct (errored_item_is_retried loads repr (fun _ => down) two_pages
              None None None false fresh _ "cr_1.html" Hrun Hin) as (_ & Hids & Hlater).
  split; [exact Hids |].
  exact (proj1 (proj2 (Hlater (fun _ => answering) two_pages None None None false _ Hrun2)
                  Hfiles)).
Defined.

(** The witness of X1: three failed requests, then an answer. *)
Lemma first_answer_wins_witness :
  Sequential.generate_response loads (Sequential.service flaky) the_question 0
    (State fresh [])
  = (Ok (Sequential.manually_extract_components plain_answer the_question),
     State fresh ([] ++ Sequential.requests_from the_question 0 4)).
Proof.
  apply (first_answer_wins loads (Sequential.service flaky) the_question 3 plain_answer
           (Sequential.manually_extract_components plain_answer the_question)
           (State fresh [])).
  - unfold Sequential.MAX_RETRIES. lia.
  - intros j Hj. destruct j as [|[|[|j]]]; [exact I .. | lia].
  - reflexivity.
  - reflexivity.
Defined.

(** The witness of X3: every answer breaks the parser. *)
Lemma broken_answers_are_retried_witness :
  (Sequential.process_file_sequentially breaking_loads repr answering_object
     "cr_1.html" [] (State fresh [])).1
  = Ok (FileResult Errored "cr_1.html").
Proof.
  assert (Hfails : forall j : nat,
            Sequential.attempt_fails breaking_loads (Sequential.service answering_object)
              the_question j).
  { intros j. exists (OtherError "maximum recursion depth exceeded"). reflexivity. }
  rewrite (broken_answers_are_retried breaking_loads repr answering_object "cr_1.html" []
             (State fresh []) a_page object_text
             (OtherError "maximum recursion depth exceeded")
             (not_elem_of_nil _) eq_refl (fun j _ => Hfails j) eq_refl eq_refl eq_refl).
  reflexivity.
Defined.

(** The witness of X4: a page that cannot be read, and a request that
    ends with another exception after one failed request. *)
Lemma other_exceptions_are_not_retried_witness :
  (Sequential.process_file_sequentially loads repr unreadable "cr_1.html" []
     (State fresh [])).1
  = Ok (FileResult Errored "cr_1.html")
  /\ filter is_request
       (log (Sequential.process_file_sequentially loads repr breaking_service
               "cr_1.html" [] (State fresh [])).2)
     = [EvRequest "1" 0; EvRequest "1" 1].
Proof.
  split.
  - rewrite (proj1 (other_exceptions_are_not_retried loads repr unreadable "cr_1.html" []
                      (State fresh []) (not_elem_of_nil _) eq_refl)
               (FileNotFoundError "No such file or directory") eq_refl).
    reflexivity.
  - assert (Hfails : forall j : nat, (j < 1)%nat ->
              Sequential.attempt_fails loads (Sequential.service breaking_service)
                the_question j).
    { intros j Hj. destruct j as [|j]; [exact I | lia]. }
    rewrite (proj2 (other_exceptions_are_not_retried loads repr breaking_service
                      "cr_1.html" [] (State fresh []) (not_elem_of_nil _) eq_refl)
               a_page 1%nat "Expecting value" eq_refl
               ltac:(unfold Sequential.MAX_RETRIES; lia) Hfails eq_refl).
    vm_compute. reflexivity.
Defined.

(** The witness of X6: two pages and a service that answers. *)
Lemma run_accounting_witness :
  match (srun (fun _ => answering) two_pages None None None false fresh).1 with
  | Ok stats =>
      file_name <$> Sequential.results stats = ["cr_1.html"; "cr_2.html"]
      /\ (Sequential.num_processed stats + Sequential.num_skipped stats
          + Sequential.num_errors stats)%nat = 2%nat
  | Raise _ => False
  end.
Proof.
  destruct (srun (fun _ => answering) two_pages None None None false fresh).1
    as [stats|e] eqn:H.
  - destruct (run_accounting loads repr (fun _ => answering) two_pages None None None
                false fresh stats H) as (H1 & _ & _ & _ & H5 & _).
    split; [exact H1 | exact H5].
  - vm_compute in H. discriminate H.
Defined.

(** The witness of X8: the run on two pages is repeated while the service
    is down. *)
Lemma repeated_run_is_idle_witness :
  let r1 := srun (fun _ => answering) two_pages None None None false fresh in
  match r1.1 with
  | Ok stats1 =>
      srun (fun _ => down) two_pages None None None false (cur r1.2)
      = (Ok (Sequential.RunStats (Sequential.processed_files stats1) 0
               (length (Sequential.select_files (sorted_names two_pages)
                          None None None false))
               0
               (FileResult Skipped
                  <$> Sequential.select_files (sorted_names two_pages)
                        None None None false)),
         State (cur r1.2) [])
  | Raise _ => False
  end.
Proof.
  intros r1. subst r1.
  destruct (srun (fun _ => answering) two_pages None None None false fresh).1
    as [stats1|e] eqn:H.
  - apply (repeated_run_is_idle loads repr (fun _ => answering) (fun _ => down) two_pages
             None None None false fresh stats1 H).
    + vm_compute in H. injection H as <-. reflexivity.
    + intros f _. reflexivity.
  - vm_compute in H. discriminate H.
Defined.

(** The witness of X9: a file of the output directory that is the output
    of no page. *)
Lemma run_touches_its_outputs_only_witness :
  let w1 := cur (srun (fun _ => answering) two_pages None None None false fresh).2 in
  outputs w1 !! "notes.json" = outputs fresh !! "notes.json"
  /\ error_log fresh `prefix_of` error_log w1.
Proof.
  apply (run_touches_its_outputs_only loads repr (fun _ => answering) two_pages
           None None None false fresh "notes.json").
  intros f Hf _.
  assert (Hfiles : Sequential.select_files (sorted_names two_pages) None None None false
                   = ["cr_1.html"; "cr_2.html"]) by (vm_compute; reflexivity).
  rewrite Hfiles in Hf.
  apply elem_of_cons in Hf as [-> | Hf]; [vm_compute; discriminate |].
  apply elem_of_cons in Hf as [-> | Hf]; [vm_compute; discriminate |].
  by apply elem_of_nil in Hf.
Defined.

(** The witness of X11: the argument in a text that is not valid JSON. *)
Lemma field_is_recovered_witness :
  Sequential.marked_value
    ("{" +:+ Py.quoted "argument" +:+ ": " +:+ Py.quoted "Sales fell" +:+ "," +:+ "}")
    (Py.quoted "argument")
  = Some "Sales fell".
Proof.
  apply (field_is_recovered "{" "argument" "Sales fell" "}" the_question);
    vm_compute; reflexivity.
Defined.

(** The witness of X12: the pages of the directory of two pages. *)
Lemma names_of_a_page_witness :
  question_number (Sequential.load_html_file ("cr_" +:+ "1" +:+ ".html") a_page) = "1"
  /\ Sequential.output_name ("cr_" +:+ "1" +:+ ".html")
     = "processed_cr_" +:+ "1" +:+ ".json"
  /\ Sequential.distinct_outputs ["cr_1.html"; "cr_2.html"].
Proof.
  apply (names_of_a_page "1" a_page ["cr_1.html"; "cr_2.html"]); [reflexivity .. |].
  repeat constructor.
  - exists "cr_1". split; reflexivity.
  - exists "cr_2". split; reflexivity.
Defined.

(** The witness of X13. *)
Lemma names_of_an_exam_page_witness :
  ExamPacks.output_of ("question_" +:+ "12" +:+ ".html") = "processed_12.json".
Proof.
  destruct (names_of_an_exam_page "12" a_page ∅ eq_refl eq_refl) as (_ & H2 & H3 & _).
  rewrite H3, H2. reflexivity.
Defined.

(** The witness of X14: an answer with the five entries. *)
Lemma structured_answer_is_completed_witness :
  exists p,
    Sequential.parse_response loads_full object_text the_question = Ok p
    /\ p !! "question_type" = Some (JStr "Critical Reasoning")
    /\ p !! "argument" = Some (JStr "Sales fell although prices were cut.").
Proof.
  assert (Hkeys : Forall (fun k => is_Some (full_answer !! k))
                    ["argument"; "question_stem"; "options"; "correct_answer";
                     "explanation"]).
  { repeat constructor; by eexists. }
  destruct (structured_answer_is_completed loads_full object_text object_text full_answer
              the_question eq_refl eq_refl Hkeys) as (p & H1 & H2 & _ & _ & _ & _ & H7).
  exists p. split_and!; [exact H1 | exact H2 |].
  rewrite H7; [reflexivity |].
  intros H. repeat (apply elem_of_cons in H as [H | H]; [discriminate H |]).
  by apply elem_of_nil in H.
Defined.

(** The witness of X15: the service answers with the text of the small
    object, which is parsed to an answer with an error entry. *)
Lemma answer_with_error_entry_witness :
  (Sequential.process_file_sequentially loads_refused repr answering_object
     "cr_1.html" [] (State fresh [])).1
  = Ok (FileResult Errored "cr_1.html").
Proof.
  assert (Hkeys : Forall (fun k => is_Some (refused_answer !! k))
                    ["argument"; "question_stem"; "options"; "correct_answer";
                     "explanation"]).
  { repeat constructor; by eexists. }
  rewrite (answer_with_error_entry loads_refused repr answering_object "cr_1.html" []
             (State fresh []) a_page object_text object_text refused_answer
             (JStr "model refused") (not_elem_of_nil _) eq_refl eq_refl eq_refl eq_refl
             Hkeys eq_refl eq_refl).
  reflexivity.
Defined.


(** The witness of X17: the service is down. *)
Lemma failed_analysis_is_checkpointed_witness :
  (ExamPacks.process_file loads no_extraction down_exam "question_7.html"
     (ExamPacks.LoopState [] []) (State fresh [])).1
  = Ok (ExamPacks.LoopState ["question_7.html"]
          [ExamPacks.combined_result
             (ExamPacks.load_html_file "question_7.html" a_page)
             {[ "error" := JStr "API request failed after 3 retries: connection refused" ]}]).
Proof.
  destruct (failed_analysis_is_checkpointed loads no_extraction down_exam "question_7.html"
              (ExamPacks.LoopState [] []) (State fresh []) a_page
              "connection refused" "connection refused" "connection refused"
              "connection refused" eq_refl eq_refl eq_refl eq_refl eq_refl eq_refl eq_refl
              eq_refl eq_refl eq_refl eq_refl) as [H _].
  unfold steps in H. rewrite H. reflexivity.
Defined.

(** The witness of X18: the service is down and the error log cannot be
    written before the retry. *)
Lemma unlogged_failure_is_not_retried_witness :
  filter is_request
    (log (ExamPacks.process_file loads no_extraction down_exam_unlogged "question_7.html"
            (ExamPacks.LoopState [] []) (State fresh [])).2)
  = [EvRequest "7" 0].
Proof.
  pose proof (proj1 (unlogged_failure_is_not_retried loads no_extraction
                       (fun _ => down_exam_unlogged) "question_7.html" []
                       (ExamPacks.LoopState [] []) (State fresh []) a_page
                       "connection refused" eq_refl eq_refl eq_refl) eq_refl) as H.
  unfold steps in H. rewrite H. vm_compute. reflexivity.
Defined.

(** The witness of X19: a batch of two pages while the service is down. *)
Lemma exam_failures_are_isolated_witness :
  exists ls' saved,
    (ExamPacks.process_batch loads no_extraction (fun _ => down_exam_unlogged)
       ["question_7.html"; "question_8.html"] (ExamPacks.LoopState [] [])
       (State fresh [])).1 = Ok ls'
    /\ ExamPacks.ls_processed_files ls' = ([] ++ saved)%list
    /\ saved `sublist_of` ["question_7.html"; "question_8.html"]
    /\ length (ExamPacks.ls_batch_results ls') = (0 + length saved)%nat.
Proof.
  apply (exam_failures_are_isolated loads no_extraction (fun _ => down_exam_unlogged)
           ["question_7.html"; "question_8.html"] (ExamPacks.LoopState [] [])
           (State fresh [])).
  intros f _. reflexivity.
Defined.

(** The witness of X21: a result that is fixed from its partial answer. *)
Lemma fixed_result_is_valid_witness :
  match CombineResults.fix_result (JObj error_result) with
  | Ok (Some fixed) =>
      CombineResults.is_valid_result (JObj fixed) = Ok true
      /\ CombineResults.is_valid_result (JObj error_result) = Ok false
      /\ fixed !! "metadata" = None
  | _ => False
  end.
Proof.
  assert (Hfixed : match CombineResults.fix_result (JObj error_result) with
                   | Ok (Some _) => true
                   | _ => false
                   end = true) by (vm_compute; reflexivity).
  destruct (CombineResults.fix_result (JObj error_result)) as [[fixed|]|e] eqn:H;
    [| discriminate Hfixed ..].
  destruct (fixed_result_is_valid (JObj error_result) fixed H) as (H1 & H2 & _ & _ & H5).
  split_and!; [exact H1 | exact H2 |].
  apply eq_None_not_Some. intros Hm. apply H5 in Hm.
  repeat (apply elem_of_cons in Hm as [Hm | Hm]; [discriminate Hm |]).
  by apply elem_of_nil in Hm.
Defined.

(** The witness of X24: a valid result and a result that is fixed. *)
Lemma combined_results_are_valid_witness :
  match CombineResults.process_results repr (fun _ => IoOk)
          [CombineResults.FileHolds (JObj valid_result);
           CombineResults.FileHolds (JObj error_result)] (State fresh []) with
  | (Ok rs, s') =>
      Forall (fun r => CombineResults.is_valid_result r = Ok true) rs
      /\ (length rs <= 2)%nat
  | (Raise _, _) => False
  end.
Proof.
  assert (Hends : match CombineResults.process_results repr (fun _ => IoOk)
                          [CombineResults.FileHolds (JObj valid_result);
                           CombineResults.FileHolds (JObj error_result)]
                          (State fresh []) with
                  | (Ok _, _) => true
                  | (Raise _, _) => false
                  end = true) by (vm_compute; reflexivity).
  destruct (CombineResults.process_results repr (fun _ => IoOk)
              [CombineResults.FileHolds (JObj valid_result);
               CombineResults.FileHolds (JObj error_result)] (State fresh []))
    as [[rs|e] s'] eqn:H; [| discriminate Hends].
  destruct (combined_results_are_valid repr (fun _ => IoOk) _ _ rs s' H)
    as (pre & _ & H2 & H3).
  split; [| exact H3]. eapply Forall_impl; [exact H2 |]. by intros r [Hr _].
Defined.

(** The witness of X25: one of the files holds a number. *)
Lemma unusable_file_ends_combination_witness :
  exists e pre,
    (CombineResults.process_results repr (fun _ => IoOk)
       [CombineResults.FileHolds (JObj valid_result); CombineResults.FileHolds (JNum 5)]
       (State fresh [])).1 = Raise e
    /\ log (CombineResults.process_results repr (fun _ => IoOk)
              [CombineResults.FileHolds (JObj valid_result);
               CombineResults.FileHolds (JNum 5)]
              (State fresh [])).2 = ([] ++ pre)%list
    /\ forall c, EvOutputDump CombineResults.all_questions_name c ∉ pre.
Proof.
  apply (unusable_file_ends_combination repr (fun _ => IoOk)
           [CombineResults.FileHolds (JObj valid_result); CombineResults.FileHolds (JNum 5)]
           (State fresh []) (CombineResults.FileHolds (JNum 5))).
  - repeat constructor.
  - split; [reflexivity | discriminate].
Defined.

(** The witness of X26: a file that has disappeared. *)
Lemma left_out_file_changes_nothing_witness :
  CombineResults.process_results repr (fun _ => IoOk)
    ([CombineResults.FileHolds (JObj valid_result)]
     ++ CombineResults.FileMissing :: [CombineResults.FileHolds (JObj error_result)])%list
    (State fresh [])
  = CombineResults.process_results repr (fun _ => IoOk)
      ([CombineResults.FileHolds (JObj valid_result)]
       ++ [CombineResults.FileHolds (JObj error_result)])%list
      (State fresh []).
Proof.
  apply (left_out_file_changes_nothing repr (fun _ => IoOk)
           [CombineResults.FileHolds (JObj valid_result)] CombineResults.FileMissing
           [CombineResults.FileHolds (JObj error_result)] (State fresh [])).
  apply CombineResults.left_out_missing.
Defined.

(** The witness of X22: the partial answer names its entries prompt, answer
    and reasoning. *)
Lemma fixed_from_partial_answer_witness :
  exists fa,
    CombineResults.fix_result (JObj error_result)
    = Ok (Some (CombineResults.fixed_result (JStr "7") (JStr "https://example.org/q") fa))
    /\ fa !! "question" = Some (JStr "Which of the following is assumed?")
    /\ fa !! "correct_answer" = Some (JStr "B")
    /\ fa !! "explanation" = Some (JStr "The argument assumes it.").
Proof.
  apply (fixed_from_partial_answer error_result error_analysis partial_answer);
    try reflexivity.
  - by eexists.
  - intros raw H. exists "A: Demand is elastic.". vm_compute in H. by injection H as <-.
Defined.

(** The witness of X23. *)
Lemma fix_result_does_not_fail_witness :
  exists r, CombineResults.fix_result (JObj error_result) = Ok r.
Proof.
  apply (fix_result_does_not_fail error_result).
  - by eexists.
  - by eexists.
  - intros analysis raw Ha Hr. vm_compute in Ha. injection Ha as <-.
    exists "A: Demand is elastic.". vm_compute in Hr. by injection Hr as <-.
Defined.

(** The witness of X27: the aggregate holds the questions 1 and 2, and the
    run has a result for the question 2. *)
Lemma aggregate_is_updated_witness :
  steps (ExamPacks.save_all_results [old_entry "2"] IoOk) (State with_aggregate [])
    (Ok tt)
    [EvOutputOpen ExamPacks.all_results_name;
     EvOutputDump ExamPacks.all_results_name (JArr [old_entry "2"; old_entry "1"])].
Proof.
  assert (H : Forall ExamPacks.plain_entry [old_entry "1"; old_entry "2"]).
  { repeat constructor. }
  exact (aggregate_is_updated [old_entry "2"] [old_entry "1"; old_entry "2"]
           (State with_aggregate []) (conj eq_refl H)).
Defined.

(** The witness of X29. *)
Lemma odd_aggregate_stops_the_update_witness :
  exists e,
    ExamPacks.save_all_results [old_entry "2"] IoOk (State with_odd_aggregate [])
    = (Raise e, State with_odd_aggregate []).
Proof.
  apply (odd_aggregate_stops_the_update [old_entry "2"] IoOk [JStr "note"]
           (State with_odd_aggregate []) eq_refl).
  apply Exists_cons_hd. intros H. exact H.
Defined.

(** The witness of X28: two batches of one result each. *)
Lemma aggregate_updates_add_up_witness :
  steps (ExamPacks.save_all_results [old_entry "2"] IoOk ;;;
         ExamPacks.save_all_results ([old_entry "2"] ++ [old_entry "3"])%list IoOk)
    (State with_aggregate []) (Ok tt)
    [EvOutputOpen ExamPacks.all_results_name;
     EvOutputDump ExamPacks.all_results_name (JArr [old_entry "2"; old_entry "1"]);
     EvOutputOpen ExamPacks.all_results_name;
     EvOutputDump ExamPacks.all_results_name
       (JArr [old_entry "2"; old_entry "3"; old_entry "1"])].
Proof.
  assert (H : Forall ExamPacks.plain_entry [old_entry "1"; old_entry "2"]).
  { repeat constructor. }
  assert (Hn : Forall ExamPacks.numbered [old_entry "2"]).
  { repeat constructor. by eexists _, _. }
  exact (aggregate_updates_add_up [old_entry "2"] [old_entry "3"]
           [old_entry "1"; old_entry "2"] (State with_aggregate []) (conj eq_refl H) Hn).
Defined.

End MoreExamples.
